(** * The retained-tree reconciliation engine of runtime-core/src/renderer.ts

    A shallow embedding of the patch dispatcher, the element fast path,
    the keyed children diff and [getSequence], together with the
    properties the specification states about them. *)

From Stdlib Require Import ZArith Lia String.
From stdpp Require Import base list sorting gmap strings.

Set Default Proof Using "Type".
Local Open Scope nat_scope.

(** ** Arrays of numbers

    A JavaScript array of small non-negative integers is a [list nat].
    Reading is total in the embedding: [rd l i] is [l[i]], and stands for
    0 where JavaScript would produce [undefined]; the lemmas below show
    that [getSequence] never stores such a value. *)

Definition rd (l : list nat) (i : nat) : nat := default 0 (l !! i).

(** ** getSequence (renderer.ts, 2762-2801) *)

Module Sequence.

(** The inner [while (u < v)] loop: a binary search in [result] for the
    first slot whose entry of [arr] is not below [arrI].  The counter
    bounds the number of iterations; [v - u] iterations always suffice
    ([bsearch_fuel]). *)
Fixpoint bsearch (fuel : nat) (arr result : list nat) (arrI u v : nat) : nat :=
  if u <? v then
    match fuel with
    | 0 => u
    | S fuel' =>
        let c := Nat.shiftr (u + v) 1 in
        if rd arr (rd result c) <? arrI
        then bsearch fuel' arr result arrI (c + 1) v
        else bsearch fuel' arr result arrI u c
    end
  else u.

(** One iteration of the [for] loop over [i], on the pair [(p, result)]. *)
Definition step (arr : list nat) (st : list nat * list nat) (i : nat)
  : list nat * list nat :=
  let '(p, result) := st in
  let arrI := rd arr i in
  if arrI =? 0 then (p, result)
  else
    let j := rd result (length result - 1) in
    if rd arr j <? arrI then (<[i:=j]> p, result ++ [i])
    else
      let u := bsearch (length result) arr result arrI 0 (length result - 1) in
      if arrI <? rd arr (rd result u)
      then ((if 0 <? u then <[i:=rd result (u - 1)]> p else p), <[u:=i]> result)
      else (p, result).

(** The final [while (u-- > 0)] loop, which overwrites [result] from the
    back by following the predecessor links in [p]. *)
Fixpoint backtrack (u v : nat) (p result : list nat) : list nat :=
  match u with
  | 0 => result
  | S u' => backtrack u' (rd p v) p (<[u':=v]> result)
  end.

Definition getSequence (arr : list nat) : list nat :=
  let '(p, result) := foldl (step arr) (arr, [0]) (seq 0 (length arr)) in
  backtrack (length result) (rd result (length result - 1)) p result.

(** *** What the result is measured against

    [IncSubseq arr s]: [s] is a list of positions of [arr], strictly
    increasing, that select non-zero entries whose values are strictly
    increasing.  [LongestIncSubseq arr s]: no such list is longer. *)

Definition inc_step (arr : list nat) (x y : nat) : Prop :=
  x < y ∧ rd arr x < rd arr y.

Definition IncSubseq (arr s : list nat) : Prop :=
  Sorted (inc_step arr) s ∧ Forall (λ x, x < length arr ∧ rd arr x ≠ 0) s.

Definition LongestIncSubseq (arr s : list nat) : Prop :=
  IncSubseq arr s ∧ ∀ s', IncSubseq arr s' → length s' ≤ length s.

(** What the loop really maintains: position 0 is the seed of [result]
    whatever [arr[0]] is, so it counts as selectable even when its entry
    is zero.  On an array whose first entry is not zero this is
    [IncSubseq]. *)
Definition eligible (arr : list nat) (x : nat) : Prop := x = 0 ∨ rd arr x ≠ 0.

Definition SeedIncSubseq (arr s : list nat) : Prop :=
  Sorted (inc_step arr) s ∧ Forall (λ x, x < length arr ∧ eligible arr x) s.

(** The same notion read from the back, as the loop invariant needs it:
    [desc arr bound l] holds when [l] lists eligible positions below
    [bound] in strictly decreasing order with strictly decreasing
    values. *)
Fixpoint desc (arr : list nat) (bound : nat) (l : list nat) : Prop :=
  match l with
  | [] => True
  | x :: l' =>
      x < bound ∧ eligible arr x ∧
      match l' with [] => True | y :: _ => rd arr y < rd arr x end ∧
      desc arr x l'
  end.

(** [rchain p v n]: the [n] positions reached from [v] along the
    predecessor links [p], last position first. *)
Fixpoint rchain (p : list nat) (v n : nat) : list nat :=
  match n with
  | 0 => []
  | S n' => v :: rchain p (rd p v) n'
  end.

(** The invariant of the [for] loop once the first [i] entries have been
    read ([1 ≤ i]): every slot [k] of [result] ends a chain of [k + 1]
    positions through [p], the values selected by [result] increase, and
    a chain of [n] positions among the first [i] cannot end on a value
    below the one that slot [n - 1] selects. *)
Record seq_inv (arr : list nat) (i : nat) (p result : list nat) : Prop := {
  inv_len : length p = length arr;
  inv_ne : 0 < length result;
  inv_chain : ∀ k, k < length result →
      desc arr i (rchain p (rd result k) (S k));
  inv_sorted : ∀ k k', k < k' → k' < length result →
      rd arr (rd result k) < rd arr (rd result k');
  inv_opt : ∀ x l, desc arr i (x :: l) →
      length l < length result ∧ rd arr (rd result (length l)) ≤ rd arr x
}.

End Sequence.

Export Sequence.

(** ** Data model (spec §3)

    Virtual nodes are objects that the renderer mutates in place ([el],
    [anchor], [dynamicChildren]) and compares by reference, so they live
    in an arena and are passed around as indices into it.  Host nodes
    are handles into a second arena, the host tree. *)

Abbreviation Handle := nat.
Abbreviation vref := nat.

Inductive Key := KStr (s : string) | KNum (z : Z) | KSym (n : nat).

(** Prop values; [VObj] stands for any object or function and is compared
    by identity, as [===] does. *)
Inductive Value :=
  | VUndef | VNull | VStr (s : string) | VNum (z : Z) | VBool (b : bool)
  | VObj (id : nat).

(** [vnode.type]: the four built-in symbols, a tag name, or an object
    (component options, Teleport, Suspense). *)
Inductive VType := Text | Comment | Static | Fragment | Tag (name : string) | Obj (id : nat).

(** [vnode.children]; an array carries its identity for [!==]. *)
Inductive Children := CNull | CText (s : string) | CArr (id : nat) (items : list vref).

Record Props := mkProps { pid : nat; entries : list (string * Value) }.

Record Transition := mkTransition {
  persisted : bool; delayLeave : bool; afterLeave : bool }.

Module VN.
Record t := mk {
  type : VType;
  key : option Key;
  ref : option nat;
  props : option Props;
  children : Children;
  patchFlag : Z;
  shapeFlag : Z;
  dynamicProps : option (list string);
  dynamicChildren : option (list vref);
  dirs : bool;
  transition : option Transition;
  scopeId : option string;
  el : option Handle;
  anchor : option Handle
}.

Definition with_el (x : option Handle) (v : t) : t :=
  mk (type v) (key v) (ref v) (props v) (children v) (patchFlag v) (shapeFlag v)
     (dynamicProps v) (dynamicChildren v) (dirs v) (transition v) (scopeId v)
     x (anchor v).
Definition with_anchor (x : option Handle) (v : t) : t :=
  mk (type v) (key v) (ref v) (props v) (children v) (patchFlag v) (shapeFlag v)
     (dynamicProps v) (dynamicChildren v) (dirs v) (transition v) (scopeId v)
     (el v) x.
Definition with_dynamicChildren (x : option (list vref)) (v : t) : t :=
  mk (type v) (key v) (ref v) (props v) (children v) (patchFlag v) (shapeFlag v)
     (dynamicProps v) x (dirs v) (transition v) (scopeId v) (el v) (anchor v).
Definition with_children (x : Children) (v : t) : t :=
  mk (type v) (key v) (ref v) (props v) x (patchFlag v) (shapeFlag v)
     (dynamicProps v) (dynamicChildren v) (dirs v) (transition v) (scopeId v)
     (el v) (anchor v).
End VN.

Abbreviation VNode := VN.t.

Global Instance Key_eq_dec : EqDecision Key.
Proof. solve_decision. Defined.
Global Instance Value_eq_dec : EqDecision Value.
Proof. solve_decision. Defined.
Global Instance VType_eq_dec : EqDecision VType.
Proof. solve_decision. Defined.

Global Instance Key_countable : Countable Key.
Proof.
  refine (inj_countable'
    (λ k, match k with KStr s => inl s | KNum z => inr (inl z) | KSym n => inr (inr n) end)
    (λ x, match x with inl s => KStr s | inr (inl z) => KNum z | inr (inr n) => KSym n end)
    _).
  by intros [].
Defined.

(** Modelled from the spec: the enum [PatchFlags] of [@vue/shared] is
    imported by renderer.ts but declared outside the sources.  Spec §4.1
    lists the flags as a bitset with the negative sentinels HOISTED and
    BAIL, and §6 makes the numbers a fixed protocol; the compiler sources
    print [1 /* TEXT */], [64 /* STABLE_FRAGMENT */],
    [128 /* KEYED_FRAGMENT */] and [-1 /* HOISTED */]. *)
Module PatchFlags.
Local Open Scope Z_scope.
Definition TEXT : Z := 1.
Definition CLASS : Z := 2.
Definition STYLE : Z := 4.
Definition PROPS : Z := 8.
Definition FULL_PROPS : Z := 16.
Definition HYDRATE_EVENTS : Z := 32.
Definition STABLE_FRAGMENT : Z := 64.
Definition KEYED_FRAGMENT : Z := 128.
Definition UNKEYED_FRAGMENT : Z := 256.
Definition NEED_PATCH : Z := 512.
Definition DYNAMIC_SLOTS : Z := 1024.
Definition DEV_ROOT_FRAGMENT : Z := 2048.
Definition HOISTED : Z := -1.
Definition BAIL : Z := -2.
End PatchFlags.

(** Modelled from the spec: the enum [ShapeFlags] of [@vue/shared], also
    declared outside the sources.  It encodes the node discriminator of
    spec §3 (element, component, teleport, suspense) and the kind of
    children (text or ordered list) as bits of [vnode.shapeFlag]. *)
Module ShapeFlags.
Local Open Scope Z_scope.
Definition ELEMENT : Z := 1.
Definition FUNCTIONAL_COMPONENT : Z := 2.
Definition STATEFUL_COMPONENT : Z := 4.
Definition TEXT_CHILDREN : Z := 8.
Definition ARRAY_CHILDREN : Z := 16.
Definition SLOTS_CHILDREN : Z := 32.
Definition TELEPORT : Z := 64.
Definition SUSPENSE : Z := 128.
Definition COMPONENT_SHOULD_KEEP_ALIVE : Z := 256.
Definition COMPONENT_KEPT_ALIVE : Z := 512.
Definition COMPONENT : Z := 6.
End ShapeFlags.

(** [flags & bit] used as a condition. *)
Definition has (flags bit : Z) : bool := negb (Z.land flags bit =? 0)%Z.

Inductive MoveType := ENTER | LEAVE | REORDER.

Global Instance MoveType_eq_dec : EqDecision MoveType.
Proof. solve_decision. Defined.

(** ** The host tree (spec §6, Host Operations)

    Modelled from the spec: the host operations are supplied by the
    platform ([RendererOptions]); the spec describes a DOM-like tree and
    takes the operations as infallible.  A host node records its kind,
    its text, its parent and its ordered children; [insert] first takes
    the node out of the child list it is in, as DOM [insertBefore] does,
    and appends when the anchor is null or is not a child of the
    parent. *)

Inductive HostKind := HElement (tag : string) | HText | HComment.

Record HostNode := mkHost {
  hkind : HostKind;
  htext : string;
  hparent : option Handle;
  hkids : list Handle
}.

Abbreviation Host := (list HostNode).

Definition set_hkids (k : list Handle) (n : HostNode) : HostNode :=
  mkHost (hkind n) (htext n) (hparent n) k.
Definition set_hparent (p : option Handle) (n : HostNode) : HostNode :=
  mkHost (hkind n) (htext n) p (hkids n).
Definition set_htext (t : string) (n : HostNode) : HostNode :=
  mkHost (hkind n) t (hparent n) (hkids n).

Definition kidsOf (h : Host) (n : Handle) : list Handle :=
  from_option hkids [] (h !! n).
Definition parentOf (h : Host) (n : Handle) : option Handle :=
  h !! n ≫= hparent.
Definition textOf (h : Host) (n : Handle) : string :=
  from_option htext EmptyString (h !! n).

Definition without (el : Handle) (l : list Handle) : list Handle :=
  filter (λ x, x ≠ el) l.

Fixpoint insertAt (a el : Handle) (l : list Handle) : list Handle :=
  match l with
  | [] => [el]
  | x :: l' => if decide (x = a) then el :: x :: l' else x :: insertAt a el l'
  end.

Definition insertBefore (anchor : option Handle) (el : Handle) (l : list Handle)
  : list Handle :=
  match anchor with
  | None => l ++ [el]
  | Some a => insertAt a el l
  end.

Fixpoint nextAfter (el : Handle) (l : list Handle) : option Handle :=
  match l with
  | [] => None
  | x :: l' => if decide (x = el) then head l' else nextAfter el l'
  end.

(** Taking a node out of the tree: it leaves the child list that holds
    it and loses its parent. *)
Definition host_detach (h : Host) (el : Handle) : Host :=
  alter (set_hparent None) el ((λ n, set_hkids (without el (hkids n)) n) <$> h).

Definition host_insert (h : Host) (el parent : Handle) (anchor : option Handle) : Host :=
  alter (set_hparent (Some parent)) el
    (alter (λ n, set_hkids (insertBefore anchor el (hkids n)) n) parent
       (host_detach h el)).

Definition host_nextSibling (h : Host) (el : Handle) : option Handle :=
  parentOf h el ≫= λ q, nextAfter el (kidsOf h q).

Definition host_setElementText (h : Host) (el : Handle) (t : string) : Host :=
  alter (λ n, set_htext t (set_hkids [] n)) el
    (foldr (λ k h', alter (set_hparent None) k h') h (kidsOf h el)).

(** ** Renderer state and effects

    Everything the renderer does is a step on [RState]: the arena of
    vnodes, the host tree, and the trace of calls that leave the renderer
    (host operations first of all; warnings, hooks and effects queued for
    after the flush are recorded too, their own behaviour being the
    collaborators' business, spec §1). *)

Inductive Event :=
  | HostInsert (el parent : Handle) (anchor : option Handle)
  | HostRemove (el : Handle)
  | HostCreateElement (tag : string) (h : Handle)
  | HostCreateText (text : string) (h : Handle)
  | HostCreateComment (text : string) (h : Handle)
  | HostSetText (el : Handle) (text : string)
  | HostSetElementText (el : Handle) (text : string)
  | HostPatchProp (el : Handle) (key : string) (prev next : Value)
  | HostSetScopeId (el : Handle) (id : string)
  | Warn (msg : string) (key : option Key)
  | InvokeVNodeHook (hook : string) (n : vref)
  | InvokeDirectiveHook (hook : string) (n : vref)
  | QueuePostRenderEffect (what : string) (n : vref)
  | TransitionHook (hook : string) (n : vref)
  | SetRef (n : vref).

Record RState := mkState {
  vnodes : list VNode;
  host : Host;
  trace : list Event
}.

(** A call either completes with a value and a new state, throws (a
    [TypeError] on a null [el!], say), reaches a collaborator that is
    outside the embedding (components, Teleport, Suspense, static
    content, KeepAlive), or uses up the recursion budget it was given. *)
Inductive Outcome (A : Type) :=
  | Ok (a : A) (s : RState)
  | Threw
  | Beyond
  | Starved.
Arguments Ok {A} a s.
Arguments Threw {A}.
Arguments Beyond {A}.
Arguments Starved {A}.

Definition M (A : Type) : Type := RState → Outcome A.

Definition ret {A} (a : A) : M A := λ s, Ok a s.
Definition bind {A B} (m : M A) (f : A → M B) : M B :=
  λ s, match m s with
       | Ok a s' => f a s'
       | Threw => Threw
       | Beyond => Beyond
       | Starved => Starved
       end.
Definition throw {A} : M A := λ _, Threw.
Definition beyond {A} : M A := λ _, Beyond.
Definition starved {A} : M A := λ _, Starved.

Notation "x <- m ;; k" := (bind m (λ x, k))
  (at level 20, m at level 99, k at level 200, only parsing).
Notation "' p <- m ;; k" := (bind m (λ x, match x with p => k end))
  (at level 20, p pattern, m at level 99, k at level 200, only parsing).
Notation "m ;; k" := (bind m (λ _, k))
  (at level 100, k at level 200, only parsing, right associativity).

Definition when (b : bool) (m : M unit) : M unit := if b then m else ret tt.

(** [x!]: a [null] here makes the next use throw. *)
Definition nonNull {A} (x : option A) : M A :=
  match x with Some a => ret a | None => throw end.

Definition emit (e : Event) : M unit :=
  λ s, Ok tt (mkState (vnodes s) (host s) (trace s ++ [e])).

Definition getVNode (r : vref) : M VNode :=
  λ s, match vnodes s !! r with Some v => Ok v s | None => Threw end.

Definition modVNode (r : vref) (f : VNode → VNode) : M unit :=
  λ s, match vnodes s !! r with
       | Some v => Ok tt (mkState (<[r:=f v]> (vnodes s)) (host s) (trace s))
       | None => Threw
       end.

Definition setEl (r : vref) (x : option Handle) : M unit := modVNode r (VN.with_el x).
Definition setAnchor (r : vref) (x : option Handle) : M unit := modVNode r (VN.with_anchor x).
Definition setDynamicChildren (r : vref) (x : option (list vref)) : M unit :=
  modVNode r (VN.with_dynamicChildren x).
Definition setChildren (r : vref) (x : Children) : M unit := modVNode r (VN.with_children x).

Definition getHost : M Host := λ s, Ok (host s) s.
Definition modHost (f : Host → Host) : M unit :=
  λ s, Ok tt (mkState (vnodes s) (f (host s)) (trace s)).

(** *** Host operations (the destructured [options], renderer.ts 336-349) *)

Definition hostCreate (k : HostKind) (t : string) (e : Handle → Event) : M Handle :=
  h <- getHost;;
  let n := length h in
  modHost (λ h, h ++ [mkHost k t None []]);;
  emit (e n);;
  ret n.

Definition hostCreateElement (tag : string) : M Handle :=
  hostCreate (HElement tag) EmptyString (HostCreateElement tag).
Definition hostCreateText (t : string) : M Handle :=
  hostCreate HText t (HostCreateText t).
Definition hostCreateComment (t : string) : M Handle :=
  hostCreate HComment t (HostCreateComment t).

Definition hostInsert (el parent : Handle) (anchor : option Handle) : M unit :=
  modHost (λ h, host_insert h el parent anchor);;
  emit (HostInsert el parent anchor).

Definition hostRemove (el : Handle) : M unit :=
  modHost (λ h, host_detach h el);;
  emit (HostRemove el).

Definition hostSetText (el : Handle) (t : string) : M unit :=
  modHost (alter (set_htext t) el);;
  emit (HostSetText el t).

Definition hostSetElementText (el : Handle) (t : string) : M unit :=
  modHost (λ h, host_setElementText h el t);;
  emit (HostSetElementText el t).

Definition hostPatchProp (el : Handle) (key : string) (prev next : Value) : M unit :=
  emit (HostPatchProp el key prev next).

Definition hostSetScopeId (el : Handle) (id : string) : M unit :=
  emit (HostSetScopeId el id).

Definition hostParentNode (el : Handle) : M (option Handle) :=
  h <- getHost;; ret (parentOf h el).

Definition hostNextSibling (el : Handle) : M (option Handle) :=
  h <- getHost;; ret (host_nextSibling h el).

(** *** What the renderer imports

    Build flags and helpers of other modules that renderer.ts uses and
    the sources do not contain are parameters of the embedding. *)
Class Env := {
  DEV : bool;                               (* __DEV__ *)
  isHmrUpdating : bool;                     (* hmr.ts *)
  isReservedProp : string → bool;           (* @vue/shared *)
  isAsyncWrapper : VType → bool;            (* apiAsyncComponent.ts *)
  cloneIfMounted : vref → M vref;           (* vnode.ts *)
  normalizeVNode : vref → M vref            (* vnode.ts *)
}.

(** Modelled from the spec: [isSameVNodeType] of vnode.ts.  Spec §3:
    "two nodes are the same type iff discriminator and tag match"; §4.3
    adds the key ("discriminators differ, or key differs on same
    discriminator"). *)
Definition isSameVNodeType (n1 n2 : VNode) : bool :=
  bool_decide (VN.type n1 = VN.type n2) && bool_decide (VN.key n1 = VN.key n2).

(** *** Reading props and children *)

Definition propGet (p : option Props) (k : string) : Value :=
  match p with
  | Some o => from_option (λ x, x.2.2) VUndef (list_find (λ e, e.1 = k) (entries o))
  | None => VUndef
  end.

Definition propIn (k : string) (p : option Props) : bool :=
  match p with
  | Some o => bool_decide (k ∈ (entries o).*1)
  | None => false
  end.

Definition propKeys (p : option Props) : list string :=
  match p with Some o => (entries o).*1 | None => [] end.

(** [oldProps !== newProps] after [n.props || EMPTY_OBJ]. *)
Definition propsDiffer (p q : option Props) : bool :=
  match p, q with
  | None, None => false
  | Some a, Some b => negb (pid a =? pid b)
  | _, _ => true
  end.

Definition truthy (v : Value) : bool :=
  match v with
  | VUndef | VNull => false
  | VStr s => negb (String.eqb s EmptyString)
  | VNum z => negb (z =? 0)%Z
  | VBool b => b
  | VObj _ => true
  end.

(** [children as string] and [type as string]: casts of the source,
    total here by sending the other shapes to the empty string. *)
Definition asString (c : Children) : string :=
  match c with CText s => s | _ => EmptyString end.
Definition asTag (t : VType) : string :=
  match t with Tag s => s | _ => EmptyString end.
Definition asArray (c : Children) : list vref :=
  match c with CArr _ l => l | _ => [] end.

(** [c2 !== c1] on children. *)
Definition childrenDiffer (c1 c2 : Children) : bool :=
  match c1, c2 with
  | CNull, CNull => false
  | CText a, CText b => negb (String.eqb a b)
  | CArr i _, CArr j _ => negb (i =? j)
  | _, _ => true
  end.

Fixpoint forM {A} (l : list A) (f : A → M unit) : M unit :=
  match l with
  | [] => ret tt
  | x :: l' => f x;; forM l' f
  end.

Fixpoint foldM {A S} (f : S → A → M S) (s : S) (l : list A) : M S :=
  match l with
  | [] => ret s
  | x :: l' => s' <- f s x;; foldM f s' l'
  end.

(** ** The renderer (the closure of [baseCreateRenderer])

    The embedding follows trees rendered without components: the
    arguments [parentComponent] and [parentSuspense] are null at every
    call, [slotScopeIds] is null, and [isSVG], which only reaches the
    host, is left out.  Code that needs a component instance, a Teleport
    or a Suspense boundary ends in [Beyond]. *)

Section Renderer.
Context `{Env}.

Definition invokeVNodeHook (hook : string) (n : vref) : M unit :=
  emit (InvokeVNodeHook hook n).
Definition invokeDirectiveHook (hook : string) (n : vref) : M unit :=
  emit (InvokeDirectiveHook hook n).
Definition queuePostRenderEffect (what : string) (n : vref) : M unit :=
  emit (QueuePostRenderEffect what n).
Definition warn (msg : string) (k : option Key) : M unit := emit (Warn msg k).

(** [processText] (474-487) *)
Definition processText (n1 : option vref) (n2 : vref)
    (container : Handle) (anchor : option Handle) : M unit :=
  match n1 with
  | None =>
      v2 <- getVNode n2;;
      h <- hostCreateText (asString (VN.children v2));;
      setEl n2 (Some h);;
      hostInsert h container anchor
  | Some n1 =>
      v1 <- getVNode n1;;
      el <- nonNull (VN.el v1);;
      setEl n2 (Some el);;
      v2 <- getVNode n2;;
      when (childrenDiffer (VN.children v2) (VN.children v1))
        (hostSetText el (asString (VN.children v2)))
  end.

(** [processCommentNode] (489-505) *)
Definition processCommentNode (n1 : option vref) (n2 : vref)
    (container : Handle) (anchor : option Handle) : M unit :=
  match n1 with
  | None =>
      v2 <- getVNode n2;;
      h <- hostCreateComment (asString (VN.children v2));;
      setEl n2 (Some h);;
      hostInsert h container anchor
  | Some n1 =>
      (* there's no support for dynamic comments *)
      v1 <- getVNode n1;;
      setEl n2 (VN.el v1)
  end.

(** [patchProps] (1021-1072) *)
Definition patchProps (el : Handle) (oldProps newProps : option Props) : M unit :=
  when (propsDiffer oldProps newProps) (
    forM (propKeys oldProps) (λ key,
      when (negb (isReservedProp key) && negb (propIn key newProps))
        (hostPatchProp el key (propGet oldProps key) VNull));;
    forM (propKeys newProps) (λ key,
      (* empty string is not valid prop *)
      if isReservedProp key then ret tt
      else
        let next := propGet newProps key in
        let prev := propGet oldProps key in
        (* defer patching value *)
        when (negb (bool_decide (next = prev)) && negb (String.eqb key "value"))
          (hostPatchProp el key prev next));;
    when (propIn "value" newProps)
      (hostPatchProp el "value" (propGet oldProps "value") (propGet newProps "value"))).

(** [getNextHostNode] (2667-2675) *)
Definition getNextHostNode (vnode : vref) : M (option Handle) :=
  v <- getVNode vnode;;
  if has (VN.shapeFlag v) ShapeFlags.COMPONENT then beyond
  else if has (VN.shapeFlag v) ShapeFlags.SUSPENSE then beyond
  else
    x <- nonNull (match VN.anchor v with Some a => Some a | None => VN.el v end);;
    hostNextSibling x.

(** [move] (2350-2415) *)
Fixpoint move (fuel : nat) (vnode : vref) (container : Handle)
    (anchor : option Handle) (moveType : MoveType) : M unit :=
  match fuel with
  | 0 => starved
  | S fuel' =>
      v <- getVNode vnode;;
      if has (VN.shapeFlag v) ShapeFlags.COMPONENT then beyond
      else if has (VN.shapeFlag v) ShapeFlags.SUSPENSE then beyond
      else if has (VN.shapeFlag v) ShapeFlags.TELEPORT then beyond
      else if bool_decide (VN.type v = Fragment) then
        el <- nonNull (VN.el v);;
        hostInsert el container anchor;;
        forM (asArray (VN.children v)) (λ c, move fuel' c container anchor moveType);;
        a <- nonNull (VN.anchor v);;
        hostInsert a container anchor
      else if bool_decide (VN.type v = Static) then beyond
      else
        (* single nodes *)
        let needTransition :=
          negb (bool_decide (moveType = REORDER)) &&
          has (VN.shapeFlag v) ShapeFlags.ELEMENT &&
          bool_decide (VN.transition v ≠ None) in
        if needTransition then
          if bool_decide (moveType = ENTER) then
            emit (TransitionHook "beforeEnter" vnode);;
            el <- nonNull (VN.el v);;
            hostInsert el container anchor;;
            queuePostRenderEffect "transition.enter" vnode
          else
            (* the insert is handed to the leave hooks as a callback *)
            emit (TransitionHook "leave" vnode)
        else
          el <- nonNull (VN.el v);;
          hostInsert el container anchor
  end.

(** [removeFragment] (2569-2579); the siblings between the two anchors
    are at most the nodes of the host. *)
Fixpoint removeFragmentLoop (fuel : nat) (cur ending : Handle) : M unit :=
  if bool_decide (cur = ending) then ret tt
  else
    match fuel with
    | 0 => starved
    | S fuel' =>
        next <- hostNextSibling cur;;
        hostRemove cur;;
        next <- nonNull next;;
        removeFragmentLoop fuel' next ending
    end.

Definition removeFragment (cur ending : Handle) : M unit :=
  h <- getHost;;
  removeFragmentLoop (length h) cur ending;;
  hostRemove ending.

(** [remove] (2517-2567) *)
Fixpoint remove (fuel : nat) (vnode : vref) : M unit :=
  match fuel with
  | 0 => starved
  | S fuel' =>
      v <- getVNode vnode;;
      let live := match VN.transition v with
                  | Some t => negb (persisted t)
                  | None => false
                  end in
      if bool_decide (VN.type v = Fragment) then
        if DEV && (0 <? VN.patchFlag v)%Z &&
           has (VN.patchFlag v) PatchFlags.DEV_ROOT_FRAGMENT && live
        then
          forM (asArray (VN.children v)) (λ child,
            c <- getVNode child;;
            if bool_decide (VN.type c = Comment)
            then el <- nonNull (VN.el c);; hostRemove el
            else remove fuel' child)
        else
          el <- nonNull (VN.el v);;
          a <- nonNull (VN.anchor v);;
          removeFragment el a
      else if bool_decide (VN.type v = Static) then beyond
      else if has (VN.shapeFlag v) ShapeFlags.ELEMENT && live then
        (* [performRemove] is handed to the leave hooks as a callback *)
        emit (TransitionHook "leave" vnode)
      else
        el <- nonNull (VN.el v);;
        hostRemove el;;
        when (live && from_option afterLeave false (VN.transition v))
          (emit (TransitionHook "afterLeave" vnode))
  end.

(** [unmount] (2417-2515) and [unmountChildren] (2654-2665) *)
Definition unmountChildrenWith (unmount : vref → bool → bool → M unit)
    (children : list vref) (doRemove optimized : bool) (start : nat) : M unit :=
  forM (drop start children) (λ c, unmount c doRemove optimized).

Fixpoint unmount (fuel : nat) (vnode : vref) (doRemove optimized : bool) : M unit :=
  match fuel with
  | 0 => starved
  | S fuel' =>
      v <- getVNode vnode;;
      (* unset ref *)
      when (bool_decide (VN.ref v ≠ None)) (emit (SetRef vnode));;
      if has (VN.shapeFlag v) ShapeFlags.COMPONENT_SHOULD_KEEP_ALIVE then beyond
      else
        let shouldInvokeDirs := has (VN.shapeFlag v) ShapeFlags.ELEMENT && VN.dirs v in
        let shouldInvokeVnodeHook := negb (isAsyncWrapper (VN.type v)) in
        when (shouldInvokeVnodeHook && truthy (propGet (VN.props v) "onVnodeBeforeUnmount"))
          (invokeVNodeHook "onVnodeBeforeUnmount" vnode);;
        (if has (VN.shapeFlag v) ShapeFlags.COMPONENT then beyond
         else if has (VN.shapeFlag v) ShapeFlags.SUSPENSE then beyond
         else
           when shouldInvokeDirs (invokeDirectiveHook "beforeUnmount" vnode);;
           (if has (VN.shapeFlag v) ShapeFlags.TELEPORT then beyond
            else
              if bool_decide (VN.dynamicChildren v ≠ None) &&
                 (* #1153: fast path should not be taken for non-stable (v-for) fragments *)
                 (negb (bool_decide (VN.type v = Fragment)) ||
                  ((0 <? VN.patchFlag v)%Z &&
                   has (VN.patchFlag v) PatchFlags.STABLE_FRAGMENT))
              then
                (* fast path for block nodes: only need to unmount dynamic children. *)
                unmountChildrenWith (unmount fuel')
                  (default [] (VN.dynamicChildren v)) false true 0
              else if (bool_decide (VN.type v = Fragment) &&
                       has (VN.patchFlag v)
                         (Z.lor PatchFlags.KEYED_FRAGMENT PatchFlags.UNKEYED_FRAGMENT)) ||
                      (negb optimized && has (VN.shapeFlag v) ShapeFlags.ARRAY_CHILDREN)
              then unmountChildrenWith (unmount fuel') (asArray (VN.children v)) false false 0
              else ret tt);;
           when doRemove (remove fuel vnode));;
        when ((shouldInvokeVnodeHook && truthy (propGet (VN.props v) "onVnodeUnmounted"))
              || shouldInvokeDirs)
          (queuePostRenderEffect "unmounted" vnode)
  end.

Definition unmountChildren (fuel : nat) := unmountChildrenWith (unmount fuel).

(** An array argument: [children as VNode[]] where the source goes on to
    read [length] and the elements; anything else throws there. *)
Definition expectArray (c : Children) : M (list vref) :=
  match c with CArr _ l => ret l | _ => throw end.

(** [c || EMPTY_ARR] *)
Definition orEmpty (c : Children) : M (list vref) :=
  match c with
  | CNull => ret []
  | CArr _ l => ret l
  | CText s => if String.eqb s EmptyString then ret [] else throw
  end.

(** The arrays [children] and [c2] are updated in place by
    [c2[i] = normalizeVNode(c2[i])]; the embedding threads the array
    through the function and stores it back into the owning vnode. *)
Definition writeBack (owner : vref) (items : list vref) : M unit :=
  modVNode owner (λ v,
    match VN.children v with
    | CArr id _ => VN.with_children (CArr id items) v
    | _ => v
    end).

(** [optimized ? cloneIfMounted(c2[i]) : normalizeVNode(c2[i])], stored
    back at [c2[i]]. *)
Definition normalizeAt (optimized : bool) (c2 : list vref) (i : nat)
  : M (vref * list vref) :=
  c <- nonNull (c2 !! i);;
  n <- (if optimized then cloneIfMounted c else normalizeVNode c);;
  ret (n, <[i:=n]> c2).

(** [traverseStaticChildren] (2736-2759) *)
Fixpoint traverseStaticChildren (fuel : nat) (n1 n2 : vref) (shallow : bool) : M unit :=
  match fuel with
  | 0 => starved
  | S fuel' =>
      v1 <- getVNode n1;;
      v2 <- getVNode n2;;
      match VN.children v1, VN.children v2 with
      | CArr _ ch1, CArr _ ch2 =>
          ch2 <- foldM (λ ch2 i,
              c1 <- nonNull (ch1 !! i);;
              c2 <- nonNull (ch2 !! i);;
              w2 <- getVNode c2;;
              '(c2, ch2) <-
                (if has (VN.shapeFlag w2) ShapeFlags.ELEMENT &&
                    bool_decide (VN.dynamicChildren w2 = None)
                 then
                   '(c2, ch2) <-
                     (if (VN.patchFlag w2 <=? 0)%Z ||
                         (VN.patchFlag w2 =? PatchFlags.HYDRATE_EVENTS)%Z
                      then
                        c2' <- cloneIfMounted c2;;
                        w1 <- getVNode c1;;
                        setEl c2' (VN.el w1);;
                        ret (c2', <[i:=c2']> ch2)
                      else ret (c2, ch2));;
                   (if shallow then ret tt
                    else traverseStaticChildren fuel' c1 c2 false);;
                   ret (c2, ch2)
                 else ret (c2, ch2));;
              (* also inherit for comment nodes, but not placeholders *)
              w2 <- getVNode c2;;
              when (DEV && bool_decide (VN.type w2 = Comment) &&
                    bool_decide (VN.el w2 = None))
                (w1 <- getVNode c1;; setEl c2 (VN.el w1));;
              ret ch2)
            ch2 (seq 0 (length ch1));;
          writeBack n2 ch2
      | _, _ => ret tt
      end
  end.

Section Patching.
(** The functions below call [patch] recursively; [patch] is tied to
    them further down, one level of the recursion budget lower. *)
Variable fuel : nat.
Variable patch : option vref → vref → Handle → option Handle → option bool → M unit.

(** [mountChildren] (765-792) *)
Definition mountChildren (children : list vref) (container : Handle)
    (anchor : option Handle) (optimized : bool) (start : nat) : M (list vref) :=
  foldM (λ children i,
      '(child, children) <- normalizeAt optimized children i;;
      patch None child container anchor (Some optimized);;
      ret children)
    children (seq start (length children - start)).

(** [mountElement] (614-725) *)
Definition mountElement (vnode : vref) (container : Handle)
    (anchor : option Handle) (optimized : bool) : M unit :=
  v <- getVNode vnode;;
  let props := VN.props v in
  el <- hostCreateElement (asTag (VN.type v));;
  setEl vnode (Some el);;
  (* mount children first, since some props may rely on child content *)
  (if has (VN.shapeFlag v) ShapeFlags.TEXT_CHILDREN then
     hostSetElementText el (asString (VN.children v))
   else if has (VN.shapeFlag v) ShapeFlags.ARRAY_CHILDREN then
     cs <- expectArray (VN.children v);;
     cs <- mountChildren cs el None optimized 0;;
     writeBack vnode cs
   else ret tt);;
  when (VN.dirs v) (invokeDirectiveHook "created" vnode);;
  (* props *)
  when (bool_decide (props ≠ None)) (
    forM (propKeys props) (λ key,
      when (negb (String.eqb key "value") && negb (isReservedProp key))
        (hostPatchProp el key VNull (propGet props key)));;
    when (propIn "value" props)
      (hostPatchProp el "value" VNull (propGet props "value"));;
    when (truthy (propGet props "onVnodeBeforeMount"))
      (invokeVNodeHook "onVnodeBeforeMount" vnode));;
  (* scopeId *)
  match VN.scopeId v with
  | Some id => when (negb (String.eqb id EmptyString)) (hostSetScopeId el id)
  | None => ret tt
  end;;
  when (VN.dirs v) (invokeDirectiveHook "beforeMount" vnode);;
  let needCallTransitionHooks :=
    match VN.transition v with Some t => negb (persisted t) | None => false end in
  when needCallTransitionHooks (emit (TransitionHook "beforeEnter" vnode));;
  hostInsert el container anchor;;
  when (truthy (propGet props "onVnodeMounted") || needCallTransitionHooks || VN.dirs v)
    (queuePostRenderEffect "mounted" vnode).

(** [patchBlockChildren] (976-1019) *)
Definition patchBlockChildren (oldChildren : option (list vref))
    (newChildren : list vref) (fallbackContainer : Handle) : M unit :=
  forM (seq 0 (length newChildren)) (λ i,
    oldVNode <- nonNull (oldChildren ≫= λ l, l !! i);;
    newVNode <- nonNull (newChildren !! i);;
    vo <- getVNode oldVNode;;
    vn <- getVNode newVNode;;
    (* Determine the container (parent element) for the patch. *)
    container <-
      match VN.el vo with
      | Some oel =>
          if bool_decide (VN.type vo = Fragment) ||
             negb (isSameVNodeType vo vn) ||
             has (VN.shapeFlag vo) (Z.lor ShapeFlags.COMPONENT ShapeFlags.TELEPORT)
          then p <- hostParentNode oel;; nonNull p
          else ret fallbackContainer
      | None => ret fallbackContainer
      end;;
    patch (Some oldVNode) newVNode container None (Some true)).

(** [patchUnkeyedChildren] (1790-1854) *)
Definition patchUnkeyedChildren (c1 c2 : list vref) (container : Handle)
    (anchor : option Handle) (optimized : bool) : M (list vref) :=
  let oldLength := length c1 in
  let newLength := length c2 in
  let commonLength := Nat.min oldLength newLength in
  c2 <- foldM (λ c2 i,
      '(nextChild, c2) <- normalizeAt optimized c2 i;;
      old <- nonNull (c1 !! i);;
      patch (Some old) nextChild container None (Some optimized);;
      ret c2)
    c2 (seq 0 commonLength);;
  if newLength <? oldLength then
    (* remove old *)
    unmountChildren fuel c1 true false commonLength;;
    ret c2
  else
    (* mount new *)
    mountChildren c2 container anchor optimized commonLength.

(** [patchKeyedChildren] (1858-2348).  The cursors [e1] and [e2] of the
    source are the last unresolved indices and start at [length - 1],
    which is -1 on an empty list; the embedding keeps [e1 + 1] and
    [e2 + 1], so that [i <= e1] reads [i <? e1] and [i > e1] reads
    [e1 <=? i].  Likewise [j], which ends at -1, is kept as [j + 1]. *)

(** 1. sync from start; at most [length c2] rounds. *)
Fixpoint syncFromStart (rounds : nat) (c1 c2 : list vref) (container : Handle)
    (optimized : bool) (i e1 e2 : nat) : M (nat * list vref) :=
  if (i <? e1) && (i <? e2) then
    match rounds with
    | 0 => starved
    | S rounds' =>
        n1 <- nonNull (c1 !! i);;
        '(n2, c2) <- normalizeAt optimized c2 i;;
        v1 <- getVNode n1;;
        v2 <- getVNode n2;;
        if isSameVNodeType v1 v2 then
          patch (Some n1) n2 container None (Some optimized);;
          syncFromStart rounds' c1 c2 container optimized (i + 1) e1 e2
        else ret (i, c2)
    end
  else ret (i, c2).

(** 2. sync from end *)
Fixpoint syncFromEnd (rounds : nat) (c1 c2 : list vref) (container : Handle)
    (optimized : bool) (i e1 e2 : nat) : M (nat * nat * list vref) :=
  if (i <? e1) && (i <? e2) then
    match rounds with
    | 0 => starved
    | S rounds' =>
        n1 <- nonNull (c1 !! (e1 - 1));;
        '(n2, c2) <- normalizeAt optimized c2 (e2 - 1);;
        v1 <- getVNode n1;;
        v2 <- getVNode n2;;
        if isSameVNodeType v1 v2 then
          patch (Some n1) n2 container None (Some optimized);;
          syncFromEnd rounds' c1 c2 container optimized i (e1 - 1) (e2 - 1)
        else ret (e1, e2, c2)
    end
  else ret (e1, e2, c2).

(** [(c2[k] as VNode).el] when [k] is inside the list, else the parent's
    anchor. *)
Definition anchorAt (c2 : list vref) (k : nat) (parentAnchor : option Handle)
  : M (option Handle) :=
  if k <? length c2 then
    n <- nonNull (c2 !! k);; v <- getVNode n;; ret (VN.el v)
  else ret parentAnchor.

(** 5.1 build key:index map for newChildren *)
Definition buildKeyToNewIndexMap (optimized : bool) (c2 : list vref) (s2 e2 : nat)
  : M (gmap Key nat * list vref) :=
  foldM (λ '(keyToNewIndexMap, c2) i,
      '(nextChild, c2) <- normalizeAt optimized c2 i;;
      v <- getVNode nextChild;;
      match VN.key v with
      | Some k =>
          when (DEV && bool_decide (is_Some (keyToNewIndexMap !! k)))
            (warn "Duplicate keys found during update:" (Some k));;
          ret (<[k:=i]> keyToNewIndexMap, c2)
      | None => ret (keyToNewIndexMap, c2)
      end)
    (∅, c2) (seq s2 (e2 - s2)).

(** The local variables of step 5.2. *)
Record DiffState := mkDiff {
  patched : nat;
  moved : bool;
  maxNewIndexSoFar : nat;
  newIndexToOldIndexMap : list nat
}.

(** key-less node, try to locate a key-less node of the same type *)
Fixpoint findKeyless (prevChild : VNode) (c2 : list vref) (map : list nat)
    (s2 : nat) (js : list nat) : M (option nat) :=
  match js with
  | [] => ret None
  | j :: js' =>
      if rd map (j - s2) =? 0 then
        n <- nonNull (c2 !! j);;
        v <- getVNode n;;
        if isSameVNodeType prevChild v then ret (Some j)
        else findKeyless prevChild c2 map s2 js'
      else findKeyless prevChild c2 map s2 js'
  end.

(** 5.2 loop through old children left to be patched and try to patch
    matching nodes & remove nodes that are no longer present: the body
    of the loop, at old index [i]. *)
Definition patchOld (c1 c2 : list vref) (container : Handle) (optimized : bool)
    (keyToNewIndexMap : gmap Key nat) (s2 e2 : nat) (st : DiffState) (i : nat)
  : M DiffState :=
  let toBePatched := e2 - s2 in
  prevChild <- nonNull (c1 !! i);;
  if toBePatched <=? patched st then
    (* all new children have been patched so this can only be a removal *)
    unmount fuel prevChild true false;;
    ret st
  else
    vp <- getVNode prevChild;;
    newIndex <-
      match VN.key vp with
      | Some k => ret (keyToNewIndexMap !! k)
      | None =>
          findKeyless vp c2 (newIndexToOldIndexMap st) s2 (seq s2 (e2 - s2))
      end;;
    match newIndex with
    | None => unmount fuel prevChild true false;; ret st
    | Some newIndex =>
        n2 <- nonNull (c2 !! newIndex);;
        patch (Some prevChild) n2 container None (Some optimized);;
        ret (mkDiff (patched st + 1)
               (if maxNewIndexSoFar st <=? newIndex then moved st else true)
               (if maxNewIndexSoFar st <=? newIndex then newIndex
                else maxNewIndexSoFar st)
               (<[newIndex - s2 := i + 1]> (newIndexToOldIndexMap st)))
    end.

(** 5.3 move and mount: the body of the backwards loop, at [i]; [j] is
    the number of entries of the sequence not yet met. *)
Definition moveOrMount (c2 : list vref) (container : Handle)
    (parentAnchor : option Handle) (optimized : bool) (s2 : nat)
    (st : DiffState) (increasingNewIndexSequence : list nat) (j : nat) (i : nat)
  : M nat :=
  let nextIndex := s2 + i in
  nextChild <- nonNull (c2 !! nextIndex);;
  anchor <- anchorAt c2 (nextIndex + 1) parentAnchor;;
  if rd (newIndexToOldIndexMap st) i =? 0 then
    (* mount new *)
    patch None nextChild container anchor (Some optimized);;
    ret j
  else if moved st then
    (* move if: there is no stable subsequence (e.g. a reverse)
       OR current node is not among the stable sequence *)
    if (j =? 0) || negb (i =? rd increasingNewIndexSequence (j - 1)) then
      move fuel nextChild container anchor REORDER;;
      ret j
    else ret (j - 1)
  else ret j.

Definition patchKeyedChildren (c1 c2 : list vref) (container : Handle)
    (parentAnchor : option Handle) (optimized : bool) : M (list vref) :=
  let l2 := length c2 in
  '(i, c2) <- syncFromStart l2 c1 c2 container optimized 0 (length c1) l2;;
  '(e1, e2, c2) <- syncFromEnd l2 c1 c2 container optimized i (length c1) l2;;
  if e1 <=? i then
    (* 3. common sequence + mount *)
    if i <? e2 then
      anchor <- anchorAt c2 e2 parentAnchor;;
      foldM (λ c2 i,
          '(n2, c2) <- normalizeAt optimized c2 i;;
          patch None n2 container anchor (Some optimized);;
          ret c2)
        c2 (seq i (e2 - i))
    else ret c2
  else if e2 <=? i then
    (* 4. common sequence + unmount *)
    forM (seq i (e1 - i)) (λ i,
      n1 <- nonNull (c1 !! i);;
      unmount fuel n1 true false);;
    ret c2
  else
    (* 5. unknown sequence *)
    let s1 := i in
    let s2 := i in
    '(keyToNewIndexMap, c2) <- buildKeyToNewIndexMap optimized c2 s2 e2;;
    let toBePatched := e2 - s2 in
    st <- foldM (patchOld c1 c2 container optimized keyToNewIndexMap s2 e2)
            (mkDiff 0 false 0 (replicate toBePatched 0)) (seq s1 (e1 - s1));;
    (* generate longest stable subsequence only when nodes have moved *)
    let increasingNewIndexSequence :=
      if moved st then getSequence (newIndexToOldIndexMap st) else [] in
    (* looping backwards so that we can use last patched node as anchor *)
    foldM (moveOrMount c2 container parentAnchor optimized s2 st
             increasingNewIndexSequence)
      (length increasingNewIndexSequence) (reverse (seq 0 toBePatched));;
    ret c2.

(** [patchChildren] (1669-1787).  The fragment fast paths return early;
    [patchChildrenFull] is the rest of the function. *)
Definition patchChildrenFull (n1 n2 : vref) (container : Handle)
    (anchor : option Handle) (optimized : bool) : M unit :=
  v1 <- getVNode n1;;
  v2 <- getVNode n2;;
  let c1 := VN.children v1 in
  let prevShapeFlag := VN.shapeFlag v1 in
  let c2 := VN.children v2 in
  let shapeFlag := VN.shapeFlag v2 in
  (* children has 3 possibilities: text, array or no children. *)
  if has shapeFlag ShapeFlags.TEXT_CHILDREN then
    (* text children fast path *)
    when (has prevShapeFlag ShapeFlags.ARRAY_CHILDREN)
      (a1 <- expectArray c1;; unmountChildren fuel a1 false false 0);;
    when (childrenDiffer c2 c1) (hostSetElementText container (asString c2))
  else if has prevShapeFlag ShapeFlags.ARRAY_CHILDREN then
    (* prev children was array *)
    if has shapeFlag ShapeFlags.ARRAY_CHILDREN then
      (* two arrays, cannot assume anything, do full diff *)
      a1 <- expectArray c1;;
      a2 <- expectArray c2;;
      a2 <- patchKeyedChildren a1 a2 container anchor optimized;;
      writeBack n2 a2
    else
      (* no new children, just unmount old *)
      a1 <- expectArray c1;;
      unmountChildren fuel a1 true false 0
  else
    (* prev children was text OR null; new children is array OR null *)
    when (has prevShapeFlag ShapeFlags.TEXT_CHILDREN)
      (hostSetElementText container EmptyString);;
    (* mount new if array *)
    when (has shapeFlag ShapeFlags.ARRAY_CHILDREN)
      (a2 <- expectArray c2;;
       a2 <- mountChildren a2 container anchor optimized 0;;
       writeBack n2 a2).

Definition patchChildren (n1 n2 : vref) (container : Handle)
    (anchor : option Handle) (optimized : bool) : M unit :=
  v1 <- getVNode n1;;
  v2 <- getVNode n2;;
  let c1 := VN.children v1 in
  let c2 := VN.children v2 in
  let patchFlag := VN.patchFlag v2 in
  (* fast path *)
  if (0 <? patchFlag)%Z && has patchFlag PatchFlags.KEYED_FRAGMENT then
    (* presence of patchFlag means children are guaranteed to be arrays *)
    a1 <- expectArray c1;;
    a2 <- expectArray c2;;
    a2 <- patchKeyedChildren a1 a2 container anchor optimized;;
    writeBack n2 a2
  else if (0 <? patchFlag)%Z && has patchFlag PatchFlags.UNKEYED_FRAGMENT then
    (* unkeyed: [c1 || EMPTY_ARR], [c2 || EMPTY_ARR] *)
    a1 <- orEmpty c1;;
    a2 <- orEmpty c2;;
    a2 <- patchUnkeyedChildren a1 a2 container anchor optimized;;
    writeBack n2 a2
  else patchChildrenFull n1 n2 container anchor optimized.

(** [patchElement] (795-972) *)
Definition patchElement (n1 n2 : vref) (optimized : bool) : M unit :=
  v1 <- getVNode n1;;
  el <- nonNull (VN.el v1);;
  setEl n2 (Some el);;
  v2 <- getVNode n2;;
  (* #1426 take the old vnode's patch flag into account since user may
     clone a compiler-generated vnode, which de-opts to FULL_PROPS *)
  let patchFlag :=
    Z.lor (VN.patchFlag v2) (Z.land (VN.patchFlag v1) PatchFlags.FULL_PROPS) in
  let dynamicChildren := VN.dynamicChildren v2 in
  let dirs := VN.dirs v2 in
  let oldProps := VN.props v1 in
  let newProps := VN.props v2 in
  when (truthy (propGet newProps "onVnodeBeforeUpdate"))
    (invokeVNodeHook "onVnodeBeforeUpdate" n2);;
  when dirs (invokeDirectiveHook "beforeUpdate" n2);;
  (* HMR updated, force full diff *)
  let hmr := DEV && isHmrUpdating in
  let patchFlag := if hmr then 0%Z else patchFlag in
  let optimized := if hmr then false else optimized in
  let dynamicChildren := if hmr then None else dynamicChildren in
  match dynamicChildren with
  | Some dynamicChildren =>
      patchBlockChildren (VN.dynamicChildren v1) dynamicChildren el
  | None =>
      (* full diff *)
      when (negb optimized) (patchChildren n1 n2 el None false)
  end;;
  (if (0 <? patchFlag)%Z then
     (* the presence of a patchFlag means this element's render code was
        generated by the compiler and can take the fast path. *)
     (if has patchFlag PatchFlags.FULL_PROPS then
        (* element props contain dynamic keys, full diff needed *)
        patchProps el oldProps newProps
      else
        (* class *)
        when (has patchFlag PatchFlags.CLASS)
          (when (negb (bool_decide (propGet oldProps "class" = propGet newProps "class")))
             (hostPatchProp el "class" VNull (propGet newProps "class")));;
        (* style *)
        when (has patchFlag PatchFlags.STYLE)
          (hostPatchProp el "style" (propGet oldProps "style") (propGet newProps "style"));;
        (* props *)
        when (has patchFlag PatchFlags.PROPS)
          ((* if the flag is present then dynamicProps must be non-null *)
           v2 <- getVNode n2;;
           propsToUpdate <- nonNull (VN.dynamicProps v2);;
           forM propsToUpdate (λ key,
             let prev := propGet oldProps key in
             let next := propGet newProps key in
             (* #1471 force patch value *)
             when (negb (bool_decide (next = prev)) || String.eqb key "value")
               (hostPatchProp el key prev next))));;
     (* text *)
     when (has patchFlag PatchFlags.TEXT)
       (v1 <- getVNode n1;;
        v2 <- getVNode n2;;
        when (childrenDiffer (VN.children v1) (VN.children v2))
          (hostSetElementText el (asString (VN.children v2))))
   else if negb optimized && bool_decide (dynamicChildren = None) then
     (* unoptimized, full diff *)
     patchProps el oldProps newProps
   else ret tt);;
  when (truthy (propGet newProps "onVnodeUpdated") || dirs)
    (queuePostRenderEffect "updated" n2).

(** [processElement] (577-612) *)
Definition processElement (n1 : option vref) (n2 : vref) (container : Handle)
    (anchor : option Handle) (optimized : bool) : M unit :=
  match n1 with
  | None => mountElement n2 container anchor optimized
  | Some n1 => patchElement n1 n2 optimized
  end.

(** [processFragment] (1074-1178) *)
Definition processFragment (n1 : option vref) (n2 : vref) (container : Handle)
    (anchor : option Handle) (optimized : bool) : M unit :=
  fragmentStartAnchor <-
    match n1 with
    | Some n1 => v1 <- getVNode n1;; ret (VN.el v1)
    | None => h <- hostCreateText EmptyString;; ret (Some h)
    end;;
  setEl n2 fragmentStartAnchor;;
  fragmentEndAnchor <-
    match n1 with
    | Some n1 => v1 <- getVNode n1;; ret (VN.anchor v1)
    | None => h <- hostCreateText EmptyString;; ret (Some h)
    end;;
  setAnchor n2 fragmentEndAnchor;;
  v2 <- getVNode n2;;
  (* HMR updated / Dev root fragment (w/ comments), force full diff *)
  let full := DEV && (isHmrUpdating ||
                      has (VN.patchFlag v2) PatchFlags.DEV_ROOT_FRAGMENT) in
  let patchFlag := if full then 0%Z else VN.patchFlag v2 in
  let optimized := if full then false else optimized in
  let dynamicChildren := if full then None else VN.dynamicChildren v2 in
  match n1 with
  | None =>
      s <- nonNull fragmentStartAnchor;;
      e <- nonNull fragmentEndAnchor;;
      hostInsert s container anchor;;
      hostInsert e container anchor;;
      (* a fragment can only have array children *)
      cs <- expectArray (VN.children v2);;
      cs <- mountChildren cs container fragmentEndAnchor optimized 0;;
      writeBack n2 cs
  | Some n1 =>
      v1 <- getVNode n1;;
      match dynamicChildren with
      | Some dc =>
          if (0 <? patchFlag)%Z && has patchFlag PatchFlags.STABLE_FRAGMENT &&
             (* #2715 the previous fragment could've been a BAILed one *)
             bool_decide (VN.dynamicChildren v1 ≠ None)
          then
            (* a stable fragment (template root or <template v-for>) doesn't
               need to patch children order, but it may contain
               dynamicChildren. *)
            patchBlockChildren (VN.dynamicChildren v1) dc container;;
            (* #2080 if the stable fragment has a key, it's a
               <template v-for> that may get moved around. *)
            when (bool_decide (VN.key v2 ≠ None))
              (traverseStaticChildren fuel n1 n2 true)
          else patchChildren n1 n2 container fragmentEndAnchor optimized
      | None =>
          (* keyed / unkeyed, or manual fragments. *)
          patchChildren n1 n2 container fragmentEndAnchor optimized
      end
  end.

(** [patch] (354-472), one level of the recursion.  An absent
    [optimized] argument takes the default of the source. *)
Definition patchStep (n1 : option vref) (n2 : vref) (container : Handle)
    (anchor : option Handle) (optimized : option bool) : M unit :=
  v2 <- getVNode n2;;
  let optimized :=
    default (if DEV && isHmrUpdating then false
             else bool_decide (VN.dynamicChildren v2 ≠ None)) optimized in
  if bool_decide (n1 = Some n2) then ret tt
  else
    (* patching & not same type, unmount old tree *)
    '(n1, anchor) <-
      match n1 with
      | Some old =>
          v1 <- getVNode old;;
          if negb (isSameVNodeType v1 v2) then
            anchor <- getNextHostNode old;;
            unmount fuel old true false;;
            ret (None, anchor)
          else ret (n1, anchor)
      | None => ret (n1, anchor)
      end;;
    optimized <-
      (if (VN.patchFlag v2 =? PatchFlags.BAIL)%Z then
         setDynamicChildren n2 None;; ret false
       else ret optimized);;
    match VN.type v2 with
    | Text => processText n1 n2 container anchor
    | Comment => processCommentNode n1 n2 container anchor
    | Static =>
        match n1 with
        | None => beyond
        | Some _ => if DEV then beyond else ret tt
        end
    | Fragment => processFragment n1 n2 container anchor optimized
    | _ =>
        if has (VN.shapeFlag v2) ShapeFlags.ELEMENT then
          processElement n1 n2 container anchor optimized
        else if has (VN.shapeFlag v2) ShapeFlags.COMPONENT then beyond
        else if has (VN.shapeFlag v2) ShapeFlags.TELEPORT then beyond
        else if has (VN.shapeFlag v2) ShapeFlags.SUSPENSE then beyond
        else when DEV (warn "Invalid VNode type:" None)
    end.
    (* set ref: only under a parent component *)

End Patching.

Fixpoint patch (fuel : nat) (n1 : option vref) (n2 : vref) (container : Handle)
    (anchor : option Handle) (optimized : option bool) : M unit :=
  match fuel with
  | 0 => starved
  | S fuel' => patchStep fuel' (patch fuel') n1 n2 container anchor optimized
  end.

End Renderer.

(** ** A concrete environment

    One instance of [Env], used to run the embedding on examples: the
    reserved prop names of [@vue/shared], no async wrappers, and
    [cloneIfMounted] as "copy the vnode when it already has a host
    node". *)

Definition alloc (v : VNode) : M vref :=
  λ s, Ok (length (vnodes s)) (mkState (vnodes s ++ [v]) (host s) (trace s)).

Definition cloneIfMountedImpl (r : vref) : M vref :=
  v <- getVNode r;;
  match VN.el v with
  | None => ret r
  | Some _ => alloc v
  end.

Definition reservedProps : list string :=
  [""; "key"; "ref"; "ref_for"; "ref_key";
   "onVnodeBeforeMount"; "onVnodeMounted";
   "onVnodeBeforeUpdate"; "onVnodeUpdated";
   "onVnodeBeforeUnmount"; "onVnodeUnmounted"]%string.

Definition exampleEnv (dev : bool) : Env := {|
  DEV := dev;
  isHmrUpdating := false;
  isReservedProp := λ k, bool_decide (k ∈ reservedProps);
  isAsyncWrapper := λ _, false;
  cloneIfMounted := cloneIfMountedImpl;
  normalizeVNode := cloneIfMountedImpl
|}.

(** The children of the keyed lists studied below: a keyed element with
    a text child and nothing else (no props, directives, transition or
    patch flag), as [h('li', { key }, text)] makes them, with its host
    element once it is mounted. *)
Definition item (tag : string) (k : Key) (text : string) (el : option Handle) : VNode :=
  VN.mk (Tag tag) (Some k) None None (CText text) 0
    (Z.lor ShapeFlags.ELEMENT ShapeFlags.TEXT_CHILDREN) None None false None None
    el None.

(** Vnodes of the examples: a keyed item, a text node, a comment node,
    and an element with array children. *)
Definition keyedItem (tag : string) (k : nat) (text : string) : VNode :=
  item tag (KNum (Z.of_nat k)) text None.

Definition textNode (text : string) : VNode :=
  VN.mk Text None None None (CText text) 0 ShapeFlags.TEXT_CHILDREN
    None None false None None None None.

Definition commentNode (text : string) : VNode :=
  VN.mk Comment None None None (CText text) 0 ShapeFlags.TEXT_CHILDREN
    None None false None None None None.

Definition listNode (tag : string) (id : nat) (items : list vref) : VNode :=
  VN.mk (Tag tag) None None None (CArr id items) 0
    (Z.lor ShapeFlags.ELEMENT ShapeFlags.ARRAY_CHILDREN) None None false None None
    None None.

Definition mounted (h : Handle) (v : VNode) : VNode := VN.with_el (Some h) v.

(** What an outcome leaves behind, for statements about examples. *)
Definition traceOf {A} (o : Outcome A) : option (list Event) :=
  match o with Ok _ s => Some (trace s) | _ => None end.
Definition stateOf {A} (o : Outcome A) : option RState :=
  match o with Ok _ s => Some s | _ => None end.

(** Host operations among the events of a trace. *)
Definition isHostOp (e : Event) : bool :=
  match e with
  | HostInsert _ _ _ | HostRemove _ | HostCreateElement _ _ | HostCreateText _ _
  | HostCreateComment _ _ | HostSetText _ _ | HostSetElementText _ _
  | HostPatchProp _ _ _ _ | HostSetScopeId _ _ => true
  | _ => false
  end.

Definition hostOps (tr : list Event) : list Event := filter (λ e, isHostOp e = true) tr.

(** A computation that leaves the vnodes alone, changes the host tree by
    [fh] and adds the events [es] to the trace; [emits] when the host
    tree stays as it is. *)
Definition acts (m : M unit) (fh : Host → Host) (es : list Event) : Prop :=
  ∀ s, m s = Ok tt (mkState (vnodes s) (fh (host s)) (trace s ++ es)).

Definition emits (m : M unit) (es : list Event) : Prop := acts m id es.

(** A computation that never writes to the arena of vnodes. *)
Definition keepsVNodes {A} (m : M A) : Prop :=
  ∀ s a s', m s = Ok a s' → vnodes s' = vnodes s.

(** The same on the states whose arena is [vs]. *)
Definition actsAt (vs : list VNode) (m : M unit) (fh : Host → Host)
    (es : list Event) : Prop :=
  ∀ s, vnodes s = vs → m s = Ok tt (mkState vs (fh (host s)) (trace s ++ es)).

(** ** Keyed lists of items, abstractly

    For a container whose children are keyed [item]s the keyed diff only
    depends on the keys and texts of the two lists and on the host
    handles of the old one.  [Plan] replays [patchKeyedChildren] on that
    data alone: the child list [aK] of the container, the host element
    [aE] of every new child so far, the next free host handle, the text
    of every host element, and a log of what was done.  The replay is
    shown below to be what the embedding of the source does
    ([patchKeyedChildren_items]), and the properties of the diff are
    proved on it. *)

Record OldItem := mkOld { o_ref : vref; o_key : Key; o_text : string; o_el : Handle }.
Record NewItem := mkNew { n_ref : vref; n_key : Key; n_text : string }.

Inductive PlanOp :=
  | OpPatch (el : Handle) (text : option string)
  | OpMount (el : Handle) (text : string) (anchor : option Handle)
  | OpUnmount (el : Handle)
  | OpMove (el : Handle) (anchor : option Handle)
  | OpWarn (k : Key).

Record Plan := mkPlan {
  aK : list Handle;
  aE : list (option Handle);
  aNext : Handle;
  aText : Handle → string;
  aLog : list PlanOp
}.

Definition setText (h : Handle) (t : string) (f : Handle → string) : Handle → string :=
  λ x, if decide (x = h) then t else f x.

Section PlanOps.
Variable olds : list OldItem.
Variable news : list NewItem.
Variable parentAnchor : option Handle.
(** Whether a patch writes the text child: an unoptimized patch does,
    an optimized one leaves it to the patch flags, which items lack. *)
Variable writes : bool.
Variable dev : bool.

Definition planPatch (o : OldItem) (j : nat) (n : NewItem) (p : Plan) : Plan :=
  let changed := writes && negb (String.eqb (n_text n) (o_text o)) in
  mkPlan (aK p) (<[j:=Some (o_el o)]> (aE p)) (aNext p)
    (if changed then setText (o_el o) (n_text n) (aText p) else aText p)
    (aLog p ++ [OpPatch (o_el o) (if changed then Some (n_text n) else None)]).

Definition planMount (j : nat) (n : NewItem) (anchor : option Handle) (p : Plan) : Plan :=
  let h := aNext p in
  mkPlan (insertBefore anchor h (without h (aK p))) (<[j:=Some h]> (aE p)) (S h)
    (setText h (n_text n) (aText p))
    (aLog p ++ [OpMount h (n_text n) anchor]).

Definition planUnmount (o : OldItem) (p : Plan) : Plan :=
  mkPlan (without (o_el o) (aK p)) (aE p) (aNext p) (aText p)
    (aLog p ++ [OpUnmount (o_el o)]).

Definition planMove (h : Handle) (anchor : option Handle) (p : Plan) : Plan :=
  mkPlan (insertBefore anchor h (without h (aK p))) (aE p) (aNext p) (aText p)
    (aLog p ++ [OpMove h anchor]).

Definition planWarn (k : Key) (p : Plan) : Plan :=
  mkPlan (aK p) (aE p) (aNext p) (aText p) (aLog p ++ [OpWarn k]).

(** [c2[j]], which normalization leaves alone as long as it has no host
    element; the replay stops where it has one. *)
Definition planNew (j : nat) (p : Plan) : option NewItem :=
  n ← news !! j;
  if bool_decide (mjoin (aE p !! j) = None) then Some n else None.

(** [(c2[k] as VNode).el], or the parent's anchor past the end. *)
Definition planAnchor (k : nat) (p : Plan) : option Handle :=
  if k <? length news then mjoin (aE p !! k) else parentAnchor.

(** 1. sync from start *)
Fixpoint planSyncStart (rounds : nat) (i e1 e2 : nat) (p : Plan) : option (nat * Plan) :=
  if (i <? e1) && (i <? e2) then
    match rounds with
    | 0 => None
    | S rounds' =>
        o ← olds !! i; n ← planNew i p;
        if decide (o_key o = n_key n)
        then planSyncStart rounds' (i + 1) e1 e2 (planPatch o i n p)
        else Some (i, p)
    end
  else Some (i, p).

(** 2. sync from end *)
Fixpoint planSyncEnd (rounds : nat) (i e1 e2 : nat) (p : Plan)
  : option (nat * nat * Plan) :=
  if (i <? e1) && (i <? e2) then
    match rounds with
    | 0 => None
    | S rounds' =>
        o ← olds !! (e1 - 1); n ← planNew (e2 - 1) p;
        if decide (o_key o = n_key n)
        then planSyncEnd rounds' i (e1 - 1) (e2 - 1) (planPatch o (e2 - 1) n p)
        else Some (e1, e2, p)
    end
  else Some (e1, e2, p).

(** 5.1 *)
Definition planBuildMap (s2 e2 : nat) (p : Plan) : option (gmap Key nat * Plan) :=
  foldl (λ acc j,
      '(m, p) ← acc; n ← planNew j p;
      Some (<[n_key n:=j]> m,
            if dev && bool_decide (is_Some (m !! n_key n))
            then planWarn (n_key n) p else p))
    (Some (∅, p)) (seq s2 (e2 - s2)).

(** 5.2, at old index [i] *)
Definition planOld (keyToNewIndexMap : gmap Key nat) (s2 e2 : nat)
    (acc : option (DiffState * Plan)) (i : nat) : option (DiffState * Plan) :=
  '(st, p) ← acc;
  o ← olds !! i;
  if e2 - s2 <=? patched st then Some (st, planUnmount o p)
  else
    match keyToNewIndexMap !! o_key o with
    | None => Some (st, planUnmount o p)
    | Some newIndex =>
        n ← news !! newIndex;
        (* the map sends a key to a child that has it *)
        if decide (o_key o = n_key n) then
        Some (mkDiff (patched st + 1)
                (if maxNewIndexSoFar st <=? newIndex then moved st else true)
                (if maxNewIndexSoFar st <=? newIndex then newIndex
                 else maxNewIndexSoFar st)
                (<[newIndex - s2 := i + 1]> (newIndexToOldIndexMap st)),
              planPatch o newIndex n p)
        else None
    end.

(** 5.3, at [i]; [j] is the number of entries of the sequence not yet
    met. *)
Definition planMoveOrMount (s2 : nat) (st : DiffState) (sequence : list nat)
    (acc : option (nat * Plan)) (i : nat) : option (nat * Plan) :=
  '(j, p) ← acc;
  n ← news !! (s2 + i);
  let anchor := planAnchor (s2 + i + 1) p in
  if rd (newIndexToOldIndexMap st) i =? 0 then Some (j, planMount (s2 + i) n anchor p)
  else if moved st then
    if (j =? 0) || negb (i =? rd sequence (j - 1)) then
      h ← mjoin (aE p !! (s2 + i));
      Some (j, planMove h anchor p)
    else Some (j - 1, p)
  else Some (j, p).

(** The local variables of step 5 once 5.2 is over, and the plan. *)
Definition planMiddle (s2 e1 e2 : nat) (p : Plan) : option (DiffState * Plan) :=
  '(keyToNewIndexMap, p) ← planBuildMap s2 e2 p;
  foldl (planOld keyToNewIndexMap s2 e2)
    (Some (mkDiff 0 false 0 (replicate (e2 - s2) 0), p)) (seq s2 (e1 - s2)).

Definition planSequence (st : DiffState) : list nat :=
  if moved st then getSequence (newIndexToOldIndexMap st) else [].

Definition planDiff (p : Plan) : option Plan :=
  let l2 := length news in
  '(i, p) ← planSyncStart l2 0 (length olds) l2 p;
  '(e1, e2, p) ← planSyncEnd l2 i (length olds) l2 p;
  if e1 <=? i then
    if i <? e2 then
      let anchor := planAnchor e2 p in
      foldl (λ acc j, p ← acc; n ← planNew j p; Some (planMount j n anchor p))
        (Some p) (seq i (e2 - i))
    else Some p
  else if e2 <=? i then
    foldl (λ acc j, p ← acc; o ← olds !! j; Some (planUnmount o p))
      (Some p) (seq i (e1 - i))
  else
    '(st, p) ← planMiddle i e1 e2 p;
    '(_, p) ← foldl (planMoveOrMount i st (planSequence st))
                (Some (length (planSequence st), p))
                (reverse (seq 0 (e2 - i)));
    Some p.

End PlanOps.

(** The events of an operation of the plan, for items with the tag
    [tag] in the container [container]. *)
Definition opEvents (tag : string) (container : Handle) (op : PlanOp) : list Event :=
  match op with
  | OpPatch el (Some t) => [HostSetElementText el t]
  | OpPatch el None => []
  | OpMount el t anchor =>
      [HostCreateElement tag el; HostSetElementText el t; HostInsert el container anchor]
  | OpUnmount el => [HostRemove el]
  | OpMove el anchor => [HostInsert el container anchor]
  | OpWarn k => [Warn "Duplicate keys found during update:" (Some k)]
  end.

(** What a state of the renderer and a plan have in common, for the old
    items [olds] and the new items [news] under the container: the
    vnodes of the two lists, the other vnodes, which are those of [vs0],
    the children of the container, the text of
    every host node, the size of the host, which holds the container
    and the elements of the old items, and the trace since [tr0]. *)
Record Rel (tag : string) (container : Handle) (olds : list OldItem)
    (news : list NewItem) (vs0 : list VNode) (tr0 : list Event)
    (s : RState) (p : Plan) : Prop := {
  rel_old : ∀ i o, olds !! i = Some o →
    vnodes s !! o_ref o = Some (item tag (o_key o) (o_text o) (Some (o_el o)));
  rel_new : ∀ j n, news !! j = Some n →
    vnodes s !! n_ref n = Some (item tag (n_key n) (n_text n) (mjoin (aE p !! j)));
  rel_frame : ∀ r, r ∉ n_ref <$> news → vnodes s !! r = vs0 !! r;
  rel_kids : kidsOf (host s) container = aK p;
  rel_text : ∀ x, textOf (host s) x = aText p x;
  rel_next : length (host s) = aNext p;
  rel_len : length (aE p) = length news;
  rel_cont : container < aNext p;
  rel_els : ∀ i o, olds !! i = Some o → o_el o < aNext p ∧ o_el o ≠ container;
  rel_new_els : ∀ j h, aE p !! j = Some (Some h) → h ≠ container;
  rel_trace : trace s = tr0 ++ (aLog p ≫= opEvents tag container)
}.

(** *** Invariants of the plan

    [texts_ok]: a patch leaves the right text behind, either because it
    writes the text child or because items with the same key carry the
    same text.  [Good pend p]: the host elements given to new children
    are below the next free handle, pairwise distinct and distinct from
    those of the old children still to be treated ([pend]); the
    elements of the latter hold their old text, those of the former the
    text of the new child. *)

Definition texts_ok (olds : list OldItem) (news : list NewItem) (writes : bool) : Prop :=
  writes = true ∨
  ∀ o n, o ∈ olds → n ∈ news → o_key o = n_key n → o_text o = n_text n.

Record Good (olds : list OldItem) (news : list NewItem) (writes : bool)
    (pend : nat → Prop) (p : Plan) : Prop := {
  g_len : length (aE p) = length news;
  g_lt : ∀ j h, aE p !! j = Some (Some h) → h < aNext p;
  g_old : ∀ i o, olds !! i = Some o → o_el o < aNext p;
  g_inj : ∀ j j' h,
    aE p !! j = Some (Some h) → aE p !! j' = Some (Some h) → j = j';
  g_sep : ∀ j h i o,
    aE p !! j = Some (Some h) → pend i → olds !! i = Some o → o_el o ≠ h;
  g_told : ∀ i o, pend i → olds !! i = Some o → aText p (o_el o) = o_text o;
  g_tnew : texts_ok olds news writes →
    ∀ j n h, news !! j = Some n → aE p !! j = Some (Some h) → aText p h = n_text n
}.


(** Operations of the log by kind. *)
Definition isMount (op : PlanOp) : bool :=
  match op with OpMount _ _ _ => true | _ => false end.
Definition isUnmount (op : PlanOp) : bool :=
  match op with OpUnmount _ => true | _ => false end.
Definition isMove (op : PlanOp) : bool :=
  match op with OpMove _ _ => true | _ => false end.
Definition isWarnOf (k : Key) (op : PlanOp) : bool :=
  match op with OpWarn k' => bool_decide (k' = k) | _ => false end.

Definition countOps (f : PlanOp → bool) (log : list PlanOp) : nat :=
  length (filter (λ op, f op = true) log).

(** The plan between the two synchronizing loops and the rest: the new
    children before [s] and from [e2] on have the host elements of the
    old children before [s] and from [e1] on, the new children between
    have none yet, and the container has the children it had. *)
Record Synced (olds : list OldItem) (news : list NewItem) (writes : bool)
    (s e1 e2 : nat) (p : Plan) : Prop := {
  sy_s1 : s ≤ e1;
  sy_s2 : s ≤ e2;
  sy_e1 : e1 ≤ length olds;
  sy_e2 : e2 ≤ length news;
  sy_d : e1 + length news = e2 + length olds;
  sy_pre : ∀ k o, k < s → olds !! k = Some o → aE p !! k = Some (Some (o_el o));
  sy_mid : ∀ k, s ≤ k < e2 → aE p !! k = Some None;
  sy_suf : ∀ k o, e1 ≤ k → olds !! k = Some o →
    aE p !! (k + e2 - e1) = Some (Some (o_el o));
  sy_good : Good olds news writes (λ k, s ≤ k < e1) p;
  sy_K : aK p = o_el <$> olds;
  sy_kpre : ∀ k o n, k < s → olds !! k = Some o → news !! k = Some n →
    o_key o = n_key n;
  sy_ksuf : ∀ k o n, e1 ≤ k → olds !! k = Some o → news !! (k + e2 - e1) = Some n →
    o_key o = n_key n
}.

(** Nothing but patches between two plans. *)
Definition sameOps (p p' : Plan) : Prop :=
  ∀ f, (∀ e t, f (OpPatch e t) = false) →
       countOps f (aLog p') = countOps f (aLog p).

(** The host element [h] belongs to the new child at [j]. *)
Definition elOf (p : Plan) (h : Handle) (j : nat) : Prop := aE p !! j = Some (Some h).

(** The child of the container at each position is the host element of
    the new child at that position. *)
Definition Settled (news : list NewItem) (p : Plan) : Prop :=
  Forall2 (elOf p) (aK p) (seq 0 (length news)).

(** While the new children are put in place: the children of the
    container are the host elements of the new children [KJ]; those
    among them that are in place already ([Σ]) are in increasing order,
    and every new child that is in place is there. *)
Record Settling (olds : list OldItem) (news : list NewItem) (writes : bool)
    (Σ : nat → bool) (p : Plan) (KJ : list nat) : Prop := {
  st_pairs : Forall2 (elOf p) (aK p) KJ;
  st_sorted : StronglySorted lt (filter (λ j, Σ j = true) KJ);
  st_in : ∀ j, j < length news → Σ j = true → j ∈ KJ;
  st_lt : ∀ j, j ∈ KJ → j < length news;
  st_good : Good olds news writes (λ _, False) p
}.

(** The position of the anchor [(c2[k] as VNode).el] among the new
    children. *)
Definition anchorIdx (news : list NewItem) (k : nat) : option nat :=
  if k <? length news then Some k else None.

(** The host element [h] belongs to the old child at [k]. *)
Definition hdl (olds : list OldItem) (h : Handle) (k : nat) : Prop :=
  o_el <$> olds !! k = Some h.

(** Where the old child at [k] is found again when it was matched
    by one of the synchronizing loops. *)
Definition syncedAt (s e1 e2 k : nat) : nat :=
  if k <? s then k else k + e2 - e1.

(** A plan with warnings for the keys [ws] added to its log. *)
Definition withLog (p : Plan) (ws : list Key) : Plan :=
  mkPlan (aK p) (aE p) (aNext p) (aText p) (aLog p ++ (OpWarn <$> ws)).

(** The key:index map of step 5.1 once the new children from [s] up to
    [j] are in it, and the keys [ws] warned about: in development mode
    those that two of these children share. *)
Record KeyMap (news : list NewItem) (dev : bool) (s j : nat)
    (m : gmap Key nat) (ws : list Key) : Prop := {
  km_ok : ∀ k j', m !! k = Some j' →
    s ≤ j' < j ∧ ∃ n, news !! j' = Some n ∧ n_key n = k;
  km_all : ∀ j' n, s ≤ j' < j → news !! j' = Some n → is_Some (m !! n_key n);
  km_quiet : dev = false → ws = [];
  km_warn : dev = true → ∀ k, k ∈ ws ↔
    ∃ j1 j2 n1 n2, s ≤ j1 < j2 ∧ j2 < j ∧ news !! j1 = Some n1 ∧
                   news !! j2 = Some n2 ∧ n_key n1 = k ∧ n_key n2 = k
}.

(** The number of entries of [newIndexToOldIndexMap] that are set. *)
Definition nz (l : list nat) : nat := length (filter (λ v, v ≠ 0) l).

(** The old children whose host elements are still under the container
    when step 5.2 has reached the old index [i]: those matched by the
    synchronizing loops, those that 5.2 has matched, and those to
    come. *)
Definition keepM (s i : nat) (map : list nat) (k : nat) : bool :=
  (k <? s) || (i <=? k) || bool_decide (k + 1 ∈ map).

(** Step 5.2 at the old index [i], having started from the plan [p0]. *)
Record Matching (olds : list OldItem) (news : list NewItem) (writes : bool)
    (s e1 e2 : nat) (p0 : Plan) (i : nat) (st : DiffState) (p : Plan) : Prop := {
  mt_len : length (newIndexToOldIndexMap st) = e2 - s;
  mt_match : ∀ x, rd (newIndexToOldIndexMap st) x ≠ 0 →
    x < e2 - s ∧ s < rd (newIndexToOldIndexMap st) x ∧
    rd (newIndexToOldIndexMap st) x ≤ i ∧
    ∃ o n, olds !! (rd (newIndexToOldIndexMap st) x - 1) = Some o ∧
           news !! (s + x) = Some n ∧ o_key o = n_key n ∧
           elOf p (o_el o) (s + x);
  mt_zero : ∀ x, x < e2 - s → rd (newIndexToOldIndexMap st) x = 0 →
    aE p !! (s + x) = Some None;
  mt_pre : ∀ k o, k < s → olds !! k = Some o → elOf p (o_el o) k;
  mt_suf : ∀ k o, e1 ≤ k → olds !! k = Some o → elOf p (o_el o) (k + e2 - e1);
  mt_inj : ∀ x y,
    rd (newIndexToOldIndexMap st) x = rd (newIndexToOldIndexMap st) y →
    rd (newIndexToOldIndexMap st) x ≠ 0 → x = y;
  mt_K : Forall2 (hdl olds) (aK p)
           (filter (λ k, keepM s i (newIndexToOldIndexMap st) k = true)
              (seq 0 (length olds)));
  mt_patched : patched st = nz (newIndexToOldIndexMap st);
  mt_max : ∀ x, rd (newIndexToOldIndexMap st) x ≠ 0 → s + x ≤ maxNewIndexSoFar st;
  mt_mono : moved st = false → ∀ x y,
    rd (newIndexToOldIndexMap st) x ≠ 0 → rd (newIndexToOldIndexMap st) y ≠ 0 →
    x < y → rd (newIndexToOldIndexMap st) x < rd (newIndexToOldIndexMap st) y;
  mt_good : Good olds news writes (λ k, i ≤ k < e1) p;
  mt_full : NoDup (n_key <$> news) → ∀ k o j n,
    s ≤ k < i → olds !! k = Some o → s ≤ j < e2 → news !! j = Some n →
    o_key o = n_key n → rd (newIndexToOldIndexMap st) (j - s) = k + 1;
  mt_unm : countOps isUnmount (aLog p) + patched st
           = countOps isUnmount (aLog p0) + (i - s);
  mt_ops : ∀ f, (∀ e t, f (OpPatch e t) = false) → (∀ e, f (OpUnmount e) = false) →
    countOps f (aLog p) = countOps f (aLog p0)
}.

(** Step 5.3.  A position of the unresolved range is [stable] when
    its child stays where it is: it was found again, and either nothing
    has moved or the position is in the increasing sequence.  A new
    index is [placed] when its host element is where it has to be once
    the loop has come down to the position [t]. *)
Definition stable (st : DiffState) (sequence : list nat) (x : nat) : bool :=
  negb (rd (newIndexToOldIndexMap st) x =? 0) &&
  (negb (moved st) || bool_decide (x ∈ sequence)).

Definition placed (s e2 : nat) (st : DiffState) (sequence : list nat)
    (t j : nat) : bool :=
  (j <? s) || (e2 <=? j) || (s + t <=? j) || ((s <=? j) && stable st sequence (j - s)).

(** The first position of [map] that holds [v]. *)
Definition pos (map : list nat) (v : nat) : nat :=
  default 0 (fst <$> list_find (λ y, y = v) map).

(** The new index of the old child at [k] once step 5.2 is over. *)
Definition matchedAt (s e1 e2 : nat) (map : list nat) (k : nat) : nat :=
  if k <? s then k
  else if e1 <=? k then k + e2 - e1
  else s + pos map (k + 1).

(** Step 5.3 at the position [t], with [jx] entries of the sequence
    still to be met, having started from the plan [p0]. *)
Record Placing (olds : list OldItem) (news : list NewItem) (writes : bool)
    (s e2 : nat) (st : DiffState) (sequence : list nat) (p0 : Plan)
    (t jx : nat) (p : Plan) (KJ : list nat) : Prop := {
  pl_settling : Settling olds news writes (placed s e2 st sequence t) p KJ;
  pl_zero : ∀ x, x < t → rd (newIndexToOldIndexMap st) x = 0 →
    aE p !! (s + x) = Some None;
  pl_set : ∀ x, x < t → rd (newIndexToOldIndexMap st) x ≠ 0 → ∃ h, elOf p h (s + x);
  pl_jx_le : jx ≤ length sequence;
  pl_jx : moved st = true → t ≠ 0 →
    ∀ a, a < length sequence → (a < jx ↔ rd sequence a < t);
  pl_moves : countOps isMove (aLog p)
    = countOps isMove (aLog p0) +
      length (filter (λ x, rd (newIndexToOldIndexMap st) x ≠ 0 ∧
                           stable st sequence x = false)
                (seq t (e2 - s - t)));
  pl_mounts : countOps isMount (aLog p)
    = countOps isMount (aLog p0) +
      length (filter (λ x, rd (newIndexToOldIndexMap st) x = 0) (seq t (e2 - s - t)));
  pl_ops : ∀ f, (∀ e t a, f (OpMount e t a) = false) → (∀ e a, f (OpMove e a) = false) →
    countOps f (aLog p) = countOps f (aLog p0)
}.

(** The plan a diff starts from: no new child has a host element, the
    children of the container are the host elements of the old
    children, which exist and hold the texts of the old children. *)
Record Initial (olds : list OldItem) (news : list NewItem) (p : Plan) : Prop := {
  in_E : aE p = replicate (length news) None;
  in_K : aK p = o_el <$> olds;
  in_old : ∀ i o, olds !! i = Some o → o_el o < aNext p;
  in_text : ∀ i o, olds !! i = Some o → aText p (o_el o) = o_text o
}.

(** *** Lists of items in a state of the renderer

    [MountedItems]: the items are in the arena with their host elements,
    which are the children of the container, in this order, and hold
    the texts of the items.  [FreshItems]: the items are in the arena
    and have no host element. *)
Record MountedItems (tag : string) (container : Handle) (s : RState)
    (items : list OldItem) : Prop := {
  mi_vnodes : ∀ i o, items !! i = Some o →
    vnodes s !! o_ref o = Some (item tag (o_key o) (o_text o) (Some (o_el o)));
  mi_kids : kidsOf (host s) container = o_el <$> items;
  mi_els : ∀ i o, items !! i = Some o →
    o_el o < length (host s) ∧ o_el o ≠ container;
  mi_text : ∀ i o, items !! i = Some o → textOf (host s) (o_el o) = o_text o;
  mi_cont : container < length (host s);
  mi_nodup : NoDup (o_el <$> items)
}.

Definition FreshItems (tag : string) (s : RState) (items : list NewItem) : Prop :=
  ∀ j n, items !! j = Some n →
    vnodes s !! n_ref n = Some (item tag (n_key n) (n_text n) None).

(** The plan of a diff that starts in the state [s]. *)
Definition initPlan (s : RState) (olds : list OldItem) (news : list NewItem) : Plan :=
  mkPlan (o_el <$> olds) (replicate (length news) None) (length (host s))
    (textOf (host s)) [].

(** A new item once it has the host element [h]. *)
Definition asOld (n : NewItem) (h : Handle) : OldItem :=
  mkOld (n_ref n) (n_key n) (n_text n) h.

(** Host operations of a trace by kind. *)
Definition isInsertEvent (e : Event) : bool :=
  match e with HostInsert _ _ _ => true | _ => false end.
Definition isCreateEvent (e : Event) : bool :=
  match e with
  | HostCreateElement _ _ | HostCreateText _ _ | HostCreateComment _ _ => true
  | _ => false
  end.
Definition isRemoveEvent (e : Event) : bool :=
  match e with HostRemove _ => true | _ => false end.

Definition countEvents (f : Event → bool) (tr : list Event) : nat :=
  length (filter (λ e, f e = true) tr).

(** ** The element path, summarized

    The events that [patchProps] and the flagged fast path of
    [patchElement] send to the host, as functions of the old and the new
    props, and the full diff of an element, which [patchElement] falls
    back to. *)

Section Summaries.
Context `{Env}.

(** What [patchProps] sends to the host before it turns to ['value']:
    the removals of the first loop and the updates of the second. *)
Definition propRemovals (el : Handle) (oldProps newProps : option Props) : list Event :=
  propKeys oldProps ≫= λ key,
    if negb (isReservedProp key) && negb (propIn key newProps)
    then [HostPatchProp el key (propGet oldProps key) VNull] else [].

Definition propUpdates (el : Handle) (oldProps newProps : option Props) : list Event :=
  propKeys newProps ≫= λ key,
    if isReservedProp key then []
    else if negb (bool_decide (propGet newProps key = propGet oldProps key)) &&
            negb (String.eqb key "value")
         then [HostPatchProp el key (propGet oldProps key) (propGet newProps key)]
         else [].

Definition patchPropsEvents (el : Handle) (oldProps newProps : option Props)
  : list Event :=
  if propsDiffer oldProps newProps then
    propRemovals el oldProps newProps ++
    propUpdates el oldProps newProps ++
    (if propIn "value" newProps
     then [HostPatchProp el "value" (propGet oldProps "value") (propGet newProps "value")]
     else [])
  else [].

Definition dynamicPropEvents (el : Handle) (oldProps newProps : option Props)
    (keys : list string) : list Event :=
  keys ≫= λ key,
    if negb (bool_decide (propGet newProps key = propGet oldProps key)) ||
       String.eqb key "value"
    then [HostPatchProp el key (propGet oldProps key) (propGet newProps key)]
    else [].

Definition flaggedPropEvents (el : Handle) (flag : Z)
    (oldProps newProps : option Props) (keys : list string) : list Event :=
  if has flag PatchFlags.FULL_PROPS then patchPropsEvents el oldProps newProps
  else
    (if has flag PatchFlags.CLASS then
       if negb (bool_decide (propGet oldProps "class" = propGet newProps "class"))
       then [HostPatchProp el "class" VNull (propGet newProps "class")] else []
     else []) ++
    (if has flag PatchFlags.STYLE
     then [HostPatchProp el "style" (propGet oldProps "style") (propGet newProps "style")]
     else []) ++
    (if has flag PatchFlags.PROPS then dynamicPropEvents el oldProps newProps keys
     else []).

Definition beforeUpdateEvents (n2 : vref) (v2 : VNode) : list Event :=
  (if truthy (propGet (VN.props v2) "onVnodeBeforeUpdate")
   then [InvokeVNodeHook "onVnodeBeforeUpdate" n2] else []) ++
  (if VN.dirs v2 then [InvokeDirectiveHook "beforeUpdate" n2] else []).

Definition updatedEvents (n2 : vref) (v2 : VNode) : list Event :=
  if truthy (propGet (VN.props v2) "onVnodeUpdated") || VN.dirs v2
  then [QueuePostRenderEffect "updated" n2] else [].

(** What falling back to a full diff is for an element:
    reuse the host element, run the update hooks, diff the children
    without any fast path, diff the props in full. *)
Definition fullElementDiff (fuel : nat)
    (pf : option vref → vref → Handle → option Handle → option bool → M unit)
    (n1 n2 : vref) : M unit :=
  v1 <- getVNode n1;;
  el <- nonNull (VN.el v1);;
  setEl n2 (Some el);;
  v2 <- getVNode n2;;
  when (truthy (propGet (VN.props v2) "onVnodeBeforeUpdate"))
    (invokeVNodeHook "onVnodeBeforeUpdate" n2);;
  when (VN.dirs v2) (invokeDirectiveHook "beforeUpdate" n2);;
  patchChildrenFull fuel pf n1 n2 el None false;;
  patchProps el (VN.props v1) (VN.props v2);;
  when (truthy (propGet (VN.props v2) "onVnodeUpdated") || VN.dirs v2)
    (queuePostRenderEffect "updated" n2).

(** Whether [patchElement] runs the full diff of the children, and so
    writes a text child that changed: the patch is not optimized, or HMR
    is updating. *)
Definition writesText (optimized : bool) : bool :=
  negb optimized || (DEV && isHmrUpdating).

End Summaries.

(** ** What a computation is confined to

    [confined R P m]: whenever [m] returns it has left the vnodes as they
    were, changed the host tree within [R], and added to the trace
    events that satisfy [P] only. *)
Definition confined {A} (R : relation Host) (P : Event → Prop) (m : M A) : Prop :=
  ∀ s a s', m s = Ok a s' →
    vnodes s' = vnodes s ∧ R (host s) (host s') ∧
    ∃ es, trace s' = trace s ++ es ∧ Forall P es.

(** The host trees with the same nodes: none created, none dropped. *)
Definition sameNodes : relation Host := λ h h', length h' = length h.

(** Events that are no host operation, and events that are no host
    operation other than a removal. *)
Definition notHostOp (e : Event) : Prop := isHostOp e = false.
Definition removesOnly (e : Event) : Prop :=
  isHostOp e = true → ∃ el, e = HostRemove el.

(** ** Mounting an element, summarized

    The props that [mountElement] sends to the host: those that are
    neither ['value'] nor reserved, in the order of the object, and then
    ['value']; and the scope id. *)
Section MountSummaries.
Context `{Env}.

Definition mountPropEvents (el : Handle) (props : option Props) : list Event :=
  (propKeys props ≫= λ key,
     if negb (String.eqb key "value") && negb (isReservedProp key)
     then [HostPatchProp el key VNull (propGet props key)] else []) ++
  (if propIn "value" props
   then [HostPatchProp el "value" VNull (propGet props "value")] else []).

Definition scopeIdEvents (el : Handle) (scopeId : option string) : list Event :=
  match scopeId with
  | Some id => if String.eqb id EmptyString then [] else [HostSetScopeId el id]
  | None => []
  end.

(** Everything [mountElement] adds to the trace for a vnode [v] without
    array children that is mounted as [el]. *)
Definition mountElementEvents (vnode : vref) (v : VNode) (el container : Handle)
    (anchor : option Handle) : list Event :=
  let live := match VN.transition v with Some t => negb (persisted t) | None => false end in
  [HostCreateElement (asTag (VN.type v)) el] ++
  (if has (VN.shapeFlag v) ShapeFlags.TEXT_CHILDREN
   then [HostSetElementText el (asString (VN.children v))] else []) ++
  (if VN.dirs v then [InvokeDirectiveHook "created" vnode] else []) ++
  (if bool_decide (VN.props v ≠ None)
   then mountPropEvents el (VN.props v) ++
        (if truthy (propGet (VN.props v) "onVnodeBeforeMount")
         then [InvokeVNodeHook "onVnodeBeforeMount" vnode] else [])
   else []) ++
  scopeIdEvents el (VN.scopeId v) ++
  (if VN.dirs v then [InvokeDirectiveHook "beforeMount" vnode] else []) ++
  (if live then [TransitionHook "beforeEnter" vnode] else []) ++
  [HostInsert el container anchor] ++
  (if truthy (propGet (VN.props v) "onVnodeMounted") || live || VN.dirs v
   then [QueuePostRenderEffect "mounted" vnode] else []).

End MountSummaries.

(** ** Leaves

    A vnode that [patch] mounts as one host node with nothing below it:
    a Text, a Comment, or an element without array children; it is no
    block, has no transition, and is none of the shapes that belong to
    other modules. *)
Record Leaf (v : VNode) : Prop := {
  leaf_type :
    VN.type v = Text ∨ VN.type v = Comment ∨
    ((∃ t, VN.type v = Tag t) ∧ has (VN.shapeFlag v) ShapeFlags.ELEMENT = true);
  leaf_children : has (VN.shapeFlag v) ShapeFlags.ARRAY_CHILDREN = false;
  leaf_component : has (VN.shapeFlag v) ShapeFlags.COMPONENT = false;
  leaf_suspense : has (VN.shapeFlag v) ShapeFlags.SUSPENSE = false;
  leaf_teleport : has (VN.shapeFlag v) ShapeFlags.TELEPORT = false;
  leaf_keepAlive : has (VN.shapeFlag v) ShapeFlags.COMPONENT_SHOULD_KEEP_ALIVE = false;
  leaf_block : VN.dynamicChildren v = None;
  leaf_transition : VN.transition v = None
}.

(** The host node that a leaf is mounted as. *)
Definition leafHost (v : VNode) : HostNode :=
  match VN.type v with
  | Text => mkHost HText (asString (VN.children v)) None []
  | Comment => mkHost HComment (asString (VN.children v)) None []
  | _ =>
      mkHost (HElement (asTag (VN.type v)))
        (if has (VN.shapeFlag v) ShapeFlags.TEXT_CHILDREN
         then asString (VN.children v) else EmptyString) None []
  end.

(** What mounting a leaf as [el] and unmounting it with removal add to
    the trace. *)
Section LeafSummaries.
Context `{Env}.

Definition leafMountEvents (n : vref) (v : VNode) (el container : Handle)
    (anchor : option Handle) : list Event :=
  match VN.type v with
  | Text => [HostCreateText (asString (VN.children v)) el; HostInsert el container anchor]
  | Comment =>
      [HostCreateComment (asString (VN.children v)) el; HostInsert el container anchor]
  | _ => mountElementEvents n v el container anchor
  end.

Definition leafUnmountEvents (n : vref) (v : VNode) (el : Handle) : list Event :=
  let shouldInvokeDirs := has (VN.shapeFlag v) ShapeFlags.ELEMENT && VN.dirs v in
  let shouldInvokeVnodeHook := negb (isAsyncWrapper (VN.type v)) in
  (if bool_decide (VN.ref v ≠ None) then [SetRef n] else []) ++
  (if shouldInvokeVnodeHook && truthy (propGet (VN.props v) "onVnodeBeforeUnmount")
   then [InvokeVNodeHook "onVnodeBeforeUnmount" n] else []) ++
  (if shouldInvokeDirs then [InvokeDirectiveHook "beforeUnmount" n] else []) ++
  [HostRemove el] ++
  (if (shouldInvokeVnodeHook && truthy (propGet (VN.props v) "onVnodeUnmounted"))
      || shouldInvokeDirs
   then [QueuePostRenderEffect "unmounted" n] else []).

End LeafSummaries.

(** Where the host elements of the new children come from: an element
    below [n0], the size of the host when the diff started, is the
    element of an old child with the key of the new child; the others
    were made by the diff. *)
Definition Origin (olds : list OldItem) (news : list NewItem) (n0 : nat) (p : Plan)
  : Prop :=
  n0 ≤ aNext p ∧
  ∀ j h, aE p !! j = Some (Some h) →
    n0 ≤ h ∨ ∃ k o n, olds !! k = Some o ∧ news !! j = Some n ∧
                      o_key o = n_key n ∧ h = o_el o.

(** The text that the patch of an old item against a new one writes. *)
Definition textPatch (writes : bool) (on : OldItem * NewItem) : list Event :=
  if writes && negb (String.eqb (n_text on.2) (o_text on.1))
  then [HostSetElementText (o_el on.1) (n_text on.2)] else [].

(** ** Lists of leaves

    [NodesAt s cs vs]: the vnodes at the references [cs] of the arena
    are [vs].  [mountedFrom el vs]: the vnodes [vs] once they are
    mounted as the host nodes [el], [el + 1], ... *)
Definition NodesAt (s : RState) (cs : list vref) (vs : list VNode) : Prop :=
  Forall2 (λ r v, vnodes s !! r = Some v) cs vs.

Fixpoint mountedFrom (el : Handle) (vs : list VNode) : list VNode :=
  match vs with
  | [] => []
  | v :: vs' => VN.with_el (Some el) v :: mountedFrom (S el) vs'
  end.

(** What mounting a list of leaves one after the other, as the host
    nodes from [el] on, and unmounting a list of mounted leaves with
    removal add to the trace. *)
Section LeafListSummaries.
Context `{Env}.

Fixpoint leavesMountEvents (ns : list (vref * VNode)) (el container : Handle)
    (anchor : option Handle) : list Event :=
  match ns with
  | [] => []
  | nv :: ns' =>
      leafMountEvents nv.1 nv.2 el container anchor ++
      leavesMountEvents ns' (S el) container anchor
  end.

Definition leavesUnmountEvents (ns : list (vref * VNode)) : list Event :=
  ns ≫= λ nv, leafUnmountEvents nv.1 nv.2 (default 0 (VN.el nv.2)).

End LeafListSummaries.

(** ** Children without keys

    An element without a key, with a text child and nothing else, as
    [h(tag, null, text)] makes it, with its host element once it is
    mounted; an old and a new child of a list of such elements; and the
    host operations of patching an old child against a new one and of
    mounting new children as the host nodes from [el] on. *)
Definition plain (tag text : string) (el : option Handle) : VNode :=
  VN.mk (Tag tag) None None None (CText text) 0
    (Z.lor ShapeFlags.ELEMENT ShapeFlags.TEXT_CHILDREN) None None false None None
    el None.

Record OldPlain := mkOldPlain { p_ref : vref; p_text : string; p_el : Handle }.
Record NewPlain := mkNewPlain { q_ref : vref; q_text : string }.

Definition plainPatch (writes : bool) (on : OldPlain * NewPlain) : list Event :=
  if writes && negb (String.eqb (q_text on.2) (p_text on.1))
  then [HostSetElementText (p_el on.1) (q_text on.2)] else [].

Fixpoint plainMounts (tag : string) (ns : list NewPlain) (el container : Handle)
    (anchor : option Handle) : list Event :=
  match ns with
  | [] => []
  | n :: ns' =>
      [HostCreateElement tag el; HostSetElementText el (q_text n);
       HostInsert el container anchor] ++
      plainMounts tag ns' (S el) container anchor
  end.

(** ** Fragments

    A Fragment vnode with the children [cs]: it is no block, has no
    transition, and is none of the shapes that belong to other
    modules. *)
Record IsFragment (v : VNode) (cs : list vref) : Prop := {
  frag_type : VN.type v = Fragment;
  frag_children : ∃ id, VN.children v = CArr id cs;
  frag_block : VN.dynamicChildren v = None;
  frag_transition : VN.transition v = None;
  frag_component : has (VN.shapeFlag v) ShapeFlags.COMPONENT = false;
  frag_suspense : has (VN.shapeFlag v) ShapeFlags.SUSPENSE = false;
  frag_teleport : has (VN.shapeFlag v) ShapeFlags.TELEPORT = false;
  frag_keepAlive : has (VN.shapeFlag v) ShapeFlags.COMPONENT_SHOULD_KEEP_ALIVE = false
}.

(** ** Examples

    Concrete vnodes, host trees and states on which the embedding is
    run: a mounted vnode patched against a fresh one, and keyed lists of
    [li] items under a [ul]. *)

(** An element with a text child and a patch flag, unkeyed. *)
Definition flagged (tag text : string) (flag : Z) (dynamicProps : option (list string))
    (props : option Props) : VNode :=
  VN.mk (Tag tag) None None props (CText text) flag
    (Z.lor ShapeFlags.ELEMENT ShapeFlags.TEXT_CHILDREN) dynamicProps None false None None
    None None.

(** Props with an [id] and a [value]; [id] is the identity of the object. *)
Definition valueProps (id : nat) (v : string) : Props :=
  mkProps id [("id"%string, VStr "x"); ("value"%string, VStr v)].

(** The state in which [v1] (vnode 0) is mounted as host node 1, the
    only child of host node 0, and [v2] (vnode 1) is fresh. *)
Definition pairState (kind : HostKind) (v1 v2 : VNode) : RState :=
  mkState [mounted 1 v1; v2]
    [mkHost (HElement "div") "" None [1];
     mkHost kind (asString (VN.children v1)) (Some 0) []]
    [].

(** Keyed items: the old item at vnode [r] has the host element [r + 1]. *)
Definition liOld (r k : nat) (text : string) : OldItem :=
  mkOld r (KNum (Z.of_nat k)) text (S r).
Definition liNew (r k : nat) (text : string) : NewItem :=
  mkNew r (KNum (Z.of_nat k)) text.

(** The state in which the old items are the children of host node 0,
    in their order, and the new items are fresh vnodes. *)
Definition listState (tag : string) (olds : list OldItem) (news : list NewItem) : RState :=
  mkState
    (((λ o, item tag (o_key o) (o_text o) (Some (o_el o))) <$> olds)
     ++ ((λ n, item tag (n_key n) (n_text n) None) <$> news))
    (mkHost (HElement "ul") "" None (o_el <$> olds)
     :: ((λ o, mkHost (HElement tag) (o_text o) (Some 0) []) <$> olds))
    [].

(** The environment of the examples: development mode. *)
Definition devEnv : Env := exampleEnv true.

Definition abc : list OldItem := [liOld 0 1 "a"; liOld 1 2 "b"; liOld 2 3 "c"].
Definition cab : list NewItem := [liNew 3 3 "c"; liNew 4 1 "a"; liNew 5 2 "b"].
Definition acb : list NewItem := [liNew 3 1 "a"; liNew 4 3 "c"; liNew 5 2 "b"].
Definition cda : list NewItem := [liNew 3 3 "c"; liNew 4 4 "d"; liNew 5 1 "a"].
Definition abc' : list NewItem := [liNew 6 1 "a"; liNew 7 2 "b"; liNew 8 3 "c"].
Definition ab : list OldItem := [liOld 0 1 "a"; liOld 1 2 "b"].
Definition cc : list NewItem := [liNew 2 3 "c"; liNew 3 3 "c"].
Definition aa : list NewItem := [liNew 2 1 "a"; liNew 3 1 "a"].

(** Props that differ in [id] and share [title]; an element with props,
    a directive-free leaf. *)
Definition titleProps (pid : nat) (id : string) : Props :=
  mkProps pid [("key"%string, VStr "k"); ("id"%string, VStr id);
               ("title"%string, VStr "t")].

Definition abx : list NewItem := [liNew 3 1 "a"; liNew 4 2 "b"; liNew 5 3 "x"].
Definition cxa : list NewItem := [liNew 3 3 "c"; liNew 4 9 "x"; liNew 5 1 "a"].

(** A family of vnodes under a [ul] with two mounted children:
    parents with array children, with a text child and without
    children; children without keys, mounted and fresh; a fragment of
    two leaves; and the state in which the fragment is mounted in front
    of the second child. *)
Definition emptyNode (tag : string) : VNode :=
  VN.mk (Tag tag) None None None CNull 0 ShapeFlags.ELEMENT None None false None None
    None None.

Definition fragmentNode (id : nat) (items : list vref) : VNode :=
  VN.mk Fragment None None None (CArr id items) 0 ShapeFlags.ARRAY_CHILDREN None None
    false None None None None.

Definition familyState : RState :=
  mkState
    [listNode "ul" 7 [3; 4]; plain "ul" "hi" None; emptyNode "ul";
     plain "li" "a" (Some 1); plain "li" "b" (Some 2);
     listNode "ul" 8 [6; 7]; plain "li" "c" None; plain "li" "d" None;
     fragmentNode 9 [9; 10]; textNode "x"; plain "li" "y" None; plain "li" "e" None]
    [mkHost (HElement "ul") "" None [1; 2];
     mkHost (HElement "li") "a" (Some 0) []; mkHost (HElement "li") "b" (Some 0) []]
    [].

Definition fragState : RState :=
  Eval vm_compute in
    default familyState (stateOf (@patch devEnv 2 None 8 0 (Some 2) None familyState)).

Definition plainOlds : list OldPlain := [mkOldPlain 3 "a" 1; mkOldPlain 4 "b" 2].
Definition plainNews : list NewPlain :=
  [mkNewPlain 6 "c"; mkNewPlain 7 "d"; mkNewPlain 11 "e"].

(** * Properties *)

Lemma rd_lookup (l : list nat) i x : l !! i = Some x → rd l i = x.
Proof. unfold rd. by intros ->. Qed.

Lemma rd_insert_eq (l : list nat) i x : i < length l → rd (<[i:=x]> l) i = x.
Proof. intros H. unfold rd. by rewrite list_lookup_insert_eq. Qed.

Lemma rd_insert_ne (l : list nat) i j x : i ≠ j → rd (<[i:=x]> l) j = rd l j.
Proof. intros H. unfold rd. by rewrite list_lookup_insert_ne. Qed.

Lemma rd_app_l (l k : list nat) i : i < length l → rd (l ++ k) i = rd l i.
Proof. intros H. unfold rd. by rewrite lookup_app_l. Qed.

Lemma rd_app_r (l : list nat) x : rd (l ++ [x]) (length l) = x.
Proof. unfold rd. by rewrite list_lookup_middle. Qed.

Section SequenceFacts.
Implicit Types arr p result l s : list nat.

Lemma shiftr_half n : Nat.shiftr n 1 = n / 2.
Proof. rewrite Nat.shiftr_div_pow2. reflexivity. Qed.

Lemma desc_weaken arr b b' l : b ≤ b' → desc arr b l → desc arr b' l.
Proof. destruct l; simpl; [done|]. intros ? (?&?&?&?). repeat split; auto; lia. Qed.

Lemma desc_Forall arr b l : desc arr b l → Forall (λ x, x < b ∧ eligible arr x) l.
Proof.
  revert b. induction l as [|x l IH]; intros b; simpl; [constructor|].
  intros (Hx & Hnz & _ & Hl). constructor; [done|].
  eapply Forall_impl; [exact (IH _ Hl)|]. simpl. intros y [? ?]. split; [lia|done].
Qed.

Lemma desc_Sorted arr b l : desc arr b l → Sorted (flip (inc_step arr)) l.
Proof.
  revert b. induction l as [|x l IH]; intros b; simpl; [constructor|].
  intros (Hx & Hnz & Hhd & Hl). constructor; [by eapply IH|].
  destruct l as [|y l]; constructor. simpl in Hl. unfold flip, inc_step. lia.
Qed.

Lemma inc_step_flip_trans arr : Transitive (flip (inc_step arr)).
Proof. unfold flip, inc_step. intros x y z. lia. Qed.

Lemma Sorted_desc arr b l :
  Sorted (flip (inc_step arr)) l → Forall (λ x, x < b ∧ eligible arr x) l →
  desc arr b l.
Proof.
  intros Hs. apply (@Sorted_StronglySorted _ _ (inc_step_flip_trans arr)) in Hs.
  revert b. induction Hs as [|x l Hs IH Hx]; intros b Hf; simpl; [done|].
  apply Forall_cons in Hf as [[? ?] Hf].
  repeat split; auto.
  - destruct l; [done|]. apply Forall_cons in Hx as [Hx _].
    unfold flip, inc_step in Hx. lia.
  - apply IH. rewrite Forall_forall in *. intros y Hy.
    specialize (Hx y Hy). specialize (Hf y Hy). unfold flip, inc_step in Hx.
    split; [lia|tauto].
Qed.

Lemma SeedIncSubseq_desc arr s :
  SeedIncSubseq arr s ↔ desc arr (length arr) (reverse s).
Proof.
  unfold SeedIncSubseq. split.
  - intros [Hs Hf]. apply Sorted_desc.
    + by apply Sorted_reverse.
    + by apply Forall_reverse.
  - intros Hd. split.
    + apply desc_Sorted, Sorted_reverse in Hd. by rewrite reverse_involutive in Hd.
    + apply desc_Forall in Hd. by rewrite Forall_reverse in Hd.
Qed.

Lemma half_bounds u v : u < v → u ≤ (u + v) / 2 < v.
Proof.
  intros H. split.
  - apply Nat.div_le_lower_bound; lia.
  - apply Nat.Div0.div_lt_upper_bound; lia.
Qed.

Lemma bsearch_spec arr result arrI fuel u v :
  (∀ k k', k < k' → k' < length result →
     rd arr (rd result k) < rd arr (rd result k')) →
  u ≤ v → v < length result → v - u ≤ fuel →
  (∀ k, k < u → rd arr (rd result k) < arrI) →
  arrI ≤ rd arr (rd result v) →
  let r := bsearch fuel arr result arrI u v in
  r < length result ∧ (∀ k, k < r → rd arr (rd result k) < arrI) ∧
  arrI ≤ rd arr (rd result r).
Proof.
  intros Hsorted. revert u v.
  induction fuel as [|fuel IH]; intros u v Huv Hv Hfuel Hlo Hhi; cbn [bsearch].
  - destruct (Nat.ltb_spec u v); [lia|]. assert (u = v) by lia. subst.
    repeat split; auto.
  - destruct (Nat.ltb_spec u v) as [Hlt|Hge].
    + rewrite shiftr_half.
      pose proof (half_bounds u v Hlt) as Hc.
      set (c := (u + v) / 2) in *.
      destruct (Nat.ltb_spec (rd arr (rd result c)) arrI) as [Hval|Hval].
      * apply IH; try lia. intros k Hk.
        destruct (decide (k = c)) as [->|]; [done|].
        specialize (Hsorted k c). lia.
      * apply IH; try lia. done.
    + assert (u = v) by lia. subst. repeat split; auto.
Qed.

(** The iteration counter of [bsearch] is no restriction: any two
    counters of at least [v - u] give the same answer. *)
Lemma bsearch_fuel arr result arrI fuel fuel' u v :
  v - u ≤ fuel → v - u ≤ fuel' →
  bsearch fuel arr result arrI u v = bsearch fuel' arr result arrI u v.
Proof.
  revert fuel' u v. induction fuel as [|fuel IH]; intros fuel' u v H1 H2.
  - destruct fuel'; cbn [bsearch]; destruct (Nat.ltb_spec u v); try done; lia.
  - destruct fuel' as [|fuel']; cbn [bsearch]; destruct (Nat.ltb_spec u v) as [Hlt|]; try done; try lia.
    rewrite shiftr_half.
    pose proof (half_bounds u v Hlt) as Hc.
    destruct (rd arr (rd result ((u + v) / 2)) <? arrI); apply IH; lia.
Qed.

Lemma rchain_insert arr i p v n y :
  desc arr i (rchain p v n) → rchain (<[i:=y]> p) v n = rchain p v n.
Proof.
  revert i v. induction n as [|n IH]; intros i v; simpl; [done|].
  intros (Hv & _ & _ & Hd). rewrite rd_insert_ne by lia. f_equal.
  apply IH. eapply desc_weaken; [|exact Hd]. lia.
Qed.

Lemma rchain_S p v n : rchain p v (S n) = v :: rchain p (rd p v) n.
Proof. reflexivity. Qed.

Lemma rchain_length p v n : length (rchain p v n) = n.
Proof. revert v. induction n; intros; simpl; auto. Qed.

Lemma backtrack_rchain u v p result :
  u ≤ length result →
  backtrack u v p result = reverse (rchain p v u) ++ drop u result.
Proof.
  revert v result. induction u as [|u IH]; intros v result Hu; simpl.
  - by rewrite drop_0.
  - rewrite IH by (rewrite length_insert; lia).
    rewrite reverse_cons, <- app_assoc. f_equal. simpl.
    rewrite drop_insert_ge by lia. rewrite Nat.sub_diag.
    destruct (drop u result) as [|z l] eqn:E.
    + apply (f_equal length) in E. rewrite length_drop in E. simpl in E. lia.
    + simpl. f_equal. change l with (drop 1 (z :: l)). rewrite <- E.
      rewrite drop_drop. f_equal. lia.
Qed.

Lemma desc_cons arr b x y l :
  x < b → eligible arr x → rd arr y < rd arr x → desc arr x (y :: l) →
  desc arr b (x :: y :: l).
Proof. intros. cbn [desc]. split; [done|]. split; [done|]. split; done. Qed.

Lemma desc_cons_lt arr i x l : desc arr (S i) (x :: l) → x ≠ i → desc arr i (x :: l).
Proof. simpl. intros (?&?&?&?) ?. repeat split; auto. lia. Qed.

Lemma seq_inv_entry arr i p result k :
  seq_inv arr i p result → k < length result →
  rd result k < i ∧ eligible arr (rd result k).
Proof. intros Hinv Hk. destruct (inv_chain _ _ _ _ Hinv k Hk) as (?&?&_). done. Qed.

Lemma seq_inv_le arr i p result k k' :
  seq_inv arr i p result → k ≤ k' → k' < length result →
  rd arr (rd result k) ≤ rd arr (rd result k').
Proof.
  intros Hinv Hk Hk'. destruct (decide (k = k')) as [->|]; [done|].
  pose proof (inv_sorted _ _ _ _ Hinv k k'). lia.
Qed.

Lemma step_skip arr i p result :
  1 ≤ i → seq_inv arr i p result → rd arr i = 0 → seq_inv arr (S i) p result.
Proof.
  intros Hi Hinv Hz. split.
  - apply Hinv.
  - apply Hinv.
  - intros k Hk. eapply desc_weaken; [|by apply Hinv]. lia.
  - apply Hinv.
  - intros x l Hd. destruct (decide (x = i)) as [->|Hx].
    + destruct Hd as (_ & [?|?] & _); lia.
    + apply Hinv. by apply desc_cons_lt.
Qed.

Lemma step_push arr i p result :
  seq_inv arr i p result → i < length arr → rd arr i ≠ 0 →
  rd arr (rd result (length result - 1)) < rd arr i →
  seq_inv arr (S i) (<[i:=rd result (length result - 1)]> p) (result ++ [i]).
Proof.
  intros Hinv Hi Hnz Hlast.
  pose proof (inv_ne _ _ _ _ Hinv) as Hne.
  pose proof (inv_len _ _ _ _ Hinv) as Hlen.
  assert (Hall : ∀ k, k < length result → rd arr (rd result k) < rd arr i).
  { intros k Hk. pose proof (seq_inv_le _ _ _ _ k (length result - 1) Hinv). lia. }
  split.
  - by rewrite length_insert.
  - rewrite length_app. cbn [length]. lia.
  - intros k. rewrite length_app. cbn [length]. intros Hk.
    destruct (decide (k = length result)) as [->|Hk'].
    + rewrite rd_app_r. destruct (length result) as [|k0] eqn:E; [lia|].
      replace (S k0 - 1) with k0 in * by lia.
      pose proof (inv_chain _ _ _ _ Hinv k0 ltac:(lia)) as Hc.
      rewrite rchain_S, rd_insert_eq by lia.
      rewrite (rchain_insert arr) by done.
      rewrite rchain_S in *. apply desc_cons; auto. by right.
    + rewrite rd_app_l by lia.
      pose proof (inv_chain _ _ _ _ Hinv k ltac:(lia)) as Hc.
      rewrite (rchain_insert arr) by done. eapply desc_weaken; [|done]. lia.
  - intros k k' Hkk'. rewrite length_app. cbn [length]. intros Hk'.
    rewrite (rd_app_l _ _ k) by lia.
    destruct (decide (k' = length result)) as [->|].
    + rewrite rd_app_r. apply Hall. lia.
    + rewrite rd_app_l by lia. apply Hinv; lia.
  - intros x l Hd. rewrite length_app. cbn [length].
    destruct (decide (x = i)) as [->|Hx].
    + destruct l as [|y l2].
      * simpl. split; [lia|]. rewrite rd_app_l by lia.
        specialize (Hall 0). lia.
      * destruct Hd as (_ & _ & Hy & Hd).
        assert (Hd' : desc arr i (y :: l2)).
        { eapply desc_weaken; [|exact Hd]. simpl in Hd. lia. }
        apply Hinv in Hd' as [Hl2 Hv]. simpl. split; [lia|].
        destruct (decide (S (length l2) = length result)) as [->|].
        -- by rewrite rd_app_r.
        -- rewrite rd_app_l by lia. specialize (Hall (S (length l2))). lia.
    + apply desc_cons_lt in Hd; [|done]. apply Hinv in Hd as [? ?].
      split; [lia|]. by rewrite rd_app_l by lia.
Qed.

Lemma step_replace arr i p result u :
  seq_inv arr i p result → i < length arr → rd arr i ≠ 0 →
  u < length result →
  (∀ k, k < u → rd arr (rd result k) < rd arr i) →
  rd arr i < rd arr (rd result u) →
  seq_inv arr (S i) (if 0 <? u then <[i:=rd result (u - 1)]> p else p)
    (<[u:=i]> result).
Proof.
  intros Hinv Hi Hnz Hu Hlo Hhi.
  pose proof (inv_len _ _ _ _ Hinv) as Hlen.
  assert (Hp : ∀ v n, desc arr i (rchain p v n) →
     rchain (if 0 <? u then <[i:=rd result (u - 1)]> p else p) v n = rchain p v n).
  { intros v n Hd. destruct (0 <? u); [|done]. by rewrite (rchain_insert arr). }
  split.
  - destruct (0 <? u); [by rewrite length_insert|done].
  - rewrite length_insert. apply Hinv.
  - intros k. rewrite length_insert. intros Hk.
    destruct (decide (k = u)) as [->|Hku].
    + rewrite rd_insert_eq by done. rewrite rchain_S.
      destruct u as [|u0].
      * simpl. repeat split; auto. by right.
      * replace (0 <? S u0) with true by done.
        replace (S u0 - 1) with u0 by lia.
        pose proof (inv_chain _ _ _ _ Hinv u0 ltac:(lia)) as Hc.
        rewrite rd_insert_eq by lia.
        rewrite (rchain_insert arr) by done.
        rewrite rchain_S in *. apply desc_cons; auto. by right.
    + rewrite rd_insert_ne by done.
      pose proof (inv_chain _ _ _ _ Hinv k Hk) as Hc.
      rewrite Hp by done. eapply desc_weaken; [|done]. lia.
  - intros k k' Hkk'. rewrite length_insert. intros Hk'.
    destruct (decide (k = u)) as [->|Hku]; destruct (decide (k' = u)) as [->|Hku'];
      rewrite ?rd_insert_eq, ?rd_insert_ne by (done || lia); try lia.
    + pose proof (inv_sorted _ _ _ _ Hinv u k'). lia.
    + apply Hlo. lia.
    + apply Hinv; lia.
  - intros x l Hd. rewrite length_insert.
    assert (Hbelow : ∀ n, n < length result → rd arr (rd result n) < rd arr i → n < u).
    { intros n Hn Hv. destruct (decide (n < u)); [done|].
      pose proof (seq_inv_le _ _ _ _ u n Hinv). lia. }
    destruct (decide (x = i)) as [->|Hx].
    + destruct l as [|y l2].
      * simpl. split; [lia|]. destruct (decide (u = 0)) as [->|].
        -- by rewrite rd_insert_eq.
        -- rewrite rd_insert_ne by done. specialize (Hlo 0). lia.
      * destruct Hd as (_ & _ & Hy & Hd).
        assert (Hd' : desc arr i (y :: l2)).
        { eapply desc_weaken; [|exact Hd]. simpl in Hd. lia. }
        apply Hinv in Hd' as [Hl2 Hv]. simpl.
        specialize (Hbelow (length l2)). split; [lia|].
        destruct (decide (S (length l2) = u)) as [->|].
        -- by rewrite rd_insert_eq.
        -- rewrite rd_insert_ne by done. specialize (Hlo (S (length l2))). lia.
    + apply desc_cons_lt in Hd; [|done]. apply Hinv in Hd as [? ?].
      split; [lia|]. destruct (decide (length l = u)) as [E|].
      * rewrite E in *. rewrite rd_insert_eq by done. lia.
      * by rewrite rd_insert_ne.
Qed.

Lemma step_keep arr i p result u :
  seq_inv arr i p result → rd arr i ≠ 0 →
  u < length result →
  (∀ k, k < u → rd arr (rd result k) < rd arr i) →
  rd arr i = rd arr (rd result u) →
  seq_inv arr (S i) p result.
Proof.
  intros Hinv Hnz Hu Hlo Hhi. split.
  - apply Hinv.
  - apply Hinv.
  - intros k Hk. eapply desc_weaken; [|by apply Hinv]. lia.
  - apply Hinv.
  - intros x l Hd.
    assert (Hbelow : ∀ n, n < length result → rd arr (rd result n) < rd arr i → n < u).
    { intros n Hn Hv. destruct (decide (n < u)); [done|].
      pose proof (seq_inv_le _ _ _ _ u n Hinv). lia. }
    destruct (decide (x = i)) as [->|Hx].
    + destruct l as [|y l2].
      * simpl. split; [lia|]. pose proof (seq_inv_le _ _ _ _ 0 u Hinv). lia.
      * destruct Hd as (_ & _ & Hy & Hd).
        assert (Hd' : desc arr i (y :: l2)).
        { eapply desc_weaken; [|exact Hd]. simpl in Hd. lia. }
        apply Hinv in Hd' as [Hl2 Hv]. simpl.
        specialize (Hbelow (length l2)). split; [lia|].
        pose proof (seq_inv_le _ _ _ _ (S (length l2)) u Hinv). lia.
    + apply Hinv. by apply desc_cons_lt.
Qed.

Lemma step_inv arr i p result :
  1 ≤ i → seq_inv arr i p result → i < length arr →
  seq_inv arr (S i) (step arr (p, result) i).1 (step arr (p, result) i).2.
Proof.
  intros Hi1 Hinv Hi. unfold step.
  destruct (Nat.eqb_spec (rd arr i) 0) as [Hz|Hnz]; [by apply step_skip|].
  destruct (Nat.ltb_spec (rd arr (rd result (length result - 1))) (rd arr i)) as [Hlast|Hlast].
  { by apply step_push. }
  pose proof (inv_ne _ _ _ _ Hinv) as Hne.
  destruct (bsearch_spec arr result (rd arr i) (length result) 0 (length result - 1))
    as (Hu & Hlo & Hhi); try lia.
  { apply Hinv. }
  set (u := bsearch _ _ _ _ _ _) in *.
  destruct (Nat.ltb_spec (rd arr i) (rd arr (rd result u))) as [Hlt|Hge]; simpl.
  - by apply step_replace.
  - apply (step_keep arr i p result u); auto. lia.
Qed.

Lemma fold_step_inv arr n i p result :
  1 ≤ i → seq_inv arr i p result → i + n ≤ length arr →
  seq_inv arr (i + n) (foldl (step arr) (p, result) (seq i n)).1
    (foldl (step arr) (p, result) (seq i n)).2.
Proof.
  revert i p result. induction n as [|n IH]; intros i p result Hi Hinv Hn.
  - simpl. by rewrite Nat.add_0_r.
  - cbn [seq foldl]. destruct (step arr (p, result) i) as [p' result'] eqn:E.
    replace (i + S n) with (S i + n) by lia. apply IH; [lia| |lia].
    pose proof (step_inv arr i p result Hi Hinv ltac:(lia)) as H.
    by rewrite E in H.
Qed.

Lemma seq_inv_init arr : seq_inv arr 1 arr [0].
Proof.
  split; simpl.
  - done.
  - lia.
  - intros k Hk. assert (k = 0) as -> by lia. simpl. repeat split; auto. by left.
  - intros k k' ? ?. lia.
  - intros x l (Hx & _ & _ & Hl). assert (x = 0) as -> by lia.
    destruct l as [|y l]; [|simpl in Hl; lia]. simpl. split; [lia|done].
Qed.

Lemma step_first arr : step arr (arr, [0]) 0 = (arr, [0]).
Proof.
  unfold step. destruct (Nat.eqb_spec (rd arr 0) 0); [done|].
  simpl. change (rd [0] 0) with 0.
  by rewrite Nat.ltb_irrefl.
Qed.

Lemma getSequence_chain arr :
  arr ≠ [] →
  ∃ p result, seq_inv arr (length arr) p result ∧
    getSequence arr = reverse (rchain p (rd result (length result - 1)) (length result)).
Proof.
  intros Hnz. unfold getSequence.
  destruct arr as [|a arr']; [done|]. set (arr := a :: arr') in *.
  change (length arr) with (S (length arr')).
  cbn [seq foldl]. rewrite step_first.
  pose proof (fold_step_inv arr (length arr') 1 arr [0] ltac:(lia) (seq_inv_init arr)
                ltac:(simpl; lia)) as Hinv.
  destruct (foldl (step arr) (arr, [0]) (seq 1 (length arr'))) as [p result].
  simpl in Hinv. exists p, result. split; [done|].
  rewrite backtrack_rchain by done. by rewrite drop_all, app_nil_r.
Qed.

(** On a non-empty array [getSequence] returns a longest increasing
    selection among the eligible positions. *)
Lemma getSequence_seed_longest arr :
  arr ≠ [] →
  SeedIncSubseq arr (getSequence arr) ∧
  ∀ s', SeedIncSubseq arr s' → length s' ≤ length (getSequence arr).
Proof.
  intros Hnz. destruct (getSequence_chain arr Hnz) as (p & result & Hinv & ->).
  pose proof (inv_ne _ _ _ _ Hinv) as Hne.
  split.
  - apply SeedIncSubseq_desc. rewrite reverse_involutive.
    pose proof (inv_chain _ _ _ _ Hinv (length result - 1) ltac:(lia)) as Hc.
    by replace (S (length result - 1)) with (length result) in Hc by lia.
  - intros s' Hs'. rewrite length_reverse, rchain_length.
    apply SeedIncSubseq_desc in Hs'. rewrite <- (length_reverse s').
    destruct (reverse s') as [|x l]; [simpl; lia|].
    apply Hinv in Hs' as [? _]. simpl. lia.
Qed.

Lemma SeedIncSubseq_nonzero arr s :
  rd arr 0 ≠ 0 → SeedIncSubseq arr s ↔ IncSubseq arr s.
Proof.
  intros Hnz. unfold SeedIncSubseq, IncSubseq, eligible.
  split; intros [Hs Hf]; (split; [done|]); eapply Forall_impl; try exact Hf;
    simpl; intros x [? ?]; (split; [done|]).
  - destruct H0 as [->|]; done.
  - by right.
Qed.

(** On an array whose first entry is not zero, [getSequence] returns the
    positions of a longest increasing subsequence of the non-zero
    entries. *)
Lemma getSequence_longest arr :
  rd arr 0 ≠ 0 → LongestIncSubseq arr (getSequence arr).
Proof.
  intros Hnz. assert (arr ≠ []) as Hne by (by intros ->).
  destruct (getSequence_seed_longest arr Hne) as [Hs Hmax]. split.
  - by apply SeedIncSubseq_nonzero.
  - intros s' Hs'. apply Hmax. by apply SeedIncSubseq_nonzero.
Qed.


End SequenceFacts.

(** ** The effect monad *)

Section MonadFacts.

Lemma bind_ok {A B} (m : M A) (f : A → M B) s a s1 :
  m s = Ok a s1 → bind m f s = f a s1.
Proof. unfold bind. by intros ->. Qed.

Lemma getVNode_ok s r v : vnodes s !! r = Some v → getVNode r s = Ok v s.
Proof. unfold getVNode. by intros ->. Qed.

Lemma modVNode_ok s r v f :
  vnodes s !! r = Some v →
  modVNode r f s = Ok tt (mkState (<[r:=f v]> (vnodes s)) (host s) (trace s)).
Proof. unfold modVNode. by intros ->. Qed.

Lemma bind_ret {A B} (a : A) (f : A → M B) s : bind (ret a) f s = f a s.
Proof. done. Qed.

Lemma acts_ok m fh es s :
  acts m fh es → m s = Ok tt (mkState (vnodes s) (fh (host s)) (trace s ++ es)).
Proof. intros Hm. apply Hm. Qed.

Lemma when_true m s : when true m s = m s.
Proof. done. Qed.

Lemma when_false m s : when false m s = Ok tt s.
Proof. done. Qed.

Lemma acts_bind m k fh1 fh2 es1 es2 :
  acts m fh1 es1 → acts k fh2 es2 → acts (m;; k) (fh2 ∘ fh1) (es1 ++ es2).
Proof.
  intros Hm Hk s. unfold bind. rewrite Hm, Hk. cbn. by rewrite app_assoc.
Qed.

Lemma acts_emits m es : emits m es → acts m id es.
Proof. done. Qed.

Lemma emits_ret : emits (ret tt) [].
Proof. intros [vs h tr]. unfold ret. cbn. by rewrite app_nil_r. Qed.

Lemma emits_emit e : emits (emit e) [e].
Proof. by intros s. Qed.

Lemma emits_bind m k es1 es2 :
  emits m es1 → emits k es2 → emits (m;; k) (es1 ++ es2).
Proof. intros Hm Hk. apply (acts_bind m k id id); done. Qed.

Lemma emits_when (b : bool) m es :
  emits m es → emits (when b m) (if b then es else []).
Proof. destruct b; [done|]. intros _. apply emits_ret. Qed.

Lemma emits_if (b : bool) m1 m2 es1 es2 :
  emits m1 es1 → emits m2 es2 → emits (if b then m1 else m2) (if b then es1 else es2).
Proof. by destruct b. Qed.

Lemma emits_forM {A} (l : list A) (f : A → M unit) (g : A → list Event) :
  (∀ x, emits (f x) (g x)) → emits (forM l f) (l ≫= g).
Proof.
  intros Hf. induction l as [|x l IH]; cbn [forM].
  - apply emits_ret.
  - rewrite bind_cons. by apply emits_bind.
Qed.

Lemma keeps_ret {A} (a : A) : keepsVNodes (ret a).
Proof. intros s a' s' [= _ <-]. done. Qed.

Lemma keeps_fail {A} (m : M A) : (∀ s a s', m s ≠ Ok a s') → keepsVNodes m.
Proof. intros Hm s a s' E. by destruct (Hm s a s'). Qed.

Lemma keeps_bind {A B} (m : M A) (f : A → M B) :
  keepsVNodes m → (∀ a, keepsVNodes (f a)) → keepsVNodes (bind m f).
Proof.
  intros Hm Hf s b s'. unfold bind. destruct (m s) as [a s1| | |] eqn:E; try done.
  intros Hb. rewrite (Hf _ _ _ _ Hb). by eapply Hm.
Qed.

Lemma keeps_emit e : keepsVNodes (emit e).
Proof. by intros s a s' [= _ <-]. Qed.

Lemma keeps_modHost f : keepsVNodes (modHost f).
Proof. by intros s a s' [= _ <-]. Qed.

Lemma keeps_getHost : keepsVNodes getHost.
Proof. by intros s a s' [= _ <-]. Qed.

Lemma keeps_getVNode r : keepsVNodes (getVNode r).
Proof. intros s a s'. unfold getVNode. destruct (_ !! _); [|done]. by intros [= _ <-]. Qed.

Lemma keeps_nonNull {A} (x : option A) : keepsVNodes (nonNull x).
Proof. destruct x; [apply keeps_ret|]. by intros s a s'. Qed.

Lemma keeps_when (b : bool) m : keepsVNodes m → keepsVNodes (when b m).
Proof. destruct b; [done|]. intros _. apply keeps_ret. Qed.

Lemma keeps_if {A} (b : bool) (m1 m2 : M A) :
  keepsVNodes m1 → keepsVNodes m2 → keepsVNodes (if b then m1 else m2).
Proof. by destruct b. Qed.

Lemma keeps_forM {A} (l : list A) (f : A → M unit) :
  (∀ x, keepsVNodes (f x)) → keepsVNodes (forM l f).
Proof.
  intros Hf. induction l as [|x l IH]; cbn [forM].
  - apply keeps_ret.
  - apply keeps_bind; [apply Hf|by intros _].
Qed.

Lemma keeps_starved {A} : keepsVNodes (@starved A).
Proof. by intros s a s'. Qed.

Lemma keeps_beyond {A} : keepsVNodes (@beyond A).
Proof. by intros s a s'. Qed.

Lemma acts_actsAt vs m fh es : acts m fh es → actsAt vs m fh es.
Proof. intros Hm s <-. apply Hm. Qed.

Lemma actsAt_bind vs m k fh1 fh2 es1 es2 :
  actsAt vs m fh1 es1 → actsAt vs k fh2 es2 →
  actsAt vs (m;; k) (fh2 ∘ fh1) (es1 ++ es2).
Proof.
  intros Hm Hk s Hs. unfold bind. rewrite (Hm s Hs). rewrite Hk by done. cbn.
  by rewrite app_assoc.
Qed.

Lemma actsAt_get vs r v (k : VNode → M unit) fh es :
  vs !! r = Some v → actsAt vs (k v) fh es →
  actsAt vs (bind (getVNode r) k) fh es.
Proof.
  intros Hr Hk s Hs. subst vs. rewrite (bind_ok _ _ _ _ _ (getVNode_ok _ _ _ Hr)).
  by apply Hk.
Qed.

Lemma actsAt_if vs (b : bool) m1 m2 f1 f2 es1 es2 :
  actsAt vs m1 f1 es1 → actsAt vs m2 f2 es2 →
  actsAt vs (if b then m1 else m2) (if b then f1 else f2) (if b then es1 else es2).
Proof. by destruct b. Qed.

Lemma actsAt_when vs (b : bool) m f es :
  actsAt vs m f es → actsAt vs (when b m) (if b then f else id) (if b then es else []).
Proof. destruct b; [done|]. intros _. apply acts_actsAt, emits_ret. Qed.

(** *** The host tree *)

Lemma kidsOf_detach h el c : kidsOf (host_detach h el) c = without el (kidsOf h c).
Proof.
  unfold kidsOf, host_detach.
  destruct (decide (c = el)) as [->|Hne].
  - rewrite list_lookup_alter_eq, list_lookup_fmap. by destruct (h !! el).
  - rewrite list_lookup_alter_ne, list_lookup_fmap by done. by destruct (h !! c).
Qed.

Lemma length_detach h el : length (host_detach h el) = length h.
Proof. unfold host_detach. by rewrite length_alter, length_fmap. Qed.

Lemma length_host_insert h el p a : length (host_insert h el p a) = length h.
Proof. unfold host_insert. by rewrite !length_alter, length_detach. Qed.

Lemma kidsOf_insert h el p a :
  p < length h →
  kidsOf (host_insert h el p a) p = insertBefore a el (without el (kidsOf h p)).
Proof.
  intros Hp. unfold host_insert.
  assert (Hk : kidsOf (alter (λ n, set_hkids (insertBefore a el (hkids n)) n) p
                         (host_detach h el)) p
               = insertBefore a el (without el (kidsOf h p))).
  { rewrite <- kidsOf_detach. unfold kidsOf at 1. rewrite list_lookup_alter_eq.
    unfold kidsOf. destruct (host_detach h el !! p) eqn:E; [done|].
    apply lookup_ge_None in E. rewrite length_detach in E. lia. }
  rewrite <- Hk. unfold kidsOf.
  destruct (decide (p = el)) as [->|Hne].
  - rewrite list_lookup_alter_eq. by destruct (_ !! el).
  - by rewrite list_lookup_alter_ne.
Qed.

Lemma kidsOf_setElementText h el t c :
  c ≠ el → kidsOf (host_setElementText h el t) c = kidsOf h c.
Proof.
  intros Hne. unfold host_setElementText, kidsOf at 1.
  rewrite list_lookup_alter_ne by done.
  generalize (kidsOf h el). intros l. induction l as [|k l IH]; cbn [foldr]; [done|].
  destruct (decide (c = k)) as [->|Hk].
  - rewrite list_lookup_alter_eq. rewrite <- IH.
    by destruct (foldr _ _ _ !! k).
  - by rewrite list_lookup_alter_ne.
Qed.

Lemma kidsOf_app h n c : c < length h → kidsOf (h ++ [n]) c = kidsOf h c.
Proof. intros Hc. unfold kidsOf. by rewrite lookup_app_l. Qed.

Lemma length_setElementText h el t : length (host_setElementText h el t) = length h.
Proof.
  unfold host_setElementText. rewrite length_alter.
  generalize (kidsOf h el). intros l. induction l as [|k l IH]; cbn [foldr]; [done|].
  by rewrite length_alter.
Qed.

End MonadFacts.

(** Running a computation on a state: unfold the primitives, resolve
    the arena reads against what is known, and reduce. *)
Ltac mlookup :=
  first
    [ rewrite list_lookup_insert_eq by (rewrite ?length_insert; eauto using lookup_lt_Some)
    | rewrite list_lookup_insert_ne by congruence
    | match goal with
      | H : ?l !! ?r = Some _ |- context [?l !! ?r] => rewrite H
      end ].

Ltac munfold :=
  unfold bind, ret, when, throw, nonNull, getVNode, setEl, setAnchor,
    setDynamicChildren, setChildren, modVNode, emit, modHost, getHost.

Ltac mrun :=
  munfold;
  repeat (cbn [vnodes host trace];
          first [ mlookup | progress cbn beta iota | progress cbn [negb andb orb] ]).

(** ** C5: patching a vnode against itself *)

Section Dispatcher.
Context `{Env}.

(** C5.  [patch(n, n, container)] returns at once: no host operation is
    issued, and the vnodes, the host tree and the trace are what they
    were.  (The vnode has to exist; the call needs one level of the
    recursion budget.) *)
Theorem patch_same_reference fuel n container anchor optimized s v :
  vnodes s !! n = Some v →
  patch (S fuel) (Some n) n container anchor optimized s = Ok tt s.
Proof.
  intros Hn. cbn [patch]. unfold patchStep.
  rewrite (bind_ok _ _ _ _ _ (getVNode_ok _ _ _ Hn)).
  by rewrite bool_decide_eq_true_2.
Qed.

(** C8 (as amended).  Patching a Text or Comment vnode against an old
    one of the same type reuses the old host handle and creates no host
    node.  For Text, [setText] is called exactly when the two strings
    differ; for Comment nothing is ever written to the host, whatever
    the contents ("there's no support for dynamic comments"). *)
Theorem patch_text_comment_reuse fuel n1 n2 container anchor optimized s v1 v2 el :
  n1 ≠ n2 →
  vnodes s !! n1 = Some v1 → vnodes s !! n2 = Some v2 →
  VN.type v2 = Text ∨ VN.type v2 = Comment →
  isSameVNodeType v1 v2 = true →
  VN.el v1 = Some el →
  ∃ s', patch (S fuel) (Some n1) n2 container anchor optimized s = Ok tt s' ∧
    VN.el <$> vnodes s' !! n2 = Some (Some el) ∧
    length (host s') = length (host s) ∧
    trace s' = trace s ++
      (if bool_decide (VN.type v2 = Text) &&
          childrenDiffer (VN.children v2) (VN.children v1)
       then [HostSetText el (asString (VN.children v2))] else []) ∧
    (VN.type v2 = Comment → host s' = host s).
Proof.
  intros Hne H1 H2 Hty Hsame Hel.
  cbn [patch]. unfold patchStep.
  rewrite (bind_ok _ _ _ _ _ (getVNode_ok _ _ _ H2)).
  rewrite bool_decide_eq_false_2 by congruence.
  unfold bind at 1. unfold bind at 1.
  rewrite (getVNode_ok _ _ _ H1), Hsame. cbn [negb ret].
  destruct (VN.patchFlag v2 =? PatchFlags.BAIL)%Z;
    destruct Hty as [Hty|Hty]; rewrite Hty;
    unfold processText, processCommentNode, hostSetText; mrun;
    rewrite ?Hel; mrun;
    rewrite ?bool_decide_eq_true_2 by done; cbn [andb];
    try destruct (childrenDiffer _ _); mrun;
    (eexists; split; [reflexivity|]).
  all: mrun.
  all: rewrite ?app_nil_r, ?Hel; repeat split; rewrite ?length_alter; try done; try congruence.
Qed.

(** *** Full prop diff *)

Lemma patchProps_emits el oldProps newProps :
  emits (patchProps el oldProps newProps)
    (if propsDiffer oldProps newProps then
       (propRemovals el oldProps newProps ++
        propUpdates el oldProps newProps ++
        if propIn "value" newProps
        then [HostPatchProp el "value" (propGet oldProps "value") (propGet newProps "value")]
        else [])
     else []).
Proof.
  unfold patchProps. apply emits_when.
  apply emits_bind; [|apply emits_bind].
  - unfold propRemovals. apply emits_forM. intros key.
    apply emits_when, emits_emit.
  - unfold propUpdates. apply emits_forM. intros key.
    apply emits_if; [apply emits_ret|]. apply emits_when, emits_emit.
  - apply emits_when, emits_emit.
Qed.

Lemma propRemovals_not_value el oldProps newProps e :
  propIn "value" newProps = true →
  e ∈ propRemovals el oldProps newProps →
  ∃ key prev next, e = HostPatchProp el key prev next ∧ key ≠ "value"%string.
Proof.
  intros Hv. unfold propRemovals. rewrite list_elem_of_bind.
  intros (key & He & _).
  destruct (isReservedProp key); cbn in He; [by apply elem_of_nil in He|].
  destruct (propIn key newProps) eqn:E; cbn in He; [by apply elem_of_nil in He|].
  apply list_elem_of_singleton in He as ->.
  eexists _, _, _. split; [done|]. intros ->. congruence.
Qed.

Lemma propUpdates_not_value el oldProps newProps e :
  e ∈ propUpdates el oldProps newProps →
  ∃ key prev next, e = HostPatchProp el key prev next ∧ key ≠ "value"%string.
Proof.
  unfold propUpdates. rewrite list_elem_of_bind.
  intros (key & He & _).
  destruct (isReservedProp key); [by apply elem_of_nil in He|].
  destruct (bool_decide _); cbn in He; [by apply elem_of_nil in He|].
  destruct (String.eqb_spec key "value"); cbn in He; [by apply elem_of_nil in He|].
  apply list_elem_of_singleton in He as ->.
  eexists _, _, _. split; done.
Qed.

(** *** The element fast path *)

Lemma acts_if (b : bool) m1 m2 f1 f2 es1 es2 :
  acts m1 f1 es1 → acts m2 f2 es2 →
  acts (if b then m1 else m2) (if b then f1 else f2) (if b then es1 else es2).
Proof. by destruct b. Qed.

Lemma acts_when (b : bool) m f es :
  acts m f es → acts (when b m) (if b then f else id) (if b then es else []).
Proof. destruct b; [done|]. intros _. apply emits_ret. Qed.

Lemma hostSetElementText_acts el t :
  acts (hostSetElementText el t) (λ h, host_setElementText h el t)
    [HostSetElementText el t].
Proof. by intros s. Qed.

(** The part of [patchElement] that is steered by the patch flag. *)
Lemma flagged_actsAt vs n1 n2 v1 v2 el flag oldProps newProps (b : bool) :
  vs !! n1 = Some v1 → vs !! n2 = Some v2 →
  (has flag PatchFlags.PROPS = true → is_Some (VN.dynamicProps v2)) →
  ∃ fh,
  (∀ h, fh h = if (0 <? flag)%Z && has flag PatchFlags.TEXT &&
                  childrenDiffer (VN.children v1) (VN.children v2)
               then host_setElementText h el (asString (VN.children v2)) else h) ∧
  actsAt vs
    (if (0 <? flag)%Z then
       (if has flag PatchFlags.FULL_PROPS then patchProps el oldProps newProps
        else
          when (has flag PatchFlags.CLASS)
            (when (negb (bool_decide (propGet oldProps "class" = propGet newProps "class")))
               (hostPatchProp el "class" VNull (propGet newProps "class")));;
          when (has flag PatchFlags.STYLE)
            (hostPatchProp el "style" (propGet oldProps "style") (propGet newProps "style"));;
          when (has flag PatchFlags.PROPS)
            (v2 <- getVNode n2;;
             propsToUpdate <- nonNull (VN.dynamicProps v2);;
             forM propsToUpdate (λ key,
               let prev := propGet oldProps key in
               let next := propGet newProps key in
               when (negb (bool_decide (next = prev)) || String.eqb key "value")
                 (hostPatchProp el key prev next))));;
       when (has flag PatchFlags.TEXT)
         (v1 <- getVNode n1;;
          v2 <- getVNode n2;;
          when (childrenDiffer (VN.children v1) (VN.children v2))
            (hostSetElementText el (asString (VN.children v2))))
     else if b then patchProps el oldProps newProps
     else ret tt)
    fh
    (if (0 <? flag)%Z then
       flaggedPropEvents el flag oldProps newProps (default [] (VN.dynamicProps v2)) ++
       (if has flag PatchFlags.TEXT && childrenDiffer (VN.children v1) (VN.children v2)
        then [HostSetElementText el (asString (VN.children v2))] else [])
     else if b then patchPropsEvents el oldProps newProps else []).
Proof.
  intros H1 H2 Hdyn. eexists. split; last first.
  - apply actsAt_if.
    + apply actsAt_bind.
      * unfold flaggedPropEvents.
        apply (actsAt_if vs (has flag PatchFlags.FULL_PROPS) _ _ id id).
        { apply acts_actsAt, patchProps_emits. }
        apply (actsAt_bind vs _ _ id id); [|apply (actsAt_bind vs _ _ id id)].
        -- apply acts_actsAt, emits_when, emits_when, emits_emit.
        -- apply acts_actsAt, emits_when, emits_emit.
        -- destruct (has flag PatchFlags.PROPS) eqn:E; [|apply acts_actsAt, emits_ret].
           destruct Hdyn as [keys Hkeys]; [done|]. cbn [when].
           apply actsAt_get with v2; [done|]. rewrite Hkeys. cbn [nonNull default].
           intros s Hs. rewrite bind_ret. revert s Hs. apply acts_actsAt.
           apply emits_forM. intros key. cbv zeta. apply emits_when, emits_emit.
      * instantiate (1 := if has flag PatchFlags.TEXT &&
                             childrenDiffer (VN.children v1) (VN.children v2)
                          then λ h, host_setElementText h el (asString (VN.children v2))
                          else id).
        destruct (has flag PatchFlags.TEXT); [|apply acts_actsAt, emits_ret].
        cbn [andb when]. apply actsAt_get with v1; [done|].
        apply actsAt_get with v2; [done|].
        apply actsAt_when, acts_actsAt, hostSetElementText_acts.
    + instantiate (1 := id). apply acts_actsAt.
      apply (emits_if b); [apply patchProps_emits|apply emits_ret].
  - intros h. cbn. destruct (0 <? flag)%Z; [|done]. cbn.
    by destruct (has flag PatchFlags.TEXT && childrenDiffer _ _),
      (has flag PatchFlags.FULL_PROPS).
Qed.

(** [patchElement] when the children need no work: the new vnode is a
    block without dynamic children, or the patch is optimized and the
    vnode carries no [dynamicChildren]. *)
Lemma patchElement_fast fuel pf n1 n2 optimized s v1 v2 el :
  n1 ≠ n2 →
  vnodes s !! n1 = Some v1 → vnodes s !! n2 = Some v2 →
  VN.el v1 = Some el →
  DEV && isHmrUpdating = false →
  VN.dynamicChildren v2 = Some [] ∨ (VN.dynamicChildren v2 = None ∧ optimized = true) →
  let flag := Z.lor (VN.patchFlag v2) (Z.land (VN.patchFlag v1) PatchFlags.FULL_PROPS) in
  (has flag PatchFlags.PROPS = true → is_Some (VN.dynamicProps v2)) →
  let textChanged := (0 <? flag)%Z && has flag PatchFlags.TEXT &&
                     childrenDiffer (VN.children v1) (VN.children v2) in
  let txt := asString (VN.children v2) in
  patchElement fuel pf n1 n2 optimized s =
    Ok tt (mkState (<[n2:=VN.with_el (Some el) v2]> (vnodes s))
             (if textChanged then host_setElementText (host s) el txt else host s)
             (trace s ++ beforeUpdateEvents n2 v2 ++
              (if (0 <? flag)%Z
               then flaggedPropEvents el flag (VN.props v1) (VN.props v2)
                      (default [] (VN.dynamicProps v2)) ++
                    (if has flag PatchFlags.TEXT &&
                        childrenDiffer (VN.children v1) (VN.children v2)
                     then [HostSetElementText el txt] else [])
               else []) ++
              updatedEvents n2 v2)).
Proof.
  intros Hne H1 H2 Hel Hhmr Hdc flag Hdyn textChanged txt.
  unfold patchElement.
  rewrite (bind_ok _ _ _ _ _ (getVNode_ok _ _ _ H1)), Hel.
  cbn [nonNull]. rewrite bind_ret.
  unfold setEl. rewrite (bind_ok _ _ _ _ _ (modVNode_ok _ _ _ _ H2)).
  set (s1 := mkState _ _ _).
  assert (H1' : vnodes s1 !! n1 = Some v1).
  { subst s1. cbn. by rewrite list_lookup_insert_ne. }
  assert (H2' : vnodes s1 !! n2 = Some (VN.with_el (Some el) v2)).
  { subst s1. cbn. rewrite list_lookup_insert_eq; eauto using lookup_lt_Some. }
  rewrite (bind_ok _ _ _ _ _ (getVNode_ok _ _ _ H2')).
  cbn [VN.props VN.dirs VN.patchFlag VN.dynamicChildren VN.with_el VN.children VN.dynamicProps].
  rewrite Hhmr. cbv zeta. fold flag.
  unfold invokeVNodeHook, invokeDirectiveHook, queuePostRenderEffect.
  rewrite (bind_ok _ _ _ _ _ (acts_ok _ _ _ _ (emits_when _ _ _ (emits_emit _)))).
  rewrite (bind_ok _ _ _ _ _ (acts_ok _ _ _ _ (emits_when _ _ _ (emits_emit _)))).
  assert (Hkids : ∀ s0,
    match VN.dynamicChildren v2 with
    | Some dynamicChildren => patchBlockChildren pf (VN.dynamicChildren v1) dynamicChildren el
    | None => when (negb optimized) (patchChildren fuel pf n1 n2 el None false)
    end s0 = Ok tt s0).
  { intros s0. destruct Hdc as [->|[-> ->]]; done. }
  rewrite (bind_ok _ _ _ _ _ (Hkids _)).
  destruct (flagged_actsAt (vnodes s1) n1 n2 v1 (VN.with_el (Some el) v2) el flag
              (VN.props v1) (VN.props v2)
              (negb optimized && bool_decide (VN.dynamicChildren v2 = None))
              H1' H2' Hdyn)
    as (fh & Hfh & Hacts).
  cbn [VN.props VN.dirs VN.patchFlag VN.dynamicChildren VN.with_el VN.children
       VN.dynamicProps] in Hacts, Hfh.
  erewrite bind_ok; [|apply Hacts; reflexivity].
  rewrite (acts_ok _ _ _ _ (emits_when _ _ _ (emits_emit _))).
  assert (Hb : negb optimized && bool_decide (VN.dynamicChildren v2 = None) = false).
  { destruct Hdc as [->|[-> ->]]; [|done].
    rewrite bool_decide_eq_false_2 by done. apply andb_false_r. }
  rewrite Hb, Hfh. subst s1. cbn [vnodes host trace id].
  unfold beforeUpdateEvents, updatedEvents. fold textChanged. fold txt.
  f_equal. f_equal. rewrite <- !app_assoc. done.
Qed.

Lemma has_false_land flags bit : has flags bit = false → Z.land flags bit = 0%Z.
Proof. unfold has. intros Hh. apply negb_false_iff in Hh. by apply Z.eqb_eq in Hh. Qed.

Lemma hostOps_app l1 l2 : hostOps (l1 ++ l2) = hostOps l1 ++ hostOps l2.
Proof. unfold hostOps. apply filter_app. Qed.

Lemma hostOps_beforeUpdate n2 v2 : hostOps (beforeUpdateEvents n2 v2) = [].
Proof. unfold beforeUpdateEvents. by destruct (truthy _), (VN.dirs v2). Qed.

Lemma hostOps_updated n2 v2 : hostOps (updatedEvents n2 v2) = [].
Proof. unfold updatedEvents. by destruct (_ || _). Qed.



(** *** BAIL *)

Lemma patchChildren_bail fuel pf n1 n2 container anchor optimized s v1 v2 :
  vnodes s !! n1 = Some v1 → vnodes s !! n2 = Some v2 →
  (VN.patchFlag v2 <= 0)%Z →
  patchChildren fuel pf n1 n2 container anchor optimized s =
  patchChildrenFull fuel pf n1 n2 container anchor optimized s.
Proof.
  intros H1 H2 Hflag. unfold patchChildren.
  rewrite (bind_ok _ _ _ _ _ (getVNode_ok _ _ _ H1)).
  rewrite (bind_ok _ _ _ _ _ (getVNode_ok _ _ _ H2)).
  cbv zeta. by replace (0 <? VN.patchFlag v2)%Z with false by lia.
Qed.

Lemma lor_bail_nonpos x : (Z.lor PatchFlags.BAIL x <= 0)%Z.
Proof.
  assert (Z.lor PatchFlags.BAIL x < 0)%Z; [|lia].
  apply Z.lor_neg. left. done.
Qed.


(** *** Replacing a vnode of another type *)

Create HintDb keeps discriminated.
Hint Resolve keeps_ret keeps_emit keeps_modHost keeps_getHost keeps_getVNode
  keeps_nonNull keeps_starved keeps_beyond : keeps.

Ltac keeps_tac :=
  repeat first
    [ progress intros
    | solve [auto with keeps]
    | apply keeps_bind
    | apply keeps_when
    | apply keeps_if
    | apply keeps_forM ].

Lemma keeps_hostRemove el : keepsVNodes (hostRemove el).
Proof. unfold hostRemove. keeps_tac. Qed.

Lemma keeps_hostNextSibling el : keepsVNodes (hostNextSibling el).
Proof. unfold hostNextSibling. keeps_tac. Qed.

Hint Resolve keeps_hostRemove keeps_hostNextSibling : keeps.

Lemma keeps_getNextHostNode n : keepsVNodes (getNextHostNode n).
Proof. unfold getNextHostNode. keeps_tac. Qed.

Lemma keeps_removeFragmentLoop fuel cur ending :
  keepsVNodes (removeFragmentLoop fuel cur ending).
Proof.
  revert cur. induction fuel as [|fuel IH]; intros cur; cbn [removeFragmentLoop];
    keeps_tac.
Qed.

Lemma keeps_remove fuel vnode : keepsVNodes (remove fuel vnode).
Proof.
  revert vnode. induction fuel as [|fuel IH]; intros vnode; cbn [remove];
    [auto with keeps|].
  unfold removeFragment, queuePostRenderEffect.
  pose proof keeps_removeFragmentLoop. keeps_tac.
Qed.

Lemma keeps_unmount fuel vnode doRemove optimized :
  keepsVNodes (unmount fuel vnode doRemove optimized).
Proof.
  revert vnode doRemove optimized.
  induction fuel as [|fuel IH]; intros vnode doRemove optimized; cbn [unmount];
    [auto with keeps|].
  unfold unmountChildrenWith, invokeVNodeHook, invokeDirectiveHook,
    queuePostRenderEffect.
  pose proof (keeps_remove (S fuel)). keeps_tac.
Qed.


End Dispatcher.

(** ** The keyed diff on lists of items *)

Section HostText.

Lemma textOf_detach h el x : textOf (host_detach h el) x = textOf h x.
Proof.
  unfold textOf, host_detach.
  destruct (decide (x = el)) as [->|Hne].
  - rewrite list_lookup_alter_eq, list_lookup_fmap. by destruct (h !! el).
  - rewrite list_lookup_alter_ne, list_lookup_fmap by done. by destruct (h !! x).
Qed.

Lemma textOf_alter_kids h f p x :
  (∀ n, htext (f n) = htext n) → textOf (alter f p h) x = textOf h x.
Proof.
  intros Hf. unfold textOf. destruct (decide (x = p)) as [->|Hne].
  - rewrite list_lookup_alter_eq. destruct (h !! p); cbn; [apply Hf|done].
  - by rewrite list_lookup_alter_ne.
Qed.

Lemma textOf_insert h el p a x : textOf (host_insert h el p a) x = textOf h x.
Proof.
  unfold host_insert. rewrite !textOf_alter_kids by done. apply textOf_detach.
Qed.

Lemma textOf_setElementText h el t x :
  el < length h →
  textOf (host_setElementText h el t) x = setText el t (textOf h) x.
Proof.
  intros Hel. unfold host_setElementText, setText.
  assert (Hl : ∀ l y, textOf (foldr (λ k h', alter (set_hparent None) k h') h l) y
                      = textOf h y).
  { intros l y. induction l as [|k l IH]; cbn [foldr]; [done|].
    by rewrite textOf_alter_kids. }
  assert (Hn : ∀ l, length (foldr (λ k h', alter (set_hparent None) k h') h l)
                    = length h).
  { intros l. induction l as [|k l IH]; cbn [foldr]; [done|]. by rewrite length_alter. }
  destruct (decide (x = el)) as [->|Hne].
  - unfold textOf. rewrite list_lookup_alter_eq.
    destruct (foldr _ _ _ !! el) eqn:E; [done|].
    apply lookup_ge_None in E. rewrite Hn in E. lia.
  - unfold textOf at 1. rewrite list_lookup_alter_ne by done. apply Hl.
Qed.

Lemma textOf_app h k x :
  textOf (h ++ [mkHost k EmptyString None []]) x = textOf h x.
Proof.
  unfold textOf. destruct (decide (x < length h)) as [Hlt|Hge].
  - by rewrite lookup_app_l.
  - rewrite (proj2 (lookup_ge_None h x)) by lia.
    destruct (decide (x = length h)) as [->|Hne].
    + by rewrite list_lookup_middle.
    + rewrite (proj2 (lookup_ge_None _ x)); [done|]. rewrite length_app. cbn. lia.
Qed.

End HostText.

(** Flag tests on known flags. *)
Ltac flag_step :=
  match goal with
  | |- context [has ?a ?b] =>
      let v := eval vm_compute in (has a b) in
      match v with
      | true => change (has a b) with true
      | false => change (has a b) with false
      end
  | |- context [Z.ltb ?a ?b] =>
      let v := eval vm_compute in (Z.ltb a b) in
      match v with
      | true => change (Z.ltb a b) with true
      | false => change (Z.ltb a b) with false
      end
  | |- context [Z.eqb ?a ?b] =>
      let v := eval vm_compute in (Z.eqb a b) in
      match v with
      | true => change (Z.eqb a b) with true
      | false => change (Z.eqb a b) with false
      end
  end.

Ltac mcompute :=
  munfold;
  repeat first [ mlookup | flag_step
               | rewrite bool_decide_eq_false_2 by done
               | rewrite bool_decide_eq_true_2 by done
               | progress cbn ].

Section KeyedItems.
Context `{Env}.
Variable tag : string.
Variable container : Handle.
Variable optimized : bool.
Variable olds : list OldItem.
Variable news : list NewItem.
Variable vs0 : list VNode.
Variable tr0 : list Event.

(** Normalizing a child that has no host element gives the child
    itself. *)
Hypothesis normalize_unmounted : ∀ r s v,
  vnodes s !! r = Some v → VN.el v = None →
  normalizeVNode r s = Ok r s ∧ cloneIfMounted r s = Ok r s.

(** The vnodes of the two lists are different objects. *)
Hypothesis refs_distinct : NoDup ((o_ref <$> olds) ++ (n_ref <$> news)).

Local Abbreviation writes := (writesText optimized).

Local Abbreviation R := (Rel tag container olds news vs0 tr0).
Local Abbreviation c2 := (n_ref <$> news).
Local Abbreviation c1 := (o_ref <$> olds).

Lemma new_ref_inj j j' n n' :
  news !! j = Some n → news !! j' = Some n' → n_ref n = n_ref n' → j = j'.
Proof using refs_distinct.
  intros Hj Hj' E. apply NoDup_app in refs_distinct as (_ & _ & Hnd).
  eapply NoDup_lookup; [done| |]; rewrite list_lookup_fmap.
  - by rewrite Hj.
  - rewrite Hj'. cbn. by rewrite E.
Qed.

Lemma old_new_ref i j o n :
  olds !! i = Some o → news !! j = Some n → o_ref o ≠ n_ref n.
Proof using refs_distinct.
  intros Hi Hj E. apply NoDup_app in refs_distinct as (_ & Hd & _).
  apply (Hd (o_ref o)).
  - apply list_elem_of_fmap. exists o. split; [done|]. by eapply list_elem_of_lookup_2.
  - rewrite E. apply list_elem_of_fmap. exists n. split; [done|].
    by eapply list_elem_of_lookup_2.
Qed.

Lemma patchElement_item fuel pf n1 n2 s k t1 t2 el e2 :
  n1 ≠ n2 →
  vnodes s !! n1 = Some (item tag k t1 (Some el)) →
  vnodes s !! n2 = Some (item tag k t2 e2) →
  let changed := writes && negb (String.eqb t2 t1) in
  patchElement fuel pf n1 n2 optimized s =
    Ok tt (mkState (<[n2:=item tag k t2 (Some el)]> (vnodes s))
             (if changed then host_setElementText (host s) el t2 else host s)
             (trace s ++ if changed then [HostSetElementText el t2] else [])).
Proof.
  intros Hne H1 H2 changed. subst changed. unfold writes.
  destruct s as [vs h tr]. cbn [vnodes host trace] in *.
  unfold patchElement, patchChildren, patchChildrenFull, patchProps,
    invokeVNodeHook, invokeDirectiveHook, queuePostRenderEffect, hostSetElementText.
  destruct (DEV && isHmrUpdating), optimized; mcompute;
    try (destruct (String.eqb t2 t1); cbn);
    by rewrite ?app_nil_r.
Qed.

Lemma patch_item fuel n1 n2 s k t1 t2 el e2 :
  n1 ≠ n2 →
  vnodes s !! n1 = Some (item tag k t1 (Some el)) →
  vnodes s !! n2 = Some (item tag k t2 e2) →
  let changed := writes && negb (String.eqb t2 t1) in
  patch (S fuel) (Some n1) n2 container None (Some optimized) s =
    Ok tt (mkState (<[n2:=item tag k t2 (Some el)]> (vnodes s))
             (if changed then host_setElementText (host s) el t2 else host s)
             (trace s ++ if changed then [HostSetElementText el t2] else [])).
Proof.
  intros Hne H1 H2 changed. subst changed.
  rewrite <- (patchElement_item fuel (patch fuel) n1 n2 s k t1 t2 el e2) by done.
  cbn [patch]. unfold patchStep, isSameVNodeType, processElement.
  rewrite (bind_ok _ _ _ _ _ (getVNode_ok _ _ _ H2)).
  rewrite bool_decide_eq_false_2 by congruence.
  unfold bind at 1. unfold bind at 1. rewrite (getVNode_ok _ _ _ H1).
  cbn [item VN.type VN.key VN.patchFlag VN.shapeFlag].
  rewrite !bool_decide_eq_true_2 by done. cbn [andb negb ret].
  by repeat flag_step.
Qed.

Lemma mount_item fuel n2 anchor s k t e2 :
  vnodes s !! n2 = Some (item tag k t e2) →
  let h := length (host s) in
  patch (S fuel) None n2 container anchor (Some optimized) s =
    Ok tt (mkState (<[n2:=item tag k t (Some h)]> (vnodes s))
             (host_insert
                (host_setElementText (host s ++ [mkHost (HElement tag) EmptyString None []])
                   h t)
                h container anchor)
             (trace s ++ [HostCreateElement tag h; HostSetElementText h t;
                          HostInsert h container anchor])).
Proof.
  intros H2 h. subst h. destruct s as [vs h tr]. cbn [vnodes host trace] in *.
  cbn [patch]. unfold patchStep, processElement, mountElement,
    hostCreateElement, hostCreate, hostSetElementText, hostInsert,
    invokeVNodeHook, invokeDirectiveHook, queuePostRenderEffect.
  mcompute. by rewrite <- !app_assoc.
Qed.

Lemma unmount_item fuel n1 s k t el :
  vnodes s !! n1 = Some (item tag k t (Some el)) →
  unmount (S fuel) n1 true false s =
    Ok tt (mkState (vnodes s) (host_detach (host s) el) (trace s ++ [HostRemove el])).
Proof.
  intros H1. destruct s as [vs h tr]. cbn [vnodes host trace] in *.
  cbn [unmount remove]. unfold unmountChildrenWith, hostRemove,
    invokeVNodeHook, invokeDirectiveHook, queuePostRenderEffect.
  destruct (isAsyncWrapper (Tag tag)) eqn:E; mcompute; rewrite ?E; by mcompute.
Qed.

Lemma move_item fuel n2 anchor s k t el :
  vnodes s !! n2 = Some (item tag k t (Some el)) →
  move (S fuel) n2 container anchor REORDER s =
    Ok tt (mkState (vnodes s) (host_insert (host s) el container anchor)
             (trace s ++ [HostInsert el container anchor])).
Proof.
  intros H2. destruct s as [vs h tr]. cbn [vnodes host trace] in *.
  cbn [move]. unfold hostInsert. by mcompute.
Qed.

Lemma log_snoc (l : list PlanOp) op :
  (l ++ [op]) ≫= opEvents tag container
  = (l ≫= opEvents tag container) ++ opEvents tag container op.
Proof. rewrite bind_app. cbn. by rewrite app_nil_r. Qed.

Lemma sim_patch fuel s p i o j n :
  R s p → olds !! i = Some o → news !! j = Some n → o_key o = n_key n →
  ∃ s', patch (S fuel) (Some (o_ref o)) (n_ref n) container None (Some optimized) s
        = Ok tt s' ∧ R s' (planPatch writes o j n p).
Proof using refs_distinct.
  intros HR Hi Hj Hk.
  pose proof (rel_old _ _ _ _ _ _ _ _ HR _ _ Hi) as Ho.
  pose proof (rel_new _ _ _ _ _ _ _ _ HR _ _ Hj) as Hn.
  pose proof (old_new_ref _ _ _ _ Hi Hj) as Hne.
  destruct (rel_els _ _ _ _ _ _ _ _ HR _ _ Hi) as [Hlt Hc].
  rewrite <- Hk in Hn.
  eexists. split; [by eapply patch_item|].
  set (changed := writes && negb (String.eqb (n_text n) (o_text o))).
  split; cbn [vnodes host trace planPatch aK aE aNext aText aLog]; fold changed.
  - intros i' o' Hi'. rewrite list_lookup_insert_ne by (symmetry; by eapply old_new_ref).
    by eapply rel_old.
  - intros j' n' Hj'. destruct (decide (j' = j)) as [->|Hjj].
    + rewrite Hj in Hj'. injection Hj' as <-.
      rewrite !list_lookup_insert_eq; [by rewrite Hk| |].
      * rewrite (rel_len _ _ _ _ _ _ _ _ HR). by eapply lookup_lt_Some.
      * by eapply lookup_lt_Some.
    + rewrite !list_lookup_insert_ne by eauto using new_ref_inj.
      by eapply rel_new.
  - intros r Hr. rewrite list_lookup_insert_ne; [by eapply rel_frame|].
    intros <-. apply Hr, list_elem_of_fmap. eauto using list_elem_of_lookup_2.
  - destruct changed; [rewrite kidsOf_setElementText by done|]; by eapply rel_kids.
  - intros x. destruct changed; [|by eapply rel_text].
    rewrite textOf_setElementText by (by rewrite (rel_next _ _ _ _ _ _ _ _ HR)).
    unfold setText. destruct (decide _); [done|]. by eapply rel_text.
  - destruct changed; [rewrite length_setElementText|]; by eapply rel_next.
  - rewrite length_insert. by eapply rel_len.
  - by eapply rel_cont.
  - by eapply rel_els.
  - intros j' h [(_ & [= <-] & _)|[_ Hh]]%list_lookup_insert_Some; [done|].
    by eapply rel_new_els.
  - rewrite log_snoc, (rel_trace _ _ _ _ _ _ _ _ HR), <- app_assoc. by destruct changed.
Qed.

Lemma sim_mount fuel s p j n anchor :
  R s p → news !! j = Some n →
  ∃ s', patch (S fuel) None (n_ref n) container anchor (Some optimized) s
        = Ok tt s' ∧ R s' (planMount j n anchor p).
Proof using refs_distinct.
  intros HR Hj.
  pose proof (rel_new _ _ _ _ _ _ _ _ HR _ _ Hj) as Hn.
  pose proof (rel_next _ _ _ _ _ _ _ _ HR) as Hnext.
  pose proof (rel_cont _ _ _ _ _ _ _ _ HR) as Hcont.
  eexists. split; [by eapply mount_item|].
  split; cbn [vnodes host trace planMount aK aE aNext aText aLog]; rewrite ?Hnext.
  - intros i' o' Hi'. rewrite list_lookup_insert_ne by (symmetry; by eapply old_new_ref).
    by eapply rel_old.
  - intros j' n' Hj'. destruct (decide (j' = j)) as [->|Hjj].
    + rewrite Hj in Hj'. injection Hj' as <-.
      rewrite !list_lookup_insert_eq; [done| |].
      * rewrite (rel_len _ _ _ _ _ _ _ _ HR). by eapply lookup_lt_Some.
      * by eapply lookup_lt_Some.
    + rewrite !list_lookup_insert_ne by eauto using new_ref_inj.
      by eapply rel_new.
  - intros r Hr. rewrite list_lookup_insert_ne; [by eapply rel_frame|].
    intros <-. apply Hr, list_elem_of_fmap. eauto using list_elem_of_lookup_2.
  - rewrite kidsOf_insert.
    + rewrite kidsOf_setElementText by lia.
      rewrite kidsOf_app by lia. by rewrite (rel_kids _ _ _ _ _ _ _ _ HR).
    + rewrite length_setElementText, length_app. cbn. lia.
  - intros x. rewrite textOf_insert, textOf_setElementText.
    + unfold setText. destruct (decide _); [done|]. rewrite textOf_app.
      by eapply rel_text.
    + rewrite length_app. cbn. lia.
  - rewrite length_host_insert, length_setElementText, length_app. cbn. lia.
  - rewrite length_insert. by eapply rel_len.
  - lia.
  - intros i' o' Hi'. destruct (rel_els _ _ _ _ _ _ _ _ HR _ _ Hi'). split; [lia|done].
  - intros j' h [(_ & [= <-] & _)|[_ Hh]]%list_lookup_insert_Some; [lia|].
    by eapply rel_new_els.
  - by rewrite log_snoc, (rel_trace _ _ _ _ _ _ _ _ HR), <- app_assoc.
Qed.

Lemma sim_unmount fuel s p i o :
  R s p → olds !! i = Some o →
  ∃ s', unmount (S fuel) (o_ref o) true false s = Ok tt s' ∧ R s' (planUnmount o p).
Proof.
  intros HR Hi.
  pose proof (rel_old _ _ _ _ _ _ _ _ HR _ _ Hi) as Ho.
  eexists. split; [by eapply unmount_item|].
  split; cbn [vnodes host trace planUnmount aK aE aNext aText aLog].
  - by eapply rel_old.
  - by eapply rel_new.
  - by eapply rel_frame.
  - by rewrite kidsOf_detach, (rel_kids _ _ _ _ _ _ _ _ HR).
  - intros x. rewrite textOf_detach. by eapply rel_text.
  - rewrite length_detach. by eapply rel_next.
  - by eapply rel_len.
  - by eapply rel_cont.
  - by eapply rel_els.
  - by eapply rel_new_els.
  - by rewrite log_snoc, (rel_trace _ _ _ _ _ _ _ _ HR), <- app_assoc.
Qed.

Lemma sim_move fuel s p j n h anchor :
  R s p → news !! j = Some n → mjoin (aE p !! j) = Some h →
  ∃ s', move (S fuel) (n_ref n) container anchor REORDER s = Ok tt s'
        ∧ R s' (planMove h anchor p).
Proof.
  intros HR Hj Hh.
  pose proof (rel_new _ _ _ _ _ _ _ _ HR _ _ Hj) as Hn. rewrite Hh in Hn.
  eexists. split; [by eapply move_item|].
  split; cbn [vnodes host trace planMove aK aE aNext aText aLog].
  - by eapply rel_old.
  - by eapply rel_new.
  - by eapply rel_frame.
  - rewrite kidsOf_insert, (rel_kids _ _ _ _ _ _ _ _ HR); [done|].
    rewrite (rel_next _ _ _ _ _ _ _ _ HR). by eapply rel_cont.
  - intros x. rewrite textOf_insert. by eapply rel_text.
  - rewrite length_host_insert. by eapply rel_next.
  - by eapply rel_len.
  - by eapply rel_cont.
  - by eapply rel_els.
  - by eapply rel_new_els.
  - by rewrite log_snoc, (rel_trace _ _ _ _ _ _ _ _ HR), <- app_assoc.
Qed.

Lemma sim_warn s p k :
  R s p →
  ∃ s', warn "Duplicate keys found during update:" (Some k) s = Ok tt s'
        ∧ R s' (planWarn k p).
Proof.
  intros HR. eexists. split; [done|].
  split; cbn [vnodes host trace planWarn aK aE aNext aText aLog]; try by apply HR.
  by rewrite log_snoc, (rel_trace _ _ _ _ _ _ _ _ HR), <- app_assoc.
Qed.

Lemma sim_new s p j n :
  R s p → planNew news j p = Some n →
  news !! j = Some n ∧
  normalizeAt optimized c2 j s = Ok (n_ref n, c2) s.
Proof using normalize_unmounted.
  intros HR. unfold planNew. destruct (news !! j) as [n'|] eqn:Hj; [|done]. cbn.
  destruct (bool_decide_reflect (mjoin (aE p !! j) = None)) as [Hf|]; [|done].
  intros [= ->]. split; [done|].
  pose proof (rel_new _ _ _ _ _ _ _ _ HR _ _ Hj) as Hn. rewrite Hf in Hn.
  unfold normalizeAt. rewrite list_lookup_fmap, Hj. cbn [fmap option_fmap option_map nonNull].
  rewrite bind_ret.
  destruct (normalize_unmounted _ _ _ Hn eq_refl) as [Hnorm Hclone].
  rewrite (bind_ok _ _ s (n_ref n) s)
    by (destruct optimized; [apply Hclone|apply Hnorm]).
  unfold ret. f_equal. f_equal. apply list_insert_id.
  by rewrite list_lookup_fmap, Hj.
Qed.

Lemma sim_anchor parentAnchor s p k :
  R s p →
  anchorAt c2 k parentAnchor s = Ok (planAnchor news parentAnchor k p) s.
Proof.
  intros HR. unfold anchorAt, planAnchor. rewrite length_fmap.
  destruct (k <? length news) eqn:E; [|done].
  apply Nat.ltb_lt, lookup_lt_is_Some in E. destruct E as [n Hk].
  rewrite list_lookup_fmap, Hk. cbn [fmap option_fmap option_map nonNull].
  rewrite bind_ret.
  by rewrite (bind_ok _ _ _ _ _ (getVNode_ok _ _ _ (rel_new _ _ _ _ _ _ _ _ HR _ _ Hk))).
Qed.

(** *** The loops *)

Variable fuel : nat.
Variable parentAnchor : option Handle.

Lemma same_item_type k1 t1 e1 k2 t2 e2 :
  isSameVNodeType (item tag k1 t1 e1) (item tag k2 t2 e2) = bool_decide (k1 = k2).
Proof.
  unfold isSameVNodeType. cbn [item VN.type VN.key].
  rewrite bool_decide_eq_true_2 by done. cbn [andb].
  apply bool_decide_ext. split; congruence.
Qed.

Lemma sim_syncStart rounds : ∀ i e1 e2 p s i' p',
  R s p → planSyncStart olds news writes rounds i e1 e2 p = Some (i', p') →
  ∃ s', syncFromStart (patch (S fuel)) rounds c1 c2 container optimized i e1 e2 s
        = Ok (i', c2) s' ∧ R s' p'.
Proof using normalize_unmounted refs_distinct.
  induction rounds as [|r IH]; intros i e1 e2 p s i' p' HR;
    cbn [planSyncStart syncFromStart];
    destruct ((i <? e1) && (i <? e2)); try done;
    try (intros [= <- <-]; by eexists).
  destruct (olds !! i) as [o|] eqn:Hi; [|done]. cbn [mbind option_bind].
  destruct (planNew news i p) as [n|] eqn:Hn; [|done]. cbn [mbind option_bind].
  destruct (sim_new _ _ _ _ HR Hn) as [Hj Hnorm].
  rewrite list_lookup_fmap, Hi. cbn [fmap option_fmap option_map nonNull].
  rewrite bind_ret, (bind_ok _ _ _ _ _ Hnorm).
  rewrite (bind_ok _ _ _ _ _ (getVNode_ok _ _ _ (rel_old _ _ _ _ _ _ _ _ HR _ _ Hi))).
  rewrite (bind_ok _ _ _ _ _ (getVNode_ok _ _ _ (rel_new _ _ _ _ _ _ _ _ HR _ _ Hj))).
  rewrite same_item_type.
  destruct (decide (o_key o = n_key n)) as [Hk|Hk].
  - rewrite bool_decide_eq_true_2 by done.
    destruct (sim_patch fuel _ _ _ _ _ _ HR Hi Hj Hk) as (s1 & Hp & HR1).
    rewrite (bind_ok _ _ _ _ _ Hp). intros Hplan. by eapply IH.
  - rewrite bool_decide_eq_false_2 by done. intros [= <- <-]. by eexists.
Qed.

Lemma sim_syncEnd rounds : ∀ i e1 e2 p s e1' e2' p',
  R s p → planSyncEnd olds news writes rounds i e1 e2 p = Some (e1', e2', p') →
  ∃ s', syncFromEnd (patch (S fuel)) rounds c1 c2 container optimized i e1 e2 s
        = Ok (e1', e2', c2) s' ∧ R s' p'.
Proof using normalize_unmounted refs_distinct.
  induction rounds as [|r IH]; intros i e1 e2 p s e1' e2' p' HR;
    cbn [planSyncEnd syncFromEnd];
    destruct ((i <? e1) && (i <? e2)); try done;
    try (intros [= <- <- <-]; by eexists).
  destruct (olds !! (e1 - 1)) as [o|] eqn:Hi; [|done]. cbn [mbind option_bind].
  destruct (planNew news (e2 - 1) p) as [n|] eqn:Hn; [|done]. cbn [mbind option_bind].
  destruct (sim_new _ _ _ _ HR Hn) as [Hj Hnorm].
  rewrite list_lookup_fmap, Hi. cbn [fmap option_fmap option_map nonNull].
  rewrite bind_ret, (bind_ok _ _ _ _ _ Hnorm).
  rewrite (bind_ok _ _ _ _ _ (getVNode_ok _ _ _ (rel_old _ _ _ _ _ _ _ _ HR _ _ Hi))).
  rewrite (bind_ok _ _ _ _ _ (getVNode_ok _ _ _ (rel_new _ _ _ _ _ _ _ _ HR _ _ Hj))).
  rewrite same_item_type.
  destruct (decide (o_key o = n_key n)) as [Hk|Hk].
  - rewrite bool_decide_eq_true_2 by done.
    destruct (sim_patch fuel _ _ _ _ _ _ HR Hi Hj Hk) as (s1 & Hp & HR1).
    rewrite (bind_ok _ _ _ _ _ Hp). intros Hplan. by eapply IH.
  - rewrite bool_decide_eq_false_2 by done. intros [= <- <- <-]. by eexists.
Qed.

Lemma foldl_None {A Y} (G : option Y → A → option Y) l :
  (∀ a, G None a = None) → foldl G None l = None.
Proof. intros HG. induction l as [|a l IH]; cbn [foldl]; [done|]. by rewrite HG. Qed.

Lemma foldM_sim {A X Y} (Q : X → Y → RState → Prop) (f : X → A → M X)
    (G : option Y → A → option Y) (l : list A) :
  (∀ a, G None a = None) →
  (∀ x y a s y', Q x y s → G (Some y) a = Some y' →
     ∃ x' s', f x a s = Ok x' s' ∧ Q x' y' s') →
  ∀ x y s y', Q x y s → foldl G (Some y) l = Some y' →
    ∃ x' s', foldM f x l s = Ok x' s' ∧ Q x' y' s'.
Proof.
  intros HG Hstep. induction l as [|a l IH]; intros x y s y' HQ; cbn [foldl foldM].
  - intros [= <-]. by exists x, s.
  - destruct (G (Some y) a) as [y1|] eqn:E; [|by rewrite foldl_None].
    destruct (Hstep _ _ _ _ _ HQ E) as (x1 & s1 & Hf & HQ1).
    rewrite (bind_ok _ _ _ _ _ Hf). by apply IH.
Qed.

Lemma forM_sim {A Y} (Q : Y → RState → Prop) (f : A → M unit)
    (G : option Y → A → option Y) (l : list A) :
  (∀ a, G None a = None) →
  (∀ y a s y', Q y s → G (Some y) a = Some y' → ∃ s', f a s = Ok tt s' ∧ Q y' s') →
  ∀ y s y', Q y s → foldl G (Some y) l = Some y' →
    ∃ s', forM l f s = Ok tt s' ∧ Q y' s'.
Proof.
  intros HG Hstep. induction l as [|a l IH]; intros y s y' HQ; cbn [foldl forM].
  - intros [= <-]. by exists s.
  - destruct (G (Some y) a) as [y1|] eqn:E; [|by rewrite foldl_None].
    destruct (Hstep _ _ _ _ HQ E) as (s1 & Hf & HQ1).
    rewrite (bind_ok _ _ _ _ _ Hf). by apply IH.
Qed.

Lemma sim_mountRange anchor l p s p' :
  R s p →
  foldl (λ acc j, p ← acc; n ← planNew news j p; Some (planMount j n anchor p))
    (Some p) l = Some p' →
  ∃ s', foldM (λ c i,
            '(n2, c) <- normalizeAt optimized c i;;
            patch (S fuel) None n2 container anchor (Some optimized);;
            ret c) c2 l s = Ok c2 s' ∧ R s' p'.
Proof using normalize_unmounted refs_distinct.
  intros HR Hp.
  cut (∃ x' s', foldM (λ c i,
            '(n2, c) <- normalizeAt optimized c i;;
            patch (S fuel) None n2 container anchor (Some optimized);;
            ret c) c2 l s = Ok x' s' ∧ (x' = c2 ∧ R s' p')).
  { intros (x' & s' & Hf & -> & HR'). by exists s'. }
  eapply (foldM_sim (λ x y s, x = c2 ∧ R s y)); [| |split; [done|exact HR]|exact Hp];
    [done|].
  clear dependent s p p'. intros x y j s y' [-> HR]. cbn [mbind option_bind].
  destruct (planNew news j y) as [n|] eqn:Hn; [|done]. intros [= <-].
  destruct (sim_new _ _ _ _ HR Hn) as [Hj Hnorm].
  rewrite (bind_ok _ _ _ _ _ Hnorm).
  destruct (sim_mount fuel _ _ _ _ anchor HR Hj) as (s1 & Hm & HR1).
  rewrite (bind_ok _ _ _ _ _ Hm). by exists c2, s1.
Qed.

Lemma sim_unmountRange l p s p' :
  R s p →
  foldl (λ acc j, p ← acc; o ← olds !! j; Some (planUnmount o p)) (Some p) l = Some p' →
  ∃ s', forM l (λ i, n1 <- nonNull (c1 !! i);; unmount (S fuel) n1 true false) s
        = Ok tt s' ∧ R s' p'.
Proof.
  intros HR Hp.
  eapply (forM_sim (λ y s, R s y)); [| |exact HR|exact Hp]; [done|].
  clear dependent s p p'. intros y j s y' HR. cbn [mbind option_bind].
  destruct (olds !! j) as [o|] eqn:Hj; [|done]. intros [= <-].
  rewrite list_lookup_fmap, Hj. cbn [fmap option_fmap option_map nonNull].
  rewrite bind_ret. by eapply sim_unmount.
Qed.

Lemma sim_buildMap s2 e2 p s m p' :
  R s p → planBuildMap news DEV s2 e2 p = Some (m, p') →
  ∃ s', buildKeyToNewIndexMap optimized c2 s2 e2 s = Ok (m, c2) s' ∧ R s' p'.
Proof using normalize_unmounted.
  intros HR Hp. unfold planBuildMap in Hp. unfold buildKeyToNewIndexMap.
  cut (∃ x' s', foldM (λ '(keyToNewIndexMap, c) i,
          '(nextChild, c) <- normalizeAt optimized c i;;
          v <- getVNode nextChild;;
          match VN.key v with
          | Some k =>
              when (DEV && bool_decide (is_Some (keyToNewIndexMap !! k)))
                (warn "Duplicate keys found during update:" (Some k));;
              ret (<[k:=i]> keyToNewIndexMap, c)
          | None => ret (keyToNewIndexMap, c)
          end) (∅, c2) (seq s2 (e2 - s2)) s
        = Ok x' s' ∧ (x' = ((m, p').1, c2) ∧ R s' (m, p').2)).
  { intros (x' & s' & Hf & -> & HR'). by exists s'. }
  eapply (foldM_sim (λ x y s, x = (y.1, c2) ∧ R s y.2)) with (y := (∅, p));
    [| |split; [done|exact HR]|exact Hp]; [done|].
  clear dependent s p p' m. intros x [m p] j s [m' p'] [-> HR]. cbn [fst snd] in *.
  cbn [mbind option_bind].
  destruct (planNew news j p) as [n|] eqn:Hn; [|done]. cbn [mbind option_bind].
  intros [= <- <-].
  destruct (sim_new _ _ _ _ HR Hn) as [Hj Hnorm].
  rewrite (bind_ok _ _ _ _ _ Hnorm).
  rewrite (bind_ok _ _ _ _ _ (getVNode_ok _ _ _ (rel_new _ _ _ _ _ _ _ _ HR _ _ Hj))).
  cbn [item VN.key].
  destruct (DEV && bool_decide (is_Some (m !! n_key n))); cbn [when].
  - destruct (sim_warn _ _ (n_key n) HR) as (s1 & Hw & HR1).
    rewrite (bind_ok _ _ _ _ _ Hw). by eexists _, _.
  - rewrite bind_ret. by eexists _, _.
Qed.

Lemma sim_patchOld m s2 e2 st i p s st' p' :
  R s p → planOld olds news writes m s2 e2 (Some (st, p)) i = Some (st', p') →
  ∃ s', patchOld (S fuel) (patch (S fuel)) c1 c2 container optimized m s2 e2 st i s
        = Ok st' s' ∧ R s' p'.
Proof using refs_distinct.
  intros HR. unfold planOld, patchOld. cbn [mbind option_bind].
  destruct (olds !! i) as [o|] eqn:Hi; [|done]. cbn [mbind option_bind].
  rewrite list_lookup_fmap, Hi. cbn [fmap option_fmap option_map nonNull].
  rewrite bind_ret.
  destruct (e2 - s2 <=? patched st).
  { intros [= <- <-]. destruct (sim_unmount fuel _ _ _ _ HR Hi) as (s1 & Hu & HR1).
    rewrite (bind_ok _ _ _ _ _ Hu). by exists s1. }
  rewrite (bind_ok _ _ _ _ _ (getVNode_ok _ _ _ (rel_old _ _ _ _ _ _ _ _ HR _ _ Hi))).
  cbn [item VN.key]. rewrite bind_ret.
  destruct (m !! o_key o) as [newIndex|].
  - destruct (news !! newIndex) as [n|] eqn:Hj; [|done]. cbn [mbind option_bind].
    destruct (decide (o_key o = n_key n)) as [Hk|]; [|done]. intros [= <- <-].
    rewrite list_lookup_fmap, Hj. cbn [fmap option_fmap option_map nonNull].
    rewrite bind_ret.
    destruct (sim_patch fuel _ _ _ _ _ _ HR Hi Hj Hk) as (s1 & Hp & HR1).
    rewrite (bind_ok _ _ _ _ _ Hp). by exists s1.
  - intros [= <- <-]. destruct (sim_unmount fuel _ _ _ _ HR Hi) as (s1 & Hu & HR1).
    rewrite (bind_ok _ _ _ _ _ Hu). by exists s1.
Qed.

Lemma sim_moveOrMount s2 st sequence j i p s j' p' :
  R s p →
  planMoveOrMount news parentAnchor s2 st sequence (Some (j, p)) i = Some (j', p') →
  ∃ s', moveOrMount (S fuel) (patch (S fuel)) c2 container parentAnchor optimized
          s2 st sequence j i s = Ok j' s' ∧ R s' p'.
Proof using refs_distinct.
  intros HR. unfold planMoveOrMount, moveOrMount. cbn [mbind option_bind].
  destruct (news !! (s2 + i)) as [n|] eqn:Hj; [|done]. cbn [mbind option_bind].
  rewrite list_lookup_fmap, Hj. cbn [fmap option_fmap option_map nonNull].
  rewrite bind_ret, (bind_ok _ _ _ _ _ (sim_anchor _ _ _ _ HR)).
  destruct (rd (newIndexToOldIndexMap st) i =? 0).
  { intros [= <- <-].
    destruct (sim_mount fuel _ _ _ _ (planAnchor news parentAnchor (s2 + i + 1) p) HR Hj)
      as (s1 & Hm & HR1).
    rewrite (bind_ok _ _ _ _ _ Hm). by exists s1. }
  destruct (moved st); [|intros [= <- <-]; by exists s].
  destruct ((j =? 0) || negb (i =? rd sequence (j - 1))); [|intros [= <- <-]; by exists s].
  destruct (mjoin (aE p !! (s2 + i))) as [h|] eqn:Hh; [|done]. cbn [mbind option_bind].
  intros [= <- <-].
  destruct (sim_move fuel _ _ _ _ _ (planAnchor news parentAnchor (s2 + i + 1) p) HR Hj Hh)
    as (s1 & Hm & HR1).
  rewrite (bind_ok _ _ _ _ _ Hm). by exists s1.
Qed.

Lemma sim_patchOldLoop m s2 e2 l st0 p s st p' :
  R s p →
  foldl (planOld olds news writes m s2 e2) (Some (st0, p)) l = Some (st, p') →
  ∃ s', foldM (patchOld (S fuel) (patch (S fuel)) c1 c2 container optimized m s2 e2)
          st0 l s = Ok st s' ∧ R s' p'.
Proof using refs_distinct.
  intros HR Hp.
  cut (∃ x' s', foldM (patchOld (S fuel) (patch (S fuel)) c1 c2 container optimized
                         m s2 e2) st0 l s
                = Ok x' s' ∧ x' = (st, p').1 ∧ R s' (st, p').2).
  { intros (x' & s' & Hf & -> & HR'). by exists s'. }
  eapply (foldM_sim (λ x y s, x = y.1 ∧ R s y.2)) with (y := (st0, p));
    [| |split; [reflexivity|exact HR]|exact Hp]; [done|].
  intros x [sta pa] j sa [stb pb] [-> HRa] Hstep. cbn [fst snd] in *.
  destruct (sim_patchOld _ _ _ _ _ _ _ _ _ HRa Hstep) as (sb & Hpb & HRb).
  by exists stb, sb.
Qed.

(** The embedding of [patchKeyedChildren] does on lists of items what
    the plan says. *)
Lemma patchKeyedChildren_items p s p' :
  R s p → planDiff olds news parentAnchor writes DEV p = Some p' →
  ∃ s', patchKeyedChildren (S fuel) (patch (S fuel)) c1 c2 container parentAnchor
          optimized s = Ok c2 s' ∧ R s' p'.
Proof using normalize_unmounted refs_distinct.
  intros HR. unfold planDiff, patchKeyedChildren. rewrite !length_fmap.
  destruct (planSyncStart _ _ _ _ _ _ _ _) as [[i p1]|] eqn:E1; [|done].
  cbn [mbind option_bind].
  destruct (sim_syncStart _ _ _ _ _ _ _ _ HR E1) as (s1 & Hs1 & HR1).
  rewrite (bind_ok _ _ _ _ _ Hs1).
  destruct (planSyncEnd _ _ _ _ _ _ _ _) as [[[e1 e2] p2]|] eqn:E2; [|done].
  cbn [mbind option_bind].
  destruct (sim_syncEnd _ _ _ _ _ _ _ _ _ HR1 E2) as (s2 & Hs2 & HR2).
  rewrite (bind_ok _ _ _ _ _ Hs2).
  destruct (e1 <=? i).
  { destruct (i <? e2); [|intros [= <-]; by exists s2].
    rewrite (bind_ok _ _ _ _ _ (sim_anchor _ _ _ _ HR2)).
    intros Hp. by eapply sim_mountRange. }
  destruct (e2 <=? i).
  { intros Hp. destruct (sim_unmountRange _ _ _ _ HR2 Hp) as (s3 & Hu & HR3).
    rewrite (bind_ok _ _ _ _ _ Hu). by exists s3. }
  unfold planMiddle.
  destruct (planBuildMap _ _ _ _ _) as [[m p3]|] eqn:E3; [|done].
  cbn [mbind option_bind].
  destruct (sim_buildMap _ _ _ _ _ _ HR2 E3) as (s3 & Hb & HR3).
  rewrite (bind_ok _ _ _ _ _ Hb).
  destruct (foldl (planOld _ _ _ _ _ _) _ _) as [[st p4]|] eqn:E4; [|done].
  cbn [mbind option_bind].
  assert (∃ s4, foldM (patchOld (S fuel) (patch (S fuel)) c1 c2 container optimized m i e2)
                  (mkDiff 0 false 0 (replicate (e2 - i) 0)) (seq i (e1 - i)) s3
                = Ok st s4 ∧ R s4 p4) as (s4 & Hf & HR4).
  { cut (∃ x' s', foldM (patchOld (S fuel) (patch (S fuel)) c1 c2 container optimized
                           m i e2)
                    (mkDiff 0 false 0 (replicate (e2 - i) 0)) (seq i (e1 - i)) s3
                  = Ok x' s' ∧ x' = (st, p4).1 ∧ R s' (st, p4).2).
    { intros (x' & s' & Hf & -> & HR'). by exists s'. }
    eapply (foldM_sim (λ x y s, x = y.1 ∧ R s y.2))
      with (y := (mkDiff 0 false 0 (replicate (e2 - i) 0), p3));
      [| |split; [reflexivity|exact HR3]|exact E4]; [done|].
    intros x [st0 p0] j s0 [st1 p5] [-> HR0] Hstep. cbn [fst snd] in *.
    destruct (sim_patchOld _ _ _ _ _ _ _ _ _ HR0 Hstep) as (s5 & Hp5 & HR5).
    by exists st1, s5. }
  rewrite (bind_ok _ _ _ _ _ Hf). fold (planSequence st).
  destruct (foldl (planMoveOrMount _ _ _ _ _) _ _) as [[j p5]|] eqn:E5; [|done].
  cbn [mbind option_bind]. intros [= <-].
  assert (∃ j' s5, foldM (moveOrMount (S fuel) (patch (S fuel)) c2 container parentAnchor
                            optimized i st (planSequence st))
                     (length (planSequence st)) (reverse (seq 0 (e2 - i))) s4
                   = Ok j' s5 ∧ R s5 p5) as (j' & s5 & Hg & HR5).
  { cut (∃ x' s', foldM (moveOrMount (S fuel) (patch (S fuel)) c2 container parentAnchor
                           optimized i st (planSequence st))
                    (length (planSequence st)) (reverse (seq 0 (e2 - i))) s4
                  = Ok x' s' ∧ x' = (j, p5).1 ∧ R s' (j, p5).2).
    { intros (x' & s' & Hg & -> & HR'). by exists j, s'. }
    eapply (foldM_sim (λ x y s, x = y.1 ∧ R s y.2))
      with (y := (length (planSequence st), p4));
      [| |split; [reflexivity|exact HR4]|exact E5]; [done|].
    intros x [j0 p0] k s0 [j1 p6] [-> HR0] Hstep. cbn [fst snd] in *.
    destruct (sim_moveOrMount _ _ _ _ _ _ _ _ _ HR0 Hstep) as (s6 & Hp6 & HR6).
    by exists j1, s6. }
  rewrite (bind_ok _ _ _ _ _ Hg). by exists s5.
Qed.

End KeyedItems.

(** ** Child lists under [insert] and [remove] *)

Section ChildLists.

Lemma elem_of_without (h x : Handle) l : x ∈ without h l ↔ x ∈ l ∧ x ≠ h.
Proof. unfold without. rewrite list_elem_of_filter. tauto. Qed.

Lemma without_notin (h : Handle) l : h ∉ l → without h l = l.
Proof.
  intros Hh. unfold without. induction l as [|x l IH]; [done|].
  rewrite filter_cons_True by (intros ->; apply Hh; left).
  f_equal. apply IH. intros Hin. apply Hh. by right.
Qed.

Lemma without_app (h : Handle) l1 l2 : without h (l1 ++ l2) = without h l1 ++ without h l2.
Proof. apply filter_app. Qed.

Lemma insertAt_notin a x l : a ∉ l → insertAt a x l = l ++ [x].
Proof.
  induction l as [|y l IH]; intros Ha; cbn [insertAt app]; [done|].
  rewrite decide_False by (intros ->; apply Ha; left).
  f_equal. apply IH. intros Hin. apply Ha. by right.
Qed.

Lemma insertAt_app a x l1 l2 :
  a ∉ l1 → insertAt a x (l1 ++ a :: l2) = l1 ++ x :: a :: l2.
Proof.
  induction l1 as [|y l1 IH]; intros Ha; cbn [insertAt app].
  - by rewrite decide_True.
  - rewrite decide_False by (intros ->; apply Ha; left).
    f_equal. apply IH. intros Hin. apply Ha. by right.
Qed.

Lemma elem_of_insertAt a x y l : y ∈ insertAt a x l ↔ y = x ∨ y ∈ l.
Proof.
  induction l as [|z l IH]; cbn [insertAt].
  - rewrite list_elem_of_singleton, elem_of_nil. tauto.
  - destruct (decide (z = a)); rewrite !elem_of_cons; [tauto|].
    rewrite IH. tauto.
Qed.

Lemma elem_of_insertBefore anchor x y l :
  y ∈ insertBefore anchor x l ↔ y = x ∨ y ∈ l.
Proof.
  destruct anchor as [a|]; cbn [insertBefore]; [apply elem_of_insertAt|].
  rewrite elem_of_app, list_elem_of_singleton. tauto.
Qed.

Lemma filter_insertAt (P : nat → Prop) `{∀ x, Decision (P x)} a x l :
  P x → P a → filter P (insertAt a x l) = insertAt a x (filter P l).
Proof.
  intros Hx Ha. induction l as [|y l IH]; cbn [insertAt].
  - by rewrite filter_cons_True.
  - destruct (decide (y = a)) as [->|Hne].
    + rewrite !filter_cons_True by done. cbn [insertAt]. by rewrite decide_True.
    + destruct (decide (P y)).
      * rewrite !filter_cons_True by done. cbn [insertAt].
        rewrite decide_False by done. by f_equal.
      * by rewrite !filter_cons_False.
Qed.

Lemma filter_without (P : nat → Prop) `{∀ x, Decision (P x)} j l :
  ¬ P j → filter P (without j l) = filter P l.
Proof.
  intros Hj. unfold without. rewrite list_filter_filter. apply list_filter_iff.
  intros x. cbn. split; [by intros [? _]|]. intros Hx. split; [done|]. by intros ->.
Qed.

Lemma sorted_insertAt j a l :
  StronglySorted lt l → a ∈ l → j < a → (∀ x, x ∈ l → x < a → x < j) →
  StronglySorted lt (insertAt a j l).
Proof.
  intros Hs Hin Hja Hlow. apply list_elem_of_split in Hin as (l1 & l2 & ->).
  assert (Hl1 : ∀ x, x ∈ l1 → x < j).
  { intros x Hx.
    pose proof (StronglySorted_app_1_elem_of lt l1 (a :: l2) x a Hs Hx) as Hlt.
    specialize (Hlt ltac:(left)). apply Hlow; [|done]. apply elem_of_app. by left. }
  rewrite insertAt_app by (intros Hx%Hl1; lia).
  apply StronglySorted_app_1_l in Hs as Hs1.
  apply StronglySorted_app_1_r in Hs as Hs2.
  apply StronglySorted_cons in Hs2 as [Hall Hs2].
  rewrite Forall_forall in Hall.
  apply StronglySorted_app_2; [|done|].
  - intros x y Hx%Hl1 [->|Hy]%elem_of_cons; [done|].
    apply elem_of_cons in Hy as [->|Hy]; [lia|].
    specialize (Hall _ Hy). lia.
  - apply StronglySorted_cons. split.
    + apply Forall_cons. split; [lia|]. apply Forall_forall. intros y Hy%Hall. lia.
    + apply StronglySorted_cons. split; [by apply Forall_forall|done].
Qed.

Lemma sorted_snoc j l :
  StronglySorted lt l → (∀ x, x ∈ l → x < j) → StronglySorted lt (l ++ [j]).
Proof.
  intros Hs Hl. apply StronglySorted_app_2; [|done|repeat constructor].
  intros x y Hx ->%list_elem_of_singleton. by apply Hl.
Qed.

Lemma sorted_seq a n : StronglySorted lt (seq a n).
Proof.
  revert a. induction n as [|n IH]; intros a; cbn [seq]; constructor; [done|].
  apply Forall_forall. intros x Hx%elem_of_seq. lia.
Qed.

Lemma sorted_all l n :
  StronglySorted lt l → (∀ j, j ∈ l ↔ j < n) → l = seq 0 n.
Proof.
  intros Hs Hl. apply (StronglySorted_unique_strong lt); [|done| |].
  - intros x y _ _ Hxy Hyx. lia.
  - apply sorted_seq.
  - apply NoDup_Permutation.
    + clear Hl. induction Hs as [|x l Hs IH Hall]; constructor; [|done].
      rewrite Forall_forall in Hall. intros Hx%Hall. lia.
    + apply NoDup_seq.
    + intros j. rewrite Hl, elem_of_seq. lia.
Qed.

End ChildLists.

Section Pairing.
Context {A B : Type} `{EqDecision A, EqDecision B}.
Variable R : A → B → Prop.

Lemma Forall2_filter_ne (K : list A) (KJ : list B) h j :
  (∀ x y, R x y → (x = h ↔ y = j)) → Forall2 R K KJ →
  Forall2 R (filter (λ x, x ≠ h) K) (filter (λ y, y ≠ j) KJ).
Proof.
  intros Hb HF. induction HF as [|x y K KJ Hxy HF IH]; [constructor|].
  destruct (decide (x = h)) as [Hx|Hx].
  - rewrite (filter_cons_False _ x) by (intros Hne; by apply Hne).
    rewrite (filter_cons_False _ y); [done|].
    intros Hne. by apply Hne, (Hb _ _ Hxy).
  - rewrite (filter_cons_True _ x) by done.
    rewrite (filter_cons_True _ y); [by constructor|].
    intros Hy. by apply Hx, (Hb _ _ Hxy).
Qed.

End Pairing.

Lemma Forall2_without (R : Handle → nat → Prop) K KJ h j :
  (∀ x y, R x y → (x = h ↔ y = j)) → Forall2 R K KJ →
  Forall2 R (without h K) (without j KJ).
Proof. apply Forall2_filter_ne. Qed.

Lemma Forall2_insertAt (R : Handle → nat → Prop) K KJ a a' h j :
  (∀ x y, R x y → (x = a ↔ y = a')) → R h j → Forall2 R K KJ →
  Forall2 R (insertAt a h K) (insertAt a' j KJ).
Proof.
  intros Hb Hhj HF. induction HF as [|x y K KJ Hxy HF IH]; cbn [insertAt].
  - by repeat constructor.
  - destruct (decide (x = a)) as [Hx|Hx].
    + rewrite decide_True by (by apply (Hb _ _ Hxy)). by repeat constructor.
    + rewrite decide_False by (intros Hy; by apply Hx, (Hb _ _ Hxy)).
      by constructor.
Qed.

Lemma sorted_filter_fmap (P : nat → Prop) `{∀ x, Decision (P x)} (f : nat → nat) l :
  StronglySorted lt l →
  (∀ a b, a ∈ l → b ∈ l → a < b → P (f a) → P (f b) → f a < f b) →
  StronglySorted lt (filter P (f <$> l)).
Proof.
  intros Hs. induction Hs as [|x l Hs IH Hall]; intros Hf; [constructor|].
  rewrite fmap_cons. rewrite Forall_forall in Hall.
  assert (IH' : StronglySorted lt (filter P (f <$> l))).
  { apply IH. intros a b Ha Hb. apply Hf; by right. }
  destruct (decide (P (f x))); [|by rewrite filter_cons_False].
  rewrite filter_cons_True by done. constructor; [done|].
  apply Forall_forall. intros y [Hy (b & -> & Hb)%list_elem_of_fmap]%list_elem_of_filter.
  apply Hf; [by left|by right|by apply Hall|done|done].
Qed.

(** Comparisons of numbers as booleans. *)
Ltac nat_bool :=
  cbv beta;
  repeat match goal with
         | |- context [Nat.ltb ?a ?b] => destruct (Nat.ltb_spec a b)
         | |- context [Nat.leb ?a ?b] => destruct (Nat.leb_spec a b)
         | |- context [Nat.eqb ?a ?b] => destruct (Nat.eqb_spec a b)
         | H : context [Nat.ltb ?a ?b] |- _ => destruct (Nat.ltb_spec a b)
         | H : context [Nat.leb ?a ?b] |- _ => destruct (Nat.leb_spec a b)
         | H : context [Nat.eqb ?a ?b] |- _ => destruct (Nat.eqb_spec a b)
         end;
  cbn [orb andb negb] in *; try done; try lia.

(** ** What the plan does *)

Section PlanFacts.
Variable olds : list OldItem.
Variable news : list NewItem.
Variable writes : bool.
Variable dev : bool.

Hypothesis old_keys : NoDup (o_key <$> olds).
Hypothesis old_els : NoDup (o_el <$> olds).

Local Abbreviation good := (Good olds news writes).

Lemma old_el_inj i i' o o' :
  olds !! i = Some o → olds !! i' = Some o' → o_el o = o_el o' → i = i'.
Proof using old_els.
  intros Hi Hi' E. eapply NoDup_lookup; [exact old_els| |]; rewrite list_lookup_fmap.
  - by rewrite Hi.
  - rewrite Hi'. cbn. by rewrite E.
Qed.

Lemma old_key_inj i i' o o' :
  olds !! i = Some o → olds !! i' = Some o' → o_key o = o_key o' → i = i'.
Proof using old_keys.
  intros Hi Hi' E. eapply NoDup_lookup; [exact old_keys| |]; rewrite list_lookup_fmap.
  - by rewrite Hi.
  - rewrite Hi'. cbn. by rewrite E.
Qed.

Lemma good_mono (pend pend' : nat → Prop) p :
  (∀ i, pend' i → pend i) → good pend p → good pend' p.
Proof. intros Hsub [? ? ? ? ? ? ?]. split; eauto. Qed.

Lemma good_patch (pend : nat → Prop) p i o j n :
  good pend p → pend i → olds !! i = Some o → news !! j = Some n →
  o_key o = n_key n →
  good (λ k, pend k ∧ k ≠ i) (planPatch writes o j n p).
Proof using old_els.
  intros Hg Hp Hi Hj Hk.
  assert (Hsep : ∀ j' h, aE p !! j' = Some (Some h) → h ≠ o_el o).
  { intros j' h Hh E. by eapply (g_sep _ _ _ _ _ Hg j' h i o). }
  split; cbn [planPatch aK aE aNext aText aLog].
  - rewrite length_insert. apply Hg.
  - intros j' h [(_ & [= <-] & _)|[_ Hh]]%list_lookup_insert_Some.
    + by eapply g_old.
    + by eapply g_lt.
  - apply Hg.
  - intros j1 j2 h [(<- & [= <-] & _)|[Hn1 H1]]%list_lookup_insert_Some
      [(<- & E & _)|[Hn2 H2]]%list_lookup_insert_Some; try done.
    + by destruct (Hsep _ _ H2).
    + injection E as <-. by destruct (Hsep _ _ H1).
    + by eapply g_inj.
  - intros j' h i' o' [(_ & [= <-] & _)|[_ Hh]]%list_lookup_insert_Some [Hp' Hne] Hi' E.
    + apply Hne. by eapply old_el_inj.
    + by eapply (g_sep _ _ _ _ _ Hg j' h i' o').
  - intros i' o' [Hp' Hne] Hi'.
    assert (o_el o' ≠ o_el o) by (intros E; apply Hne; by eapply old_el_inj).
    destruct (writes && _); [|by eapply g_told].
    unfold setText. rewrite decide_False by done. by eapply g_told.
  - intros Hok j' n' h Hj' [(<- & [= <-] & _)|[_ Hh]]%list_lookup_insert_Some.
    + rewrite Hj in Hj'. injection Hj' as <-.
      destruct (writes && negb (String.eqb (n_text n) (o_text o))) eqn:Hch.
      * unfold setText. by rewrite decide_True.
      * rewrite (g_told _ _ _ _ _ Hg i o) by done.
        destruct Hok as [Hw|Hc].
        -- rewrite Hw in Hch. cbn in Hch. apply negb_false_iff, String.eqb_eq in Hch.
           done.
        -- apply Hc; eauto using list_elem_of_lookup_2.
    + pose proof (Hsep _ _ Hh).
      destruct (writes && _); [|by eapply g_tnew].
      unfold setText. rewrite decide_False by done. by eapply g_tnew.
Qed.

Lemma good_mount (pend : nat → Prop) p j n anchor :
  good pend p → news !! j = Some n → good pend (planMount j n anchor p).
Proof.
  intros Hg Hj.
  assert (Hlt : ∀ j' h, aE p !! j' = Some (Some h) → h ≠ aNext p).
  { intros j' h Hh. pose proof (g_lt _ _ _ _ _ Hg _ _ Hh). lia. }
  assert (Hold : ∀ i o, olds !! i = Some o → o_el o ≠ aNext p).
  { intros i o Hi. pose proof (g_old _ _ _ _ _ Hg _ _ Hi). lia. }
  split; cbn [planMount aK aE aNext aText aLog].
  - rewrite length_insert. apply Hg.
  - intros j' h [(_ & [= <-] & _)|[_ Hh]]%list_lookup_insert_Some; [lia|].
    pose proof (g_lt _ _ _ _ _ Hg _ _ Hh). lia.
  - intros i o Hi. pose proof (g_old _ _ _ _ _ Hg _ _ Hi). lia.
  - intros j1 j2 h [(<- & [= <-] & _)|[Hn1 H1]]%list_lookup_insert_Some
      [(<- & E & _)|[Hn2 H2]]%list_lookup_insert_Some; try done.
    + by destruct (Hlt _ _ H2).
    + injection E as <-. by destruct (Hlt _ _ H1).
    + by eapply g_inj.
  - intros j' h i' o' [(_ & [= <-] & _)|[_ Hh]]%list_lookup_insert_Some Hp' Hi'.
    + by eapply Hold.
    + by eapply (g_sep _ _ _ _ _ Hg j' h i' o').
  - intros i' o' Hp' Hi'. unfold setText.
    rewrite decide_False by (by eapply Hold). by eapply g_told.
  - intros Hok j' n' h Hj' [(<- & [= <-] & _)|[_ Hh]]%list_lookup_insert_Some.
    + rewrite Hj in Hj'. injection Hj' as <-. unfold setText. by rewrite decide_True.
    + unfold setText. rewrite decide_False by (by eapply Hlt). by eapply g_tnew.
Qed.

Lemma good_unmount (pend : nat → Prop) p o : good pend p → good pend (planUnmount o p).
Proof. intros [? ? ? ? ? ? ?]. by split. Qed.

Lemma good_move (pend : nat → Prop) p h anchor :
  good pend p → good pend (planMove h anchor p).
Proof. intros [? ? ? ? ? ? ?]. by split. Qed.

Lemma good_warn (pend : nat → Prop) p k : good pend p → good pend (planWarn k p).
Proof. intros [? ? ? ? ? ? ?]. by split. Qed.

Local Abbreviation synced := (Synced olds news writes).

Lemma countOps_snoc f log op :
  countOps f (log ++ [op]) = countOps f log + (if f op then 1 else 0).
Proof.
  unfold countOps. rewrite filter_app, length_app. f_equal.
  destruct (f op) eqn:E.
  - by rewrite filter_cons_True.
  - rewrite filter_cons_False; [done|]. by rewrite E.
Qed.

Lemma sameOps_refl p : sameOps p p.
Proof. by intros f Hf. Qed.

Lemma sameOps_patch p p' o j n :
  sameOps (planPatch writes o j n p) p' → sameOps p p'.
Proof.
  intros Hs f Hf. rewrite (Hs f Hf). cbn [planPatch aLog].
  rewrite countOps_snoc, Hf. lia.
Qed.

Lemma planNew_fresh j n p :
  news !! j = Some n → aE p !! j = Some None → planNew news j p = Some n.
Proof. intros Hj Hf. unfold planNew. rewrite Hj, Hf. done. Qed.

Lemma planSyncStart_synced rounds : ∀ i p,
  synced i (length olds) (length news) p →
  length olds `min` length news - i ≤ rounds →
  ∃ i' p', planSyncStart olds news writes rounds i (length olds) (length news) p
           = Some (i', p')
           ∧ synced i' (length olds) (length news) p' ∧ sameOps p p'.
Proof using old_els.
  induction rounds as [|r IH]; intros i p Hs Hr; cbn [planSyncStart];
    destruct (Nat.ltb_spec i (length olds)) as [H1|H1];
    destruct (Nat.ltb_spec i (length news)) as [H2|H2]; cbn [andb];
    try (exists i, p; split; [done|]; split; [done|apply sameOps_refl]);
    [lia|].
  destruct (lookup_lt_is_Some_2 _ _ H1) as [o Hi].
  destruct (lookup_lt_is_Some_2 _ _ H2) as [n Hj].
  rewrite Hi. cbn [mbind option_bind].
  rewrite (planNew_fresh _ _ _ Hj) by (apply (sy_mid _ _ _ _ _ _ _ Hs); lia).
  cbn [mbind option_bind].
  destruct (decide (o_key o = n_key n)) as [Hk|Hk];
    [|exists i, p; split; [done|]; split; [done|apply sameOps_refl]].
  destruct (IH (i + 1) (planPatch writes o i n p)) as (i' & p' & Hp & Hs' & Hsame);
    [|lia|exists i', p'; split; [done|]; split; [done|by eapply sameOps_patch]].
  pose proof (g_len _ _ _ _ _ (sy_good _ _ _ _ _ _ _ Hs)) as Hlen.
  split; cbn [planPatch aK aE aNext aText aLog]; try lia.
  - intros k o' Hk' Ho'. destruct (decide (k = i)) as [->|Hne].
    + rewrite list_lookup_insert_eq by lia. congruence.
    + rewrite list_lookup_insert_ne by done. apply (sy_pre _ _ _ _ _ _ _ Hs); [lia|done].
  - intros k Hk'. rewrite list_lookup_insert_ne by lia.
    apply (sy_mid _ _ _ _ _ _ _ Hs). lia.
  - intros k o' Hk' Ho'. apply lookup_lt_Some in Ho'. lia.
  - eapply good_mono; [|eapply good_patch; [apply Hs| |done..]]; cbn; lia.
  - apply Hs.
  - intros k o' n' Hk' Ho' Hn'. destruct (decide (k = i)) as [->|Hne].
    + congruence.
    + apply (sy_kpre _ _ _ _ _ _ _ Hs k); [lia|done..].
  - intros k o' n' Hk' Ho' Hn'. apply lookup_lt_Some in Ho'. lia.
Qed.

Lemma planSyncEnd_synced rounds : ∀ s e1 e2 p,
  synced s e1 e2 p → e2 - s ≤ rounds →
  ∃ e1' e2' p', planSyncEnd olds news writes rounds s e1 e2 p = Some (e1', e2', p')
                ∧ synced s e1' e2' p' ∧ sameOps p p'.
Proof using old_els.
  induction rounds as [|r IH]; intros s e1 e2 p Hs Hr; cbn [planSyncEnd];
    destruct (Nat.ltb_spec s e1) as [H1|H1];
    destruct (Nat.ltb_spec s e2) as [H2|H2]; cbn [andb];
    try (exists e1, e2, p; split; [done|]; split; [done|apply sameOps_refl]);
    [lia|].
  pose proof (sy_e1 _ _ _ _ _ _ _ Hs) as He1.
  pose proof (sy_e2 _ _ _ _ _ _ _ Hs) as He2.
  pose proof (sy_d _ _ _ _ _ _ _ Hs) as Hd.
  destruct (lookup_lt_is_Some_2 olds (e1 - 1)) as [o Hi]; [lia|].
  destruct (lookup_lt_is_Some_2 news (e2 - 1)) as [n Hj]; [lia|].
  rewrite Hi. cbn [mbind option_bind].
  rewrite (planNew_fresh _ _ _ Hj) by (apply (sy_mid _ _ _ _ _ _ _ Hs); lia).
  cbn [mbind option_bind].
  destruct (decide (o_key o = n_key n)) as [Hk|Hk];
    [|exists e1, e2, p; split; [done|]; split; [done|apply sameOps_refl]].
  destruct (IH s (e1 - 1) (e2 - 1) (planPatch writes o (e2 - 1) n p))
    as (e1' & e2' & p' & Hp & Hs' & Hsame);
    [|lia|exists e1', e2', p'; split; [done|]; split; [done|by eapply sameOps_patch]].
  pose proof (g_len _ _ _ _ _ (sy_good _ _ _ _ _ _ _ Hs)) as Hlen.
  split; cbn [planPatch aK aE aNext aText aLog]; try lia.
  - intros k o' Hk' Ho'. rewrite list_lookup_insert_ne by lia.
    by apply (sy_pre _ _ _ _ _ _ _ Hs).
  - intros k Hk'. rewrite list_lookup_insert_ne by lia.
    apply (sy_mid _ _ _ _ _ _ _ Hs). lia.
  - intros k o' Hk' Ho'. destruct (decide (k = e1 - 1)) as [->|Hne].
    + replace (e1 - 1 + (e2 - 1) - (e1 - 1)) with (e2 - 1) by lia.
      rewrite list_lookup_insert_eq by lia. congruence.
    + rewrite list_lookup_insert_ne by lia.
      replace (k + (e2 - 1) - (e1 - 1)) with (k + e2 - e1) by lia.
      apply (sy_suf _ _ _ _ _ _ _ Hs); [lia|done].
  - eapply good_mono; [|eapply good_patch; [apply Hs| |done..]]; cbn; lia.
  - apply Hs.
  - apply Hs.
  - intros k o' n' Hk' Ho' Hn'. destruct (decide (k = e1 - 1)) as [->|Hne].
    + replace (e1 - 1 + (e2 - 1) - (e1 - 1)) with (e2 - 1) in Hn' by lia. congruence.
    + replace (k + (e2 - 1) - (e1 - 1)) with (k + e2 - e1) in Hn' by lia.
      apply (sy_ksuf _ _ _ _ _ _ _ Hs k); [lia|done..].
Qed.

(** *** Putting the new children in place *)

Local Abbreviation settling := (Settling olds news writes).

Lemma elOf_iff (pend : nat → Prop) p x y x' y' :
  good pend p → elOf p x y → elOf p x' y' → (x = x' ↔ y = y').
Proof.
  unfold elOf. intros Hg Hx Hx'. split.
  - intros <-. by eapply g_inj.
  - intros <-. congruence.
Qed.

Lemma Forall2_elem_of_l {A B} (R : A → B → Prop) l k x :
  Forall2 R l k → x ∈ l → ∃ y, y ∈ k ∧ R x y.
Proof.
  intros HF. induction HF as [|a b l k Hab HF IH]; [by intros ?%elem_of_nil|].
  intros [->|Hx]%elem_of_cons.
  - exists b. split; [by left|done].
  - destruct (IH Hx) as (y & Hy & Hxy). exists y. split; [by right|done].
Qed.

Lemma Forall2_elem_of_r {A B} (R : A → B → Prop) l k y :
  Forall2 R l k → y ∈ k → ∃ x, x ∈ l ∧ R x y.
Proof.
  intros HF. induction HF as [|a b l k Hab HF IH]; [by intros ?%elem_of_nil|].
  intros [->|Hy]%elem_of_cons.
  - exists a. split; [by left|done].
  - destruct (IH Hy) as (x & Hx & Hxy). exists x. split; [by right|done].
Qed.

Lemma Forall2_impl_in {A B} (R R' : A → B → Prop) l k :
  Forall2 R l k → (∀ x y, y ∈ k → R x y → R' x y) → Forall2 R' l k.
Proof.
  intros HF. induction HF as [|a b l k Hab HF IH]; intros Himp; constructor.
  - apply Himp; [by left|done].
  - apply IH. intros x y Hy. apply Himp. by right.
Qed.

Lemma filter_ext_in {A} (P Q : A → Prop) `{∀ x, Decision (P x), ∀ x, Decision (Q x)}
    (l : list A) :
  (∀ x, x ∈ l → P x ↔ Q x) → filter P l = filter Q l.
Proof.
  induction l as [|x l IH]; intros Hext; [done|].
  assert (filter P l = filter Q l) as IH'.
  { apply IH. intros y Hy. apply Hext. by right. }
  destruct (decide (P x)) as [Hp|Hp].
  - rewrite !filter_cons_True; [by f_equal| |done]. apply Hext; [by left|done].
  - rewrite !filter_cons_False; [done| |done]. intros Hq. apply Hp, Hext; [by left|done].
Qed.

Lemma anchor_ok p KJ k :
  Forall2 (elOf p) (aK p) KJ → k ∈ KJ → k < length news →
  ∃ a, planAnchor news None k p = Some a ∧ elOf p a k.
Proof.
  intros HF Hk Hlt. destruct (Forall2_elem_of_r _ _ _ _ HF Hk) as (a & _ & Ha).
  exists a. split; [|done]. unfold planAnchor.
  rewrite (proj2 (Nat.ltb_lt _ _)) by done. unfold elOf in Ha. by rewrite Ha.
Qed.

Lemma anchor_none p k : length news ≤ k → planAnchor news None k p = None.
Proof. intros Hk. unfold planAnchor. by rewrite (proj2 (Nat.ltb_ge _ _)). Qed.

Lemma mount_pairs (pend : nat → Prop) p KJ j n k :
  good pend p → Forall2 (elOf p) (aK p) KJ → news !! j = Some n → j ∉ KJ →
  (k < length news → k ∈ KJ) →
  Forall2 (elOf (planMount j n (planAnchor news None k p) p))
    (aK (planMount j n (planAnchor news None k p) p))
    (insertBefore (anchorIdx news k) j KJ).
Proof.
  intros Hg HF Hj Hnot Hk.
  set (p' := planMount j n (planAnchor news None k p) p).
  assert (Hg' : good pend p') by (by apply good_mount).
  assert (Hfresh : aNext p ∉ aK p).
  { intros Hin. destruct (Forall2_elem_of_l _ _ _ _ HF Hin) as (y & _ & Hy).
    pose proof (g_lt _ _ _ _ _ Hg _ _ Hy). lia. }
  assert (HF' : Forall2 (elOf p') (aK p) KJ).
  { eapply Forall2_impl_in; [exact HF|]. intros x y Hy Hxy. unfold elOf, p'.
    cbn [planMount aE]. rewrite list_lookup_insert_ne; [done|]. by intros ->. }
  assert (Hh : elOf p' (aNext p) j).
  { unfold elOf, p'. cbn [planMount aE]. rewrite list_lookup_insert_eq; [done|].
    rewrite (g_len _ _ _ _ _ Hg). by eapply lookup_lt_Some. }
  unfold p' at 2. cbn [planMount aK]. rewrite without_notin by done.
  unfold anchorIdx. destruct (Nat.ltb_spec k (length news)) as [Hlt|Hge].
  - destruct (anchor_ok p KJ k HF (Hk Hlt) Hlt) as (a & -> & Ha).
    cbn [insertBefore]. apply Forall2_insertAt; [|done..].
    intros x y Hxy. eapply (elOf_iff _ p'); [done|done|].
    destruct (Forall2_elem_of_r _ _ _ _ HF' (Hk Hlt)) as (a' & _ & Ha').
    unfold elOf in Ha, Ha'. unfold elOf. rewrite Ha'.
    unfold p' in Ha'. cbn [planMount aE] in Ha'.
    rewrite list_lookup_insert_ne in Ha' by (intros ->; by apply Hnot, Hk).
    congruence.
  - rewrite anchor_none by done. cbn [insertBefore].
    apply Forall2_app; [done|]. by repeat constructor.
Qed.

Lemma move_pairs (pend : nat → Prop) p KJ j h k :
  good pend p → Forall2 (elOf p) (aK p) KJ → elOf p h j → k ≠ j →
  (k < length news → k ∈ KJ) →
  Forall2 (elOf p) (aK (planMove h (planAnchor news None k p) p))
    (insertBefore (anchorIdx news k) j (without j KJ)).
Proof.
  intros Hg HF Hh Hne Hk. cbn [planMove aK].
  assert (HF' : Forall2 (elOf p) (without h (aK p)) (without j KJ)).
  { apply Forall2_without; [|done]. intros x y Hxy. by eapply elOf_iff. }
  unfold anchorIdx. destruct (Nat.ltb_spec k (length news)) as [Hlt|Hge].
  - destruct (anchor_ok p KJ k HF (Hk Hlt) Hlt) as (a & -> & Ha).
    cbn [insertBefore]. apply Forall2_insertAt; [|done..].
    intros x y Hxy. by eapply elOf_iff.
  - rewrite anchor_none by done. cbn [insertBefore].
    apply Forall2_app; [done|]. by repeat constructor.
Qed.

Lemma filter_all {A} (P : A → Prop) `{∀ x, Decision (P x)} (l : list A) :
  (∀ x, x ∈ l → P x) → filter P l = l.
Proof.
  induction l as [|x l IH]; intros Hall; [done|].
  rewrite filter_cons_True by (apply Hall; by left).
  f_equal. apply IH. intros y Hy. apply Hall. by right.
Qed.

Lemma settling_mount (Σ Σ' : nat → bool) p KJ j n k :
  settling Σ p KJ → news !! j = Some n → aE p !! j = Some None →
  (∀ x, Σ' x = true ↔ Σ x = true ∨ x = j) →
  (k < length news → Σ k = true) → j < k →
  (∀ x, Σ x = true → x < k → x < j) →
  settling Σ' (planMount j n (planAnchor news None k p) p)
    (insertBefore (anchorIdx news k) j KJ).
Proof.
  intros Hs Hj Hnone HΣ Hk Hjk Hlow.
  assert (Hnot : j ∉ KJ).
  { intros Hin. destruct (Forall2_elem_of_r _ _ _ _ (st_pairs _ _ _ _ _ _ Hs) Hin)
      as (a & _ & Ha). unfold elOf in Ha. congruence. }
  assert (Hfil : filter (λ x, Σ' x = true) KJ = filter (λ x, Σ x = true) KJ).
  { apply filter_ext_in. intros x Hx. rewrite HΣ. split; [|tauto].
    intros [?| ->]; [done|]. by destruct Hnot. }
  assert (Hjl : j < length news) by (by eapply lookup_lt_Some).
  split.
  - eapply mount_pairs; [apply Hs|apply Hs|done|done|].
    intros Hlt. by apply (st_in _ _ _ _ _ _ Hs), Hk.
  - unfold anchorIdx. destruct (Nat.ltb_spec k (length news)) as [Hlt|Hge];
      cbn [insertBefore].
    + rewrite filter_insertAt by (apply HΣ; auto).
      rewrite Hfil. apply sorted_insertAt; [apply Hs| |done|].
      * apply list_elem_of_filter. split; [auto|]. apply (st_in _ _ _ _ _ _ Hs); auto.
      * intros x [Hx _]%list_elem_of_filter. by apply Hlow.
    + rewrite filter_app, Hfil, filter_cons_True by (apply HΣ; auto).
      apply sorted_snoc; [apply Hs|].
      intros x [Hx Hin]%list_elem_of_filter. apply Hlow; [done|].
      pose proof (st_lt _ _ _ _ _ _ Hs _ Hin). lia.
  - intros x Hx [HΣx| ->]%HΣ; apply elem_of_insertBefore; [right|by left].
    by apply (st_in _ _ _ _ _ _ Hs).
  - intros x [->|Hx]%elem_of_insertBefore; [done|]. by apply (st_lt _ _ _ _ _ _ Hs).
  - apply good_mount; [apply Hs|done].
Qed.

Lemma settling_move (Σ Σ' : nat → bool) p KJ j h k :
  settling Σ p KJ → elOf p h j → Σ j = false →
  (∀ x, Σ' x = true ↔ Σ x = true ∨ x = j) →
  (k < length news → Σ k = true) → j < k →
  (∀ x, Σ x = true → x < k → x < j) →
  settling Σ' (planMove h (planAnchor news None k p) p)
    (insertBefore (anchorIdx news k) j (without j KJ)).
Proof.
  intros Hs Hh Hj HΣ Hk Hjk Hlow.
  assert (Hjl : j < length news).
  { unfold elOf in Hh. apply lookup_lt_Some in Hh.
    by rewrite (g_len _ _ _ _ _ (st_good _ _ _ _ _ _ Hs)) in Hh. }
  assert (Hfil : filter (λ x, Σ' x = true) (without j KJ)
                 = filter (λ x, Σ x = true) KJ).
  { rewrite <- (filter_without (λ x, Σ x = true) j KJ) by congruence.
    apply filter_ext_in. intros x [_ Hx]%elem_of_without. rewrite HΣ. tauto. }
  split.
  - assert (Hkj : k ≠ j) by lia.
    exact (move_pairs _ p KJ j h k (st_good _ _ _ _ _ _ Hs) (st_pairs _ _ _ _ _ _ Hs)
             Hh Hkj (λ Hlt, st_in _ _ _ _ _ _ Hs k Hlt (Hk Hlt))).
  - unfold anchorIdx. destruct (Nat.ltb_spec k (length news)) as [Hlt|Hge];
      cbn [insertBefore].
    + rewrite filter_insertAt by (apply HΣ; auto).
      rewrite Hfil. apply sorted_insertAt; [apply Hs| |done|].
      * apply list_elem_of_filter. split; [auto|]. apply (st_in _ _ _ _ _ _ Hs); auto.
      * intros x [Hx _]%list_elem_of_filter. by apply Hlow.
    + rewrite filter_app, Hfil, filter_cons_True by (apply HΣ; auto).
      apply sorted_snoc; [apply Hs|].
      intros x [Hx Hin]%list_elem_of_filter. apply Hlow; [done|].
      pose proof (st_lt _ _ _ _ _ _ Hs _ Hin). lia.
  - intros x Hx [HΣx| ->]%HΣ; apply elem_of_insertBefore; [right|by left].
    apply elem_of_without. split; [by apply (st_in _ _ _ _ _ _ Hs)|].
    intros ->. congruence.
  - intros x [->|[Hx _]%elem_of_without]%elem_of_insertBefore; [done|].
    by apply (st_lt _ _ _ _ _ _ Hs).
  - apply good_move, Hs.
Qed.

Lemma settling_weaken (Σ Σ' : nat → bool) p KJ :
  settling Σ p KJ → (∀ x, x < length news → Σ' x = Σ x) → settling Σ' p KJ.
Proof.
  intros Hs HΣ. split; try apply Hs.
  - rewrite (filter_ext_in _ (λ x, Σ x = true)); [apply Hs|].
    intros x Hx. rewrite HΣ; [done|]. by apply (st_lt _ _ _ _ _ _ Hs).
  - intros x Hx HΣx. apply (st_in _ _ _ _ _ _ Hs); [done|]. by rewrite <- HΣ.
Qed.

Lemma settling_done (Σ : nat → bool) p KJ :
  settling Σ p KJ → (∀ j, j < length news → Σ j = true) → Settled news p.
Proof.
  intros Hs Hall. unfold Settled.
  rewrite <- (sorted_all KJ (length news)); [apply Hs| |].
  - rewrite <- (filter_all (λ j, Σ j = true) KJ); [apply Hs|].
    intros x Hx. by apply Hall, (st_lt _ _ _ _ _ _ Hs).
  - intros j. split; [apply Hs|]. intros Hj. apply (st_in _ _ _ _ _ _ Hs); auto.
Qed.

(** *** The children of the container as old children *)

Lemma hdl_iff x y x' y' : hdl olds x y → hdl olds x' y' → (x = x' ↔ y = y').
Proof using old_els.
  unfold hdl. destruct (olds !! y) as [o|] eqn:Hy; [|done].
  destruct (olds !! y') as [o'|] eqn:Hy'; [|done]. cbn. intros [= <-] [= <-]. split.
  - by eapply old_el_inj.
  - intros <-. congruence.
Qed.

Lemma hdl_all : Forall2 (hdl olds) (o_el <$> olds) (seq 0 (length olds)).
Proof.
  apply Forall2_same_length_lookup_2.
  - by rewrite length_fmap, length_seq.
  - intros i x y Hx [-> _]%lookup_seq. unfold hdl. by rewrite <- list_lookup_fmap.
Qed.

Lemma hdl_unmount p KI i o :
  Forall2 (hdl olds) (aK p) KI → olds !! i = Some o →
  Forall2 (hdl olds) (aK (planUnmount o p)) (without i KI).
Proof using old_els.
  intros HF Hi. cbn [planUnmount aK]. apply Forall2_without; [|done].
  intros x y Hxy. apply hdl_iff; [done|]. unfold hdl. by rewrite Hi.
Qed.

Lemma sorted_filter (P : nat → Prop) `{∀ x, Decision (P x)} l :
  StronglySorted lt l → StronglySorted lt (filter P l).
Proof.
  intros Hs. rewrite <- (list_fmap_id l). by apply sorted_filter_fmap.
Qed.

(** From old children to new children: when every child of the
    container is an old child whose host element was given to the new
    child [tgt k]. *)
Lemma settle_from_old (keep : nat → bool) (tgt : nat → nat) (Σ : nat → bool) p :
  Forall2 (hdl olds) (aK p) (filter (λ k, keep k = true) (seq 0 (length olds))) →
  good (λ _, False) p →
  (∀ k o, keep k = true → olds !! k = Some o → elOf p (o_el o) (tgt k)) →
  (∀ a b, a < b < length olds → keep a = true → keep b = true →
          Σ (tgt a) = true → Σ (tgt b) = true → tgt a < tgt b) →
  (∀ x, x < length news → Σ x = true → ∃ k, k < length olds ∧ keep k = true ∧ tgt k = x) →
  settling Σ p (tgt <$> filter (λ k, keep k = true) (seq 0 (length olds))).
Proof.
  intros HF Hg Hel Hmono Hin. split; [| | | |done].
  - apply Forall2_fmap_r. eapply Forall2_impl_in; [exact HF|].
    intros h k [Hk Hkm]%list_elem_of_filter Hh. unfold hdl in Hh.
    destruct (olds !! k) as [o|] eqn:Ho; [|done]. injection Hh as <-. by eapply Hel.
  - apply sorted_filter_fmap; [apply sorted_filter, sorted_seq|].
    intros a b [Ha Ham]%list_elem_of_filter [Hb Hbm]%list_elem_of_filter Hab.
    apply elem_of_seq in Hbm. apply Hmono; [lia|done..].
  - intros x Hx HΣ. destruct (Hin x Hx HΣ) as (k & Hk & Hkeep & <-).
    apply list_elem_of_fmap. exists k. split; [done|].
    apply list_elem_of_filter. split; [done|]. apply elem_of_seq. lia.
  - intros x (k & -> & [Hk Hkm]%list_elem_of_filter)%list_elem_of_fmap.
    apply elem_of_seq in Hkm. destruct (lookup_lt_is_Some_2 olds k) as [o Ho]; [lia|].
    pose proof (Hel _ _ Hk Ho) as He. unfold elOf in He. apply lookup_lt_Some in He.
    by rewrite (g_len _ _ _ _ _ Hg) in He.
Qed.

(** *** 3. common sequence + mount *)

Lemma synced_elOf s e1 e2 p k o :
  synced s e1 e2 p → k < s ∨ e1 ≤ k → olds !! k = Some o →
  elOf p (o_el o) (syncedAt s e1 e2 k).
Proof.
  intros Hs Hk Ho. unfold syncedAt.
  pose proof (sy_s1 _ _ _ _ _ _ _ Hs).
  destruct (Nat.ltb_spec k s).
  - by apply (sy_pre _ _ _ _ _ _ _ Hs).
  - apply (sy_suf _ _ _ _ _ _ _ Hs); [lia|done].
Qed.

Lemma mountRange_loop e2 anchor n : ∀ j q KJ,
  j + n = e2 → e2 ≤ length news →
  settling (λ x, (x <? j) || (e2 <=? x)) q KJ →
  (∀ k, j ≤ k < e2 → aE q !! k = Some None) →
  planAnchor news None e2 q = anchor →
  ∃ p', foldl (λ acc j, p ← acc; n ← planNew news j p; Some (planMount j n anchor p))
          (Some q) (seq j n) = Some p'
        ∧ Settled news p' ∧ good (λ _, False) p'.
Proof.
  induction n as [|n IH]; intros j q KJ Hjn He2 Hs Hnone Ha; cbn [seq foldl].
  - exists q. split; [done|]. split; [|apply Hs].
    eapply settling_done; [exact Hs|]. intros x Hx. nat_bool.
  - destruct (lookup_lt_is_Some_2 news j) as [nj Hj]; [lia|].
    cbn [mbind option_bind].
    rewrite (planNew_fresh _ _ _ Hj) by (apply Hnone; lia). cbn [mbind option_bind].
    subst anchor.
    eapply (IH (S j) _ (insertBefore (anchorIdx news e2) j KJ)); [lia|done| | |].
    + eapply settling_mount; [exact Hs|done|apply Hnone; lia| | |lia|].
      * intros x. nat_bool; split; try done; try tauto; try lia.
        all: intros [?|?]; try done; lia.
      * intros _. nat_bool.
      * intros x. nat_bool.
    + intros k Hk. cbn [planMount aE]. rewrite list_lookup_insert_ne by lia.
      apply Hnone. lia.
    + unfold planAnchor. cbn [planMount aE].
      destruct (e2 <? length news); [|done]. by rewrite list_lookup_insert_ne by lia.
Qed.

Lemma planMountRange_settled s e2 p :
  synced s s e2 p →
  ∃ p', foldl (λ acc j, q ← acc; n ← planNew news j q;
                 Some (planMount j n (planAnchor news None e2 p) q))
          (Some p) (seq s (e2 - s)) = Some p'
        ∧ Settled news p' ∧ good (λ _, False) p'.
Proof using old_els.
  intros Hs.
  pose proof (sy_s2 _ _ _ _ _ _ _ Hs) as Hs2.
  pose proof (sy_e1 _ _ _ _ _ _ _ Hs) as He1.
  pose proof (sy_e2 _ _ _ _ _ _ _ Hs) as He2.
  pose proof (sy_d _ _ _ _ _ _ _ Hs) as Hd.
  eapply (mountRange_loop e2 _ (e2 - s) s p
            (syncedAt s s e2 <$> filter (λ k, true = true) (seq 0 (length olds))));
    [lia|done| |apply Hs|done].
  apply (settle_from_old (λ _, true)).
  - rewrite filter_all by done. rewrite (sy_K _ _ _ _ _ _ _ Hs). apply hdl_all.
  - eapply good_mono; [|apply Hs]. done.
  - intros k o _ Ho. eapply synced_elOf; [done|lia|done].
  - intros a b Hab _ _ _ _. unfold syncedAt.
    destruct (Nat.ltb_spec a s), (Nat.ltb_spec b s); lia.
  - intros x Hx HΣ. destruct (Nat.ltb_spec x s) as [Hlt|Hge].
    + exists x. unfold syncedAt. rewrite (proj2 (Nat.ltb_lt _ _)) by done.
      split; [lia|done].
    + exists (x + s - e2). unfold syncedAt. split; [nat_bool|]. split; [done|].
      nat_bool.
Qed.

(** *** 4. common sequence + unmount *)

Lemma unmountRange_loop s n : ∀ i q,
  s ≤ i → i + n ≤ length olds →
  Forall2 (hdl olds) (aK q)
    (filter (λ k, (k <? s) || (i <=? k) = true) (seq 0 (length olds))) →
  ∃ p', foldl (λ acc j, p ← acc; o ← olds !! j; Some (planUnmount o p))
          (Some q) (seq i n) = Some p'
        ∧ Forall2 (hdl olds) (aK p')
            (filter (λ k, (k <? s) || (i + n <=? k) = true) (seq 0 (length olds)))
        ∧ aE p' = aE q ∧ aNext p' = aNext q ∧ aText p' = aText q.
Proof using old_els.
  induction n as [|n IH]; intros i q Hsi Hin HF; cbn [seq foldl].
  - exists q. by rewrite Nat.add_0_r.
  - destruct (lookup_lt_is_Some_2 olds i) as [o Ho]; [lia|].
    cbn [mbind option_bind]. rewrite Ho. cbn [mbind option_bind].
    destruct (IH (S i) (planUnmount o q)) as (p' & Hp & HF' & HE & HN & HT);
      [lia|lia| |].
    + replace (filter (λ k, (k <? s) || (S i <=? k) = true) (seq 0 (length olds)))
        with (without i (filter (λ k, (k <? s) || (i <=? k) = true)
                           (seq 0 (length olds)))); [by apply hdl_unmount|].
      unfold without. rewrite list_filter_filter. apply list_filter_iff.
      intros k. nat_bool; split; try done; try tauto; try lia.
      all: intros [? ?]; try done; lia.
    + exists p'. replace (i + S n) with (S i + n) by lia. done.
Qed.

Lemma good_same (pend : nat → Prop) p p' :
  aE p' = aE p → aNext p' = aNext p → aText p' = aText p →
  good pend p → good pend p'.
Proof. intros HE HN HT [? ? ? ? ? ? ?]. split; rewrite ?HE, ?HN, ?HT; done. Qed.

Lemma planUnmountRange_settled s e1 p :
  synced s e1 s p →
  ∃ p', foldl (λ acc j, p ← acc; o ← olds !! j; Some (planUnmount o p))
          (Some p) (seq s (e1 - s)) = Some p'
        ∧ Settled news p' ∧ good (λ _, False) p'.
Proof using old_els.
  intros Hs.
  pose proof (sy_s1 _ _ _ _ _ _ _ Hs) as Hs1.
  pose proof (sy_e1 _ _ _ _ _ _ _ Hs) as He1.
  pose proof (sy_e2 _ _ _ _ _ _ _ Hs) as He2.
  pose proof (sy_d _ _ _ _ _ _ _ Hs) as Hd.
  destruct (unmountRange_loop s (e1 - s) s p) as (p' & Hp & HF & HE & HN & HT);
    [lia|lia| |].
  { rewrite filter_all by (intros k _; nat_bool).
    rewrite (sy_K _ _ _ _ _ _ _ Hs). apply hdl_all. }
  replace (s + (e1 - s)) with e1 in HF by lia.
  assert (Hg : good (λ _, False) p').
  { eapply good_same; [done..|]. eapply good_mono; [|apply Hs]. done. }
  exists p'. split; [done|]. split; [|done].
  eapply (settling_done (λ _, true)); [|done].
  apply (settle_from_old (λ k, (k <? s) || (e1 <=? k)) (syncedAt s e1 s)); [done|done|..].
  - intros k o Hk Ho. unfold elOf. rewrite HE.
    eapply synced_elOf; [done| |done]. nat_bool.
  - intros a b Hab Ha Hb _ _. unfold syncedAt. nat_bool.
  - intros x Hx _. destruct (Nat.ltb_spec x s) as [Hlt|Hge].
    + exists x. unfold syncedAt. split; [lia|]. split; nat_bool.
    + exists (x + e1 - s). unfold syncedAt. split; [lia|]. split; nat_bool.
Qed.

(** *** 5.1 build key:index map for newChildren *)

Lemma withLog_nil p : withLog p [] = p.
Proof. destruct p. unfold withLog. cbn. by rewrite app_nil_r. Qed.

Lemma planWarn_withLog p ws k : planWarn k (withLog p ws) = withLog p (ws ++ [k]).
Proof. unfold planWarn, withLog. cbn. by rewrite fmap_app, app_assoc. Qed.

Lemma buildMap_loop s p n : ∀ j m ws,
  s ≤ j → j + n ≤ length news →
  (∀ k, j ≤ k < j + n → aE p !! k = Some None) →
  KeyMap news dev s j m ws →
  ∃ m' ws',
    foldl (λ acc j,
        '(m, p) ← acc; n ← planNew news j p;
        Some (<[n_key n:=j]> m,
              if dev && bool_decide (is_Some (m !! n_key n))
              then planWarn (n_key n) p else p))
      (Some (m, withLog p ws)) (seq j n) = Some (m', withLog p ws')
    ∧ KeyMap news dev s (j + n) m' ws'.
Proof.
  induction n as [|n IH]; intros j m ws Hsj Hjn Hnone Hkm; cbn [seq foldl].
  - exists m, ws. by rewrite Nat.add_0_r.
  - destruct (lookup_lt_is_Some_2 news j) as [nj Hj]; [lia|].
    cbn [mbind option_bind].
    rewrite (planNew_fresh _ _ _ Hj) by (apply Hnone; lia). cbn [mbind option_bind].
    set (ws' := if dev && bool_decide (is_Some (m !! n_key nj))
                then ws ++ [n_key nj] else ws).
    replace (if dev && bool_decide (is_Some (m !! n_key nj))
             then planWarn (n_key nj) (withLog p ws) else withLog p ws)
      with (withLog p ws')
      by (subst ws'; destruct (dev && _); by rewrite ?planWarn_withLog).
    replace (j + S n) with (S j + n) by lia.
    apply IH; [lia|lia|intros k Hk; apply Hnone; lia|].
    split.
    + intros k j' [[Ek Ej]|[Hne Hm]]%lookup_insert_Some.
      * subst k j'. split; [lia|]. by exists nj.
      * destruct (km_ok _ _ _ _ _ _ Hkm _ _ Hm) as [? ?]. split; [lia|done].
    + intros j' n' Hj' Hn'. apply lookup_insert_is_Some'.
      destruct (decide (j' = j)) as [->|Hne].
      * left. congruence.
      * right. eapply (km_all _ _ _ _ _ _ Hkm); [|done]. lia.
    + intros Hd. subst ws'. rewrite Hd. cbn. by apply (km_quiet _ _ _ _ _ _ Hkm).
    + intros Hd k. subst ws'. rewrite Hd. cbn [andb]. split.
      * intros Hin.
        assert (k ∈ ws ∨ (k = n_key nj ∧ is_Some (m !! n_key nj))) as [Hk|[-> Hk]].
        { destruct (bool_decide_reflect (is_Some (m !! n_key nj))); [|by left].
          apply elem_of_app in Hin as [?|Hin]; [by left|].
          apply list_elem_of_singleton in Hin as ->. by right. }
        -- apply (km_warn _ _ _ _ _ _ Hkm Hd) in Hk
             as (j1 & j2 & n1 & n2 & ? & ? & ? & ? & ? & ?).
           exists j1, j2, n1, n2. repeat split; try done; lia.
        -- destruct Hk as [j1 Hj1].
           destruct (km_ok _ _ _ _ _ _ Hkm _ _ Hj1) as [? (n1 & ? & ?)].
           exists j1, j, n1, nj. repeat split; try done; lia.
      * intros (j1 & j2 & n1 & n2 & H12 & H2 & Hn1 & Hn2 & Hk1 & Hk2).
        destruct (decide (j2 = j)) as [->|Hne].
        -- rewrite Hj in Hn2. injection Hn2 as <-.
           assert (is_Some (m !! n_key nj)) as Hsome.
           { rewrite Hk2, <- Hk1. eapply (km_all _ _ _ _ _ _ Hkm); [|done]. lia. }
           rewrite bool_decide_eq_true_2 by done. apply elem_of_app. right.
           by apply list_elem_of_singleton.
        -- assert (k ∈ ws) as Hin.
           { apply (km_warn _ _ _ _ _ _ Hkm Hd). exists j1, j2, n1, n2.
             repeat split; try done; lia. }
           destruct (bool_decide _); [|done]. apply elem_of_app. by left.
Qed.

Lemma planBuildMap_spec s e2 p :
  s ≤ e2 → e2 ≤ length news → (∀ k, s ≤ k < e2 → aE p !! k = Some None) →
  ∃ m ws, planBuildMap news dev s e2 p = Some (m, withLog p ws)
          ∧ KeyMap news dev s e2 m ws.
Proof.
  intros Hs He Hnone. unfold planBuildMap.
  destruct (buildMap_loop s p (e2 - s) s ∅ []) as (m & ws & Hf & Hkm);
    [lia|lia|intros k Hk; apply Hnone; lia| |].
  - split; try done.
    + intros. lia.
    + intros _ k. split; [by intros ?%elem_of_nil|].
      intros (j1 & j2 & _ & _ & ? & ? & _). lia.
  - exists m, ws. rewrite withLog_nil in Hf. split; [done|].
    by replace (s + (e2 - s)) with e2 in Hkm by lia.
Qed.

(** *** 5.2 patch the old children that are found again *)

Lemma rd_nonzero_lookup (l : list nat) x : rd l x ≠ 0 → l !! x = Some (rd l x).
Proof. unfold rd. by destruct (l !! x). Qed.

Lemma rd_nonzero_lt (l : list nat) x : rd l x ≠ 0 → x < length l.
Proof. intros Hx%rd_nonzero_lookup. by eapply lookup_lt_Some. Qed.

Lemma rd_replicate n x : rd (replicate n 0) x = 0.
Proof.
  unfold rd. destruct (replicate n 0 !! x) as [v|] eqn:E; [|done].
  by apply lookup_replicate in E as [-> _].
Qed.

Lemma elem_of_rd (l : list nat) v : v ≠ 0 → v ∈ l ↔ ∃ x, rd l x = v.
Proof.
  intros Hv. rewrite list_elem_of_lookup. split.
  - intros [x Hx]. exists x. by apply rd_lookup.
  - intros [x Hx]. exists x. rewrite <- Hx. apply rd_nonzero_lookup. by rewrite Hx.
Qed.

Lemma nz_le l : nz l ≤ length l.
Proof. apply length_filter. Qed.

Lemma nz_replicate n : nz (replicate n 0) = 0.
Proof.
  unfold nz. induction n as [|n IH]; [done|]. cbn [replicate].
  by rewrite filter_cons_False by (intros Hne; by apply Hne).
Qed.

Lemma nz_insert l x v :
  x < length l → rd l x = 0 → v ≠ 0 → nz (<[x:=v]> l) = nz l + 1.
Proof.
  intros Hx Hz Hv. destruct (lookup_lt_is_Some_2 l x Hx) as [a Ha].
  rewrite (rd_lookup _ _ _ Ha) in Hz. subst a.
  rewrite insert_take_drop by done.
  rewrite <- (take_drop_middle l x 0 Ha) at 3.
  unfold nz. rewrite !filter_app, !length_app.
  rewrite filter_cons_True by done.
  rewrite (filter_cons_False _ 0) by (intros Hne; by apply Hne).
  cbn [length]. lia.
Qed.

Lemma nz_full l : length l ≤ nz l → ∀ x, x < length l → rd l x ≠ 0.
Proof.
  induction l as [|a l IH]; intros Hn x Hx; [cbn in Hx; lia|].
  unfold nz in *. destruct (decide (a ≠ 0)) as [Ha|Ha].
  - rewrite filter_cons_True in Hn by done. cbn in Hn, Hx.
    destruct x as [|x]; [done|]. apply IH; lia.
  - rewrite filter_cons_False in Hn by done. cbn in Hn.
    pose proof (nz_le l). unfold nz in *. lia.
Qed.

Local Abbreviation matching := (Matching olds news writes).

Lemma elem_of_insert_zero (l : list nat) x v w :
  x < length l → rd l x = 0 → w ≠ 0 → w ∈ <[x:=v]> l ↔ w = v ∨ w ∈ l.
Proof.
  intros Hx Hz Hw. destruct (decide (w = v)) as [->|Hne].
  - split; [by left|]. intros _. by apply list_elem_of_insert.
  - rewrite !elem_of_rd by done. split.
    + intros [y Hy]. right. exists y. destruct (decide (x = y)) as [->|Hxy].
      * rewrite rd_insert_eq in Hy by done. congruence.
      * by rewrite rd_insert_ne in Hy.
    + intros [?|[y Hy]]; [done|]. exists y. rewrite rd_insert_ne; [done|].
      intros ->. congruence.
Qed.

Lemma matching_unmount s e1 e2 p0 i st p o :
  s ≤ i → i < e1 → olds !! i = Some o →
  matching s e1 e2 p0 i st p →
  (NoDup (n_key <$> news) →
   ∀ j n, s ≤ j < e2 → news !! j = Some n → o_key o ≠ n_key n) →
  matching s e1 e2 p0 (S i) st (planUnmount o p).
Proof using old_els.
  intros Hsi Hie Ho Hm Hnomatch.
  assert (Hnot : i + 1 ∉ newIndexToOldIndexMap st).
  { intros Hin. apply elem_of_rd in Hin as [x Hx]; [|lia].
    destruct (mt_match _ _ _ _ _ _ _ _ _ _ Hm x) as (_ & _ & ? & _); lia. }
  destruct Hm as [Hlen Hmatch Hzero Hpre Hsuf Hinj HK Hpat Hmax Hmono Hgood Hfull
                    Hunm Hops].
  split; try assumption.
  - intros x Hx. destruct (Hmatch x Hx) as (? & ? & ? & ?).
    repeat split; try done. lia.
  - replace (filter (λ k, keepM s (S i) (newIndexToOldIndexMap st) k = true)
               (seq 0 (length olds)))
      with (without i (filter (λ k, keepM s i (newIndexToOldIndexMap st) k = true)
                         (seq 0 (length olds))));
      [by apply hdl_unmount|].
    unfold without. rewrite list_filter_filter. apply list_filter_iff.
    intros k. unfold keepM. cbv beta.
    destruct (decide (k + 1 ∈ newIndexToOldIndexMap st)) as [Hin|Hin].
    + rewrite !bool_decide_eq_true_2 by done. rewrite !orb_true_r.
      split; [done|]. intros _. split; [|done]. by intros ->.
    + rewrite !bool_decide_eq_false_2 by done. rewrite !orb_false_r.
      nat_bool; split; try done; try tauto; try lia.
      all: intros [? ?]; try done; lia.
  - apply (good_mono (λ k, i ≤ k < e1)); [cbn; lia|]. by apply good_unmount.
  - intros Hnd k o' j n Hk Ho' Hj Hn Hkey.
    destruct (decide (k = i)) as [->|Hne].
    + rewrite Ho in Ho'. injection Ho' as <-. by destruct (Hnomatch Hnd j n).
    + eapply Hfull; [done| |done..]. lia.
  - cbn [planUnmount aLog]. rewrite countOps_snoc. cbn [isUnmount]. lia.
  - intros f Hf1 Hf2. cbn [planUnmount aLog]. rewrite countOps_snoc, Hf2.
    rewrite Hops by done. lia.
Qed.

Lemma matching_patch s e1 e2 p0 i st p o newIndex n :
  s ≤ i → i < e1 → olds !! i = Some o → news !! newIndex = Some n →
  o_key o = n_key n → s ≤ newIndex < e2 →
  matching s e1 e2 p0 i st p →
  matching s e1 e2 p0 (S i)
    (mkDiff (patched st + 1)
       (if maxNewIndexSoFar st <=? newIndex then moved st else true)
       (if maxNewIndexSoFar st <=? newIndex then newIndex else maxNewIndexSoFar st)
       (<[newIndex - s := i + 1]> (newIndexToOldIndexMap st)))
    (planPatch writes o newIndex n p).
Proof using old_els old_keys.
  intros Hsi Hie Ho Hn Hkey Hrange Hm.
  destruct Hm as [Hlen Hmatch Hzero Hpre Hsuf Hinj HK Hpat Hmax Hmono Hgood Hfull
                    Hunm Hops].
  set (map := newIndexToOldIndexMap st) in *.
  set (x := newIndex - s).
  assert (Hx : x < length map) by (subst x; lia).
  assert (Hxz : rd map x = 0).
  { destruct (decide (rd map x = 0)) as [|Hnz]; [done|].
    destruct (Hmatch x Hnz) as (_ & ? & ? & o' & n' & Ho' & Hn' & Hk' & _).
    replace (s + x) with newIndex in Hn' by (subst x; lia).
    rewrite Hn in Hn'. injection Hn' as <-.
    assert (rd map x - 1 = i); [|lia].
    eapply old_key_inj; [done..|congruence]. }
  assert (Hlen' : newIndex < length (aE p)).
  { rewrite (g_len _ _ _ _ _ Hgood). by eapply lookup_lt_Some. }
  assert (Hvals : ∀ y, rd map y ≠ 0 → rd map y ≤ i ∧ y ≠ x).
  { intros y Hy. destruct (Hmatch y Hy) as (_ & _ & ? & _).
    split; [done|]. intros ->. congruence. }
  split; cbn [patched moved maxNewIndexSoFar newIndexToOldIndexMap planPatch
              aK aE aNext aText aLog]; fold map.
  - by rewrite length_insert.
  - intros y. destruct (decide (y = x)) as [->|Hne].
    + rewrite rd_insert_eq by done. intros _. split; [lia|]. split; [lia|].
      split; [lia|]. exists o, n. replace (i + 1 - 1) with i by lia.
      replace (s + x) with newIndex by (subst x; lia).
      repeat split; try done. unfold elOf. cbn [planPatch aE].
      by rewrite list_lookup_insert_eq.
    + rewrite rd_insert_ne by done. intros Hy.
      destruct (Hmatch y Hy) as (? & ? & ? & o' & n' & ? & ? & ? & He).
      repeat split; try done; [lia|]. exists o', n'. repeat split; try done.
      unfold elOf in *. cbn [planPatch aE]. rewrite list_lookup_insert_ne; [done|]. subst x. lia.
  - intros y Hy. destruct (decide (y = x)) as [->|Hne].
    + rewrite rd_insert_eq by done. lia.
    + rewrite rd_insert_ne by done. intros Hz.
      rewrite list_lookup_insert_ne by (subst x; lia). by apply Hzero.
  - intros k o' Hk Ho'. unfold elOf in *. cbn [planPatch aE].
    rewrite list_lookup_insert_ne by lia. by apply Hpre.
  - intros k o' Hk Ho'. unfold elOf in *. cbn [planPatch aE].
    apply lookup_lt_Some in Ho' as Hkm.
    rewrite list_lookup_insert_ne by lia. by apply Hsuf.
  - intros a b. destruct (decide (a = x)) as [->|Ha], (decide (b = x)) as [->|Hb];
      rewrite ?rd_insert_eq, ?rd_insert_ne by done; try done.
    + intros E _. destruct (Hvals b); [lia|]. lia.
    + intros E Hnz. destruct (Hvals a); [done|]. lia.
    + apply Hinj.
  - rewrite (filter_ext_in _ (λ k, keepM s i map k = true)); [done|].
    intros k Hk%elem_of_seq. unfold keepM.
    assert (k + 1 ∈ <[x:=i + 1]> map ↔ k = i ∨ k + 1 ∈ map) as Hin.
    { rewrite elem_of_insert_zero by (done || lia). split; intros [?|?]; auto; lia. }
    assert (k + 1 ∈ map → k < i) as Hlt.
    { intros [y Hy]%elem_of_rd; [|lia]. destruct (Hvals y); lia. }
    destruct (decide (k + 1 ∈ map)) as [Hin'|Hin'].
    + rewrite !bool_decide_eq_true_2 by tauto. by rewrite !orb_true_r.
    + rewrite (bool_decide_eq_false_2 (k + 1 ∈ map)) by done.
      destruct (decide (k = i)) as [->|Hki].
      * rewrite bool_decide_eq_true_2 by tauto. rewrite orb_true_r. nat_bool.
      * rewrite bool_decide_eq_false_2 by tauto. rewrite !orb_false_r. nat_bool.
  - rewrite nz_insert by (done || lia). lia.
  - intros y. destruct (decide (y = x)) as [->|Hne].
    + intros _. subst x. nat_bool.
    + rewrite rd_insert_ne by done. intros Hy%Hmax. nat_bool.
  - intros Hmv a b.
    assert (maxNewIndexSoFar st ≤ newIndex ∧ moved st = false) as [Hle Hmv'].
    { revert Hmv. nat_bool. }
    destruct (decide (a = x)) as [->|Ha], (decide (b = x)) as [->|Hb];
      rewrite ?rd_insert_eq, ?rd_insert_ne by done; try lia.
    + intros _ Hnz Hab. apply Hmax in Hnz. subst x. lia.
    + intros Hnz _ _. destruct (Hvals a); [done|]. lia.
    + by apply Hmono.
  - apply (good_mono (λ k, i ≤ k < e1 ∧ k ≠ i)); [cbn; lia|].
    apply good_patch; (done || lia).
  - intros Hnd k o' j n' Hk Ho' Hj Hn' Hkey'.
    destruct (decide (k = i)) as [->|Hne].
    + rewrite Ho in Ho'. injection Ho' as <-.
      assert (j = newIndex) as ->.
      { eapply NoDup_lookup; [exact Hnd| |]; rewrite list_lookup_fmap.
        - by rewrite Hn'.
        - rewrite Hn. cbn. congruence. }
      fold x. by rewrite rd_insert_eq.
    + assert (rd map (j - s) = k + 1) as Hv.
      { eapply Hfull; [done| |done..]. lia. }
      rewrite rd_insert_ne; [done|]. intros E. rewrite <- E in Hv. lia.
  - rewrite countOps_snoc. cbn [isUnmount]. lia.
  - intros f Hf1 Hf2. rewrite countOps_snoc, Hf1. rewrite Hops by done. lia.
Qed.

Lemma planOld_step km ws s e1 e2 p0 i st p :
  KeyMap news dev s e2 km ws → s ≤ i → i < e1 → e1 ≤ length olds →
  matching s e1 e2 p0 i st p →
  ∃ st' p', planOld olds news writes km s e2 (Some (st, p)) i = Some (st', p')
            ∧ matching s e1 e2 p0 (S i) st' p'.
Proof using old_els old_keys.
  intros Hkm Hsi Hie He1 Hm. unfold planOld. cbn [mbind option_bind].
  destruct (lookup_lt_is_Some_2 olds i) as [o Ho]; [lia|].
  rewrite Ho. cbn [mbind option_bind].
  destruct (Nat.leb_spec (e2 - s) (patched st)) as [Hfullp|Hroom].
  { exists st, (planUnmount o p). split; [done|].
    apply matching_unmount; [done..|].
    intros _ j n Hj Hn Hkey.
    assert (rd (newIndexToOldIndexMap st) (j - s) ≠ 0) as Hnz.
    { apply nz_full.
      - rewrite <- (mt_patched _ _ _ _ _ _ _ _ _ _ Hm),
          (mt_len _ _ _ _ _ _ _ _ _ _ Hm). lia.
      - rewrite (mt_len _ _ _ _ _ _ _ _ _ _ Hm). lia. }
    destruct (mt_match _ _ _ _ _ _ _ _ _ _ Hm _ Hnz)
      as (_ & ? & ? & o' & n' & Ho' & Hn' & Hk' & _).
    replace (s + (j - s)) with j in Hn' by lia.
    rewrite Hn in Hn'. injection Hn' as <-.
    assert (rd (newIndexToOldIndexMap st) (j - s) - 1 = i); [|lia].
    eapply old_key_inj; [done..|congruence]. }
  destruct (km !! o_key o) as [newIndex|] eqn:Hlook.
  - destruct (km_ok _ _ _ _ _ _ Hkm _ _ Hlook) as (Hrange & n & Hn & Hk).
    rewrite Hn. cbn [mbind option_bind]. rewrite decide_True by done.
    eexists _, _. split; [done|]. by apply matching_patch.
  - exists st, (planUnmount o p). split; [done|].
    apply matching_unmount; [done..|].
    intros _ j n Hj Hn Hkey.
    destruct (km_all _ _ _ _ _ _ Hkm j n Hj Hn) as [j' Hj'].
    rewrite <- Hkey in Hj'. congruence.
Qed.

Lemma planOld_loop km ws s e1 e2 p0 n : ∀ i st p,
  KeyMap news dev s e2 km ws → s ≤ i → i + n = e1 → e1 ≤ length olds →
  matching s e1 e2 p0 i st p →
  ∃ st' p', foldl (planOld olds news writes km s e2) (Some (st, p)) (seq i n)
            = Some (st', p')
            ∧ matching s e1 e2 p0 e1 st' p'.
Proof using old_els old_keys.
  induction n as [|n IH]; intros i st p Hkm Hsi Hin He1 Hm; cbn [seq foldl].
  - exists st, p. split; [done|]. by assert (e1 = i) as -> by lia.
  - destruct (planOld_step km ws s e1 e2 p0 i st p) as (st1 & p1 & -> & Hm1);
      [done|done|lia|done|done|].
    apply IH; [done|lia|lia|done|done].
Qed.

Lemma matching_init s e1 e2 p ws :
  synced s e1 e2 p →
  matching s e1 e2 (withLog p ws) s (mkDiff 0 false 0 (replicate (e2 - s) 0))
    (withLog p ws).
Proof.
  intros Hs. split; cbn [patched moved maxNewIndexSoFar newIndexToOldIndexMap];
    try (intros; rewrite rd_replicate in *; done).
  - by rewrite length_replicate.
  - intros x Hx _. cbn [withLog aE]. apply (sy_mid _ _ _ _ _ _ _ Hs). lia.
  - apply Hs.
  - apply Hs.
  - cbn [withLog aK]. rewrite filter_all.
    + rewrite (sy_K _ _ _ _ _ _ _ Hs). apply hdl_all.
    + intros k _. unfold keepM. nat_bool.
  - by rewrite nz_replicate.
  - eapply good_same; [..|apply Hs]; done.
  - intros. lia.
  - lia.
  - done.
Qed.

(** *** 5.3 move and mount *)

Local Abbreviation placing := (Placing olds news writes).

Global Instance inc_step_trans arr : Transitive (inc_step arr).
Proof. unfold inc_step. intros x y z. lia. Qed.

Lemma ssorted_rd (R : relation nat) l :
  StronglySorted R l → ∀ a b, a < b → b < length l → R (rd l a) (rd l b).
Proof.
  intros Hs. induction Hs as [|x l Hs IH Hall]; intros a b Hab Hb; [cbn in Hb; lia|].
  destruct b as [|b]; [lia|]. cbn in Hb.
  destruct (lookup_lt_is_Some_2 l b) as [y Hy]; [lia|].
  destruct a as [|a].
  - change (rd (x :: l) 0) with x. change (rd (x :: l) (S b)) with (rd l b).
    rewrite (rd_lookup _ _ _ Hy). rewrite Forall_forall in Hall.
    by eapply Hall, list_elem_of_lookup_2.
  - apply (IH a b); lia.
Qed.

Lemma pos_rd (map : list nat) x :
  (∀ a b, rd map a = rd map b → rd map a ≠ 0 → a = b) →
  rd map x ≠ 0 → pos map (rd map x) = x.
Proof.
  intros Hinj Hx. unfold pos.
  destruct (list_find _ map) as [[i y]|] eqn:E; cbn.
  - apply list_find_Some in E as (Hi & -> & _).
    symmetry. apply Hinj; [|done]. symmetry. by apply rd_lookup.
  - apply list_find_None in E. rewrite Forall_forall in E.
    destruct (E (rd map x)); [|done].
    eapply list_elem_of_lookup_2. by apply rd_nonzero_lookup.
Qed.

Lemma placed_step s e2 st sequence i x :
  placed s e2 st sequence i x = true
  ↔ placed s e2 st sequence (S i) x = true ∨ x = s + i.
Proof.
  unfold placed. destruct (stable st sequence (x - s)); nat_bool; split; auto.
  all: intros [?|?]; try done; lia.
Qed.

Lemma placed_at s e2 st sequence i :
  s + i < e2 → placed s e2 st sequence (S i) (s + i) = stable st sequence i.
Proof.
  intros Hi. unfold placed. replace (s + i - s) with i by lia.
  destruct (stable st sequence i); nat_bool.
Qed.

Lemma placed_next s e2 st sequence i :
  placed s e2 st sequence (S i) (s + i + 1) = true.
Proof. unfold placed. destruct (stable _ _ _); nat_bool. Qed.

Lemma placed_all s e2 st sequence x : placed s e2 st sequence 0 x = true.
Proof. unfold placed. destruct (stable _ _ _); nat_bool. Qed.

Lemma placing_counts (P : nat → Prop) `{∀ x, Decision (P x)} s e2 i :
  s + S i ≤ e2 →
  length (filter P (seq i (e2 - s - i)))
  = (if decide (P i) then 1 else 0) + length (filter P (seq (S i) (e2 - s - S i))).
Proof.
  intros Hi. replace (e2 - s - i) with (S (e2 - s - S i)) by lia. cbn [seq].
  destruct (decide (P i)).
  - by rewrite filter_cons_True.
  - by rewrite filter_cons_False.
Qed.

Lemma placing_stay s e2 st sequence p0 i jx jx' p KJ :
  s + S i ≤ e2 → e2 ≤ length news →
  placing s e2 st sequence p0 (S i) jx p KJ →
  rd (newIndexToOldIndexMap st) i ≠ 0 →
  stable st sequence i = true → jx' ≤ length sequence →
  (moved st = true → i ≠ 0 →
   ∀ a, a < length sequence → (a < jx' ↔ rd sequence a < i)) →
  placing s e2 st sequence p0 i jx' p KJ.
Proof.
  intros Hi He2 [Hset Hzero Hsome Hjxle Hjx Hmoves Hmounts Hops] Hnz Hst Hle Hjx'.
  split; try done.
  - eapply settling_weaken; [exact Hset|]. intros x Hx.
    destruct (decide (x = s + i)) as [->|Hne].
    + rewrite placed_at by lia. rewrite Hst. apply placed_step. by right.
    + destruct (placed s e2 st sequence i x) eqn:E1.
      * apply placed_step in E1 as [?|?]; done.
      * destruct (placed s e2 st sequence (S i) x) eqn:E2; [|done].
        assert (placed s e2 st sequence i x = true) by (apply placed_step; by left).
        congruence.
  - intros x Hx. apply Hzero. lia.
  - intros x Hx. apply Hsome. lia.
  - rewrite (placing_counts _ s e2 i Hi), Hmoves.
    rewrite decide_False; [done|]. intros [_ ?]. congruence.
  - rewrite (placing_counts _ s e2 i Hi), Hmounts. by rewrite decide_False.
Qed.

Lemma placing_mount s e2 st sequence p0 i jx p KJ n :
  s + S i ≤ e2 → e2 ≤ length news →
  (∀ x, x ∈ sequence → x = 0 ∨ rd (newIndexToOldIndexMap st) x ≠ 0) →
  placing s e2 st sequence p0 (S i) jx p KJ →
  news !! (s + i) = Some n →
  rd (newIndexToOldIndexMap st) i = 0 →
  placing s e2 st sequence p0 i jx
    (planMount (s + i) n (planAnchor news None (s + i + 1) p) p)
    (insertBefore (anchorIdx news (s + i + 1)) (s + i) KJ).
Proof.
  intros Hi He2 Hall [Hset Hzero Hsome Hjxle Hjx Hmoves Hmounts Hops] Hn Hz.
  assert (Hst : stable st sequence i = false).
  { unfold stable. by rewrite Hz. }
  split.
  - eapply settling_mount; [exact Hset|done|apply Hzero; [lia|done]| | |lia|].
    + apply placed_step.
    + intros _. apply placed_next.
    + intros x Hx Hlt. assert (x ≠ s + i); [|lia].
      intros ->. rewrite placed_at in Hx by lia. congruence.
  - intros x Hx Hxz. cbn [planMount aE]. rewrite list_lookup_insert_ne by lia.
    apply Hzero; [lia|done].
  - intros x Hx Hxz. destruct (Hsome x) as [h Hh]; [lia|done|]. exists h.
    unfold elOf in *. cbn [planMount aE]. by rewrite list_lookup_insert_ne by lia.
  - done.
  - intros Hmv Hi0 a Ha. rewrite (Hjx Hmv) by (done || lia).
    assert (rd sequence a ≠ i); [|lia]. intros E.
    destruct (Hall (rd sequence a)) as [?|?]; [|lia|congruence].
    destruct (lookup_lt_is_Some_2 sequence a Ha) as [y Hy].
    rewrite (rd_lookup _ _ _ Hy). by eapply list_elem_of_lookup_2.
  - cbn [planMount aLog]. rewrite countOps_snoc. cbn [isMove].
    rewrite (placing_counts _ s e2 i Hi), Hmoves.
    rewrite decide_False by (intros [? _]; done). lia.
  - cbn [planMount aLog]. rewrite countOps_snoc. cbn [isMount].
    rewrite (placing_counts _ s e2 i Hi), Hmounts.
    rewrite decide_True by done. lia.
  - intros f Hf1 Hf2. cbn [planMount aLog]. rewrite countOps_snoc, Hf1.
    rewrite Hops by done. lia.
Qed.

Lemma placing_move s e2 st sequence p0 i jx p KJ h :
  s + S i ≤ e2 → e2 ≤ length news →
  placing s e2 st sequence p0 (S i) jx p KJ →
  elOf p h (s + i) →
  rd (newIndexToOldIndexMap st) i ≠ 0 →
  moved st = true → i ∉ sequence →
  placing s e2 st sequence p0 i jx
    (planMove h (planAnchor news None (s + i + 1) p) p)
    (insertBefore (anchorIdx news (s + i + 1)) (s + i) (without (s + i) KJ)).
Proof.
  intros Hi He2 [Hset Hzero Hsome Hjxle Hjx Hmoves Hmounts Hops] Hh Hnz Hmv Hnot.
  assert (Hst : stable st sequence i = false).
  { unfold stable. rewrite bool_decide_eq_false_2 by done. rewrite Hmv. cbn.
    apply andb_false_r. }
  split.
  - eapply settling_move; [exact Hset|exact Hh| | | |lia|].
    + by rewrite placed_at by lia.
    + apply placed_step.
    + intros _. apply placed_next.
    + intros x Hx Hlt. assert (x ≠ s + i); [|lia].
      intros ->. rewrite placed_at in Hx by lia. congruence.
  - intros x Hx. apply Hzero. lia.
  - intros x Hx. apply Hsome. lia.
  - done.
  - intros _ Hi0 a Ha. rewrite (Hjx Hmv) by (done || lia).
    assert (rd sequence a ≠ i); [|lia]. intros E. apply Hnot. rewrite <- E.
    destruct (lookup_lt_is_Some_2 sequence a Ha) as [y Hy].
    rewrite (rd_lookup _ _ _ Hy). by eapply list_elem_of_lookup_2.
  - cbn [planMove aLog]. rewrite countOps_snoc. cbn [isMove].
    rewrite (placing_counts _ s e2 i Hi), Hmoves.
    rewrite decide_True by done. lia.
  - cbn [planMove aLog]. rewrite countOps_snoc. cbn [isMount].
    rewrite (placing_counts _ s e2 i Hi), Hmounts.
    rewrite decide_False by done. lia.
  - intros f Hf1 Hf2. cbn [planMove aLog]. rewrite countOps_snoc, Hf2.
    rewrite Hops by done. lia.
Qed.

Lemma placing_step s e2 st sequence p0 i jx p KJ :
  s + S i ≤ e2 → e2 ≤ length news →
  SeedIncSubseq (newIndexToOldIndexMap st) sequence →
  placing s e2 st sequence p0 (S i) jx p KJ →
  ∃ jx' p' KJ',
    planMoveOrMount news None s st sequence (Some (jx, p)) i = Some (jx', p')
    ∧ placing s e2 st sequence p0 i jx' p' KJ'.
Proof.
  intros Hi He2 [Hsorted Hall] Hp.
  pose proof (pl_jx_le _ _ _ _ _ _ _ _ _ _ _ _ Hp) as Hjxle.
  pose proof (pl_jx _ _ _ _ _ _ _ _ _ _ _ _ Hp) as Hjx.
  set (map := newIndexToOldIndexMap st) in *.
  apply Sorted_StronglySorted in Hsorted; [|apply _].
  rewrite Forall_forall in Hall.
  assert (Hmem : ∀ a, a < length sequence → rd sequence a ∈ sequence).
  { intros a Ha. destruct (lookup_lt_is_Some_2 sequence a Ha) as [y Hy].
    rewrite (rd_lookup _ _ _ Hy). by eapply list_elem_of_lookup_2. }
  unfold planMoveOrMount. cbn [mbind option_bind].
  destruct (lookup_lt_is_Some_2 news (s + i)) as [n Hn]; [lia|].
  rewrite Hn. cbn [mbind option_bind]. fold map.
  destruct (Nat.eqb_spec (rd map i) 0) as [Hz|Hnz].
  { eexists _, _, _. split; [done|]. apply placing_mount; try done.
    intros x Hx. by destruct (Hall x Hx). }
  destruct (moved st) eqn:Hmv.
  2:{ exists jx, p, KJ. split; [done|]. eapply placing_stay; try done.
      - unfold stable. fold map. rewrite Hmv. cbn.
        by rewrite (proj2 (Nat.eqb_neq _ _)).
      - intros ?. congruence. }
  destruct (pl_set _ _ _ _ _ _ _ _ _ _ _ _ Hp i) as [h Hh]; [lia|done|].
  assert (Hmove : i ∉ sequence →
    ∃ jx' p' KJ',
      (h' ← mjoin (aE p !! (s + i));
       Some (jx, planMove h' (planAnchor news None (s + i + 1) p) p))
      = Some (jx', p')
      ∧ placing s e2 st sequence p0 i jx' p' KJ').
  { intros Hnot. unfold elOf in Hh. rewrite Hh. cbn [mjoin option_join mbind option_bind].
    eexists _, _, _. split; [done|]. by apply placing_move. }
  destruct (Nat.eqb_spec jx 0) as [Hj0|Hj0]; cbn [orb].
  { apply Hmove. intros Hin. apply list_elem_of_lookup in Hin as [a Ha].
    pose proof (lookup_lt_Some _ _ _ Ha) as Hlt. apply rd_lookup in Ha.
    assert (a < jx) by (apply Hjx; (done || lia)). lia. }
  destruct (Nat.eqb_spec i (rd sequence (jx - 1))) as [Hi'|Hi']; cbn [negb].
  - exists (jx - 1), p, KJ. split; [done|]. eapply placing_stay; try done; [|lia|].
    + unfold stable. fold map. rewrite Hmv, (proj2 (Nat.eqb_neq _ _)) by done. cbn.
      apply bool_decide_eq_true_2. rewrite Hi'. apply Hmem. lia.
    + intros _ Hi0 a Ha. split.
      * intros Hlt. rewrite Hi'. apply (ssorted_rd _ _ Hsorted); lia.
      * intros Hlt. assert (a < jx) by (apply Hjx; (done || lia)).
        assert (a ≠ jx - 1); [|lia]. intros ->. lia.
  - apply Hmove. intros Hin. apply list_elem_of_lookup in Hin as [a Ha].
    pose proof (lookup_lt_Some _ _ _ Ha) as Hlt. apply rd_lookup in Ha.
    assert (a < jx) by (apply Hjx; (done || lia)).
    assert (a ≠ jx - 1) by (intros ->; congruence).
    assert (rd sequence (jx - 1) < S i) by (apply Hjx; (done || lia)).
    pose proof (ssorted_rd _ _ Hsorted a (jx - 1) ltac:(lia) ltac:(lia)) as [? _].
    lia.
Qed.

Lemma placing_loop s e2 st sequence p0 t : ∀ jx p KJ,
  s + t ≤ e2 → e2 ≤ length news →
  SeedIncSubseq (newIndexToOldIndexMap st) sequence →
  placing s e2 st sequence p0 t jx p KJ →
  ∃ jx' p' KJ',
    foldl (planMoveOrMount news None s st sequence) (Some (jx, p)) (reverse (seq 0 t))
    = Some (jx', p')
    ∧ placing s e2 st sequence p0 0 jx' p' KJ'.
Proof.
  induction t as [|t IH]; intros jx p KJ Ht He2 Hseq Hp.
  - exists jx, p, KJ. by split.
  - rewrite seq_S, reverse_app. cbn [reverse rev_append app foldl plus].
    change (rev_append [] [t]) with [t]. cbn [app foldl].
    destruct (placing_step s e2 st sequence p0 t jx p KJ)
      as (jx1 & p1 & KJ1 & -> & Hp1); [done..|].
    apply (IH jx1 p1 KJ1); [lia|done..].
Qed.

Lemma ssorted_total (R : relation nat) l x y :
  StronglySorted R l → x ∈ l → y ∈ l → x = y ∨ R x y ∨ R y x.
Proof.
  intros Hs. induction Hs as [|z l Hs IH Hall]; [by intros ?%elem_of_nil|].
  rewrite Forall_forall in Hall.
  intros [->|Hx]%elem_of_cons [->|Hy]%elem_of_cons; auto.
Qed.

Lemma placed_mid s e2 st sequence x :
  s + x < e2 → placed s e2 st sequence (e2 - s) (s + x) = stable st sequence x.
Proof.
  intros Hx. unfold placed. replace (s + x - s) with x by lia.
  destruct (stable st sequence x); nat_bool.
Qed.

Lemma matchedAt_mid s e1 e2 p0 st p k :
  matching s e1 e2 p0 e1 st p → s ≤ k < e1 →
  keepM s e1 (newIndexToOldIndexMap st) k = true →
  ∃ x, rd (newIndexToOldIndexMap st) x = k + 1
       ∧ matchedAt s e1 e2 (newIndexToOldIndexMap st) k = s + x
       ∧ x < e2 - s.
Proof.
  intros Hm Hk Hkeep. unfold keepM in Hkeep.
  assert (k + 1 ∈ newIndexToOldIndexMap st) as Hin.
  { revert Hkeep. destruct (bool_decide_reflect (k + 1 ∈ newIndexToOldIndexMap st));
      [done|]. nat_bool. }
  apply elem_of_rd in Hin as [x Hx]; [|lia]. exists x. split; [done|].
  destruct (mt_match _ _ _ _ _ _ _ _ _ _ Hm x) as (? & _); [lia|]. split; [|done].
  unfold matchedAt. rewrite <- Hx. rewrite pos_rd; [nat_bool| |lia].
  apply (mt_inj _ _ _ _ _ _ _ _ _ _ Hm).
Qed.

Lemma placing_init s e1 e2 p0 st p sequence :
  s ≤ e1 → e1 ≤ length olds → s ≤ e2 → e2 ≤ length news →
  e1 + length news = e2 + length olds →
  matching s e1 e2 p0 e1 st p →
  SeedIncSubseq (newIndexToOldIndexMap st) sequence →
  placing s e2 st sequence p (e2 - s) (length sequence) p
    (matchedAt s e1 e2 (newIndexToOldIndexMap st) <$>
       filter (λ k, keepM s e1 (newIndexToOldIndexMap st) k = true)
         (seq 0 (length olds))).
Proof.
  intros Hs1 He1 Hs2 He2 Hd Hm [Hsorted Hall].
  apply Sorted_StronglySorted in Hsorted; [|apply _].
  rewrite Forall_forall in Hall.
  assert (Hlen : length (newIndexToOldIndexMap st) = e2 - s) by apply Hm.
  split.
  - apply settle_from_old.
    + apply Hm.
    + eapply good_mono; [|apply Hm]. done.
    + intros k o Hkeep Ho.
      destruct (decide (k < s)) as [Hlt|Hge].
      { unfold matchedAt. rewrite (proj2 (Nat.ltb_lt _ _)) by done.
        by apply (mt_pre _ _ _ _ _ _ _ _ _ _ Hm). }
      destruct (decide (e1 ≤ k)) as [Hle|Hmid].
      { unfold matchedAt. rewrite (proj2 (Nat.ltb_ge _ _)) by lia.
        rewrite (proj2 (Nat.leb_le _ _)) by done.
        by apply (mt_suf _ _ _ _ _ _ _ _ _ _ Hm). }
      destruct (matchedAt_mid s e1 e2 p0 st p k Hm) as (x & Hx & -> & Hxl); [lia|done|].
      destruct (mt_match _ _ _ _ _ _ _ _ _ _ Hm x)
        as (_ & _ & _ & o' & n' & Ho' & _ & _ & He); [lia|].
      rewrite Hx in Ho'. replace (k + 1 - 1) with k in Ho' by lia.
      congruence.
    + intros a b Hab Ha Hb HΣa HΣb.
      destruct (decide (a < s)) as [Has|Has].
      { unfold matchedAt at 1. rewrite (proj2 (Nat.ltb_lt a s)) by done.
        destruct (decide (b < s)) as [Hbs|Hbs];
          [unfold matchedAt; rewrite (proj2 (Nat.ltb_lt b s)) by done; lia|].
        destruct (decide (e1 ≤ b)) as [Hbe|Hbe].
        - unfold matchedAt. rewrite (proj2 (Nat.ltb_ge b s)) by lia.
          rewrite (proj2 (Nat.leb_le _ _)) by done. lia.
        - destruct (matchedAt_mid s e1 e2 p0 st p b Hm) as (x & _ & -> & _);
            [lia|done|lia]. }
      destruct (decide (e1 ≤ a)) as [Hae|Hae].
      { unfold matchedAt. rewrite !(proj2 (Nat.ltb_ge _ s)) by lia.
        rewrite !(proj2 (Nat.leb_le e1 _)) by lia. lia. }
      destruct (matchedAt_mid s e1 e2 p0 st p a Hm) as (xa & Hxa & Ea & Hla);
        [lia|done|].
      rewrite Ea in HΣa |- *. rewrite placed_mid in HΣa by lia.
      destruct (decide (e1 ≤ b)) as [Hbe|Hbe].
      { unfold matchedAt. rewrite (proj2 (Nat.ltb_ge b s)) by lia.
        rewrite (proj2 (Nat.leb_le _ _)) by done. lia. }
      destruct (matchedAt_mid s e1 e2 p0 st p b Hm) as (xb & Hxb & Eb & Hlb);
        [lia|done|].
      rewrite Eb in HΣb |- *. rewrite placed_mid in HΣb by lia.
      assert (xa < xb); [|lia].
      unfold stable in HΣa, HΣb.
      apply andb_prop in HΣa as [_ HΣa]. apply andb_prop in HΣb as [_ HΣb].
      destruct (moved st) eqn:Hmv; cbn [negb orb] in HΣa, HΣb.
      * apply bool_decide_eq_true_1 in HΣa, HΣb.
        destruct (ssorted_total _ _ xa xb Hsorted HΣa HΣb) as [->|[[? ?]|[? ?]]];
          lia.
      * destruct (decide (xa < xb)) as [|Hnlt]; [done|].
        destruct (decide (xa = xb)) as [->|Hne]; [lia|].
        pose proof (mt_mono _ _ _ _ _ _ _ _ _ _ Hm Hmv xb xa) as Hmono.
        lia.
    + intros x Hx HΣ.
      destruct (decide (x < s)) as [Hlt|Hge].
      { exists x. split; [lia|]. unfold keepM, matchedAt. split; nat_bool. }
      destruct (decide (e2 ≤ x)) as [Hle|Hmid].
      { exists (x + e1 - e2). split; [lia|]. unfold keepM, matchedAt.
        split; nat_bool. }
      replace x with (s + (x - s)) in HΣ by lia.
      rewrite placed_mid in HΣ by lia.
      unfold stable in HΣ. apply andb_prop in HΣ as [Hnz _].
      apply negb_true_iff, Nat.eqb_neq in Hnz.
      destruct (mt_match _ _ _ _ _ _ _ _ _ _ Hm (x - s) Hnz) as (_ & ? & ? & _).
      exists (rd (newIndexToOldIndexMap st) (x - s) - 1). split; [lia|]. split.
      * unfold keepM. replace (rd (newIndexToOldIndexMap st) (x - s) - 1 + 1) with (rd (newIndexToOldIndexMap st) (x - s)) by lia.
        rewrite (bool_decide_eq_true_2 (rd (newIndexToOldIndexMap st) (x - s) ∈ (newIndexToOldIndexMap st))).
        -- apply orb_true_r.
        -- apply elem_of_rd; [done|]. by exists (x - s).
      * unfold matchedAt. rewrite (proj2 (Nat.ltb_ge _ s)) by lia.
        rewrite (proj2 (Nat.leb_gt e1 _)) by lia.
        replace (rd (newIndexToOldIndexMap st) (x - s) - 1 + 1) with (rd (newIndexToOldIndexMap st) (x - s)) by lia.
        rewrite pos_rd; [lia| |done]. apply (mt_inj _ _ _ _ _ _ _ _ _ _ Hm).
  - intros x Hx. by apply (mt_zero _ _ _ _ _ _ _ _ _ _ Hm).
  - intros x Hx Hnz.
    destruct (mt_match _ _ _ _ _ _ _ _ _ _ Hm x Hnz) as (_ & _ & _ & o & _ & _ & _ & _ & He).
    by exists (o_el o).
  - done.
  - intros _ _ a Ha. split; [|done]. intros _.
    destruct (lookup_lt_is_Some_2 sequence a Ha) as [y Hy].
    rewrite (rd_lookup _ _ _ Hy).
    destruct (Hall y) as [? _]; [by eapply list_elem_of_lookup_2|]. lia.
  - replace (e2 - s - (e2 - s)) with 0 by lia. cbn. lia.
  - replace (e2 - s - (e2 - s)) with 0 by lia. cbn. lia.
  - done.
Qed.

(** *** The whole diff *)

Lemma initial_synced p :
  Initial olds news p → synced 0 (length olds) (length news) p.
Proof.
  intros [HE HK Hold Htext].
  assert (Hnone : ∀ j h, aE p !! j ≠ Some (Some h)).
  { intros j h Hj. rewrite HE in Hj. by apply lookup_replicate in Hj as [? _]. }
  split; try done; try lia.
  - intros k Hk. rewrite HE. apply lookup_replicate. split; [done|lia].
  - intros k o Hk Ho. apply lookup_lt_Some in Ho. lia.
  - split; try done.
    + by rewrite HE, length_replicate.
    + intros j h Hj. by destruct (Hnone j h).
    + intros j j' h Hj. by destruct (Hnone j h).
    + intros j h i o Hj. by destruct (Hnone j h).
    + intros i o _. apply Htext.
    + intros _ j n h _ Hj. by destruct (Hnone j h).
  - intros k o n Hk Ho. apply lookup_lt_Some in Ho. lia.
Qed.

Lemma planSequence_seed st :
  newIndexToOldIndexMap st ≠ [] →
  SeedIncSubseq (newIndexToOldIndexMap st) (planSequence st).
Proof.
  intros Hne. unfold planSequence. destruct (moved st).
  - by apply getSequence_seed_longest.
  - split; constructor.
Qed.

Lemma step5_run s e1 e2 p2 :
  synced s e1 e2 p2 → s < e1 → s < e2 →
  ∃ km ws st p4 jx p' KJ,
    planBuildMap news dev s e2 p2 = Some (km, withLog p2 ws)
    ∧ KeyMap news dev s e2 km ws
    ∧ foldl (planOld olds news writes km s e2)
        (Some (mkDiff 0 false 0 (replicate (e2 - s) 0), withLog p2 ws))
        (seq s (e1 - s)) = Some (st, p4)
    ∧ matching s e1 e2 (withLog p2 ws) e1 st p4
    ∧ foldl (planMoveOrMount news None s st (planSequence st))
        (Some (length (planSequence st), p4)) (reverse (seq 0 (e2 - s)))
      = Some (jx, p')
    ∧ placing s e2 st (planSequence st) p4 0 jx p' KJ.
Proof using old_els old_keys.
  intros Hs H1 H2.
  pose proof (sy_e1 _ _ _ _ _ _ _ Hs) as He1.
  pose proof (sy_e2 _ _ _ _ _ _ _ Hs) as He2.
  pose proof (sy_d _ _ _ _ _ _ _ Hs) as Hd.
  destruct (planBuildMap_spec s e2 p2) as (km & ws & Hb & Hkm);
    [lia|done|apply Hs|].
  destruct (planOld_loop km ws s e1 e2 (withLog p2 ws) (e1 - s) s
              (mkDiff 0 false 0 (replicate (e2 - s) 0)) (withLog p2 ws))
    as (st & p4 & Hf & Hm); [done|lia|lia|done|by apply matching_init|].
  assert (Hseed : SeedIncSubseq (newIndexToOldIndexMap st) (planSequence st)).
  { apply planSequence_seed. intros E.
    pose proof (mt_len _ _ _ _ _ _ _ _ _ _ Hm) as Hlen. rewrite E in Hlen.
    cbn in Hlen. lia. }
  destruct (placing_loop s e2 st (planSequence st) p4 (e2 - s)
              (length (planSequence st)) p4
              (matchedAt s e1 e2 (newIndexToOldIndexMap st) <$>
                 filter (λ k, keepM s e1 (newIndexToOldIndexMap st) k = true)
                   (seq 0 (length olds))))
    as (jx & p' & KJ & Hg & Hp); [lia|done|done| |].
  { eapply placing_init; [lia|done|lia|done|done|exact Hm|done]. }
  by exists km, ws, st, p4, jx, p', KJ.
Qed.

Lemma planDiff_run p :
  Initial olds news p →
  ∃ s p1 e1 e2 p2 p',
    planSyncStart olds news writes (length news) 0 (length olds) (length news) p
    = Some (s, p1)
    ∧ planSyncEnd olds news writes (length news) s (length olds) (length news) p1
      = Some (e1, e2, p2)
    ∧ synced s e1 e2 p2 ∧ sameOps p p2
    ∧ planDiff olds news None writes dev p = Some p'
    ∧ Settled news p' ∧ good (λ _, False) p'
    ∧ (e1 ≤ s → e2 ≤ s → p' = p2)
    ∧ (s < e1 → s < e2 →
       ∃ km ws st p4 jx KJ,
         planBuildMap news dev s e2 p2 = Some (km, withLog p2 ws)
         ∧ KeyMap news dev s e2 km ws
         ∧ foldl (planOld olds news writes km s e2)
             (Some (mkDiff 0 false 0 (replicate (e2 - s) 0), withLog p2 ws))
             (seq s (e1 - s)) = Some (st, p4)
         ∧ matching s e1 e2 (withLog p2 ws) e1 st p4
         ∧ placing s e2 st (planSequence st) p4 0 jx p' KJ).
Proof using old_els old_keys.
  intros Hinit.
  destruct (planSyncStart_synced (length news) 0 p) as (s & p1 & E1 & Hs1 & Hsame1);
    [by apply initial_synced|lia|].
  destruct (planSyncEnd_synced (length news) s (length olds) (length news) p1)
    as (e1 & e2 & p2 & E2 & Hs2 & Hsame2); [done|lia|].
  assert (Hsame : sameOps p p2).
  { intros f Hf. by rewrite (Hsame2 f Hf), (Hsame1 f Hf). }
  pose proof (sy_s1 _ _ _ _ _ _ _ Hs2) as Hle1.
  pose proof (sy_s2 _ _ _ _ _ _ _ Hs2) as Hle2.
  unfold planDiff. rewrite E1. cbn [mbind option_bind]. rewrite E2.
  cbn [mbind option_bind].
  destruct (Nat.leb_spec e1 s) as [H1|H1].
  { assert (e1 = s) as -> by lia.
    destruct (Nat.ltb_spec s e2) as [H2|H2].
    - destruct (planMountRange_settled s e2 p2 Hs2) as (p' & Hp & Hset & Hg).
      exists s, p1, s, e2, p2, p'. do 7 (split; [done|]). split; intros; lia.
    - assert (e2 = s) as -> by lia.
      destruct (planUnmountRange_settled s s p2 Hs2) as (p' & Hp & Hset & Hg).
      rewrite Nat.sub_diag in Hp. cbn in Hp. injection Hp as <-.
      exists s, p1, s, s, p2, p2. do 7 (split; [done|]). split; [done|intros; lia]. }
  destruct (Nat.leb_spec e2 s) as [H2|H2].
  { assert (e2 = s) as -> by lia.
    destruct (planUnmountRange_settled s e1 p2 Hs2) as (p' & Hp & Hset & Hg).
    exists s, p1, e1, s, p2, p'. do 7 (split; [done|]). split; intros; lia. }
  destruct (step5_run s e1 e2 p2 Hs2 H1 H2)
    as (km & ws & st & p4 & jx & p' & KJ & Hb & Hkm & Hf & Hm & Hg & Hp).
  exists s, p1, e1, e2, p2, p'.
  split; [done|]. split; [done|]. split; [done|]. split; [done|].
  split; [|split; [|split; [|split; [lia|]]]].
  - unfold planMiddle. rewrite Hb. cbn [mbind option_bind]. rewrite Hf.
    cbn [mbind option_bind]. rewrite Hg. done.
  - eapply settling_done; [apply Hp|]. intros j _. apply placed_all.
  - apply Hp.
  - intros _ _. by exists km, ws, st, p4, jx, KJ.
Qed.

End PlanFacts.

(** ** The diff of a list against a permutation of it *)

Section PermutedKeys.
Variable olds : list OldItem.
Variable news : list NewItem.
Variable writes : bool.
Variable dev : bool.

Hypothesis old_keys : NoDup (o_key <$> olds).
Hypothesis old_els : NoDup (o_el <$> olds).
Hypothesis same_keys : o_key <$> olds ≡ₚ n_key <$> news.

Lemma same_length : length olds = length news.
Proof using same_keys.
  apply Permutation_length in same_keys. by rewrite !length_fmap in same_keys.
Qed.

Lemma new_keys : NoDup (n_key <$> news).
Proof using old_keys same_keys. by rewrite <- same_keys. Qed.

Lemma new_key_inj j j' n n' :
  news !! j = Some n → news !! j' = Some n' → n_key n = n_key n' → j = j'.
Proof using old_keys same_keys.
  intros Hj Hj' E. eapply NoDup_lookup; [exact new_keys| |]; rewrite list_lookup_fmap.
  - by rewrite Hj.
  - rewrite Hj'. cbn. by rewrite E.
Qed.

Lemma nz_all l : (∀ x, x < length l → rd l x ≠ 0) → nz l = length l.
Proof.
  intros Hall. unfold nz. rewrite filter_all; [done|].
  intros v [x Hx]%list_elem_of_lookup. rewrite <- (rd_lookup _ _ _ Hx).
  apply Hall. by eapply lookup_lt_Some.
Qed.

Lemma count_not_in (l : list nat) n :
  NoDup l → (∀ x, x ∈ l → x < n) →
  length (filter (λ x, x ∉ l) (seq 0 n)) = n - length l.
Proof.
  intros Hnd Hlt.
  pose proof (filter_app_complement (λ x, x ∈ l) (seq 0 n)) as Hc.
  apply Permutation_length in Hc. rewrite length_app, length_seq in Hc.
  assert (filter (λ x, x ∈ l) (seq 0 n) ≡ₚ l) as Hp.
  { apply NoDup_Permutation; [apply NoDup_filter, NoDup_seq|done|].
    intros x. rewrite list_elem_of_filter, elem_of_seq. split; [tauto|].
    intros Hx. split; [done|]. specialize (Hlt x Hx). lia. }
  apply Permutation_length in Hp. lia.
Qed.

Lemma inc_sorted_NoDup arr l : StronglySorted (inc_step arr) l → NoDup l.
Proof.
  intros Hs. induction Hs as [|x l Hs IH Hall]; constructor; [|done].
  rewrite Forall_forall in Hall. intros [? _]%Hall. lia.
Qed.

Lemma filter_none {A} (P : A → Prop) `{∀ x, Decision (P x)} (l : list A) :
  (∀ x, x ∈ l → ¬ P x) → filter P l = [].
Proof.
  induction l as [|x l IH]; intros Hall; [done|].
  rewrite filter_cons_False by (apply Hall; by left).
  apply IH. intros y Hy. apply Hall. by right.
Qed.

Lemma sorted_steps (R : relation nat) n :
  (∀ x, S x < n → R x (S x)) → Sorted R (seq 0 n).
Proof.
  intros HR. cut (∀ k a, a + k = n → Sorted R (seq a k)); [intros Hc; by apply Hc|].
  induction k as [|k IH]; intros a Hak; cbn [seq]; constructor.
  - apply IH. lia.
  - destruct k; cbn [seq]; constructor. apply HR. lia.
Qed.

(** Every new child of the unresolved range is found again. *)
Lemma perm_all_matched s e1 e2 p0 st p2 p4 :
  Synced olds news writes s e1 e2 p2 →
  Matching olds news writes s e1 e2 p0 e1 st p4 →
  ∀ x, x < e2 - s → rd (newIndexToOldIndexMap st) x ≠ 0.
Proof using old_keys same_keys.
  intros Hs Hm x Hx.
  pose proof (sy_e2 _ _ _ _ _ _ _ Hs) as He2.
  pose proof (sy_e1 _ _ _ _ _ _ _ Hs) as He1.
  pose proof (sy_d _ _ _ _ _ _ _ Hs) as Hd.
  pose proof (sy_s1 _ _ _ _ _ _ _ Hs) as Hs1.
  destruct (lookup_lt_is_Some_2 news (s + x)) as [n Hn]; [lia|].
  assert (n_key n ∈ o_key <$> olds) as Hin.
  { rewrite same_keys. apply list_elem_of_fmap. exists n. split; [done|].
    by eapply list_elem_of_lookup_2. }
  apply list_elem_of_fmap in Hin as (o & Hk & [k Ho]%list_elem_of_lookup).
  pose proof (lookup_lt_Some _ _ _ Ho) as Hkm.
  assert (s ≤ k < e1) as Hrange.
  { destruct (decide (k < s)) as [Hlt|Hge].
    - destruct (lookup_lt_is_Some_2 news k) as [n' Hn']; [lia|].
      pose proof (sy_kpre _ _ _ _ _ _ _ Hs k o n' Hlt Ho Hn') as Hk'.
      assert (k = s + x); [|lia]. eapply new_key_inj; [done..|congruence].
    - destruct (decide (e1 ≤ k)) as [Hle|Hgt]; [|lia].
      destruct (lookup_lt_is_Some_2 news (k + e2 - e1)) as [n' Hn']; [lia|].
      pose proof (sy_ksuf _ _ _ _ _ _ _ Hs k o n' Hle Ho Hn') as Hk'.
      assert (k + e2 - e1 = s + x); [|lia]. eapply new_key_inj; [done..|congruence]. }
  pose proof (mt_full _ _ _ _ _ _ _ _ _ _ Hm new_keys k o (s + x) n Hrange Ho
                ltac:(lia) Hn (eq_sym Hk)) as Hv.
  replace (s + x - s) with x in Hv by lia. lia.
Qed.

Lemma countOps_withLog f p ws :
  (∀ k, f (OpWarn k) = false) → countOps f (aLog (withLog p ws)) = countOps f (aLog p).
Proof.
  intros Hf. unfold countOps, withLog. cbn [aLog]. rewrite filter_app, length_app.
  assert (filter (λ op, f op = true) (OpWarn <$> ws) = []) as ->; [|cbn; lia].
  induction ws as [|k ws IH]; [done|]. rewrite fmap_cons.
  rewrite filter_cons_False; [done|]. by rewrite Hf.
Qed.

(** Moves, mounts and unmounts of the diff when the new keys are a
    permutation of the old ones. *)
Lemma perm_counts p :
  Initial olds news p →
  ∃ s p1 e1 e2 p2 p',
    planSyncStart olds news writes (length news) 0 (length olds) (length news) p
    = Some (s, p1)
    ∧ planSyncEnd olds news writes (length news) s (length olds) (length news) p1
      = Some (e1, e2, p2)
    ∧ planDiff olds news None writes dev p = Some p'
    ∧ countOps isMount (aLog p') = countOps isMount (aLog p)
    ∧ countOps isUnmount (aLog p') = countOps isUnmount (aLog p)
    ∧ (e1 ≤ s → countOps isMove (aLog p') = countOps isMove (aLog p))
    ∧ (s < e1 →
       ∃ km ws st p4,
         planBuildMap news dev s e2 p2 = Some (km, withLog p2 ws)
         ∧ foldl (planOld olds news writes km s e2)
             (Some (mkDiff 0 false 0 (replicate (e2 - s) 0), withLog p2 ws))
             (seq s (e1 - s)) = Some (st, p4)
         ∧ countOps isMove (aLog p')
           = countOps isMove (aLog p) +
             (length (newIndexToOldIndexMap st)
              - length (getSequence (newIndexToOldIndexMap st)))
         ∧ LongestIncSubseq (newIndexToOldIndexMap st)
             (getSequence (newIndexToOldIndexMap st))).
Proof using old_keys old_els same_keys.
  intros Hinit.
  destruct (planDiff_run olds news writes dev old_keys old_els p Hinit)
    as (s & p1 & e1 & e2 & p2 & p' & E1 & E2 & Hs & Hsame & Hd & _ & _ & Hnone & Hfive).
  exists s, p1, e1, e2, p2, p'. do 3 (split; [done|]).
  pose proof (sy_d _ _ _ _ _ _ _ Hs) as Hdd. rewrite same_length in Hdd.
  assert (e1 = e2) as <- by lia. clear Hdd.
  pose proof (sy_s1 _ _ _ _ _ _ _ Hs) as Hs1.
  destruct (decide (e1 ≤ s)) as [Hle|Hgt].
  { rewrite (Hnone Hle Hle). rewrite !Hsame by done.
    do 3 (split; [done|]). intros. lia. }
  destruct Hfive as (km & ws & st & p4 & jx & KJ & Hb & Hkm & Hf & Hm & Hp); [lia..|].
  set (map := newIndexToOldIndexMap st) in *.
  assert (Hlen : length map = e1 - s) by apply Hm.
  assert (Hall : ∀ x, x < e1 - s → rd map x ≠ 0).
  { by eapply perm_all_matched. }
  assert (Hbase : ∀ f, (∀ e t, f (OpPatch e t) = false) →
                       (∀ e, f (OpUnmount e) = false) → (∀ k, f (OpWarn k) = false) →
                       countOps f (aLog p4) = countOps f (aLog p)).
  { intros f Hf1 Hf2 Hf3.
    rewrite (mt_ops _ _ _ _ _ _ _ _ _ _ Hm f Hf1 Hf2).
    by rewrite countOps_withLog, Hsame. }
  assert (Hnz : rd map 0 ≠ 0) by (apply Hall; lia).
  assert (Hmoves : length (filter (λ x, rd map x ≠ 0 ∧
                                        stable st (planSequence st) x = false)
                             (seq 0 (e1 - s)))
                   = length map - length (getSequence map)).
  { unfold planSequence, stable. fold map. destruct (moved st) eqn:Hmv.
    - destruct (getSequence_longest map Hnz) as [[Hsorted Hfa] _].
      apply Sorted_StronglySorted in Hsorted; [|apply _].
      rewrite Forall_forall in Hfa.
      rewrite Hlen, <- (count_not_in (getSequence map) (e1 - s)).
      + f_equal. apply filter_ext_in. intros x Hx%elem_of_seq.
        rewrite (proj2 (Nat.eqb_neq _ _)) by (apply Hall; lia). cbn.
        split.
        * intros [_ Hb']. by apply bool_decide_eq_false_1 in Hb'.
        * intros Hnot. split; [apply Hall; lia|]. by apply bool_decide_eq_false_2.
      + by eapply inc_sorted_NoDup.
      + intros x Hx. destruct (Hfa x Hx). lia.
    - rewrite filter_none.
      2:{ intros x Hx%elem_of_seq [_ Hb'].
          rewrite (proj2 (Nat.eqb_neq _ _)) in Hb' by (apply Hall; lia). done. }
      destruct (getSequence_longest map Hnz) as [_ Hmax].
      specialize (Hmax (seq 0 (length map))). rewrite length_seq in Hmax.
      cbn [length]. symmetry. apply Nat.sub_0_le, Hmax. split.
      + apply sorted_steps. intros x Hx. split; [lia|].
        apply (mt_mono _ _ _ _ _ _ _ _ _ _ Hm Hmv); fold map; [| |lia];
          apply Hall; lia.
      + apply Forall_forall. intros x Hx%elem_of_seq. split; [lia|].
        apply Hall. lia. }
  pose proof (pl_mounts _ _ _ _ _ _ _ _ _ _ _ _ Hp) as Hmo.
  pose proof (pl_moves _ _ _ _ _ _ _ _ _ _ _ _ Hp) as Hmv.
  pose proof (pl_ops _ _ _ _ _ _ _ _ _ _ _ _ Hp isUnmount) as Hun.
  rewrite Nat.sub_0_r in Hmo, Hmv. fold map in Hmo, Hmv.
  rewrite filter_none in Hmo by (intros x Hx%elem_of_seq; apply Hall; lia).
  rewrite Hmoves in Hmv.
  pose proof (mt_unm _ _ _ _ _ _ _ _ _ _ Hm) as Hu.
  rewrite (mt_patched _ _ _ _ _ _ _ _ _ _ Hm) in Hu. fold map in Hu.
  rewrite nz_all in Hu by (intros x Hx; apply Hall; lia).
  rewrite countOps_withLog, (Hsame isUnmount) in Hu by done.
  split; [rewrite Hmo, Hbase by done; cbn; lia|].
  split; [rewrite Hun by done; lia|].
  split; [intros; lia|]. intros _.
  exists km, ws, st, p4. do 2 (split; [done|]). split.
  - rewrite Hmv, Hbase by done. done.
  - by apply getSequence_longest.
Qed.

End PermutedKeys.

(** ** The keyed diff of the renderer on lists of items *)

Section KeyedDiff.
Context `{Env}.
Variable tag : string.
Variable container : Handle.
Variable optimized : bool.
Variable fuel : nat.

Hypothesis normalize_unmounted : ∀ r s v,
  vnodes s !! r = Some v → VN.el v = None →
  normalizeVNode r s = Ok r s ∧ cloneIfMounted r s = Ok r s.

Lemma init_rel s olds news :
  MountedItems tag container s olds → FreshItems tag s news →
  Rel tag container olds news (vnodes s) (trace s) s (initPlan s olds news).
Proof.
  intros Hm Hf. split; cbn [initPlan aK aE aNext aText aLog].
  - apply Hm.
  - intros j n Hn. rewrite (Hf j n Hn). do 2 f_equal.
    destruct (replicate _ _ !! j) as [x|] eqn:E; [|done].
    by apply lookup_replicate in E as [-> _].
  - done.
  - apply Hm.
  - done.
  - done.
  - by rewrite length_replicate.
  - apply Hm.
  - apply Hm.
  - intros j h Hj. by apply lookup_replicate in Hj as [? _].
  - cbn. by rewrite app_nil_r.
Qed.

Lemma init_initial s olds news :
  MountedItems tag container s olds → Initial olds news (initPlan s olds news).
Proof.
  intros Hm. split; cbn [initPlan aK aE aNext aText aLog]; try done.
  - intros i o Ho. by destruct (mi_els _ _ _ _ Hm i o Ho).
  - apply Hm.
Qed.

(** What [patchKeyedChildren] does on items is what the plan does. *)
Lemma keyed_diff_run s olds news p' :
  NoDup ((o_ref <$> olds) ++ (n_ref <$> news)) →
  MountedItems tag container s olds → FreshItems tag s news →
  planDiff olds news None (writesText optimized) DEV (initPlan s olds news) = Some p' →
  ∃ s', patchKeyedChildren (S fuel) (patch (S fuel)) (o_ref <$> olds) (n_ref <$> news)
          container None optimized s = Ok (n_ref <$> news) s'
        ∧ Rel tag container olds news (vnodes s) (trace s) s' p'.
Proof using normalize_unmounted.
  intros Hrefs Hm Hf Hp.
  eapply patchKeyedChildren_items; [done|done| |done]. by apply init_rel.
Qed.

Lemma settled_lookup news p j h :
  Settled news p → aK p !! j = Some h → elOf p h j.
Proof.
  intros Hs Hj. unfold Settled in Hs.
  destruct (Forall2_lookup_l _ _ _ _ _ Hs Hj) as (j' & Hj' & He).
  by apply lookup_seq in Hj' as [-> _].
Qed.

Lemma settled_length news p : Settled news p → length (aK p) = length news.
Proof. intros Hs%Forall2_length. by rewrite length_seq in Hs. Qed.

(** Once the diff is over the new items are mounted under the
    container. *)
Lemma settled_mounted s' p' olds news vs0 tr0 w :
  Rel tag container olds news vs0 tr0 s' p' → Settled news p' →
  Good olds news w (λ _, False) p' → texts_ok olds news w →
  MountedItems tag container s' (zip_with asOld news (aK p')).
Proof.
  intros HR Hs Hg Hok.
  pose proof (settled_length _ _ Hs) as Hlen.
  assert (Hels : o_el <$> zip_with asOld news (aK p') = aK p').
  { apply fmap_zip_with_r; [done|lia]. }
  assert (Hitem : ∀ i o, zip_with asOld news (aK p') !! i = Some o →
            ∃ n, news !! i = Some n ∧ o = asOld n (o_el o) ∧ elOf p' (o_el o) i).
  { intros i o (n & h & -> & Hn & Hh)%lookup_zip_with_Some. exists n.
    split; [done|]. split; [done|]. by apply (settled_lookup news). }
  split.
  - intros i o Ho. destruct (Hitem i o Ho) as (n & Hn & -> & He). cbn [asOld o_ref o_key o_text o_el] in *.
    rewrite (rel_new _ _ _ _ _ _ _ _ HR _ _ Hn). unfold elOf in He. by rewrite He.
  - by rewrite Hels, (rel_kids _ _ _ _ _ _ _ _ HR).
  - intros i o Ho. destruct (Hitem i o Ho) as (n & Hn & _ & He). split.
    + rewrite (rel_next _ _ _ _ _ _ _ _ HR). by eapply g_lt.
    + by eapply rel_new_els.
  - intros i o Ho. destruct (Hitem i o Ho) as (n & Hn & -> & He).
    cbn [asOld o_ref o_key o_text o_el] in *.
    rewrite (rel_text _ _ _ _ _ _ _ _ HR). by eapply g_tnew.
  - rewrite (rel_next _ _ _ _ _ _ _ _ HR). by eapply rel_cont.
  - rewrite Hels. apply NoDup_alt. intros i j h Hi Hj.
    eapply (g_inj _ _ _ _ _ Hg); by eapply settled_lookup.
Qed.

(** The diff of a mounted list of items against a fresh one: the call
    returns, the new items are mounted under the container in their
    order, and no other vnode has changed. *)
Lemma keyed_diff_mounted s olds news :
  NoDup ((o_ref <$> olds) ++ (n_ref <$> news)) →
  NoDup (o_key <$> olds) →
  MountedItems tag container s olds → FreshItems tag s news →
  texts_ok olds news (writesText optimized) →
  ∃ s' hs,
    patchKeyedChildren (S fuel) (patch (S fuel)) (o_ref <$> olds) (n_ref <$> news)
      container None optimized s = Ok (n_ref <$> news) s'
    ∧ length hs = length news
    ∧ MountedItems tag container s' (zip_with asOld news hs)
    ∧ ∀ r, r ∉ n_ref <$> news → vnodes s' !! r = vnodes s !! r.
Proof using normalize_unmounted.
  intros Hrefs Hkeys Hm Hf Hok.
  destruct (planDiff_run olds news (writesText optimized) DEV Hkeys
              (mi_nodup _ _ _ _ Hm) (initPlan s olds news))
    as (_ & _ & _ & _ & _ & p' & _ & _ & _ & _ & Hp & Hs & Hg & _);
    [by eapply init_initial|].
  destruct (keyed_diff_run s olds news p' Hrefs Hm Hf Hp) as (s' & Hrun & HR).
  exists s', (aK p'). split; [done|]. split; [by eapply settled_length|].
  split; [by eapply settled_mounted|]. by eapply rel_frame.
Qed.

Lemma mounted_texts s items :
  MountedItems tag container s items →
  textOf (host s) <$> kidsOf (host s) container = o_text <$> items.
Proof.
  intros Hm. rewrite (mi_kids _ _ _ _ Hm), <- list_fmap_compose.
  apply list_fmap_ext. intros i o Ho. cbn. by eapply mi_text.
Qed.

Lemma asOld_refs (l : list NewItem) hs :
  length l ≤ length hs → o_ref <$> zip_with asOld l hs = n_ref <$> l.
Proof.
  revert hs. induction l as [|n l IH]; intros [|h hs] Hl; cbn in *; try done; [lia|].
  f_equal. apply IH. lia.
Qed.

Lemma asOld_keys (l : list NewItem) hs :
  length l ≤ length hs → o_key <$> zip_with asOld l hs = n_key <$> l.
Proof.
  revert hs. induction l as [|n l IH]; intros [|h hs] Hl; cbn in *; try done; [lia|].
  f_equal. apply IH. lia.
Qed.

Lemma asOld_texts (l : list NewItem) hs :
  length l ≤ length hs → o_text <$> zip_with asOld l hs = n_text <$> l.
Proof.
  revert hs. induction l as [|n l IH]; intros [|h hs] Hl; cbn in *; try done; [lia|].
  f_equal. apply IH. lia.
Qed.


(** *** Host operations of the diff, counted on the trace *)

Lemma countEvents_app f (a b : list Event) :
  countEvents f (a ++ b) = countEvents f a + countEvents f b.
Proof. unfold countEvents. by rewrite filter_app, length_app. Qed.

Lemma countOps_cons f op log :
  countOps f (op :: log) = (if f op then 1 else 0) + countOps f log.
Proof.
  unfold countOps. destruct (f op) eqn:E.
  - by rewrite filter_cons_True.
  - rewrite filter_cons_False; [done|]. by rewrite E.
Qed.

Lemma log_events log :
  countEvents isInsertEvent (log ≫= opEvents tag container)
  = countOps isMount log + countOps isMove log
  ∧ countEvents isCreateEvent (log ≫= opEvents tag container) = countOps isMount log
  ∧ countEvents isRemoveEvent (log ≫= opEvents tag container) = countOps isUnmount log.
Proof.
  induction log as [|op log (IH1 & IH2 & IH3)]; [done|].
  rewrite bind_cons, !countEvents_app, !countOps_cons, IH1, IH2, IH3.
  destruct op as [e [t|]|e t a|e|e a|k]; cbn; repeat case_decide; try done; cbn; lia.
Qed.

Lemma log_warned log ws k :
  k ∈ ws → countOps (isWarnOf k) (log ++ (OpWarn <$> ws)) ≠ 0.
Proof.
  intros Hk. unfold countOps. rewrite filter_app, length_app.
  assert (OpWarn k ∈ filter (λ op, isWarnOf k op = true) (OpWarn <$> ws)) as Hin.
  { apply list_elem_of_filter. split; [cbn; by apply bool_decide_eq_true_2|].
    apply list_elem_of_fmap. by exists k. }
  destruct (filter _ (OpWarn <$> ws)); [by apply elem_of_nil in Hin|cbn; lia].
Qed.

Lemma log_warn log k :
  countOps (isWarnOf k) log ≠ 0 →
  Warn "Duplicate keys found during update:" (Some k) ∈ log ≫= opEvents tag container.
Proof.
  intros Hc. unfold countOps in Hc.
  destruct (filter _ log) as [|op l] eqn:E; [done|].
  assert (op ∈ filter (λ op, isWarnOf k op = true) log) as Hin
    by (rewrite E; apply elem_of_cons; by left).
  apply list_elem_of_filter in Hin as [Hw Hin].
  apply list_elem_of_bind. exists op. split; [|done].
  destruct op as [e t|e t a|e|e a|k']; try done.
  cbn in Hw. apply bool_decide_eq_true_1 in Hw as ->. cbn. apply elem_of_cons. by left.
Qed.

Lemma settled_children s' p' olds news vs0 tr0 :
  Rel tag container olds news vs0 tr0 s' p' → Settled news p' →
  length (kidsOf (host s') container) = length news
  ∧ ∀ j n, news !! j = Some n →
      ∃ h, kidsOf (host s') container !! j = Some h
           ∧ vnodes s' !! n_ref n = Some (item tag (n_key n) (n_text n) (Some h)).
Proof.
  intros HR Hs. rewrite (rel_kids _ _ _ _ _ _ _ _ HR).
  split; [by eapply settled_length|]. intros j n Hn.
  assert (seq 0 (length news) !! j = Some j) as Hj.
  { apply lookup_seq. split; [done|]. by eapply lookup_lt_Some. }
  destruct (Forall2_lookup_r _ _ _ _ _ Hs Hj) as (h & Hh & He).
  exists h. split; [done|].
  rewrite (rel_new _ _ _ _ _ _ _ _ HR _ _ Hn). unfold elOf in He. by rewrite He.
Qed.

(** The two synchronizing loops of the source stop where those of the
    plan do. *)
Lemma sync_loops s olds news i p1 e1 e2 p2 :
  NoDup ((o_ref <$> olds) ++ (n_ref <$> news)) →
  MountedItems tag container s olds → FreshItems tag s news →
  planSyncStart olds news (writesText optimized) (length news) 0 (length olds) (length news)
    (initPlan s olds news) = Some (i, p1) →
  planSyncEnd olds news (writesText optimized) (length news) i (length olds) (length news) p1
    = Some (e1, e2, p2) →
  ∃ s1 s2,
    syncFromStart (patch (S fuel)) (length (n_ref <$> news)) (o_ref <$> olds)
      (n_ref <$> news) container optimized 0 (length (o_ref <$> olds))
      (length (n_ref <$> news)) s = Ok (i, n_ref <$> news) s1
    ∧ syncFromEnd (patch (S fuel)) (length (n_ref <$> news)) (o_ref <$> olds)
        (n_ref <$> news) container optimized i (length (o_ref <$> olds))
        (length (n_ref <$> news)) s1 = Ok (e1, e2, n_ref <$> news) s2
    ∧ Rel tag container olds news (vnodes s) (trace s) s2 p2.
Proof using normalize_unmounted.
  intros Hrefs Hm Hf E1 E2. rewrite !length_fmap.
  pose proof (init_rel s olds news Hm Hf) as HR0.
  destruct (sim_syncStart tag container optimized olds news (vnodes s) (trace s)
              normalize_unmounted Hrefs fuel _ _ _ _ _ _ _ _ HR0 E1) as (s1 & Hc1 & HR1).
  destruct (sim_syncEnd tag container optimized olds news (vnodes s) (trace s)
              normalize_unmounted Hrefs fuel _ _ _ _ _ _ _ _ _ HR1 E2) as (s2 & Hc2 & HR2).
  by exists s1, s2.
Qed.



End KeyedDiff.

(** * Further properties of the renderer *)

(** ** getSequence on any array *)

Section SequenceMore.

Lemma inc_positions arr l :
  StronglySorted (inc_step arr) l → StronglySorted lt l.
Proof.
  induction 1 as [|x l Hl IH Hx]; constructor; [done|].
  eapply Forall_impl; [exact Hx|]. by intros y [? _].
Qed.

Lemma inc_values arr l :
  StronglySorted (inc_step arr) l → StronglySorted lt (rd arr <$> l).
Proof.
  induction 1 as [|x l Hl IH Hx]; cbn; constructor; [done|].
  apply Forall_fmap. eapply Forall_impl; [exact Hx|]. by intros y [_ ?].
Qed.

Lemma sorted_bounded l : ∀ a n,
  StronglySorted lt l → Forall (λ x, a ≤ x < a + n) l → length l ≤ n.
Proof.
  induction l as [|x l IH]; intros a n Hs Hf; [cbn; lia|].
  apply StronglySorted_inv in Hs as [Hs Hx]. apply Forall_cons in Hf as [Hxn Hf].
  cbn. assert (length l ≤ a + n - S x); [|lia].
  apply (IH (S x)); [done|]. rewrite Forall_forall in *. intros y Hy.
  specialize (Hx y Hy). specialize (Hf y Hy). cbn in *. lia.
Qed.

Lemma sorted_full l : ∀ a n,
  StronglySorted lt l → Forall (λ x, a ≤ x < a + n) l → n ≤ length l → l = seq a n.
Proof.
  induction l as [|x l IH]; intros a n Hs Hf Hn.
  - cbn in Hn. by assert (n = 0) as -> by lia.
  - apply StronglySorted_inv in Hs as [Hs Hx]. apply Forall_cons in Hf as [Hxn Hf].
    cbn in Hn. destruct n as [|n]; [lia|].
    assert (Forall (λ y, S x ≤ y < S x + (a + S n - S x)) l) as Hf'.
    { rewrite Forall_forall in *. intros y Hy.
      specialize (Hx y Hy). specialize (Hf y Hy). cbn in *. lia. }
    pose proof (sorted_bounded l (S x) _ Hs Hf') as Hb.
    assert (x = a) as -> by lia. cbn. f_equal. apply IH; [done| |lia].
    eapply Forall_impl; [exact Hf'|]. cbn. intros y ?. lia.
Qed.

(** On every array that is not empty, [getSequence] returns positions of
    the array in strictly increasing order whose entries are strictly
    increasing; each is position 0 or the position of a non-zero entry;
    and no list of such positions is longer.  The result has at least
    one position and at most as many as the array has entries. *)
Theorem getSequence_seeded arr :
  arr ≠ [] →
  StronglySorted lt (getSequence arr)
  ∧ StronglySorted lt (rd arr <$> getSequence arr)
  ∧ Forall (λ x, x < length arr ∧ (x = 0 ∨ rd arr x ≠ 0)) (getSequence arr)
  ∧ 1 ≤ length (getSequence arr) ≤ length arr
  ∧ ∀ s', SeedIncSubseq arr s' → length s' ≤ length (getSequence arr).
Proof.
  intros Hne. destruct (getSequence_seed_longest arr Hne) as [[Hs Hf] Hmax].
  apply Sorted_StronglySorted in Hs; [|apply _].
  pose proof (inc_positions _ _ Hs) as Hpos.
  split; [done|]. split; [by apply inc_values|]. split; [done|].
  split; [|done]. split.
  - apply (Hmax [0]). split; [repeat constructor|].
    constructor; [|done]. split; [|by left]. destruct arr; [done|cbn; lia].
  - apply (sorted_bounded _ 0); [done|]. eapply Forall_impl; [exact Hf|].
    cbn. intros x [? _]. lia.
Qed.

(** On an array of non-zero entries in strictly increasing order
    [getSequence] returns every position. *)
Theorem getSequence_increasing arr :
  StronglySorted lt arr → Forall (λ v, v ≠ 0) arr → arr ≠ [] →
  getSequence arr = seq 0 (length arr).
Proof.
  intros Hs Hnz Hne.
  destruct (getSequence_seed_longest arr Hne) as [[Hinc Hf] Hmax].
  apply Sorted_StronglySorted in Hinc; [|apply _].
  pose proof (inc_positions _ _ Hinc) as Hpos.
  assert (Forall (λ x, x < length arr) (getSequence arr)) as Hb.
  { eapply Forall_impl; [exact Hf|]. by intros x [? _]. }
  assert (length arr ≤ length (getSequence arr)) as Hlen.
  { transitivity (length (seq 0 (length arr))); [by rewrite length_seq|].
    apply Hmax. split.
    - apply sorted_steps. intros x Hx. split; [lia|].
      apply ssorted_rd; [done|lia|done].
    - apply Forall_forall. intros x Hx%elem_of_seq. split; [lia|]. right.
      rewrite Forall_forall in Hnz. apply Hnz.
      destruct (lookup_lt_is_Some_2 arr x ltac:(lia)) as [v Hv].
      rewrite (rd_lookup _ _ _ Hv). by eapply list_elem_of_lookup_2. }
  apply (sorted_full _ 0); [done| |done].
  eapply Forall_impl; [exact Hb|]. cbn. intros x ?. lia.
Qed.

(** On an array of non-zero entries none of which is below a later one
    (a reversed list, say) [getSequence] returns one position. *)
Theorem getSequence_decreasing arr :
  (∀ i j, i < j → j < length arr → rd arr j ≤ rd arr i) →
  Forall (λ v, v ≠ 0) arr → arr ≠ [] →
  length (getSequence arr) = 1.
Proof.
  intros Hdec Hnz Hne.
  destruct (getSequence_seed_longest arr Hne) as [[Hinc Hf] Hmax].
  assert (1 ≤ length (getSequence arr)) as Hone.
  { apply (Hmax [0]). split; [repeat constructor|].
    constructor; [|done]. split; [|by left]. destruct arr; [done|cbn; lia]. }
  destruct (getSequence arr) as [|x [|y l]]; [cbn in Hone; lia|done|exfalso].
  apply Sorted_inv in Hinc as [_ Hxy]. apply HdRel_inv in Hxy as [Hlt Hv].
  apply Forall_cons in Hf as [_ Hf]. apply Forall_cons in Hf as [[Hy _] _].
  specialize (Hdec x y Hlt Hy). lia.
Qed.

(** On an array without a non-zero entry, the empty array included,
    [getSequence] returns [[0]]. *)
Theorem getSequence_zeros n : getSequence (replicate n 0) = [0].
Proof.
  unfold getSequence.
  assert (∀ l, Forall (λ i, i < n) l →
            foldl (step (replicate n 0)) (replicate n 0, [0]) l = (replicate n 0, [0])) as Hl.
  { induction l as [|i l IH]; intros Hf; [done|].
    apply Forall_cons in Hf as [Hi Hf]. cbn [foldl].
    assert (step (replicate n 0) (replicate n 0, [0]) i = (replicate n 0, [0])) as ->;
      [|by apply IH].
    unfold step. unfold rd at 1. by rewrite lookup_replicate_2. }
  rewrite length_replicate, Hl; [done|].
  apply Forall_forall. intros i Hi%elem_of_seq. lia.
Qed.

End SequenceMore.
(** ** The full prop diff *)

Section PropDiff.
Context `{Env}.

Lemma patchProps_run el oldProps newProps s :
  patchProps el oldProps newProps s
  = Ok tt (mkState (vnodes s) (host s)
             (trace s ++ patchPropsEvents el oldProps newProps)).
Proof.
  rewrite (patchProps_emits el oldProps newProps s). unfold patchPropsEvents.
  by destruct (propsDiffer _ _).
Qed.

Lemma propIn_keys k p : propIn k p = true ↔ k ∈ propKeys p.
Proof.
  destruct p as [o|]; cbn.
  - by rewrite bool_decide_eq_true.
  - split; [done|]. by intros ?%elem_of_nil.
Qed.



(** No reserved prop ([key], [ref], the vnode hooks) reaches the host
    from [patchProps]; ['value'] is not a reserved prop. *)
Theorem patchProps_skips_reserved el oldProps newProps s :
  isReservedProp "value" = false →
  ∃ es,
    patchProps el oldProps newProps s
    = Ok tt (mkState (vnodes s) (host s) (trace s ++ es))
    ∧ ∀ e, e ∈ es →
        ∃ key prev next, e = HostPatchProp el key prev next ∧ isReservedProp key = false.
Proof.
  intros Hv. exists (patchPropsEvents el oldProps newProps).
  split; [apply patchProps_run|]. unfold patchPropsEvents.
  destruct (propsDiffer _ _); [|by intros e ?%elem_of_nil].
  intros e. rewrite !elem_of_app. unfold propRemovals, propUpdates.
  rewrite !list_elem_of_bind. intros [(k & He & _)|[(k & He & _)|He]].
  - destruct (isReservedProp k) eqn:Er; cbn in He; [by apply elem_of_nil in He|].
    destruct (propIn k newProps); cbn in He; [by apply elem_of_nil in He|].
    apply list_elem_of_singleton in He as ->. by eexists _, _, _.
  - destruct (isReservedProp k) eqn:Er; [by apply elem_of_nil in He|].
    destruct (_ && _); [|by apply elem_of_nil in He].
    apply list_elem_of_singleton in He as ->. by eexists _, _, _.
  - destruct (propIn _ _); [|by apply elem_of_nil in He].
    apply list_elem_of_singleton in He as ->. by eexists _, _, _.
Qed.

End PropDiff.
(** ** What unmounting and moving never do *)

Section Confined.
Context `{Env}.
Context {R : relation Host} {Rrefl : Reflexive R} {Rtrans : Transitive R}.
Variable P : Event → Prop.

Lemma confined_ret {A} (a : A) : confined R P (ret a).
Proof using Rrefl Rtrans.
  intros s a' s' [= _ <-]. split; [done|]. split; [done|].
  exists []. by rewrite app_nil_r.
Qed.

Lemma confined_fail {A} (m : M A) : (∀ s a s', m s ≠ Ok a s') → confined R P m.
Proof using Rrefl Rtrans. intros Hm s a s' E. by destruct (Hm s a s'). Qed.

Lemma confined_bind {A B} (m : M A) (f : A → M B) :
  confined R P m → (∀ a, confined R P (f a)) → confined R P (bind m f).
Proof using Rrefl Rtrans.
  intros Hm Hf s b s'. unfold bind. destruct (m s) as [a s1| | |] eqn:E; try done.
  intros Hb. destruct (Hm _ _ _ E) as (Hv1 & Hh1 & es1 & Ht1 & Hp1).
  destruct (Hf _ _ _ _ Hb) as (Hv2 & Hh2 & es2 & Ht2 & Hp2).
  split; [congruence|]. split; [by etrans|].
  exists (es1 ++ es2). split; [by rewrite Ht2, Ht1, app_assoc|by apply Forall_app].
Qed.

Lemma confined_emit e : P e → confined R P (emit e).
Proof using Rrefl Rtrans.
  intros He s a s' [= _ <-]. split; [done|]. split; [done|].
  exists [e]. split; [done|]. by constructor.
Qed.

Lemma confined_getVNode r : confined R P (getVNode r).
Proof using Rrefl Rtrans.
  intros s a s'. unfold getVNode. destruct (_ !! _); [|done]. intros [= _ <-].
  split; [done|]. split; [done|]. exists []. by rewrite app_nil_r.
Qed.

Lemma confined_getHost : confined R P getHost.
Proof using Rrefl Rtrans.
  intros s a s' [= _ <-]. split; [done|]. split; [done|].
  exists []. by rewrite app_nil_r.
Qed.

Lemma confined_modHost f : (∀ h, R h (f h)) → confined R P (modHost f).
Proof using Rrefl Rtrans.
  intros Hf s a s' [= _ <-]. split; [done|]. split; [apply Hf|].
  exists []. by rewrite app_nil_r.
Qed.

Lemma confined_nonNull {A} (x : option A) : confined R P (nonNull x).
Proof using Rrefl Rtrans. destruct x; [apply confined_ret|]. by apply confined_fail. Qed.

Lemma confined_when (b : bool) m : confined R P m → confined R P (when b m).
Proof using Rrefl Rtrans. destruct b; [done|]. intros _. apply confined_ret. Qed.

Lemma confined_if {A} (b : bool) (m1 m2 : M A) :
  confined R P m1 → confined R P m2 → confined R P (if b then m1 else m2).
Proof using Rrefl Rtrans. by destruct b. Qed.

Lemma confined_forM {A} (l : list A) (f : A → M unit) :
  (∀ x, confined R P (f x)) → confined R P (forM l f).
Proof using Rrefl Rtrans.
  intros Hf. induction l as [|x l IH]; cbn [forM].
  - apply confined_ret.
  - apply confined_bind; [apply Hf|by intros _].
Qed.

Lemma confined_hostNextSibling el : confined R P (hostNextSibling el).
Proof using Rrefl Rtrans.
  unfold hostNextSibling. apply confined_bind; [apply confined_getHost|].
  intros h. apply confined_ret.
Qed.

End Confined.

(** Apply the lemmas of [confined] along the structure of a
    computation. *)
Ltac confined_with tac :=
  repeat first
    [ match goal with |- ∀ _, _ => intro end
    | tac
    | apply confined_ret
    | apply confined_getVNode
    | apply confined_getHost
    | apply confined_nonNull
    | apply confined_hostNextSibling
    | by apply confined_fail
    | by apply confined_emit
    | apply confined_bind
    | apply confined_when
    | apply confined_forM
    | match goal with
      | |- confined _ _ (match ?x with _ => _ end) => destruct x
      end ].

Ltac confined_tac := confined_with fail.

Section Unmounting.
Context `{Env}.

(** [unmount] without removal issues no host operation: the host tree
    and the vnodes are what they were, whatever the vnode has below it;
    the trace grows by the unmount hooks only. *)
Theorem unmount_keeps_host fuel : ∀ vnode optimized,
  confined eq notHostOp (unmount fuel vnode false optimized).
Proof.
  induction fuel as [|fuel IH]; intros vnode optimized; cbn [unmount].
  - by apply confined_fail.
  - unfold unmountChildrenWith, invokeVNodeHook, invokeDirectiveHook,
      queuePostRenderEffect, when.
    confined_tac; try (by apply confined_emit); try apply IH.
Qed.

Global Instance sameNodes_refl : Reflexive sameNodes.
Proof. by intros h. Qed.
Global Instance sameNodes_trans : Transitive sameNodes.
Proof. unfold sameNodes. intros h1 h2 h3 H12 H23. congruence. Qed.

Lemma confined_hostRemove el : confined sameNodes removesOnly (hostRemove el).
Proof.
  unfold hostRemove. apply confined_bind.
  - apply confined_modHost. intros h. apply length_detach.
  - intros _. apply confined_emit. intros _. by exists el.
Qed.

Lemma confined_removeFragmentLoop fuel : ∀ cur ending,
  confined sameNodes removesOnly (removeFragmentLoop fuel cur ending).
Proof.
  induction fuel as [|fuel IH]; intros cur ending; cbn [removeFragmentLoop].
  - confined_tac.
  - confined_with ltac:(first [apply confined_hostRemove | apply IH]).
Qed.

Lemma confined_remove fuel : ∀ vnode,
  confined sameNodes removesOnly (remove fuel vnode).
Proof.
  induction fuel as [|fuel IH]; intros vnode; cbn [remove].
  - by apply confined_fail.
  - unfold removeFragment.
    confined_with ltac:(first [apply confined_hostRemove
                              | apply confined_removeFragmentLoop | apply IH]).
Qed.

(** [unmount] creates no host node and inserts none: the host
    operations it issues are removals, the host tree keeps its nodes,
    and the vnodes are what they were. *)
Theorem unmount_only_removes fuel : ∀ vnode doRemove optimized,
  confined sameNodes removesOnly (unmount fuel vnode doRemove optimized).
Proof.
  induction fuel as [|fuel IH]; intros vnode doRemove optimized; cbn [unmount].
  - by apply confined_fail.
  - unfold unmountChildrenWith, invokeVNodeHook, invokeDirectiveHook,
      queuePostRenderEffect.
    confined_with ltac:(first [apply IH | apply confined_remove]).
Qed.

(** [move] for a reorder, as the keyed diff calls it, only inserts: every
    event it adds to the trace is a host insert into the container in
    front of the anchor, also below a fragment and whatever transition
    the vnode has; no host node is created or dropped and the vnodes are
    what they were. *)
Theorem move_reorder_only_inserts fuel container anchor : ∀ vnode,
  confined sameNodes (λ e, ∃ el, e = HostInsert el container anchor)
    (move fuel vnode container anchor REORDER).
Proof.
  induction fuel as [|fuel IH]; intros vnode; cbn [move].
  - by apply confined_fail.
  - assert (confined_hostInsert : ∀ el,
      confined sameNodes (λ e, ∃ el, e = HostInsert el container anchor)
        (hostInsert el container anchor)).
    { intros el. unfold hostInsert. apply confined_bind.
      - apply confined_modHost. intros h. apply length_host_insert.
      - intros _. apply confined_emit. by exists el. }
    rewrite (bool_decide_eq_true_2 (REORDER = REORDER)) by done. cbn [negb andb].
    confined_with ltac:(first [apply confined_hostInsert | apply IH]).
Qed.

End Unmounting.
(** ** Mounting an element without array children *)

Section MountElement.
Context `{Env}.

Lemma hostInsert_acts el parent anchor :
  acts (hostInsert el parent anchor) (λ h, host_insert h el parent anchor)
    [HostInsert el parent anchor].
Proof. by intros s. Qed.

Lemma hostCreate_ok k t e s :
  hostCreate k t e s
  = Ok (length (host s))
      (mkState (vnodes s) (host s ++ [mkHost k t None []])
         (trace s ++ [e (length (host s))])).
Proof. done. Qed.

Lemma hostOps_cons e l : isHostOp e = true → hostOps (e :: l) = e :: hostOps l.
Proof. intros He. unfold hostOps. by rewrite filter_cons_True. Qed.

Lemma hostOps_nil_if (b : bool) e : isHostOp e = false → hostOps (if b then [e] else []) = [].
Proof. intros He. destruct b; [|done]. unfold hostOps. by rewrite filter_cons_False by (by rewrite He). Qed.

Lemma hostOps_mountProps el props :
  hostOps (mountPropEvents el props) = mountPropEvents el props.
Proof.
  unfold mountPropEvents. rewrite hostOps_app. f_equal.
  - induction (propKeys props) as [|k l IH]; [done|].
    rewrite bind_cons, hostOps_app, IH. f_equal. by destruct (_ && _).
  - by destruct (propIn _ _).
Qed.

Lemma hostOps_scopeId el id : hostOps (scopeIdEvents el id) = scopeIdEvents el id.
Proof. destruct id as [id|]; [|done]. cbn. by destruct (String.eqb _ _). Qed.

Lemma setElementText_new h k el t :
  el = length h →
  host_setElementText (h ++ [mkHost k EmptyString None []]) el t
  = h ++ [mkHost k t None []].
Proof.
  intros ->. unfold host_setElementText, kidsOf.
  rewrite lookup_app_r by done. rewrite Nat.sub_diag. cbn [lookup list_lookup from_option
    hkids foldr].
  rewrite alter_app_r_alt by done. by rewrite Nat.sub_diag.
Qed.

(** [mountElement] on a vnode without array children, in full. *)
Lemma mountElement_run pf vnode container anchor optimized s v :
  vnodes s !! vnode = Some v →
  has (VN.shapeFlag v) ShapeFlags.ARRAY_CHILDREN = false →
  let el := length (host s) in
  mountElement pf vnode container anchor optimized s
  = Ok tt (mkState (<[vnode := VN.with_el (Some el) v]> (vnodes s))
             (host_insert
                (host s ++ [mkHost (HElement (asTag (VN.type v)))
                              (if has (VN.shapeFlag v) ShapeFlags.TEXT_CHILDREN
                               then asString (VN.children v) else EmptyString) None []])
                el container anchor)
             (trace s ++ mountElementEvents vnode v el container anchor)).
Proof.
  intros Hv Harr el.
  unfold mountElement.
  rewrite (bind_ok _ _ _ _ _ (getVNode_ok _ _ _ Hv)). cbv zeta.
  unfold hostCreateElement, setEl.
  rewrite (bind_ok _ _ _ _ _ (hostCreate_ok _ _ _ _)). fold el.
  set (s1 := mkState _ _ _).
  assert (H1 : vnodes s1 !! vnode = Some v) by done.
  rewrite (bind_ok _ _ _ _ _ (modVNode_ok _ _ _ _ H1)).
  rewrite Harr.
  unfold invokeVNodeHook, invokeDirectiveHook, queuePostRenderEffect, hostSetScopeId.
  erewrite acts_ok; last first.
  { eapply acts_bind; [eapply acts_if; [apply hostSetElementText_acts|apply emits_ret]|].
    eapply acts_bind; [apply emits_when, emits_emit|].
    eapply acts_bind.
    { apply emits_when. eapply emits_bind; [|eapply emits_bind].
      - apply emits_forM. intros key. apply emits_when, emits_emit.
      - apply emits_when, emits_emit.
      - apply emits_when, emits_emit. }
    eapply acts_bind.
    { instantiate (1 := scopeIdEvents el (VN.scopeId v)). instantiate (1 := id).
      destruct (VN.scopeId v) as [id|]; [|apply emits_ret]. cbn.
      destruct (String.eqb id ""); [apply emits_ret|apply emits_emit]. }
    eapply acts_bind; [apply emits_when, emits_emit|].
    eapply acts_bind; [apply emits_when, emits_emit|].
    eapply acts_bind; [apply hostInsert_acts|].
    apply emits_when, emits_emit. }
  subst s1. cbn [vnodes host trace compose id]. f_equal. f_equal.
  - f_equal. destruct (has _ ShapeFlags.TEXT_CHILDREN); [|done].
    by apply setElementText_new.
  - unfold mountElementEvents, mountPropEvents. cbv zeta.
    rewrite <- !app_assoc. done.
Qed.

(** [mountElement] on a vnode without array children returns; the
    element is a new host node, recorded as [el] of the vnode; the host
    sees its creation, its text when it has one, its props (those that
    are neither ['value'] nor reserved, then ['value']), its scope id
    and, last, its insertion into the container in front of the anchor;
    the children of the container are then the ones it had with the
    element in front of the anchor. *)
Theorem mountElement_leaf pf vnode container anchor optimized s v :
  vnodes s !! vnode = Some v →
  has (VN.shapeFlag v) ShapeFlags.ARRAY_CHILDREN = false →
  let el := length (host s) in
  let text := has (VN.shapeFlag v) ShapeFlags.TEXT_CHILDREN in
  ∃ s' es,
    mountElement pf vnode container anchor optimized s = Ok tt s'
    ∧ vnodes s' = <[vnode := VN.with_el (Some el) v]> (vnodes s)
    ∧ length (host s') = S (length (host s))
    ∧ (container < length (host s) →
       kidsOf (host s') container
       = insertBefore anchor el (without el (kidsOf (host s) container)))
    ∧ textOf (host s') el = (if text then asString (VN.children v) else EmptyString)
    ∧ trace s' = trace s ++ es
    ∧ hostOps es
      = [HostCreateElement (asTag (VN.type v)) el] ++
        (if text then [HostSetElementText el (asString (VN.children v))] else []) ++
        mountPropEvents el (VN.props v) ++ scopeIdEvents el (VN.scopeId v) ++
        [HostInsert el container anchor].
Proof.
  intros Hv Harr el text. eexists _, _.
  split; [by apply mountElement_run|]. cbn [vnodes host trace].
  set (txt := if has _ ShapeFlags.TEXT_CHILDREN then _ else _).
  set (h1 := host s ++ [mkHost (HElement (asTag (VN.type v))) txt None []]).
  assert (length h1 = S el) as Hl1 by (subst h1; rewrite length_app; cbn; lia).
  split; [done|]. split; [by rewrite length_host_insert|]. split; [|split; [|split]].
  - intros Hc. rewrite kidsOf_insert by lia. do 2 f_equal.
    by apply kidsOf_app.
  - rewrite textOf_insert. unfold textOf. subst h1. rewrite lookup_app_r by done.
    by rewrite Nat.sub_diag.
  - reflexivity.
  - unfold mountElementEvents. cbv zeta. cbn [app]. rewrite hostOps_cons by done.
    f_equal. rewrite !hostOps_app.
    rewrite (hostOps_nil_if (VN.dirs v)) by done.
    rewrite (hostOps_nil_if (VN.dirs v)) by done.
    rewrite (hostOps_nil_if (match VN.transition v with Some t => negb (persisted t)
                                                   | None => false end)) by done.
    rewrite hostOps_scopeId. cbn [app].
    rewrite hostOps_cons by done.
    rewrite (hostOps_nil_if _ (QueuePostRenderEffect "mounted" vnode)) by done.
    f_equal; [subst text; by destruct (has _ ShapeFlags.TEXT_CHILDREN)|]. f_equal.
    destruct (VN.props v) as [props|] eqn:Ep.
    + rewrite bool_decide_eq_true_2 by done. rewrite !hostOps_app.
      rewrite (hostOps_nil_if _ (InvokeVNodeHook "onVnodeBeforeMount" vnode)) by done.
      rewrite app_nil_r. apply hostOps_mountProps.
    + by rewrite bool_decide_eq_false_2 by (by intros ?).
Qed.
End MountElement.
(** ** Mounting a leaf and unmounting it again *)

Section Leaves.
Context `{Env}.

Lemma with_dynamicChildren_id v :
  VN.dynamicChildren v = None → VN.with_dynamicChildren None v = v.
Proof. destruct v. cbn. by intros ->. Qed.

Lemma setDynamicChildren_id n v s :
  vnodes s !! n = Some v → VN.dynamicChildren v = None →
  setDynamicChildren n None s = Ok tt s.
Proof.
  intros Hn Hd. unfold setDynamicChildren. rewrite (modVNode_ok _ _ _ _ Hn).
  rewrite with_dynamicChildren_id by done. rewrite list_insert_id by done.
  by destruct s.
Qed.

Lemma without_insertBefore anchor (h : Handle) l :
  h ∉ l → without h (insertBefore anchor h l) = l.
Proof.
  intros Hh. destruct anchor as [a|]; cbn [insertBefore].
  - destruct (decide (a ∈ l)) as [Ha|Ha].
    + apply list_elem_of_split in Ha as (l1 & l2 & ->).
      assert (∃ l1' l2', l1 ++ a :: l2 = l1' ++ a :: l2' ∧ a ∉ l1') as (l1' & l2' & E & Hn).
      { clear Hh. induction l1 as [|x l1 IH].
        - exists [], l2. split; [done|]. by intros ?%elem_of_nil.
        - destruct (decide (x = a)) as [->|Hne].
          + exists [], (l1 ++ a :: l2). split; [done|]. by intros ?%elem_of_nil.
          + destruct IH as (l1' & l2' & E & Hn). exists (x :: l1'), l2'.
            split; [cbn; by rewrite E|]. intros [?|?]%elem_of_cons; done. }
      rewrite E in *. rewrite insertAt_app by done.
      rewrite without_app. unfold without at 2. rewrite filter_cons_False by (by intros ?).
      fold (without h (a :: l2')). rewrite <- without_app. by apply without_notin.
    + rewrite insertAt_notin by done. rewrite without_app, without_notin by done.
      unfold without. rewrite filter_cons_False by (by intros ?). by rewrite app_nil_r.
  - rewrite without_app, without_notin by done.
    unfold without. rewrite filter_cons_False by (by intros ?). by rewrite app_nil_r.
Qed.

(** [patch] with no old vnode on a leaf, in full. *)
Lemma mount_leaf_run fuel n container anchor optimized s v :
  vnodes s !! n = Some v → Leaf v →
  let el := length (host s) in
  patch (S fuel) None n container anchor optimized s
  = Ok tt (mkState (<[n := VN.with_el (Some el) v]> (vnodes s))
             (host_insert (host s ++ [leafHost v]) el container anchor)
             (trace s ++ leafMountEvents n v el container anchor)).
Proof.
  intros Hn Hl el. cbn [patch]. unfold patchStep.
  rewrite (bind_ok _ _ _ _ _ (getVNode_ok _ _ _ Hn)).
  rewrite (bool_decide_eq_false_2 (None = Some n)) by done. rewrite bind_ret.
  assert (∀ (k : bool → M unit) b,
            bind (if (VN.patchFlag v =? PatchFlags.BAIL)%Z
                  then setDynamicChildren n None;; ret false else ret b) k s
            = k (if (VN.patchFlag v =? PatchFlags.BAIL)%Z then false else b) s) as Hbail.
  { intros k b. destruct (_ =? _)%Z; [|done].
    rewrite (bind_ok _ _ _ false s); [done|].
    by rewrite (bind_ok _ _ _ _ _ (setDynamicChildren_id _ _ _ Hn (leaf_block _ Hl))). }
  rewrite Hbail. clear Hbail.
  unfold leafMountEvents, leafHost.
  destruct (leaf_type _ Hl) as [Ht|[Ht|[[t Ht] He]]]; rewrite Ht.
  - unfold processText. rewrite (bind_ok _ _ _ _ _ (getVNode_ok _ _ _ Hn)).
    unfold hostCreateText. rewrite (bind_ok _ _ _ _ _ (hostCreate_ok _ _ _ _)).
    unfold setEl. erewrite bind_ok; [|by apply modVNode_ok].
    rewrite (acts_ok _ _ _ _ (hostInsert_acts _ _ _)). cbn [vnodes host trace].
    by rewrite <- app_assoc.
  - unfold processCommentNode. rewrite (bind_ok _ _ _ _ _ (getVNode_ok _ _ _ Hn)).
    unfold hostCreateComment. rewrite (bind_ok _ _ _ _ _ (hostCreate_ok _ _ _ _)).
    unfold setEl. erewrite bind_ok; [|by apply modVNode_ok].
    rewrite (acts_ok _ _ _ _ (hostInsert_acts _ _ _)). cbn [vnodes host trace].
    by rewrite <- app_assoc.
  - rewrite He. unfold processElement.
    rewrite (mountElement_run _ _ _ _ _ _ _ Hn (leaf_children _ Hl)).
    by rewrite Ht.
Qed.

(** [unmount] with removal on a mounted leaf, in full. *)
Lemma unmount_leaf_run fuel n optimized s v el :
  vnodes s !! n = Some v → Leaf v → VN.el v = Some el →
  unmount (S fuel) n true optimized s
  = Ok tt (mkState (vnodes s) (host_detach (host s) el)
             (trace s ++ leafUnmountEvents n v el)).
Proof.
  intros Hn Hl Hel. cbn [unmount].
  rewrite (bind_ok _ _ _ _ _ (getVNode_ok _ _ _ Hn)).
  rewrite (leaf_keepAlive _ Hl), (leaf_component _ Hl), (leaf_suspense _ Hl),
    (leaf_teleport _ Hl), (leaf_block _ Hl), (leaf_children _ Hl).
  rewrite (bool_decide_eq_false_2 (None ≠ None)) by (by intros ?).
  assert (bool_decide (VN.type v = Fragment) = false) as HF.
  { apply bool_decide_eq_false_2.
    destruct (leaf_type _ Hl) as [Ht|[Ht|[[t Ht] _]]]; by rewrite Ht. }
  assert (bool_decide (VN.type v = Static) = false) as HS.
  { apply bool_decide_eq_false_2.
    destruct (leaf_type _ Hl) as [Ht|[Ht|[[t Ht] _]]]; by rewrite Ht. }
  rewrite HF. cbn [andb orb negb]. rewrite andb_false_r. cbn [when].
  unfold invokeVNodeHook, invokeDirectiveHook, queuePostRenderEffect.
  assert (actsAt (vnodes s) (remove (S fuel) n) (λ h, host_detach h el) [HostRemove el])
    as Hrem.
  { cbn [remove]. apply actsAt_get with v; [done|].
    rewrite (leaf_transition _ Hl), HF, HS, Hel, andb_false_r. cbn [nonNull andb when].
    intros s0 Hs0. rewrite bind_ret. unfold hostRemove, modHost, emit, bind, ret.
    cbn. by rewrite Hs0. }
  erewrite (actsAt_bind (vnodes s)); [| | |reflexivity]; cycle 1.
  { apply acts_actsAt, emits_when, emits_emit. }
  { eapply actsAt_bind; [apply acts_actsAt, emits_when, emits_emit|].
    eapply actsAt_bind; [|apply acts_actsAt, emits_when, emits_emit].
    eapply actsAt_bind; [apply acts_actsAt, emits_when, emits_emit|].
    eapply actsAt_bind; [apply acts_actsAt, emits_ret|exact Hrem]. }
  cbn [compose id]. unfold leafUnmountEvents. cbv zeta.
  by rewrite <- !app_assoc.
Qed.

Lemma countEvents_cons f e l :
  countEvents f (e :: l) = (if f e then 1 else 0) + countEvents f l.
Proof.
  unfold countEvents. destruct (f e) eqn:E.
  - by rewrite filter_cons_True.
  - rewrite filter_cons_False; [done|]. by rewrite E.
Qed.

Lemma countEvents_none f l : Forall (λ e, f e = false) l → countEvents f l = 0.
Proof.
  induction 1 as [|e l He Hl IH]; [done|]. by rewrite countEvents_cons, He, IH.
Qed.

Lemma countEvents_opt f (b : bool) e : f e = false → countEvents f (if b then [e] else []) = 0.
Proof. intros He. destruct b; [|done]. by rewrite countEvents_cons, He. Qed.

(** Creations, insertions and removals among the events of mounting an
    element without array children: its own creation and insertion. *)
Lemma countEvents_mountElement f n v el container anchor :
  (∀ e, f e = true →
        isCreateEvent e = true ∨ isInsertEvent e = true ∨ isRemoveEvent e = true) →
  countEvents f (mountElementEvents n v el container anchor)
  = (if f (HostCreateElement (asTag (VN.type v)) el) then 1 else 0)
    + (if f (HostInsert el container anchor) then 1 else 0).
Proof.
  intros Hf.
  assert (∀ e, isCreateEvent e = false → isInsertEvent e = false →
               isRemoveEvent e = false → f e = false) as Hno.
  { intros e H1 H2 H3. destruct (f e) eqn:E; [|done].
    destruct (Hf e E) as [?|[?|?]]; congruence. }
  unfold mountElementEvents. cbv zeta. cbn [app].
  rewrite countEvents_cons, !countEvents_app. f_equal.
  rewrite !countEvents_opt by (by apply Hno).
  rewrite countEvents_cons, countEvents_opt by (by apply Hno).
  assert (countEvents f (mountPropEvents el (VN.props v)) = 0) as Hp.
  { apply countEvents_none. unfold mountPropEvents. apply Forall_app. split.
    - apply Forall_forall. intros e (k & He & _)%list_elem_of_bind.
      destruct (_ && _); [|by apply elem_of_nil in He].
      apply list_elem_of_singleton in He as ->. by apply Hno.
    - destruct (propIn _ _); [|done]. constructor; [by apply Hno|done]. }
  assert (countEvents f (scopeIdEvents el (VN.scopeId v)) = 0) as Hs.
  { apply countEvents_none. destruct (VN.scopeId v) as [id|]; [|done]. cbn.
    destruct (String.eqb _ _); [done|]. constructor; [by apply Hno|done]. }
  rewrite Hs. destruct (bool_decide (VN.props v ≠ None)).
  - rewrite countEvents_app, Hp, countEvents_opt by (by apply Hno). lia.
  - cbn. lia.
Qed.

(** Mounting a leaf and unmounting it again: both calls return; the
    leaf is mounted as a new host node, in front of the anchor among the
    children of the container; after the unmount the container has the
    children it had, in their order.  The host saw one node created and
    inserted, and then removed. *)
Theorem leaf_mount_unmount fuel fuel' n container anchor optimized optimized' s v :
  vnodes s !! n = Some v → Leaf v →
  container < length (host s) →
  Forall (λ k, k < length (host s)) (kidsOf (host s) container) →
  let el := length (host s) in
  ∃ s1 s2 es1 es2,
    patch (S fuel) None n container anchor optimized s = Ok tt s1
    ∧ VN.el <$> vnodes s1 !! n = Some (Some el)
    ∧ kidsOf (host s1) container = insertBefore anchor el (kidsOf (host s) container)
    ∧ unmount (S fuel') n true optimized' s1 = Ok tt s2
    ∧ kidsOf (host s2) container = kidsOf (host s) container
    ∧ trace s1 = trace s ++ es1 ∧ trace s2 = trace s1 ++ es2
    ∧ countEvents isCreateEvent es1 = 1 ∧ countEvents isInsertEvent es1 = 1
    ∧ countEvents isRemoveEvent es1 = 0
    ∧ hostOps es2 = [HostRemove el].
Proof.
  intros Hn Hl Hc Hk el.
  assert (el ∉ kidsOf (host s) container) as Hfresh.
  { intros Hin. rewrite Forall_forall in Hk. specialize (Hk _ Hin). subst el. cbn in Hk. lia. }
  pose proof (mount_leaf_run fuel n container anchor optimized s v Hn Hl) as Hm.
  cbv zeta in Hm. fold el in Hm.
  set (s1 := mkState _ _ _) in Hm.
  assert (vnodes s1 !! n = Some (VN.with_el (Some el) v)) as Hn1.
  { subst s1. cbn. rewrite list_lookup_insert_eq; eauto using lookup_lt_Some. }
  assert (Leaf (VN.with_el (Some el) v)) as Hl1 by (by destruct Hl).
  pose proof (unmount_leaf_run fuel' n optimized' s1 _ el Hn1 Hl1 eq_refl) as Hu.
  set (s2 := mkState _ _ _) in Hu.
  assert (kidsOf (host s1) container = insertBefore anchor el (kidsOf (host s) container))
    as Hk1.
  { subst s1. cbn [host]. rewrite kidsOf_insert by (rewrite length_app; lia).
    rewrite kidsOf_app by done. by rewrite without_notin. }
  exists s1, s2, (leafMountEvents n v el container anchor),
    (leafUnmountEvents n (VN.with_el (Some el) v) el).
  split; [done|]. split; [by rewrite Hn1|]. split; [done|]. split; [done|].
  split.
  { subst s2. cbn [host]. rewrite kidsOf_detach, Hk1. by apply without_insertBefore. }
  split; [done|]. split; [done|].
  assert (countEvents isCreateEvent (leafMountEvents n v el container anchor) = 1
          ∧ countEvents isInsertEvent (leafMountEvents n v el container anchor) = 1
          ∧ countEvents isRemoveEvent (leafMountEvents n v el container anchor) = 0)
    as (-> & -> & ->).
  { unfold leafMountEvents.
    destruct (leaf_type _ Hl) as [Ht|[Ht|[[t Ht] He]]]; rewrite Ht; [done..|].
    rewrite !countEvents_mountElement by (intros e; destruct e; cbn; auto). done. }
  do 3 (split; [done|]).
  unfold leafUnmountEvents. cbv zeta. rewrite !hostOps_app.
  rewrite (hostOps_nil_if _ (SetRef n)) by done.
  rewrite (hostOps_nil_if _ (InvokeVNodeHook "onVnodeBeforeUnmount" n)) by done.
  rewrite (hostOps_nil_if _ (InvokeDirectiveHook "beforeUnmount" n)) by done.
  rewrite (hostOps_nil_if _ (QueuePostRenderEffect "unmounted" n)) by done.
  done.
Qed.


End Leaves.
(** ** More on the keyed diff: which host elements are reused *)

Section KeyedIdentity.
Variable olds : list OldItem.
Variable news : list NewItem.
Variable writes : bool.
Variable dev : bool.

Hypothesis old_keys : NoDup (o_key <$> olds).
Hypothesis old_els : NoDup (o_el <$> olds).
Hypothesis new_keys : NoDup (n_key <$> news).

Lemma new_key_unique j j' n n' :
  news !! j = Some n → news !! j' = Some n' → n_key n = n_key n' → j = j'.
Proof using new_keys.
  intros Hj Hj' E. eapply NoDup_lookup; [exact new_keys| |]; rewrite list_lookup_fmap.
  - by rewrite Hj.
  - rewrite Hj'. cbn. by rewrite E.
Qed.

Lemma mountLoop_keeps anchor l : ∀ q p',
  foldl (λ acc j, p ← acc; n ← planNew news j p; Some (planMount j n anchor p))
    (Some q) l = Some p' →
  ∀ j, j ∉ l → aE p' !! j = aE q !! j.
Proof.
  induction l as [|i l IH]; intros q p' Hf j Hj; cbn [foldl] in Hf.
  - by injection Hf as <-.
  - cbn [mbind option_bind] in Hf.
    destruct (planNew news i q) as [n|]; cbn [mbind option_bind] in Hf;
      [|by rewrite foldl_None in Hf].
    rewrite (IH _ _ Hf j) by (intros ?; apply Hj; by right).
    cbn [planMount aE]. apply list_lookup_insert_ne. intros ->. apply Hj. by left.
Qed.

Lemma unmountLoop_keeps l : ∀ q p',
  foldl (λ acc j, p ← acc; o ← olds !! j; Some (planUnmount o p)) (Some q) l = Some p' →
  aE p' = aE q.
Proof.
  induction l as [|i l IH]; intros q p' Hf; cbn [foldl] in Hf.
  - by injection Hf as <-.
  - cbn [mbind option_bind] in Hf.
    destruct (olds !! i) as [o|]; cbn [mbind option_bind] in Hf;
      [|by rewrite foldl_None in Hf].
    by rewrite (IH _ _ Hf).
Qed.

Lemma placeLoop_keeps s st sequence l : ∀ jx q jx' p',
  foldl (planMoveOrMount news None s st sequence) (Some (jx, q)) l = Some (jx', p') →
  ∀ j, (∀ i, i ∈ l → rd (newIndexToOldIndexMap st) i = 0 → j ≠ s + i) →
  aE p' !! j = aE q !! j.
Proof.
  induction l as [|i l IH]; intros jx q jx' p' Hf j Hj; cbn [foldl] in Hf.
  - by injection Hf as _ <-.
  - unfold planMoveOrMount at 2 in Hf. cbn [mbind option_bind] in Hf.
    destruct (news !! (s + i)) as [n|] eqn:En; cbn [mbind option_bind] in Hf;
      [|by rewrite foldl_None in Hf].
    assert (∀ i', i' ∈ l → rd (newIndexToOldIndexMap st) i' = 0 → j ≠ s + i') as Hj'
      by (intros i' ?; apply Hj; by right).
    destruct (rd (newIndexToOldIndexMap st) i =? 0) eqn:Ez.
    + rewrite (IH _ _ _ _ Hf j Hj'). cbn [planMount aE].
      apply list_lookup_insert_ne. intros E. apply (Hj i); [by left| |done].
      by apply Nat.eqb_eq.
    + destruct (moved st); [|by apply (IH _ _ _ _ Hf)].
      destruct ((jx =? 0) || negb (i =? rd sequence (jx - 1))); [|by apply (IH _ _ _ _ Hf)].
      destruct (mjoin (aE q !! (s + i))) as [h|]; cbn [mbind option_bind] in Hf;
        [|by rewrite foldl_None in Hf].
      by rewrite (IH _ _ _ _ Hf j Hj').
Qed.

(** The replay of the diff gives the new child with the key of an old
    child the host element of that old child. *)
Lemma planDiff_reuses p :
  Initial olds news p →
  ∃ p', planDiff olds news None writes dev p = Some p'
        ∧ ∀ k o j n, olds !! k = Some o → news !! j = Some n → o_key o = n_key n →
            aE p' !! j = Some (Some (o_el o)).
Proof using old_keys old_els new_keys.
  intros Hinit.
  destruct (planDiff_run olds news writes dev old_keys old_els p Hinit)
    as (s & p1 & e1 & e2 & p2 & p' & E1 & E2 & Hs & _ & Hd & _ & _ & Hnone & Hfive).
  exists p'. split; [done|]. intros k o j n Hk Hj Hkey.
  pose proof (sy_s1 _ _ _ _ _ _ _ Hs) as Hs1. pose proof (sy_s2 _ _ _ _ _ _ _ Hs) as Hs2.
  pose proof (sy_e1 _ _ _ _ _ _ _ Hs) as He1. pose proof (sy_e2 _ _ _ _ _ _ _ Hs) as He2.
  pose proof (sy_d _ _ _ _ _ _ _ Hs) as Hdd.
  pose proof (lookup_lt_Some _ _ _ Hk) as Hklt. pose proof (lookup_lt_Some _ _ _ Hj) as Hjlt.
  (* where the old child and the new child are *)
  assert (k < s → j = k) as Hpre.
  { intros Hlt. destruct (lookup_lt_is_Some_2 news k ltac:(lia)) as [n' Hn'].
    pose proof (sy_kpre _ _ _ _ _ _ _ Hs k o n' Hlt Hk Hn') as E.
    eapply new_key_unique; [done..|congruence]. }
  assert (e1 ≤ k → j = k + e2 - e1) as Hsuf.
  { intros Hle. destruct (lookup_lt_is_Some_2 news (k + e2 - e1) ltac:(lia)) as [n' Hn'].
    pose proof (sy_ksuf _ _ _ _ _ _ _ Hs k o n' Hle Hk Hn') as E.
    eapply new_key_unique; [done..|congruence]. }
  assert (j < s → k = j) as Hpre'.
  { intros Hlt. destruct (lookup_lt_is_Some_2 olds j ltac:(lia)) as [o' Ho'].
    pose proof (sy_kpre _ _ _ _ _ _ _ Hs j o' n Hlt Ho' Hj) as E.
    eapply (old_key_inj olds old_keys); [done..|congruence]. }
  assert (e2 ≤ j → k = j + e1 - e2) as Hsuf'.
  { intros Hle. destruct (lookup_lt_is_Some_2 olds (j + e1 - e2) ltac:(lia)) as [o' Ho'].
    assert (news !! (j + e1 - e2 + e2 - e1) = Some n) as Hj'
      by (by replace (j + e1 - e2 + e2 - e1) with j by lia).
    pose proof (sy_ksuf _ _ _ _ _ _ _ Hs (j + e1 - e2) o' n ltac:(lia) Ho' Hj') as E.
    eapply (old_key_inj olds old_keys); [done..|congruence]. }
  unfold planDiff in Hd. rewrite E1 in Hd. cbn [mbind option_bind] in Hd.
  rewrite E2 in Hd. cbn [mbind option_bind] in Hd.
  assert (k < s ∨ e1 ≤ k → aE p2 !! j = Some (Some (o_el o))) as Hsync.
  { intros [Hlt|Hle].
    - rewrite (Hpre Hlt). by eapply sy_pre.
    - rewrite (Hsuf Hle). by eapply sy_suf. }
  destruct (Nat.leb_spec e1 s) as [H1|H1].
  { destruct (Nat.ltb_spec s e2) as [H2|H2].
    - rewrite (mountLoop_keeps _ _ _ _ Hd).
      + apply Hsync. lia.
      + rewrite elem_of_seq. intros Hin.
        destruct (decide (k < s)) as [Hlt|Hge]; [specialize (Hpre Hlt)|specialize (Hsuf ltac:(lia))]; lia.
    - injection Hd as <-. apply Hsync. lia. }
  destruct (Nat.leb_spec e2 s) as [H2|H2].
  { rewrite (unmountLoop_keeps _ _ _ Hd).
    apply Hsync. destruct (decide (j < s)) as [Hlt|Hge].
    - specialize (Hpre' Hlt). lia.
    - specialize (Hsuf' ltac:(lia)). lia. }
  destruct (Hfive H1 H2) as (km & ws & st & p4 & jx & KJ & Hbm & Hkm & Hfold & Hmt & Hpl).
  unfold planMiddle in Hd. rewrite Hbm in Hd. cbn [mbind option_bind] in Hd.
  rewrite Hfold in Hd. cbn [mbind option_bind] in Hd.
  destruct (foldl _ _ (reverse _)) as [[jx' p'']|] eqn:Eplace; [|done].
  cbn [mbind option_bind] in Hd. injection Hd as ->.
  assert (elOf p4 (o_el o) j) as Hel.
  { destruct (decide (k < s)) as [Hlt|Hge].
    { rewrite (Hpre Hlt). by eapply mt_pre. }
    destruct (decide (e1 ≤ k)) as [Hle|Hmid].
    { rewrite (Hsuf Hle). by eapply mt_suf. }
    assert (s ≤ j < e2) as Hjm.
    { destruct (decide (j < s)) as [Hlt|?]; [specialize (Hpre' Hlt); lia|].
      destruct (decide (e2 ≤ j)) as [Hle|?]; [specialize (Hsuf' Hle); lia|]. lia. }
    pose proof (mt_full _ _ _ _ _ _ _ _ _ _ Hmt new_keys k o j n ltac:(lia) Hk Hjm Hj Hkey)
      as Hmap.
    destruct (mt_match _ _ _ _ _ _ _ _ _ _ Hmt (j - s) ltac:(lia))
      as (_ & _ & _ & o' & n' & Ho' & _ & _ & Hel).
    rewrite Hmap in Ho'. replace (k + 1 - 1) with k in Ho' by lia.
    replace (s + (j - s)) with j in Hel by lia. congruence. }
  rewrite (placeLoop_keeps _ _ _ _ _ _ _ _ Eplace); [exact Hel|].
  intros i Hi Hz ->.
  destruct (decide (k < s)) as [Hlt|Hge]; [specialize (Hpre Hlt); lia|].
  destruct (decide (e1 ≤ k)) as [Hle|Hmid].
  { specialize (Hsuf Hle). apply elem_of_reverse, elem_of_seq in Hi. lia. }
  pose proof (mt_full _ _ _ _ _ _ _ _ _ _ Hmt new_keys k o (s + i) n ltac:(lia) Hk
                ltac:(apply elem_of_reverse, elem_of_seq in Hi; lia) Hj Hkey) as Hmap.
  replace (s + i - s) with i in Hmap by lia. lia.
Qed.

(** *** Host elements that the diff makes *)

Lemma origin_patch n0 p k o j n :
  Origin olds news n0 p → olds !! k = Some o → news !! j = Some n →
  o_key o = n_key n → Origin olds news n0 (planPatch writes o j n p).
Proof.
  intros [Hn Ho] Hk Hj Hkey. split; [done|]. cbn [planPatch aE].
  intros j' h [(-> & [= <-] & _)|[_ Hh]]%list_lookup_insert_Some.
  - right. by exists k, o, n.
  - by apply Ho.
Qed.

Lemma origin_mount n0 p j n anchor :
  Origin olds news n0 p → Origin olds news n0 (planMount j n anchor p).
Proof.
  intros [Hn Ho]. split; [cbn; lia|]. cbn [planMount aE].
  intros j' h [(-> & [= <-] & _)|[_ Hh]]%list_lookup_insert_Some.
  - by left.
  - by apply Ho.
Qed.

Lemma planNew_Some j p n : planNew news j p = Some n → news !! j = Some n.
Proof.
  unfold planNew. destruct (news !! j); cbn; [|done].
  by destruct (bool_decide _).
Qed.

Lemma origin_syncStart n0 rounds : ∀ i e1 e2 p i' p',
  Origin olds news n0 p →
  planSyncStart olds news writes rounds i e1 e2 p = Some (i', p') →
  Origin olds news n0 p'.
Proof.
  induction rounds as [|r IH]; intros i e1 e2 p i' p' Ho; cbn [planSyncStart];
    destruct ((i <? e1) && (i <? e2)); try done; try (by intros [= _ <-]).
  destruct (olds !! i) as [o|] eqn:Eo; cbn [mbind option_bind]; [|done].
  destruct (planNew news i p) as [n|] eqn:En; cbn [mbind option_bind]; [|done].
  destruct (decide _) as [Hkey|]; [|by intros [= _ <-]].
  apply IH. by eapply origin_patch; [done|done|eapply planNew_Some|done].
Qed.

Lemma origin_syncEnd n0 rounds : ∀ i e1 e2 p e1' e2' p',
  Origin olds news n0 p →
  planSyncEnd olds news writes rounds i e1 e2 p = Some (e1', e2', p') →
  Origin olds news n0 p'.
Proof.
  induction rounds as [|r IH]; intros i e1 e2 p e1' e2' p' Ho; cbn [planSyncEnd];
    destruct ((i <? e1) && (i <? e2)); try done; try (by intros [= _ _ <-]).
  destruct (olds !! (e1 - 1)) as [o|] eqn:Eo; cbn [mbind option_bind]; [|done].
  destruct (planNew news (e2 - 1) p) as [n|] eqn:En; cbn [mbind option_bind]; [|done].
  destruct (decide _) as [Hkey|]; [|by intros [= _ _ <-]].
  apply IH. by eapply origin_patch; [done|done|eapply planNew_Some|done].
Qed.

Lemma origin_mountLoop n0 anchor l : ∀ q p',
  Origin olds news n0 q →
  foldl (λ acc j, p ← acc; n ← planNew news j p; Some (planMount j n anchor p))
    (Some q) l = Some p' →
  Origin olds news n0 p'.
Proof.
  induction l as [|i l IH]; intros q p' Ho Hf; cbn [foldl] in Hf.
  - by injection Hf as <-.
  - cbn [mbind option_bind] in Hf.
    destruct (planNew news i q) as [n|]; cbn [mbind option_bind] in Hf;
      [|by rewrite foldl_None in Hf].
    eapply IH; [|exact Hf]. by apply origin_mount.
Qed.

Lemma origin_unmountLoop n0 l : ∀ q p',
  Origin olds news n0 q →
  foldl (λ acc j, p ← acc; o ← olds !! j; Some (planUnmount o p)) (Some q) l = Some p' →
  Origin olds news n0 p'.
Proof.
  induction l as [|i l IH]; intros q p' Ho Hf; cbn [foldl] in Hf.
  - by injection Hf as <-.
  - cbn [mbind option_bind] in Hf.
    destruct (olds !! i) as [o|]; cbn [mbind option_bind] in Hf;
      [|by rewrite foldl_None in Hf].
    eapply IH; [|exact Hf]. done.
Qed.

Lemma origin_oldLoop n0 km s e2 l : ∀ st q st' p',
  Origin olds news n0 q →
  foldl (planOld olds news writes km s e2) (Some (st, q)) l = Some (st', p') →
  Origin olds news n0 p'.
Proof.
  induction l as [|i l IH]; intros st q st' p' Ho Hf; cbn [foldl] in Hf.
  - by injection Hf as _ <-.
  - unfold planOld at 2 in Hf. cbn [mbind option_bind] in Hf.
    destruct (olds !! i) as [o|] eqn:Eo; cbn [mbind option_bind] in Hf;
      [|by rewrite foldl_None in Hf].
    destruct (e2 - s <=? patched st); [by eapply IH; [|exact Hf]|].
    destruct (km !! o_key o) as [newIndex|]; [|by eapply IH; [|exact Hf]].
    destruct (news !! newIndex) as [n|] eqn:En; cbn [mbind option_bind] in Hf;
      [|by rewrite foldl_None in Hf].
    destruct (decide _) as [Hkey|]; [|by rewrite foldl_None in Hf].
    eapply IH; [|exact Hf]. by eapply origin_patch.
Qed.

Lemma origin_placeLoop n0 s st sequence l : ∀ jx q jx' p',
  Origin olds news n0 q →
  foldl (planMoveOrMount news None s st sequence) (Some (jx, q)) l = Some (jx', p') →
  Origin olds news n0 p'.
Proof.
  induction l as [|i l IH]; intros jx q jx' p' Ho Hf; cbn [foldl] in Hf.
  - by injection Hf as _ <-.
  - unfold planMoveOrMount at 2 in Hf. cbn [mbind option_bind] in Hf.
    destruct (news !! (s + i)) as [n|] eqn:En; cbn [mbind option_bind] in Hf;
      [|by rewrite foldl_None in Hf].
    destruct (rd (newIndexToOldIndexMap st) i =? 0).
    + eapply IH; [|exact Hf]. by apply origin_mount.
    + destruct (moved st); [|by eapply IH; [|exact Hf]].
      destruct ((jx =? 0) || negb (i =? rd sequence (jx - 1))); [|by eapply IH; [|exact Hf]].
      destruct (mjoin (aE q !! (s + i))) as [h|]; cbn [mbind option_bind] in Hf;
        [|by rewrite foldl_None in Hf].
      eapply IH; [|exact Hf]. done.
Qed.

Lemma origin_buildMap n0 s e2 p km p' :
  Origin olds news n0 p → planBuildMap news dev s e2 p = Some (km, p') →
  Origin olds news n0 p'.
Proof.
  unfold planBuildMap. generalize (∅ : gmap Key nat). generalize (seq s (e2 - s)).
  intros l. revert p. induction l as [|i l IH]; intros p m Ho Hf; cbn [foldl] in Hf.
  - by injection Hf as _ <-.
  - cbn [mbind option_bind] in Hf.
    destruct (planNew news i p) as [n|]; cbn [mbind option_bind] in Hf;
      [|by rewrite foldl_None in Hf].
    eapply IH; [|exact Hf]. by destruct (dev && _).
Qed.

Lemma planDiff_origin n0 p p' :
  Origin olds news n0 p → planDiff olds news None writes dev p = Some p' →
  Origin olds news n0 p'.
Proof.
  intros Ho. unfold planDiff.
  destruct (planSyncStart _ _ _ _ _ _ _ _) as [[i p1]|] eqn:E1; [|done].
  cbn [mbind option_bind].
  destruct (planSyncEnd _ _ _ _ _ _ _ _) as [[[e1 e2] p2]|] eqn:E2; [|done].
  cbn [mbind option_bind].
  pose proof (origin_syncEnd _ _ _ _ _ _ _ _ _ (origin_syncStart _ _ _ _ _ _ _ _ Ho E1) E2)
    as Ho2.
  destruct (e1 <=? i).
  { destruct (i <? e2); [by apply origin_mountLoop|]. by intros [= <-]. }
  destruct (e2 <=? i); [by apply origin_unmountLoop|].
  unfold planMiddle.
  destruct (planBuildMap _ _ _ _ _) as [[km p3]|] eqn:Eb; [|done].
  cbn [mbind option_bind].
  destruct (foldl (planOld _ _ _ _ _ _) _ _) as [[st p4]|] eqn:Eo; [|done].
  cbn [mbind option_bind].
  destruct (foldl (planMoveOrMount _ _ _ _ _) _ _) as [[jx p5]|] eqn:Ep; [|done].
  cbn [mbind option_bind]. intros [= <-].
  eapply origin_placeLoop; [|exact Ep].
  eapply origin_oldLoop; [|exact Eo].
  by eapply origin_buildMap.
Qed.

End KeyedIdentity.

Section KeyedReuse.
Context `{Env}.
Variable tag : string.
Variable container : Handle.
Variable optimized : bool.
Variable fuel : nat.

Hypothesis normalize_unmounted : ∀ r s v,
  vnodes s !! r = Some v → VN.el v = None →
  normalizeVNode r s = Ok r s ∧ cloneIfMounted r s = Ok r s.


End KeyedReuse.
(** ** The keyed diff of a list against one with the same keys in the
    same order *)

Section SameOrder.
Variable olds : list OldItem.
Variable news : list NewItem.
Variable writes : bool.
Variable dev : bool.

Hypothesis same_keys : n_key <$> news = o_key <$> olds.

Lemma same_order_length : length news = length olds.
Proof using same_keys.
  by rewrite <- (length_fmap n_key news), same_keys, length_fmap.
Qed.

Lemma same_order_key k o n :
  olds !! k = Some o → news !! k = Some n → o_key o = n_key n.
Proof using same_keys.
  intros Ho Hn.
  assert ((n_key <$> news) !! k = (o_key <$> olds) !! k) as E by (by rewrite same_keys).
  rewrite !list_lookup_fmap, Ho, Hn in E. cbn in E. congruence.
Qed.

Lemma planSyncStart_all tag container rounds : ∀ i p,
  (∀ k, i ≤ k < length news → aE p !! k = Some None) →
  i ≤ length news → length news - i ≤ rounds →
  ∃ p', planSyncStart olds news writes rounds i (length olds) (length news) p
        = Some (length news, p')
        ∧ aK p' = aK p
        ∧ aLog p' ≫= opEvents tag container
          = (aLog p ≫= opEvents tag container)
            ++ (zip (drop i olds) (drop i news) ≫= textPatch writes)
        ∧ (∀ k o, i ≤ k → olds !! k = Some o → aE p' !! k = Some (Some (o_el o)))
        ∧ (∀ k, k < i → aE p' !! k = aE p !! k).
Proof using same_keys.
  pose proof same_order_length as Hlen.
  assert (∀ i p, length news ≤ i → i ≤ length news →
            ∃ p', Some (i, p) = Some (length news, p') ∧ aK p' = aK p
                  ∧ aLog p' ≫= opEvents tag container
                    = (aLog p ≫= opEvents tag container)
                      ++ (zip (drop i olds) (drop i news) ≫= textPatch writes)
                  ∧ (∀ k o, i ≤ k → olds !! k = Some o → aE p' !! k = Some (Some (o_el o)))
                  ∧ (∀ k, k < i → aE p' !! k = aE p !! k)) as Hend.
  { intros i p Hi Hi'. assert (i = length news) as -> by lia. exists p.
    split; [done|]. split; [done|].
    rewrite (drop_ge news) by done. rewrite zip_with_nil_r. cbn. rewrite app_nil_r.
    split; [done|]. split; [|done].
    intros k o Hk Ho. apply lookup_lt_Some in Ho. lia. }
  induction rounds as [|r IH]; intros i p Hfresh Hi Hr; cbn [planSyncStart].
  - rewrite (proj2 (Nat.ltb_ge _ _)) by lia. cbn [andb]. apply Hend; lia.
  - destruct (Nat.ltb_spec i (length olds)) as [Hlt|Hge]; cbn [andb];
      [|apply Hend; lia].
    rewrite (proj2 (Nat.ltb_lt _ _)) by lia.
    destruct (lookup_lt_is_Some_2 olds i Hlt) as [o Ho].
    destruct (lookup_lt_is_Some_2 news i ltac:(lia)) as [n Hn].
    rewrite Ho. cbn [mbind option_bind].
    unfold planNew. rewrite Hn, (Hfresh i) by lia. cbn [mbind option_bind mjoin].
    rewrite bool_decide_eq_true_2 by done. cbn [mbind option_bind].
    rewrite decide_True by (by eapply same_order_key).
    destruct (IH (i + 1) (planPatch writes o i n p)) as (p' & Hp & HK & Hlog & HE & Hkeep);
      [|lia|lia|].
    { intros k Hk. cbn [planPatch aE]. rewrite list_lookup_insert_ne by lia.
      apply Hfresh. lia. }
    exists p'. split; [done|]. split; [done|]. split; [|split].
    + rewrite Hlog. cbn [planPatch aLog]. rewrite bind_app, <- app_assoc. f_equal.
      rewrite (drop_S olds o i Ho), (drop_S news n i Hn). cbn [zip_with].
      rewrite bind_cons. replace (i + 1) with (S i) by lia. f_equal.
      cbn. rewrite app_nil_r. unfold textPatch. cbn. by destruct (writes && _).
    + intros k o' Hk Ho'. destruct (decide (k = i)) as [->|Hne].
      * rewrite Hkeep by lia. cbn [planPatch aE].
        rewrite list_lookup_insert_eq by (apply lookup_lt_is_Some; by rewrite Hfresh by lia).
        congruence.
      * apply HE; [lia|done].
    + intros k Hk. rewrite Hkeep by lia. cbn [planPatch aE].
      by rewrite list_lookup_insert_ne by lia.
Qed.

(** The replay of the diff when the keys are the same in the same
    order: one patch for each pair. *)
Lemma planDiff_same_order tag container p :
  (∀ k, k < length news → aE p !! k = Some None) →
  ∃ p', planDiff olds news None writes dev p = Some p'
        ∧ aK p' = aK p
        ∧ aLog p' ≫= opEvents tag container
          = (aLog p ≫= opEvents tag container) ++ (zip olds news ≫= textPatch writes)
        ∧ ∀ k o, olds !! k = Some o → aE p' !! k = Some (Some (o_el o)).
Proof using same_keys.
  intros Hfresh.
  destruct (planSyncStart_all tag container (length news) 0 p)
    as (p' & Hp & HK & Hlog & HE & _); [intros; apply Hfresh; lia|lia|lia|].
  exists p'. unfold planDiff. rewrite Hp. cbn [mbind option_bind].
  pose proof same_order_length as Hlen.
  assert (planSyncEnd olds news writes (length news) (length news) (length olds)
            (length news) p' = Some (length olds, length news, p')) as ->.
  { generalize (length news) at 1. intros rounds.
    destruct rounds; cbn [planSyncEnd]; by rewrite Hlen, Nat.ltb_irrefl. }
  cbn [mbind option_bind].
  rewrite (proj2 (Nat.leb_le _ _)) by lia. rewrite Nat.ltb_irrefl.
  split; [done|]. split; [done|]. split; [done|].
  intros k o Ho. apply HE; [lia|done].
Qed.

End SameOrder.

Section SameOrderDiff.
Context `{Env}.
Variable tag : string.
Variable container : Handle.
Variable optimized : bool.
Variable fuel : nat.

Hypothesis normalize_unmounted : ∀ r s v,
  vnodes s !! r = Some v → VN.el v = None →
  normalizeVNode r s = Ok r s ∧ cloneIfMounted r s = Ok r s.


End SameOrderDiff.

(** ** What the keyed diff creates and removes *)

Section KeyedCounts.
Variable olds : list OldItem.
Variable news : list NewItem.
Variable writes : bool.
Variable dev : bool.

Hypothesis old_keys : NoDup (o_key <$> olds).
Hypothesis old_els : NoDup (o_el <$> olds).
Hypothesis new_keys : NoDup (n_key <$> news).

(** Counting the entries of a list that satisfy [P] on their
    positions. *)
Lemma filter_length_by_index {A} (P : A → Prop) `{∀ x, Decision (P x)} (l : list A) :
  ∀ I : list nat, NoDup I → (∀ i, i ∈ I ↔ ∃ x, l !! i = Some x ∧ P x) →
  length (filter P l) = length I.
Proof.
  induction l as [|x l IH] using rev_ind; intros I Hnd HI.
  - destruct I as [|i I]; [done|].
    destruct (proj1 (HI i)) as (x & Hx & _); [by left|done].
  - rewrite filter_app, length_app.
    destruct (decide (P x)) as [HP|HP].
    + rewrite filter_cons_True by done. cbn [filter list_filter length].
      assert (length l ∈ I) as Hin.
      { apply HI. exists x. split; [|done]. by rewrite lookup_app_r, Nat.sub_diag. }
      apply elem_of_Permutation in Hin as [k Hk].
      rewrite Hk in Hnd. apply NoDup_cons in Hnd as [Hnk Hndk].
      rewrite Hk. cbn [length]. rewrite (IH k Hndk); [lia|].
      intros i. split.
      * intros Hi. destruct (proj1 (HI i)) as (y & Hy & HPy).
        { rewrite Hk. by right. }
        exists y. split; [|done].
        apply lookup_app_Some in Hy as [Hy|[Hge Hy]]; [done|].
        destruct (i - length l) eqn:E; [|done].
        assert (i = length l) as -> by lia. done.
      * intros (y & Hy & HPy).
        assert (i ∈ I) as Hi.
        { apply HI. exists y. split; [|done]. by apply lookup_app_l_Some. }
        rewrite Hk in Hi. apply elem_of_cons in Hi as [->|Hi]; [|done].
        apply lookup_lt_Some in Hy. lia.
    + rewrite filter_cons_False by done. cbn [filter list_filter length].
      rewrite (IH I Hnd); [lia|].
      intros i. rewrite HI. split.
      * intros (y & Hy & HPy). exists y. split; [|done].
        apply lookup_app_Some in Hy as [Hy|[Hge Hy]]; [done|].
        destruct (i - length l) eqn:E; [|done]. cbn in Hy. congruence.
      * intros (y & Hy & HPy). exists y. split; [|done]. by apply lookup_app_l_Some.
Qed.

(** The new children that the synchronizing loops have resolved have
    the key of an old child, and conversely. *)
Lemma synced_new_in_old s e1 e2 p j n :
  Synced olds news writes s e1 e2 p → news !! j = Some n → j < s ∨ e2 ≤ j →
  n_key n ∈ o_key <$> olds.
Proof.
  intros Hs Hj Hout.
  pose proof (sy_s1 _ _ _ _ _ _ _ Hs). pose proof (sy_s2 _ _ _ _ _ _ _ Hs).
  pose proof (sy_e1 _ _ _ _ _ _ _ Hs). pose proof (sy_e2 _ _ _ _ _ _ _ Hs).
  pose proof (sy_d _ _ _ _ _ _ _ Hs). pose proof (lookup_lt_Some _ _ _ Hj).
  destruct Hout as [Hlt|Hge].
  - destruct (lookup_lt_is_Some_2 olds j ltac:(lia)) as [o Ho].
    rewrite <- (sy_kpre _ _ _ _ _ _ _ Hs j o n Hlt Ho Hj).
    apply list_elem_of_fmap. exists o. split; [done|]. by eapply list_elem_of_lookup_2.
  - destruct (lookup_lt_is_Some_2 olds (j + e1 - e2) ltac:(lia)) as [o Ho].
    assert (news !! (j + e1 - e2 + e2 - e1) = Some n) as Hj'
      by (by replace (j + e1 - e2 + e2 - e1) with j by lia).
    rewrite <- (sy_ksuf _ _ _ _ _ _ _ Hs (j + e1 - e2) o n ltac:(lia) Ho Hj').
    apply list_elem_of_fmap. exists o. split; [done|]. by eapply list_elem_of_lookup_2.
Qed.

Lemma synced_old_in_new s e1 e2 p k o :
  Synced olds news writes s e1 e2 p → olds !! k = Some o → k < s ∨ e1 ≤ k →
  o_key o ∈ n_key <$> news.
Proof.
  intros Hs Hk Hout.
  pose proof (sy_s1 _ _ _ _ _ _ _ Hs). pose proof (sy_s2 _ _ _ _ _ _ _ Hs).
  pose proof (sy_e1 _ _ _ _ _ _ _ Hs). pose proof (sy_e2 _ _ _ _ _ _ _ Hs).
  pose proof (sy_d _ _ _ _ _ _ _ Hs). pose proof (lookup_lt_Some _ _ _ Hk).
  destruct Hout as [Hlt|Hge].
  - destruct (lookup_lt_is_Some_2 news k ltac:(lia)) as [n Hn].
    rewrite (sy_kpre _ _ _ _ _ _ _ Hs k o n Hlt Hk Hn).
    apply list_elem_of_fmap. exists n. split; [done|]. by eapply list_elem_of_lookup_2.
  - destruct (lookup_lt_is_Some_2 news (k + e2 - e1) ltac:(lia)) as [n Hn].
    rewrite (sy_ksuf _ _ _ _ _ _ _ Hs k o n Hge Hk Hn).
    apply list_elem_of_fmap. exists n. split; [done|]. by eapply list_elem_of_lookup_2.
Qed.

(** An old child and a new child with one key are both resolved by the
    synchronizing loops, or both left to the rest of the diff. *)
Lemma synced_same_side s e1 e2 p k o j n :
  Synced olds news writes s e1 e2 p →
  olds !! k = Some o → news !! j = Some n → o_key o = n_key n →
  s ≤ j < e2 ↔ s ≤ k < e1.
Proof using old_keys new_keys.
  intros Hs Hk Hj Hkey.
  pose proof (sy_s1 _ _ _ _ _ _ _ Hs). pose proof (sy_s2 _ _ _ _ _ _ _ Hs).
  pose proof (sy_e1 _ _ _ _ _ _ _ Hs). pose proof (sy_e2 _ _ _ _ _ _ _ Hs).
  pose proof (sy_d _ _ _ _ _ _ _ Hs).
  pose proof (lookup_lt_Some _ _ _ Hk). pose proof (lookup_lt_Some _ _ _ Hj).
  assert (k < s → j = k) as Hpre.
  { intros Hlt. destruct (lookup_lt_is_Some_2 news k ltac:(lia)) as [n' Hn'].
    pose proof (sy_kpre _ _ _ _ _ _ _ Hs k o n' Hlt Hk Hn') as E.
    eapply (new_key_unique news new_keys); [done..|congruence]. }
  assert (e1 ≤ k → j = k + e2 - e1) as Hsuf.
  { intros Hle. destruct (lookup_lt_is_Some_2 news (k + e2 - e1) ltac:(lia)) as [n' Hn'].
    pose proof (sy_ksuf _ _ _ _ _ _ _ Hs k o n' Hle Hk Hn') as E.
    eapply (new_key_unique news new_keys); [done..|congruence]. }
  assert (j < s → k = j) as Hpre'.
  { intros Hlt. destruct (lookup_lt_is_Some_2 olds j ltac:(lia)) as [o' Ho'].
    pose proof (sy_kpre _ _ _ _ _ _ _ Hs j o' n Hlt Ho' Hj) as E.
    eapply (old_key_inj olds old_keys); [done..|congruence]. }
  assert (e2 ≤ j → k = j + e1 - e2) as Hsuf'.
  { intros Hle. destruct (lookup_lt_is_Some_2 olds (j + e1 - e2) ltac:(lia)) as [o' Ho'].
    assert (news !! (j + e1 - e2 + e2 - e1) = Some n) as Hj'
      by (by replace (j + e1 - e2 + e2 - e1) with j by lia).
    pose proof (sy_ksuf _ _ _ _ _ _ _ Hs (j + e1 - e2) o' n ltac:(lia) Ho' Hj') as E.
    eapply (old_key_inj olds old_keys); [done..|congruence]. }
  split; intros Hin.
  - destruct (decide (k < s)) as [Hlt|?]; [specialize (Hpre Hlt); lia|].
    destruct (decide (e1 ≤ k)) as [Hle|?]; [specialize (Hsuf Hle); lia|]. lia.
  - destruct (decide (j < s)) as [Hlt|?]; [specialize (Hpre' Hlt); lia|].
    destruct (decide (e2 ≤ j)) as [Hle|?]; [specialize (Hsuf' Hle); lia|]. lia.
Qed.

Lemma mountLoop_counts anchor l : ∀ q p',
  foldl (λ acc j, p ← acc; n ← planNew news j p; Some (planMount j n anchor p))
    (Some q) l = Some p' →
  countOps isMount (aLog p') = countOps isMount (aLog q) + length l
  ∧ countOps isUnmount (aLog p') = countOps isUnmount (aLog q).
Proof.
  induction l as [|i l IH]; intros q p' Hf; cbn [foldl] in Hf.
  - injection Hf as <-. cbn. lia.
  - cbn [mbind option_bind] in Hf.
    destruct (planNew news i q) as [n|]; cbn [mbind option_bind] in Hf;
      [|by rewrite foldl_None in Hf].
    destruct (IH _ _ Hf) as [-> ->]. cbn [planMount aLog].
    rewrite !countOps_snoc. cbn. lia.
Qed.

Lemma unmountLoop_counts l : ∀ q p',
  foldl (λ acc j, p ← acc; o ← olds !! j; Some (planUnmount o p)) (Some q) l = Some p' →
  countOps isMount (aLog p') = countOps isMount (aLog q)
  ∧ countOps isUnmount (aLog p') = countOps isUnmount (aLog q) + length l.
Proof.
  induction l as [|i l IH]; intros q p' Hf; cbn [foldl] in Hf.
  - injection Hf as <-. cbn. lia.
  - cbn [mbind option_bind] in Hf.
    destruct (olds !! i) as [o|]; cbn [mbind option_bind] in Hf;
      [|by rewrite foldl_None in Hf].
    destruct (IH _ _ Hf) as [-> ->]. cbn [planUnmount aLog].
    rewrite !countOps_snoc. cbn. lia.
Qed.

(** The entries of [newIndexToOldIndexMap] that are set are pairwise
    distinct. *)
Lemma NoDup_nonzero (l : list nat) :
  (∀ x y, rd l x = rd l y → rd l x ≠ 0 → x = y) → NoDup (filter (λ v, v ≠ 0) l).
Proof.
  induction l as [|v l IH]; intros Hinj; [constructor|].
  assert (NoDup (filter (λ v, v ≠ 0) l)) as Hnd.
  { apply IH. intros x y E Hx. specialize (Hinj (S x) (S y) E Hx). lia. }
  destruct (decide (v ≠ 0)) as [Hv|Hv].
  - rewrite filter_cons_True by done. constructor; [|done].
    intros [_ [j Hj]%list_elem_of_lookup]%list_elem_of_filter.
    assert (0 = S j); [|lia]. apply Hinj; [|done]. unfold rd.
    change ((v :: l) !! S j) with (l !! j). by rewrite Hj.
  - by rewrite filter_cons_False.
Qed.

(** The kinds of operations of the replay of the diff: it mounts the
    new children whose key no old child has and unmounts the old
    children whose key no new child has. *)
Lemma planDiff_counts p :
  Initial olds news p →
  ∃ p', planDiff olds news None writes dev p = Some p'
        ∧ countOps isMount (aLog p')
          = countOps isMount (aLog p)
            + length (filter (λ n, n_key n ∉ o_key <$> olds) news)
        ∧ countOps isUnmount (aLog p')
          = countOps isUnmount (aLog p)
            + length (filter (λ o, o_key o ∉ n_key <$> news) olds).
Proof using old_keys old_els new_keys.
  intros Hinit.
  destruct (planDiff_run olds news writes dev old_keys old_els p Hinit)
    as (s & p1 & e1 & e2 & p2 & p' & E1 & E2 & Hs & Hsame & Hd & _ & _ & Hnone & Hfive).
  exists p'. split; [done|].
  pose proof (sy_s1 _ _ _ _ _ _ _ Hs) as Hs1. pose proof (sy_s2 _ _ _ _ _ _ _ Hs) as Hs2.
  pose proof (sy_e1 _ _ _ _ _ _ _ Hs) as He1. pose proof (sy_e2 _ _ _ _ _ _ _ Hs) as He2.
  pose proof (sy_d _ _ _ _ _ _ _ Hs) as Hdd.
  assert (Hinj : ∀ a, Inj (=) (=) (λ x : nat, a + x)) by (intros a x y ?; lia).
  (* the new children without an old key and the old ones without a new
     key are in the range the loops leave *)
  assert (Hnew : ∀ I, NoDup I →
            (∀ j, j ∈ I ↔ s ≤ j < e2 ∧
                  ∀ k o n, olds !! k = Some o → news !! j = Some n →
                           s ≤ k < e1 → o_key o ≠ n_key n) →
            length (filter (λ n, n_key n ∉ o_key <$> olds) news) = length I).
  { intros I Hnd HI. apply filter_length_by_index; [done|]. intros j. rewrite HI.
    split.
    - intros [Hj Hno]. destruct (lookup_lt_is_Some_2 news j ltac:(lia)) as [n Hn].
      exists n. split; [done|].
      intros (o & Hkey & [k Hk]%list_elem_of_lookup)%list_elem_of_fmap.
      apply (Hno k o n Hk Hn); [|done].
      by apply (synced_same_side s e1 e2 p2 k o j n Hs Hk Hn).
    - intros (n & Hn & Hnot).
      assert (s ≤ j < e2) as Hj.
      { destruct (decide (j < s)) as [Hlt|?].
        { destruct Hnot. eapply synced_new_in_old; [done..|by left]. }
        destruct (decide (e2 ≤ j)) as [Hle|?]; [|lia].
        destruct Hnot. eapply synced_new_in_old; [done..|by right]. }
      split; [done|]. intros k o n' Hk Hn' _ Hkey.
      assert (n' = n) as -> by congruence.
      apply Hnot. rewrite <- Hkey. apply list_elem_of_fmap. exists o.
      split; [done|]. by eapply list_elem_of_lookup_2. }
  assert (Hold : ∀ I, NoDup I →
            (∀ k, k ∈ I ↔ s ≤ k < e1 ∧
                  ∀ j o n, olds !! k = Some o → news !! j = Some n →
                           s ≤ j < e2 → o_key o ≠ n_key n) →
            length (filter (λ o, o_key o ∉ n_key <$> news) olds) = length I).
  { intros I Hnd HI. apply filter_length_by_index; [done|]. intros k. rewrite HI.
    split.
    - intros [Hk Hno]. destruct (lookup_lt_is_Some_2 olds k ltac:(lia)) as [o Ho].
      exists o. split; [done|].
      intros (n & Hkey & [j Hj]%list_elem_of_lookup)%list_elem_of_fmap.
      apply (Hno j o n Ho Hj); [|done].
      by apply (synced_same_side s e1 e2 p2 k o j n Hs Ho Hj).
    - intros (o & Ho & Hnot).
      assert (s ≤ k < e1) as Hk.
      { destruct (decide (k < s)) as [Hlt|?].
        { destruct Hnot. eapply synced_old_in_new; [done..|by left]. }
        destruct (decide (e1 ≤ k)) as [Hle|?]; [|lia].
        destruct Hnot. eapply synced_old_in_new; [done..|by right]. }
      split; [done|]. intros j o' n Ho' Hn _ Hkey.
      assert (o' = o) as -> by congruence.
      apply Hnot. rewrite Hkey. apply list_elem_of_fmap. exists n.
      split; [done|]. by eapply list_elem_of_lookup_2. }
  unfold planDiff in Hd. rewrite E1 in Hd. cbn [mbind option_bind] in Hd.
  rewrite E2 in Hd. cbn [mbind option_bind] in Hd.
  destruct (Nat.leb_spec e1 s) as [H1|H1].
  { assert (e1 = s) as -> by lia.
    rewrite (Hold []); [|constructor|]; cycle 1.
    { intros k. split; [by intros ?%elem_of_nil|]. intros [? _]. lia. }
    destruct (Nat.ltb_spec s e2) as [H2|H2].
    - destruct (mountLoop_counts _ _ _ _ Hd) as [-> ->].
      rewrite !Hsame by done. rewrite (Hnew (seq s (e2 - s))), length_seq; [done| |].
      { apply NoDup_seq. }
      intros j. rewrite elem_of_seq. split; [|intros [? _]; lia].
      intros Hj. split; [lia|]. intros; lia.
    - injection Hd as <-. rewrite !Hsame by done.
      rewrite (Hnew []); [done|constructor|].
      intros j. split; [by intros ?%elem_of_nil|]. intros [? _]. lia. }
  destruct (Nat.leb_spec e2 s) as [H2|H2].
  { assert (e2 = s) as -> by lia.
    destruct (unmountLoop_counts _ _ _ Hd) as [-> ->].
    rewrite !Hsame by done.
    rewrite (Hnew []); [|constructor|]; cycle 1.
    { intros j. split; [by intros ?%elem_of_nil|]. intros [? _]. lia. }
    rewrite (Hold (seq s (e1 - s))), length_seq; [done| |].
    { apply NoDup_seq. }
    intros k. rewrite elem_of_seq. split; [|intros [? _]; lia].
    intros Hk. split; [lia|]. intros; lia. }
  destruct (Hfive H1 H2) as (km & ws & st & p4 & jx & KJ & Hbm & Hkm & Hfold & Hmt & Hpl).
  set (map := newIndexToOldIndexMap st) in *.
  pose proof (pl_mounts _ _ _ _ _ _ _ _ _ _ _ _ Hpl) as Hmo.
  pose proof (pl_ops _ _ _ _ _ _ _ _ _ _ _ _ Hpl isUnmount) as Hun.
  pose proof (mt_ops _ _ _ _ _ _ _ _ _ _ Hmt isMount) as Hmo4.
  pose proof (mt_unm _ _ _ _ _ _ _ _ _ _ Hmt) as Hu.
  rewrite (mt_patched _ _ _ _ _ _ _ _ _ _ Hmt) in Hu. fold map in Hu, Hmo.
  rewrite countOps_withLog in Hmo4, Hu by done.
  rewrite (Hsame isMount) in Hmo4 by done. rewrite (Hsame isUnmount) in Hu by done.
  rewrite Nat.sub_0_r in Hmo.
  (* what the entries of the map say about the keys *)
  assert (Hfull : ∀ k o j n, s ≤ k < e1 → olds !! k = Some o → s ≤ j < e2 →
                    news !! j = Some n → o_key o = n_key n → rd map (j - s) = k + 1).
  { intros k o j n Hk Ho Hj Hn Hkey.
    by apply (mt_full _ _ _ _ _ _ _ _ _ _ Hmt new_keys k o j n). }
  assert (Hmatch : ∀ x, rd map x ≠ 0 →
            x < e2 - s ∧ s < rd map x ≤ e1 ∧
            ∃ o n, olds !! (rd map x - 1) = Some o ∧ news !! (s + x) = Some n ∧
                   o_key o = n_key n).
  { intros x Hx.
    destruct (mt_match _ _ _ _ _ _ _ _ _ _ Hmt x Hx)
      as (? & ? & ? & o & n & ? & ? & ? & _).
    split; [done|]. split; [done|]. by exists o, n. }
  split.
  - rewrite Hmo, Hmo4 by done. f_equal.
    rewrite (Hnew ((λ x, s + x) <$> filter (λ x, rd map x = 0) (seq 0 (e2 - s)))).
    + by rewrite length_fmap.
    + apply NoDup_fmap_2; [apply _|]. apply NoDup_filter, NoDup_seq.
    + intros j. rewrite list_elem_of_fmap. split.
      * intros (x & -> & [Hz Hx%elem_of_seq]%list_elem_of_filter).
        split; [lia|]. intros k o n Hk Hn Hkr Hkey.
        pose proof (Hfull k o (s + x) n Hkr Hk ltac:(lia) Hn Hkey) as E.
        replace (s + x - s) with x in E by lia. lia.
      * intros [Hj Hno]. exists (j - s). split; [lia|].
        apply list_elem_of_filter. split; [|apply elem_of_seq; lia].
        destruct (decide (rd map (j - s) = 0)) as [|Hnz]; [done|].
        destruct (Hmatch _ Hnz) as (_ & Hr & o & n & Ho & Hn & Hkey).
        replace (s + (j - s)) with j in Hn by lia.
        destruct (Hno _ o n Ho Hn ltac:(lia) Hkey).
  - rewrite Hun by done.
    rewrite (Hold (filter (λ k, k + 1 ∉ map) (seq s (e1 - s)))).
    + pose proof (filter_app_complement (λ k, k + 1 ∈ map) (seq s (e1 - s))) as Hc.
      apply Permutation_length in Hc. rewrite length_app, length_seq in Hc.
      assert (length (filter (λ k, k + 1 ∈ map) (seq s (e1 - s))) = nz map) as Hnz.
      { unfold nz. rewrite <- (length_fmap (λ k, k + 1)). apply Permutation_length.
        apply NoDup_Permutation.
        - apply NoDup_fmap_2; [intros x y ?; lia|]. apply NoDup_filter, NoDup_seq.
        - apply NoDup_nonzero. apply Hmt.
        - intros v. rewrite list_elem_of_fmap, list_elem_of_filter. split.
          + intros (k & -> & [Hin _]%list_elem_of_filter). split; [lia|done].
          + intros [Hv Hin]. apply elem_of_rd in Hin as [x Hx]; [|done].
            destruct (Hmatch x ltac:(lia)) as (_ & Hr & _).
            exists (v - 1). split; [lia|]. apply list_elem_of_filter.
            split; [|apply elem_of_seq; lia].
            replace (v - 1 + 1) with v by lia. apply elem_of_rd; [done|]. by exists x. }
      lia.
    + apply NoDup_filter, NoDup_seq.
    + intros k. rewrite list_elem_of_filter, elem_of_seq. split.
      * intros [Hnot Hk]. split; [lia|]. intros j o n Ho Hn Hj Hkey.
        apply Hnot. apply elem_of_rd; [lia|]. exists (j - s).
        apply (Hfull k o j n); (done || lia).
      * intros [Hk Hno]. split; [|lia]. intros Hin.
        apply elem_of_rd in Hin as [x Hx]; [|lia].
        destruct (Hmatch x ltac:(lia)) as (Hxlt & Hr & o & n & Ho & Hn & Hkey).
        rewrite Hx in Ho. replace (k + 1 - 1) with k in Ho by lia.
        destruct (Hno (s + x) o n Ho Hn ltac:(lia) Hkey).
Qed.

End KeyedCounts.

Section KeyedDiffCounts.
Context `{Env}.
Variable tag : string.
Variable container : Handle.
Variable optimized : bool.
Variable fuel : nat.

Hypothesis normalize_unmounted : ∀ r s v,
  vnodes s !! r = Some v → VN.el v = None →
  normalizeVNode r s = Ok r s ∧ cloneIfMounted r s = Ok r s.


(** The keyed diff of a mounted list against a fresh one, when the
    patches write text children: the container ends with one child for
    each new child, in the order of the new list, pairwise distinct and
    showing the texts of the new children; every new vnode has the host
    element at its position, and no other vnode has changed.  The keys
    of the old list are pairwise distinct. *)
Theorem keyed_diff_shows_new_list s olds news :
  NoDup ((o_ref <$> olds) ++ (n_ref <$> news)) →
  NoDup (o_key <$> olds) →
  MountedItems tag container s olds → FreshItems tag s news →
  writesText optimized = true →
  ∃ s' hs,
    patchKeyedChildren (S fuel) (patch (S fuel)) (o_ref <$> olds) (n_ref <$> news)
      container None optimized s = Ok (n_ref <$> news) s'
    ∧ kidsOf (host s') container = hs
    ∧ NoDup hs
    ∧ textOf (host s') <$> hs = n_text <$> news
    ∧ (∀ j n, news !! j = Some n →
         ∃ h, hs !! j = Some h
              ∧ vnodes s' !! n_ref n = Some (item tag (n_key n) (n_text n) (Some h)))
    ∧ ∀ r, r ∉ n_ref <$> news → vnodes s' !! r = vnodes s !! r.
Proof using normalize_unmounted.
  intros Hrefs Hkeys Hm Hf Hw.
  destruct (keyed_diff_mounted tag container optimized fuel normalize_unmounted
              s olds news Hrefs Hkeys Hm Hf) as (s' & hs & Hrun & Hlen & Hm' & Hframe);
    [by left|].
  assert (Hels : o_el <$> zip_with asOld news hs = hs).
  { apply fmap_zip_with_r; [done|lia]. }
  exists s', hs. split; [done|].
  split; [by rewrite (mi_kids _ _ _ _ Hm')|].
  split; [rewrite <- Hels; apply Hm'|].
  split.
  { pose proof (mounted_texts tag container s' _ Hm') as Ht.
    by rewrite (mi_kids _ _ _ _ Hm'), Hels, asOld_texts in Ht by lia. }
  split; [|done].
  intros j n Hn.
  destruct (lookup_lt_is_Some_2 hs j) as [h Hh].
  { rewrite Hlen. by eapply lookup_lt_Some. }
  exists h. split; [done|].
  assert (zip_with asOld news hs !! j = Some (asOld n h)) as Hz.
  { apply lookup_zip_with_Some. by exists n, h. }
  apply (mi_vnodes _ _ _ _ Hm' j _ Hz).
Qed.

End KeyedDiffCounts.

(** ** Lists of leaves: mounting and unmounting the children of a vnode *)

Section ChildLoops.

Lemma insertBefore_seq (post : list Handle) : ∀ k L pre,
  (∀ a, head post = Some a → a ∉ pre) →
  Forall (λ h, h < L) (pre ++ post) →
  foldl (λ K h, insertBefore (head post) h K) (pre ++ post) (seq L k)
  = pre ++ seq L k ++ post.
Proof.
  induction k as [|k IH]; intros L pre Ha Hlt; cbn [seq foldl]; [done|].
  assert (insertBefore (head post) L (pre ++ post) = (pre ++ [L]) ++ post) as ->.
  { destruct post as [|a post']; cbn [head insertBefore].
    - by rewrite !app_nil_r.
    - rewrite insertAt_app by (by apply Ha). by rewrite <- app_assoc. }
  rewrite IH.
  - by rewrite <- app_assoc.
  - intros a Hp [Hin|Hin%list_elem_of_singleton]%elem_of_app; [by apply (Ha a)|].
    subst a. rewrite Forall_forall in Hlt.
    assert (L < L); [|lia]. apply Hlt. apply elem_of_app. right.
    destruct post; [done|]. injection Hp as ->. by left.
  - rewrite <- app_assoc. apply Forall_app. apply Forall_app in Hlt as [H1 H2].
    split; [|apply Forall_app; split].
    + eapply Forall_impl; [exact H1|]. cbn. lia.
    + constructor; [lia|done].
    + eapply Forall_impl; [exact H2|]. cbn. lia.
Qed.

Lemma foldl_without (els : list Handle) : ∀ K,
  foldl (λ K el, without el K) K els = filter (λ h, h ∉ els) K.
Proof.
  induction els as [|el els IH]; intros K; cbn [foldl].
  - symmetry. apply filter_all. intros h _. by intros ?%elem_of_nil.
  - rewrite IH. unfold without. rewrite list_filter_filter.
    apply list_filter_iff. intros h. rewrite not_elem_of_cons. tauto.
Qed.

Lemma filter_segment (pre els post : list Handle) :
  NoDup (pre ++ els ++ post) →
  filter (λ h, h ∉ els) (pre ++ els ++ post) = pre ++ post.
Proof.
  intros Hnd. apply NoDup_app in Hnd as (_ & Hpre & Hnd).
  apply NoDup_app in Hnd as (_ & Hpost & _).
  rewrite !filter_app. rewrite (filter_all _ pre), (filter_none _ els), (filter_all _ post).
  - done.
  - intros h Hh Hin. by apply (Hpost h).
  - intros h Hh Hno. by apply Hno.
  - intros h Hh Hin. apply (Hpre h Hh). apply elem_of_app. by left.
Qed.

Lemma kidsOf_detach_all (els : list Handle) : ∀ h c,
  kidsOf (foldl host_detach h els) c = filter (λ x, x ∉ els) (kidsOf h c).
Proof.
  intros h c. rewrite <- foldl_without. revert h.
  induction els as [|el els IH]; intros h; cbn [foldl]; [done|].
  by rewrite IH, kidsOf_detach.
Qed.

Lemma length_detach_all (els : list Handle) : ∀ h,
  length (foldl host_detach h els) = length h.
Proof.
  induction els as [|el els IH]; intros h; cbn [foldl]; [done|].
  by rewrite IH, length_detach.
Qed.

End ChildLoops.

Lemma bind_assoc {A B C} (m : M A) (f : A → M B) (g : B → M C) s :
  bind (bind m f) g s = bind m (λ x, bind (f x) g) s.
Proof. unfold bind. by destruct (m s). Qed.

Section HostParents.

Lemma parentOf_detach h el x :
  parentOf (host_detach h el) x = if decide (x = el) then None else parentOf h x.
Proof.
  unfold parentOf, host_detach. destruct (decide (x = el)) as [->|Hne].
  - rewrite list_lookup_alter_eq, list_lookup_fmap. by destruct (h !! el).
  - rewrite list_lookup_alter_ne, list_lookup_fmap by done. by destruct (h !! x).
Qed.

Lemma parentOf_insert h el p a x :
  el < length h →
  parentOf (host_insert h el p a) x = if decide (x = el) then Some p else parentOf h x.
Proof.
  intros Hel. unfold host_insert.
  destruct (decide (x = el)) as [->|Hne].
  - unfold parentOf. rewrite list_lookup_alter_eq.
    destruct (alter _ p (host_detach h el) !! el) eqn:E; [done|].
    apply lookup_ge_None in E. rewrite length_alter, length_detach in E. lia.
  - unfold parentOf at 1. rewrite list_lookup_alter_ne by done.
    transitivity (parentOf (host_detach h el) x).
    + unfold parentOf. destruct (decide (x = p)) as [->|Hp].
      * rewrite list_lookup_alter_eq. by destruct (host_detach h el !! p).
      * by rewrite list_lookup_alter_ne.
    + rewrite parentOf_detach. by rewrite decide_False.
Qed.

Lemma parentOf_app h n x : hparent n = None → parentOf (h ++ [n]) x = parentOf h x.
Proof.
  intros Hn. unfold parentOf. destruct (decide (x < length h)) as [Hlt|Hge].
  - by rewrite lookup_app_l.
  - rewrite (lookup_ge_None_2 h) by lia. rewrite lookup_app_r by lia.
    destruct (x - length h); cbn; [done|]. done.
Qed.

End HostParents.

Section LeafLists.
Context `{Env}.

Hypothesis normalize_unmounted : ∀ r s v,
  vnodes s !! r = Some v → VN.el v = None →
  normalizeVNode r s = Ok r s ∧ cloneIfMounted r s = Ok r s.

Lemma normalizeAt_unmounted optimized cs i r s v :
  cs !! i = Some r → vnodes s !! r = Some v → VN.el v = None →
  normalizeAt optimized cs i s = Ok (r, cs) s.
Proof using normalize_unmounted.
  intros Hi Hr Hel. unfold normalizeAt. rewrite Hi. cbn [nonNull]. rewrite bind_ret.
  destruct (normalize_unmounted r s v Hr Hel) as [Hn Hc].
  rewrite (bind_ok _ _ s r s) by (by destruct optimized).
  cbn [ret]. by rewrite list_insert_id.
Qed.

Lemma nodesAt_cons s r rs v vs :
  NodesAt s (r :: rs) (v :: vs) ↔ vnodes s !! r = Some v ∧ NodesAt s rs vs.
Proof. unfold NodesAt. by rewrite Forall2_cons. Qed.

Lemma nodesAt_frame s s' rs vs :
  (∀ r, r ∈ rs → vnodes s' !! r = vnodes s !! r) → NodesAt s rs vs → NodesAt s' rs vs.
Proof.
  intros Hf Hn. induction Hn as [|r v rs vs Hr Hn IH]; constructor.
  - rewrite Hf; [done|by left].
  - apply IH. intros r' Hr'. apply Hf. by right.
Qed.

(** The loop of [mountChildren] on leaves that are not mounted yet. *)
Lemma mountLoop_leaves fuel container anchor optimized : ∀ rs vs done s,
  NodesAt s rs vs → Forall Leaf vs → Forall (λ v, VN.el v = None) vs → NoDup rs →
  container < length (host s) →
  Forall (λ h, h < length (host s)) (kidsOf (host s) container) →
  ∃ s',
    foldM (λ children i,
        '(child, children) <- normalizeAt optimized children i;;
        patch (S fuel) None child container anchor (Some optimized);;
        ret children)
      (done ++ rs) (seq (length done) (length rs)) s = Ok (done ++ rs) s'
    ∧ NodesAt s' rs (mountedFrom (length (host s)) vs)
    ∧ (∀ r, r ∉ rs → vnodes s' !! r = vnodes s !! r)
    ∧ length (host s') = length (host s) + length rs
    ∧ kidsOf (host s') container
      = foldl (λ K h, insertBefore anchor h K) (kidsOf (host s) container)
          (seq (length (host s)) (length rs))
    ∧ (∀ x, parentOf (host s') x
            = if decide (length (host s) ≤ x < length (host s) + length rs)
              then Some container else parentOf (host s) x)
    ∧ trace s' = trace s ++ leavesMountEvents (zip rs vs) (length (host s)) container anchor.
Proof using normalize_unmounted.
  induction rs as [|r rs IH]; intros vs done s Hn Hl Hel Hnd Hc Hk.
  { apply Forall2_nil_inv_l in Hn as ->. exists s. cbn [length seq foldM foldl zip zip_with
      leavesMountEvents mountedFrom]. rewrite !app_nil_r, Nat.add_0_r.
    split; [done|]. split; [constructor|]. split; [done|]. split; [done|].
    split; [done|]. split; [|done]. intros x. rewrite decide_False by lia. done. }
  destruct vs as [|v vs]; [by apply Forall2_cons_nil_inv in Hn|].
  apply nodesAt_cons in Hn as [Hr Hn].
  apply Forall_cons in Hl as [Hlv Hl]. apply Forall_cons in Hel as [Helv Hel].
  apply NoDup_cons in Hnd as [Hrn Hnd].
  set (L := length (host s)) in *.
  cbn [length seq foldM].
  pose proof (mount_leaf_run fuel r container anchor (Some optimized) s v Hr Hlv) as Hm.
  cbv zeta in Hm. fold L in Hm.
  set (s1 := mkState _ _ _) in Hm.
  assert (bind (normalizeAt optimized (done ++ r :: rs) (length done))
            (λ x, let (child, children) := x in
                  bind (patch (S fuel) None child container anchor (Some optimized))
                    (λ _, ret children)) s
          = Ok (done ++ r :: rs) s1) as Hstep.
  { rewrite (bind_ok _ _ s (r, done ++ r :: rs) s).
    2:{ eapply normalizeAt_unmounted; [|done..]. by rewrite list_lookup_middle. }
    by rewrite (bind_ok _ _ s tt s1) by exact Hm. }
  rewrite (bind_ok _ _ s _ s1 Hstep).
  assert (length (host s1) = S L) as HL1.
  { subst s1. cbn [host]. rewrite length_host_insert, length_app. cbn. lia. }
  assert (L ∉ kidsOf (host s) container) as Hfresh.
  { intros Hin. rewrite Forall_forall in Hk. specialize (Hk _ Hin). lia. }
  assert (kidsOf (host s1) container = insertBefore anchor L (kidsOf (host s) container))
    as Hk1.
  { subst s1. cbn [host]. rewrite kidsOf_insert by (rewrite length_app; lia).
    rewrite kidsOf_app by done. by rewrite without_notin. }
  destruct (IH vs (done ++ [r]) s1) as (s' & Hrun & Hn' & Hfr & Hlen & Hkids & Hpar & Htr).
  - eapply nodesAt_frame; [|exact Hn]. intros r' Hr'. subst s1. cbn [vnodes].
    apply list_lookup_insert_ne. by intros ->.
  - done.
  - done.
  - done.
  - lia.
  - rewrite Hk1, HL1. apply Forall_forall. intros h [->|Hh]%elem_of_insertBefore; [lia|].
    rewrite Forall_forall in Hk. specialize (Hk _ Hh). lia.
  - exists s'. rewrite length_app in Hrun. cbn [length] in Hrun.
    rewrite Nat.add_1_r, <- app_assoc in Hrun. cbn [app] in Hrun.
    split; [exact Hrun|]. rewrite HL1 in *. cbn [mountedFrom zip zip_with leavesMountEvents fst snd].
    split; [|split; [|split; [|split; [|split]]]].
    + apply nodesAt_cons. split; [|done].
      rewrite Hfr by done. subst s1. cbn [vnodes].
      apply list_lookup_insert_eq. by eapply lookup_lt_Some.
    + intros r' Hr'. apply not_elem_of_cons in Hr' as [Hne Hr'].
      rewrite (Hfr _ Hr'). subst s1. cbn [vnodes]. by apply list_lookup_insert_ne.
    + lia.
    + by rewrite Hkids, Hk1.
    + intros x. rewrite Hpar. subst s1. cbn [host].
      rewrite parentOf_insert by (rewrite length_app; cbn; lia).
      rewrite parentOf_app by (unfold leafHost; by repeat case_match).
      repeat case_decide; (done || lia).
    + rewrite Htr. subst s1. cbn [trace]. by rewrite <- app_assoc.
Qed.

(** [unmount] without removal on a leaf: the host is left alone. *)
Lemma unmount_leaf_keep fuel n optimized s v :
  vnodes s !! n = Some v → Leaf v →
  ∃ es, unmount (S fuel) n false optimized s
        = Ok tt (mkState (vnodes s) (host s) (trace s ++ es))
        ∧ hostOps es = [].
Proof.
  intros Hn Hl. cbn [unmount].
  rewrite (bind_ok _ _ _ _ _ (getVNode_ok _ _ _ Hn)).
  rewrite (leaf_keepAlive _ Hl), (leaf_component _ Hl), (leaf_suspense _ Hl),
    (leaf_teleport _ Hl), (leaf_block _ Hl), (leaf_children _ Hl).
  rewrite (bool_decide_eq_false_2 (None ≠ None)) by (by intros ?).
  assert (bool_decide (VN.type v = Fragment) = false) as HF.
  { apply bool_decide_eq_false_2.
    destruct (leaf_type _ Hl) as [Ht|[Ht|[[t Ht] _]]]; by rewrite Ht. }
  rewrite HF. cbn [andb orb negb]. rewrite andb_false_r. cbn [when].
  unfold invokeVNodeHook, invokeDirectiveHook, queuePostRenderEffect.
  eexists. split.
  - apply (acts_ok _ id). apply acts_emits.
    eapply emits_bind; [apply emits_when, emits_emit|].
    eapply emits_bind; [apply emits_when, emits_emit|].
    eapply emits_bind; [|apply emits_when, emits_emit].
    eapply emits_bind; [apply emits_when, emits_emit|].
    eapply emits_bind; apply emits_ret.
  - rewrite !hostOps_app.
    rewrite (hostOps_nil_if _ (SetRef n)) by done.
    rewrite (hostOps_nil_if _ (InvokeVNodeHook "onVnodeBeforeUnmount" n)) by done.
    rewrite (hostOps_nil_if _ (InvokeDirectiveHook "beforeUnmount" n)) by done.
    rewrite (hostOps_nil_if _ (QueuePostRenderEffect "unmounted" n)) by done.
    done.
Qed.

Lemma unmountLoop_keep fuel optimized : ∀ rs vs s,
  NodesAt s rs vs → Forall Leaf vs →
  ∃ es, forM rs (λ c, unmount (S fuel) c false optimized) s
        = Ok tt (mkState (vnodes s) (host s) (trace s ++ es))
        ∧ hostOps es = [].
Proof.
  induction rs as [|r rs IH]; intros vs s Hn Hl.
  { exists []. cbn [forM ret]. rewrite app_nil_r. by destruct s. }
  destruct vs as [|v vs]; [by apply Forall2_cons_nil_inv in Hn|].
  apply nodesAt_cons in Hn as [Hr Hn]. apply Forall_cons in Hl as [Hlv Hl].
  destruct (unmount_leaf_keep fuel r optimized s v Hr Hlv) as (es1 & Hu & He1).
  destruct (IH vs (mkState (vnodes s) (host s) (trace s ++ es1)) Hn Hl)
    as (es2 & Hrest & He2). cbn [vnodes host trace] in Hrest.
  exists (es1 ++ es2). cbn [forM]. rewrite (bind_ok _ _ _ _ _ Hu), Hrest.
  split; [by rewrite app_assoc|]. by rewrite hostOps_app, He1, He2.
Qed.

Lemma unmountLoop_leaves fuel optimized : ∀ rs vs els s,
  NodesAt s rs vs → Forall Leaf vs → Forall2 (λ v el, VN.el v = Some el) vs els →
  forM rs (λ c, unmount (S fuel) c true optimized) s
  = Ok tt (mkState (vnodes s) (foldl host_detach (host s) els)
             (trace s ++ leavesUnmountEvents (zip rs vs))).
Proof.
  induction rs as [|r rs IH]; intros vs els s Hn Hl Hel.
  { apply Forall2_nil_inv_l in Hn as ->. apply Forall2_nil_inv_l in Hel as ->.
    cbn [forM ret foldl zip zip_with]. unfold leavesUnmountEvents. cbn.
    rewrite app_nil_r. by destruct s. }
  destruct vs as [|v vs]; [by apply Forall2_cons_nil_inv in Hn|].
  destruct els as [|el els]; [by apply Forall2_cons_nil_inv in Hel|].
  apply nodesAt_cons in Hn as [Hr Hn]. apply Forall_cons in Hl as [Hlv Hl].
  apply Forall2_cons in Hel as [Helv Hel].
  cbn [forM].
  rewrite (bind_ok _ _ _ _ _ (unmount_leaf_run fuel r optimized s v el Hr Hlv Helv)).
  rewrite (IH vs els) by done. cbn [vnodes host trace foldl zip zip_with].
  unfold leavesUnmountEvents. rewrite bind_cons. cbn [fst snd]. rewrite Helv.
  cbn [default from_option]. by rewrite <- app_assoc.
Qed.

Lemma hostOps_leafUnmount n v el : hostOps (leafUnmountEvents n v el) = [HostRemove el].
Proof.
  unfold leafUnmountEvents. cbv zeta. rewrite !hostOps_app.
  rewrite (hostOps_nil_if _ (SetRef n)) by done.
  rewrite (hostOps_nil_if _ (InvokeVNodeHook "onVnodeBeforeUnmount" n)) by done.
  rewrite (hostOps_nil_if _ (InvokeDirectiveHook "beforeUnmount" n)) by done.
  rewrite (hostOps_nil_if _ (QueuePostRenderEffect "unmounted" n)) by done.
  done.
Qed.

Lemma hostOps_leavesUnmount : ∀ rs vs els,
  length rs = length vs → Forall2 (λ v el, VN.el v = Some el) vs els →
  hostOps (leavesUnmountEvents (zip rs vs)) = HostRemove <$> els.
Proof.
  induction rs as [|r rs IH]; intros vs els Hlen Hel.
  { destruct vs; [|done]. by apply Forall2_nil_inv_l in Hel as ->. }
  destruct vs as [|v vs]; [done|].
  destruct els as [|el els]; [by apply Forall2_cons_nil_inv in Hel|].
  apply Forall2_cons in Hel as [Helv Hel].
  cbn [zip zip_with]. unfold leavesUnmountEvents. rewrite bind_cons, hostOps_app.
  cbn [fst snd]. rewrite Helv. cbn [default from_option].
  rewrite hostOps_leafUnmount. cbn [fmap list_fmap app]. f_equal.
  apply IH; [|done]. cbn in Hlen. lia.
Qed.

(** [mountChildren] on a list of leaves: the call returns; the leaves
    are mounted as new host nodes, one after the other, and stand among
    the children of the container in the order of the list, in front of
    the anchor. *)
Theorem mountChildren_in_order fuel cs vs container anchor optimized s pre post :
  NoDup cs → NodesAt s cs vs → Forall Leaf vs → Forall (λ v, VN.el v = None) vs →
  container < length (host s) →
  kidsOf (host s) container = pre ++ post → anchor = head post →
  NoDup (pre ++ post) → Forall (λ h, h < length (host s)) (pre ++ post) →
  ∃ s',
    mountChildren (patch (S fuel)) cs container anchor optimized 0 s = Ok cs s'
    ∧ NodesAt s' cs (mountedFrom (length (host s)) vs)
    ∧ (∀ r, r ∉ cs → vnodes s' !! r = vnodes s !! r)
    ∧ kidsOf (host s') container = pre ++ seq (length (host s)) (length cs) ++ post
    ∧ trace s' = trace s ++ leavesMountEvents (zip cs vs) (length (host s)) container anchor.
Proof using normalize_unmounted.
  intros Hnd Hn Hl Hel Hc Hk -> Hkn Hlt.
  destruct (mountLoop_leaves fuel container (head post) optimized cs vs [] s)
    as (s' & Hrun & Hn' & Hfr & _ & Hkids & _ & Htr); try done.
  { by rewrite Hk. }
  exists s'. unfold mountChildren. rewrite Nat.sub_0_r.
  split; [exact Hrun|]. split; [done|]. split; [done|]. split; [|done].
  rewrite Hkids, Hk. apply insertBefore_seq; [|done].
  intros a Ha Hin. apply NoDup_app in Hkn as (_ & Hd & _). apply (Hd a Hin).
  destruct post; [done|]. injection Ha as ->. by left.
Qed.

Lemma with_children_id v : VN.with_children (VN.children v) v = v.
Proof. by destruct v. Qed.

Lemma writeBack_same n v id cs s :
  vnodes s !! n = Some v → VN.children v = CArr id cs → writeBack n cs s = Ok tt s.
Proof.
  intros Hn Hc. unfold writeBack. rewrite (modVNode_ok _ _ _ _ Hn), Hc.
  rewrite <- Hc, with_children_id, list_insert_id by done. by destruct s.
Qed.

Lemma kidsOf_setElementText_eq h el t : kidsOf (host_setElementText h el t) el = [].
Proof.
  unfold host_setElementText, kidsOf at 1.
  destruct (decide (el < length h)) as [Hlt|Hge].
  - rewrite list_lookup_alter_eq.
    destruct (foldr _ _ _ !! el) eqn:E; [done|done].
  - rewrite lookup_ge_None_2; [done|]. rewrite length_alter.
    generalize (kidsOf h el). intros l. induction l as [|k l IH]; cbn [foldr]; [lia|].
    by rewrite length_alter.
Qed.

Section PatchChildren.
Variable fuel : nat.
Variables (n1 n2 : vref) (v1 v2 : VNode) (container : Handle) (s : RState).

Hypothesis old_node : vnodes s !! n1 = Some v1.
Hypothesis new_node : vnodes s !! n2 = Some v2.
(** The new vnode is no keyed or unkeyed fragment of the compiler. *)
Hypothesis not_keyed : has (VN.patchFlag v2) PatchFlags.KEYED_FRAGMENT = false.
Hypothesis not_unkeyed : has (VN.patchFlag v2) PatchFlags.UNKEYED_FRAGMENT = false.

Lemma patchChildren_full anchor optimized :
  patchChildren (S fuel) (patch (S fuel)) n1 n2 container anchor optimized s
  = patchChildrenFull (S fuel) (patch (S fuel)) n1 n2 container anchor optimized s.
Proof using old_node new_node not_keyed not_unkeyed.
  unfold patchChildren.
  rewrite (bind_ok _ _ _ _ _ (getVNode_ok _ _ _ old_node)).
  rewrite (bind_ok _ _ _ _ _ (getVNode_ok _ _ _ new_node)).
  by rewrite not_keyed, not_unkeyed, !andb_false_r.
Qed.

(** [patchChildren] from array children to a text child: the call
    returns; the old children, leaves here, are unmounted without a
    host operation, none of them is removed from the host on its own,
    and the one host operation is the write of the text into the
    container, which ends without children. *)
Theorem patchChildren_array_to_text anchor optimized id cs vs t :
  has (VN.shapeFlag v1) ShapeFlags.ARRAY_CHILDREN = true →
  VN.children v1 = CArr id cs →
  has (VN.shapeFlag v2) ShapeFlags.TEXT_CHILDREN = true →
  VN.children v2 = CText t →
  NodesAt s cs vs → Forall Leaf vs →
  ∃ s' es,
    patchChildren (S fuel) (patch (S fuel)) n1 n2 container anchor optimized s = Ok tt s'
    ∧ vnodes s' = vnodes s
    ∧ host s' = host_setElementText (host s) container t
    ∧ kidsOf (host s') container = []
    ∧ trace s' = trace s ++ es
    ∧ hostOps es = [HostSetElementText container t].
Proof using old_node new_node not_keyed not_unkeyed.
  intros Ha Hc1 Ht Hc2 Hn Hl.
  destruct (unmountLoop_keep fuel false cs vs s Hn Hl) as (es & Hu & Hes).
  exists (mkState (vnodes s) (host_setElementText (host s) container t)
            ((trace s ++ es) ++ [HostSetElementText container t])),
    (es ++ [HostSetElementText container t]).
  split; [|split; [done|split; [done|split; [apply kidsOf_setElementText_eq|split]]]].
  - rewrite patchChildren_full. unfold patchChildrenFull.
    rewrite (bind_ok _ _ _ _ _ (getVNode_ok _ _ _ old_node)).
    rewrite (bind_ok _ _ _ _ _ (getVNode_ok _ _ _ new_node)).
    rewrite Ht, Ha, Hc1, Hc2. cbn [when expectArray childrenDiffer].
    rewrite bind_assoc, bind_ret. unfold unmountChildren, unmountChildrenWith. cbn [drop].
    by rewrite (bind_ok _ _ _ _ _ Hu).
  - cbn [trace]. by rewrite app_assoc.
  - by rewrite hostOps_app, Hes.
Qed.

(** [patchChildren] from array children to no children: the call
    returns; the old children, mounted leaves here, are unmounted with
    removal, one host removal each and no other host operation, and the
    container keeps its other children in their order. *)
Theorem patchChildren_array_to_none anchor optimized id cs vs els pre post :
  has (VN.shapeFlag v1) ShapeFlags.ARRAY_CHILDREN = true →
  VN.children v1 = CArr id cs →
  has (VN.shapeFlag v2) ShapeFlags.TEXT_CHILDREN = false →
  has (VN.shapeFlag v2) ShapeFlags.ARRAY_CHILDREN = false →
  NodesAt s cs vs → Forall Leaf vs → Forall2 (λ v el, VN.el v = Some el) vs els →
  kidsOf (host s) container = pre ++ els ++ post → NoDup (pre ++ els ++ post) →
  ∃ s' es,
    patchChildren (S fuel) (patch (S fuel)) n1 n2 container anchor optimized s = Ok tt s'
    ∧ vnodes s' = vnodes s
    ∧ length (host s') = length (host s)
    ∧ kidsOf (host s') container = pre ++ post
    ∧ trace s' = trace s ++ es
    ∧ hostOps es = HostRemove <$> els.
Proof using old_node new_node not_keyed not_unkeyed.
  intros Ha Hc1 Ht Ha2 Hn Hl Hel Hk Hnd.
  exists (mkState (vnodes s) (foldl host_detach (host s) els)
            (trace s ++ leavesUnmountEvents (zip cs vs))),
    (leavesUnmountEvents (zip cs vs)).
  split; [|split; [done|split; [apply length_detach_all|split; [|split; [done|]]]]].
  - rewrite patchChildren_full. unfold patchChildrenFull.
    rewrite (bind_ok _ _ _ _ _ (getVNode_ok _ _ _ old_node)).
    rewrite (bind_ok _ _ _ _ _ (getVNode_ok _ _ _ new_node)).
    rewrite Ht, Ha, Ha2, Hc1. cbn [expectArray]. rewrite bind_ret.
    unfold unmountChildren, unmountChildrenWith. cbn [drop].
    by apply unmountLoop_leaves.
  - cbn [host]. rewrite kidsOf_detach_all, Hk. by apply filter_segment.
  - apply hostOps_leavesUnmount; [|done]. by eapply Forall2_length.
Qed.

End PatchChildren.

(** [patchChildren] from a text child to array children, as
    [patchElement] calls it: the call returns; the text of the container
    is cleared, and the new children, leaves here, are mounted as new
    host nodes that are the children of the container, in the order of
    the list. *)
Theorem patchChildren_text_to_array fuel n1 n2 v1 v2 container optimized s id cs vs :
  vnodes s !! n1 = Some v1 → vnodes s !! n2 = Some v2 →
  has (VN.patchFlag v2) PatchFlags.KEYED_FRAGMENT = false →
  has (VN.patchFlag v2) PatchFlags.UNKEYED_FRAGMENT = false →
  has (VN.shapeFlag v1) ShapeFlags.ARRAY_CHILDREN = false →
  has (VN.shapeFlag v1) ShapeFlags.TEXT_CHILDREN = true →
  has (VN.shapeFlag v2) ShapeFlags.TEXT_CHILDREN = false →
  has (VN.shapeFlag v2) ShapeFlags.ARRAY_CHILDREN = true →
  VN.children v2 = CArr id cs →
  NoDup cs → n2 ∉ cs →
  NodesAt s cs vs → Forall Leaf vs → Forall (λ v, VN.el v = None) vs →
  container < length (host s) →
  ∃ s',
    patchChildren (S fuel) (patch (S fuel)) n1 n2 container None optimized s = Ok tt s'
    ∧ NodesAt s' cs (mountedFrom (length (host s)) vs)
    ∧ (∀ r, r ∉ cs → vnodes s' !! r = vnodes s !! r)
    ∧ kidsOf (host s') container = seq (length (host s)) (length cs)
    ∧ trace s' = trace s ++ [HostSetElementText container ""]
                 ++ leavesMountEvents (zip cs vs) (length (host s)) container None.
Proof using normalize_unmounted.
  intros H1 H2 Hk Hu Ha1 Ht1 Ht2 Ha2 Hc2 Hnd Hn2 Hn Hl Hel Hc.
  set (s1 := mkState (vnodes s) (host_setElementText (host s) container "")
               (trace s ++ [HostSetElementText container ""])).
  destruct (mountLoop_leaves fuel container None optimized cs vs [] s1)
    as (s' & Hrun & Hn' & Hfr & _ & Hkids & _ & Htr); try done.
  { subst s1. cbn [host]. by rewrite length_setElementText. }
  { subst s1. cbn [host]. by rewrite kidsOf_setElementText_eq. }
  subst s1. cbn [vnodes host trace app length] in *.
  rewrite length_setElementText in *. rewrite kidsOf_setElementText_eq in Hkids.
  exists s'. split; [|split; [done|split; [done|split]]].
  - rewrite (patchChildren_full fuel n1 n2 v1 v2) by done. unfold patchChildrenFull.
    rewrite (bind_ok _ _ _ _ _ (getVNode_ok _ _ _ H1)).
    rewrite (bind_ok _ _ _ _ _ (getVNode_ok _ _ _ H2)).
    rewrite Ht2, Ha1, Ht1, Ha2, Hc2. cbn [when expectArray].
    erewrite bind_ok; [|reflexivity]. rewrite bind_ret.
    unfold mountChildren. rewrite Nat.sub_0_r.
    rewrite (bind_ok _ _ _ _ _ Hrun).
    eapply writeBack_same; [|exact Hc2]. by rewrite Hfr.
  - rewrite Hkids.
    pose proof (insertBefore_seq [] (length cs) (length (host s)) []) as Hs.
    cbn [head app] in Hs. rewrite Hs, ?app_nil_r; [done|done|constructor].
  - by rewrite Htr, <- app_assoc.
Qed.

End LeafLists.

(** ** The unkeyed diff on children without keys *)

Section Unkeyed.
Context `{Env}.
Variable tag : string.
Variable container : Handle.
Variable optimized : bool.

Hypothesis normalize_unmounted : ∀ r s v,
  vnodes s !! r = Some v → VN.el v = None →
  normalizeVNode r s = Ok r s ∧ cloneIfMounted r s = Ok r s.

Local Abbreviation writes := (writesText optimized).

Lemma plain_leaf text el : Leaf (plain tag text el).
Proof. split; try done. right. right. split; [by exists tag|done]. Qed.

Lemma patchElement_plain fuel pf n1 n2 s t1 t2 el e2 :
  n1 ≠ n2 →
  vnodes s !! n1 = Some (plain tag t1 (Some el)) →
  vnodes s !! n2 = Some (plain tag t2 e2) →
  let changed := writes && negb (String.eqb t2 t1) in
  patchElement fuel pf n1 n2 optimized s =
    Ok tt (mkState (<[n2:=plain tag t2 (Some el)]> (vnodes s))
             (if changed then host_setElementText (host s) el t2 else host s)
             (trace s ++ if changed then [HostSetElementText el t2] else [])).
Proof.
  intros Hne H1 H2 changed. subst changed. unfold writesText.
  destruct s as [vs h tr]. cbn [vnodes host trace] in *.
  unfold patchElement, patchChildren, patchChildrenFull, patchProps,
    invokeVNodeHook, invokeDirectiveHook, queuePostRenderEffect, hostSetElementText.
  destruct (DEV && isHmrUpdating), optimized; mcompute;
    try (destruct (String.eqb t2 t1); cbn);
    by rewrite ?app_nil_r.
Qed.

Lemma patch_plain fuel n1 n2 s t1 t2 el e2 :
  n1 ≠ n2 →
  vnodes s !! n1 = Some (plain tag t1 (Some el)) →
  vnodes s !! n2 = Some (plain tag t2 e2) →
  let changed := writes && negb (String.eqb t2 t1) in
  patch (S fuel) (Some n1) n2 container None (Some optimized) s =
    Ok tt (mkState (<[n2:=plain tag t2 (Some el)]> (vnodes s))
             (if changed then host_setElementText (host s) el t2 else host s)
             (trace s ++ if changed then [HostSetElementText el t2] else [])).
Proof.
  intros Hne H1 H2 changed. subst changed.
  rewrite <- (patchElement_plain fuel (patch fuel) n1 n2 s t1 t2 el e2) by done.
  cbn [patch]. unfold patchStep, isSameVNodeType, processElement.
  rewrite (bind_ok _ _ _ _ _ (getVNode_ok _ _ _ H2)).
  rewrite bool_decide_eq_false_2 by congruence.
  unfold bind at 1. unfold bind at 1. rewrite (getVNode_ok _ _ _ H1).
  cbn [plain VN.type VN.key VN.patchFlag VN.shapeFlag].
  rewrite !bool_decide_eq_true_2 by done. cbn [andb negb ret].
  by repeat flag_step.
Qed.

Lemma leafMount_plain n t e el anchor :
  leafMountEvents n (plain tag t e) el container anchor
  = [HostCreateElement tag el; HostSetElementText el t; HostInsert el container anchor].
Proof. done. Qed.

Lemma leafUnmount_plain n t el :
  leafUnmountEvents n (plain tag t (Some el)) el = [HostRemove el].
Proof.
  unfold leafUnmountEvents. cbn [plain VN.ref VN.props VN.dirs VN.shapeFlag VN.type propGet
    truthy]. rewrite !andb_false_r. done.
Qed.

Lemma leavesMount_plain (ns : list NewPlain) : ∀ el anchor,
  leavesMountEvents (zip (q_ref <$> ns) ((λ n, plain tag (q_text n) None) <$> ns))
    el container anchor
  = plainMounts tag ns el container anchor.
Proof.
  induction ns as [|n ns IH]; intros el anchor; [done|].
  cbn [fmap list_fmap zip zip_with leavesMountEvents plainMounts fst snd].
  by rewrite leafMount_plain, <- IH.
Qed.

Lemma leavesUnmount_plain (os : list OldPlain) :
  leavesUnmountEvents
    (zip (p_ref <$> os) ((λ o, plain tag (p_text o) (Some (p_el o))) <$> os))
  = HostRemove <$> (p_el <$> os).
Proof.
  unfold leavesUnmountEvents. induction os as [|o os IH]; [done|].
  cbn [fmap list_fmap zip zip_with]. rewrite bind_cons. cbn [fst snd].
  change (VN.el (plain tag (p_text o) (Some (p_el o)))) with (Some (p_el o)).
  cbn [default from_option]. rewrite leafUnmount_plain. cbn [app]. f_equal. exact IH.
Qed.

(** The first loop of [patchUnkeyedChildren]. *)
Lemma patchLoop_plain fuel : ∀ os ns d1 d2 r1 r2 s,
  length os = length ns → length d1 = length d2 →
  NoDup ((p_ref <$> os) ++ (q_ref <$> ns)) →
  (∀ o, o ∈ os → vnodes s !! p_ref o = Some (plain tag (p_text o) (Some (p_el o)))) →
  (∀ n, n ∈ ns → vnodes s !! q_ref n = Some (plain tag (q_text n) None)) →
  ∃ s',
    foldM (λ c2 i,
        '(nextChild, c2) <- normalizeAt optimized c2 i;;
        old <- nonNull ((d1 ++ (p_ref <$> os) ++ r1) !! i);;
        patch (S fuel) (Some old) nextChild container None (Some optimized);;
        ret c2)
      (d2 ++ (q_ref <$> ns) ++ r2) (seq (length d2) (length ns)) s
    = Ok (d2 ++ (q_ref <$> ns) ++ r2) s'
    ∧ NodesAt s' (q_ref <$> ns)
        (zip_with (λ o n, plain tag (q_text n) (Some (p_el o))) os ns)
    ∧ (∀ r, r ∉ q_ref <$> ns → vnodes s' !! r = vnodes s !! r)
    ∧ length (host s') = length (host s)
    ∧ (∀ c, c ∉ p_el <$> os → kidsOf (host s') c = kidsOf (host s) c)
    ∧ trace s' = trace s ++ (zip os ns ≫= plainPatch writes).
Proof using normalize_unmounted.
  induction os as [|o os IH]; intros ns d1 d2 r1 r2 s Hlen Hd Hnd Ho Hn.
  { destruct ns; [|done]. exists s. cbn. rewrite app_nil_r.
    split; [done|]. split; [constructor|]. done. }
  destruct ns as [|n ns]; [done|].
  cbn [fmap list_fmap app length seq foldM zip zip_with] in *.
  apply NoDup_cons in Hnd as [Hon Hnd].
  assert (NoDup ((p_ref <$> os) ++ (q_ref <$> ns)) ∧ (q_ref n ∉ q_ref <$> ns)
          ∧ (q_ref n ∉ p_ref <$> os) ∧ p_ref o ≠ q_ref n) as (Hnd' & Hnn & Hno & Hne).
  { apply NoDup_app in Hnd as (H1 & H2 & H3). apply NoDup_cons in H3 as [H3 H4].
    split; [|split; [done|split]].
    - apply NoDup_app. split; [done|]. split; [|done].
      intros r Hr Hr'. apply (H2 r Hr). by right.
    - intros Hin. apply (H2 _ Hin). by left.
    - intros E. apply Hon. apply elem_of_app. right. rewrite E. by left. }
  pose proof (Ho o ltac:(by left)) as Hov. pose proof (Hn n ltac:(by left)) as Hnv.
  pose proof (patch_plain fuel (p_ref o) (q_ref n) s _ _ _ _ Hne Hov Hnv) as Hp.
  cbv zeta in Hp. set (s1 := mkState _ _ _) in Hp.
  assert (bind (normalizeAt optimized (d2 ++ q_ref n :: (q_ref <$> ns) ++ r2) (length d2))
            (λ x, let (nextChild, c2) := x in
                  bind (nonNull ((d1 ++ p_ref o :: (p_ref <$> os) ++ r1) !! length d2))
                    (λ old, bind (patch (S fuel) (Some old) nextChild container None
                                    (Some optimized)) (λ _, ret c2))) s
          = Ok (d2 ++ q_ref n :: (q_ref <$> ns) ++ r2) s1) as Hstep.
  { rewrite (bind_ok _ _ s (q_ref n, d2 ++ q_ref n :: (q_ref <$> ns) ++ r2) s).
    2:{ eapply normalizeAt_unmounted; [done| |done..]. by rewrite list_lookup_middle. }
    rewrite <- Hd, list_lookup_middle by done. cbn [nonNull]. rewrite bind_ret.
    by rewrite (bind_ok _ _ s tt s1) by exact Hp. }
  rewrite (bind_ok _ _ s _ s1 Hstep).
  destruct (IH ns (d1 ++ [p_ref o]) (d2 ++ [q_ref n]) r1 r2 s1)
    as (s' & Hrun & Hn' & Hfr & Hlen' & Hkids & Htr).
  - lia.
  - rewrite !length_app. cbn. lia.
  - done.
  - intros o' Ho'. subst s1. cbn [vnodes]. rewrite list_lookup_insert_ne.
    + apply Ho. by right.
    + intros E. apply Hno. rewrite E. apply list_elem_of_fmap. by exists o'.
  - intros n' Hn''. subst s1. cbn [vnodes]. rewrite list_lookup_insert_ne.
    + apply Hn. by right.
    + intros E. apply Hnn. rewrite E. apply list_elem_of_fmap. by exists n'.
  - exists s'. rewrite !length_app in Hrun. cbn [length] in Hrun.
    rewrite !Nat.add_1_r, <- !app_assoc in Hrun. cbn [app] in Hrun.
    split; [exact Hrun|]. split; [|split; [|split; [|split]]].
    + apply nodesAt_cons. split; [|done]. rewrite Hfr by done. subst s1. cbn [vnodes].
      apply list_lookup_insert_eq. by eapply lookup_lt_Some.
    + intros r Hr. apply not_elem_of_cons in Hr as [Hr1 Hr2].
      rewrite (Hfr r Hr2). subst s1. cbn [vnodes]. by apply list_lookup_insert_ne.
    + rewrite Hlen'. subst s1. cbn [host].
      destruct (_ && _); [apply length_setElementText|done].
    + intros c Hc. apply not_elem_of_cons in Hc as [Hc1 Hc2].
      rewrite (Hkids c Hc2). subst s1. cbn [host].
      destruct (_ && _); [by apply kidsOf_setElementText|done].
    + rewrite Htr. subst s1. cbn [trace]. rewrite bind_cons, <- app_assoc. done.
Qed.

Lemma in_take {A} (x : A) n l : x ∈ take n l → x ∈ l.
Proof. intros (i & Hi & _)%elem_of_take. by eapply list_elem_of_lookup_2. Qed.

Lemma in_drop {A} (x : A) n l : x ∈ drop n l → x ∈ l.
Proof.
  intros [i Hi]%list_elem_of_lookup. rewrite lookup_drop in Hi.
  by eapply list_elem_of_lookup_2.
Qed.

Lemma NoDup_take_drop {A} (l : list A) n : NoDup l → NoDup (take n l) ∧ NoDup (drop n l).
Proof.
  intros Hnd. split; (eapply sublist_NoDup; [exact Hnd|]);
    [apply sublist_take|apply sublist_drop].
Qed.

Lemma zip_with_take_min {A B C} (f : A → B → C) (l : list A) : ∀ k : list B,
  zip_with f (take (length l `min` length k) l) (take (length l `min` length k) k)
  = zip_with f l k.
Proof.
  induction l as [|x l IH]; intros [|y k]; cbn; try done.
  by rewrite IH.
Qed.

Lemma zip_plain (os : list OldPlain) : ∀ ns : list NewPlain,
  zip_with (λ o n, plain tag (q_text n) (Some (p_el o))) os ns
  = zip_with (λ n h, plain tag (q_text n) (Some h)) ns (p_el <$> os).
Proof.
  induction os as [|o os IH]; intros [|n ns]; cbn; try done. by rewrite IH.
Qed.

Lemma mountedFrom_plain (ns : list NewPlain) : ∀ el,
  mountedFrom el ((λ n, plain tag (q_text n) None) <$> ns)
  = zip_with (λ n h, plain tag (q_text n) (Some h)) ns (seq el (length ns)).
Proof.
  induction ns as [|n ns IH]; intros el; cbn; [done|]. by rewrite IH.
Qed.

(** The unkeyed diff of a list of children without keys, mounted in a
    row among the children of the container, against a fresh list: the
    call returns; the children are patched in place position by
    position, as far as both lists go; the old children beyond the new
    list are removed from the host; the new children beyond the old list
    are mounted as new host nodes after the row, in front of the node
    that followed it.  Every new vnode ends with the host element at
    its position, and the host sees the text writes of the patches, the
    removals and the mounts, in this order, and nothing else. *)
Theorem unkeyed_diff_by_position fuel s (olds : list OldPlain) (news : list NewPlain)
    anchor pre post :
  NoDup ((p_ref <$> olds) ++ (q_ref <$> news)) →
  (∀ o, o ∈ olds → vnodes s !! p_ref o = Some (plain tag (p_text o) (Some (p_el o)))) →
  (∀ n, n ∈ news → vnodes s !! q_ref n = Some (plain tag (q_text n) None)) →
  container < length (host s) →
  kidsOf (host s) container = pre ++ (p_el <$> olds) ++ post →
  anchor = head post →
  NoDup (pre ++ (p_el <$> olds) ++ post) →
  Forall (λ h, h < length (host s)) (pre ++ (p_el <$> olds) ++ post) →
  container ∉ p_el <$> olds →
  let hs := take (length news) (p_el <$> olds)
            ++ seq (length (host s)) (length news - length olds) in
  ∃ s',
    patchUnkeyedChildren (S fuel) (patch (S fuel)) (p_ref <$> olds) (q_ref <$> news)
      container anchor optimized s = Ok (q_ref <$> news) s'
    ∧ kidsOf (host s') container = pre ++ hs ++ post
    ∧ NodesAt s' (q_ref <$> news)
        (zip_with (λ n h, plain tag (q_text n) (Some h)) news hs)
    ∧ (∀ r, r ∉ q_ref <$> news → vnodes s' !! r = vnodes s !! r)
    ∧ trace s' = trace s ++ (zip olds news ≫= plainPatch writes)
                 ++ (HostRemove <$> drop (length news) (p_el <$> olds))
                 ++ plainMounts tag (drop (length olds) news) (length (host s))
                      container anchor.
Proof using normalize_unmounted.
  intros Hnd Ho Hn Hc Hk -> Hkn Hlt Hce hs. subst hs.
  set (m := length olds). set (n := length news). set (k := m `min` n).
  set (L := length (host s)).
  assert (Holds : olds = take k olds ++ drop k olds) by (by rewrite take_drop).
  assert (Hnews : news = take k news ++ drop k news) by (by rewrite take_drop).
  assert (Hrefs : NoDup (p_ref <$> olds) ∧ NoDup (q_ref <$> news)
                  ∧ ∀ o n', o ∈ olds → n' ∈ news → p_ref o ≠ q_ref n').
  { apply NoDup_app in Hnd as (H1 & H2 & H3). split; [done|]. split; [done|].
    intros o n' Hin Hin' E. apply (H2 (p_ref o)).
    - apply list_elem_of_fmap. by exists o.
    - rewrite E. apply list_elem_of_fmap. by exists n'. }
  destruct Hrefs as (Hnd1 & Hnd2 & Hsep).
  destruct (patchLoop_plain fuel (take k olds) (take k news) [] []
              (p_ref <$> drop k olds) (q_ref <$> drop k news) s)
    as (s1 & Hrun & Hn1 & Hfr1 & Hlen1 & Hkids1 & Htr1).
  { rewrite !length_take. fold m n. lia. }
  { done. }
  { apply NoDup_app. split; [|split].
    - rewrite fmap_take. by apply NoDup_take_drop.
    - intros r (o & -> & Hin%in_take)%list_elem_of_fmap
        (n' & E & Hin'%in_take)%list_elem_of_fmap.
      by apply (Hsep o n').
    - rewrite fmap_take. by apply NoDup_take_drop. }
  { intros o Hin%in_take. by apply Ho. }
  { intros n' Hin%in_take. by apply Hn. }
  cbn [app length] in Hrun.
  rewrite <- !fmap_app, <- Holds, <- Hnews in Hrun.
  rewrite length_take in Hrun. fold n in Hrun.
  replace (k `min` n) with k in Hrun by lia.
  assert (zip (take k olds) (take k news) = zip olds news) as Hzip
    by apply (zip_with_take_min pair olds news).
  rewrite Hzip in Htr1.
  assert (Hk1 : kidsOf (host s1) container = pre ++ (p_el <$> olds) ++ post).
  { rewrite Hkids1; [done|]. intros (o & E & Hin%in_take)%list_elem_of_fmap.
    apply Hce. apply list_elem_of_fmap. by exists o. }
  assert (Hold1 : ∀ o, o ∈ olds →
            vnodes s1 !! p_ref o = Some (plain tag (p_text o) (Some (p_el o)))).
  { intros o Hin. rewrite Hfr1; [by apply Ho|].
    intros (n' & E & Hin'%in_take)%list_elem_of_fmap. by apply (Hsep o n'). }
  unfold patchUnkeyedChildren. rewrite !length_fmap. fold m n k.
  rewrite (bind_ok _ _ _ _ _ Hrun).
  destruct (Nat.ltb_spec n m) as [Hnm|Hmn].
  - (* remove old *)
    assert (k = n) as Hkn' by lia.
    assert (take k news = news) as Htn by (apply take_ge; lia).
    assert (drop m news = []) as Hdn by (apply drop_ge; lia).
    rewrite Htn in *. replace (n - m) with 0 by lia. cbn [seq]. rewrite app_nil_r.
    rewrite Hdn. cbn [plainMounts]. rewrite app_nil_r.
    pose proof (unmountLoop_leaves fuel false (p_ref <$> drop k olds)
                  ((λ o, plain tag (p_text o) (Some (p_el o))) <$> drop k olds)
                  (p_el <$> drop k olds) s1) as Hu.
    set (s2 := mkState _ _ _) in Hu.
    exists s2. split; [|split; [|split; [|split]]].
    + unfold unmountChildren, unmountChildrenWith. rewrite <- fmap_drop.
      rewrite (bind_ok _ _ s1 tt s2); [done|]. apply Hu.
      * apply Forall2_fmap, Forall_Forall2_diag, Forall_forall.
        intros o Hin%in_drop. by apply Hold1.
      * apply Forall_fmap, Forall_forall. intros o _. apply plain_leaf.
      * apply Forall2_fmap, Forall_Forall2_diag, Forall_forall. by intros o _.
    + subst s2. cbn [host]. rewrite kidsOf_detach_all, Hk1.
      rewrite Holds at 1. rewrite fmap_app, <- app_assoc, (app_assoc pre).
      rewrite filter_segment.
      * rewrite <- app_assoc, <- Hkn', fmap_take. done.
      * rewrite <- app_assoc, (app_assoc (p_el <$> take k olds)), <- fmap_app, <- Holds.
        done.
    + subst s2. unfold NodesAt. cbn [vnodes]. fold (NodesAt s1 (q_ref <$> news)
        (zip_with (λ n0 h, plain tag (q_text n0) (Some h)) news
           (take n (p_el <$> olds)))).
      rewrite <- Hkn', <- fmap_take, <- zip_plain. exact Hn1.
    + subst s2. cbn [vnodes]. exact Hfr1.
    + subst s2. cbn [trace]. rewrite Htr1, leavesUnmount_plain, <- app_assoc.
      by rewrite <- Hkn', fmap_drop.
  - (* mount new *)
    assert (k = m) as Hkm by lia.
    assert (take k olds = olds) as Hto by (apply take_ge; lia).
    assert (drop n (p_el <$> olds) = []) as Hdo
      by (apply drop_ge; rewrite length_fmap; fold m; lia).
    rewrite Hto in *. rewrite Hdo. cbn [fmap list_fmap app].
    rewrite (take_ge (p_el <$> olds)) by (rewrite length_fmap; fold m; lia).
    destruct (mountLoop_leaves normalize_unmounted fuel container (head post) optimized
                (q_ref <$> drop k news) ((λ n, plain tag (q_text n) None) <$> drop k news)
                (q_ref <$> take k news) s1)
      as (s2 & Hrun2 & Hn2 & Hfr2 & _ & Hkids2 & _ & Htr2).
    { apply Forall2_fmap, Forall_Forall2_diag, Forall_forall.
      intros n' Hin. rewrite Hfr1; [apply Hn; by eapply in_drop|].
      intros (n'' & E & Hin'')%list_elem_of_fmap.
      rewrite Hnews in Hnd2. rewrite fmap_app in Hnd2.
      apply NoDup_app in Hnd2 as (_ & Hd & _). apply (Hd (q_ref n'')).
      - apply list_elem_of_fmap. by exists n''.
      - rewrite <- E. apply list_elem_of_fmap. by exists n'. }
    { apply Forall_fmap, Forall_forall. intros n' _. apply plain_leaf. }
    { apply Forall_fmap, Forall_forall. by intros n' _. }
    { rewrite fmap_drop. by apply NoDup_take_drop. }
    { by rewrite Hlen1. }
    { by rewrite Hk1, Hlen1. }
    rewrite <- fmap_app, <- Hnews in Hrun2.
    rewrite !length_fmap, length_take, length_drop in Hrun2.
    rewrite !length_fmap, length_drop, Hlen1 in *. fold n L in Hrun2, Hkids2, Htr2, Hn2.
    replace (k `min` n) with k in Hrun2 by lia.
    exists s2. split; [|split; [|split; [|split]]].
    + unfold mountChildren. rewrite length_fmap. fold n. exact Hrun2.
    + rewrite Hkids2, Hk1, Hkm. rewrite (app_assoc pre).
      rewrite insertBefore_seq.
      * by rewrite <- !app_assoc.
      * intros a Ha Hin. rewrite (app_assoc pre) in Hkn.
        apply NoDup_app in Hkn as (_ & Hd & _). apply (Hd a Hin).
        destruct post; [done|]. injection Ha as ->. by left.
      * by rewrite <- app_assoc.
    + rewrite Hnews at 1 2. rewrite fmap_app.
      rewrite zip_with_app by (rewrite length_take, length_fmap; fold m n; lia).
      apply Forall2_app.
      * eapply nodesAt_frame; [|rewrite <- zip_plain; exact Hn1].
        intros r Hr. apply Hfr2.
        intros Hr'. rewrite Hnews in Hnd2. rewrite fmap_app in Hnd2.
        apply NoDup_app in Hnd2 as (_ & Hd & _). by apply (Hd r).
      * rewrite mountedFrom_plain in Hn2. rewrite length_drop in Hn2. fold n in Hn2.
        replace (n - m) with (n - k) by lia. exact Hn2.
    + intros r Hr. rewrite Hfr2, Hfr1; [done| |].
      * intros Hin. apply Hr. rewrite Hnews, fmap_app. apply elem_of_app. by left.
      * intros Hin. apply Hr. rewrite Hnews, fmap_app. apply elem_of_app. by right.
    + rewrite Htr2, Htr1, leavesMount_plain, Hkm, <- app_assoc. done.
Qed.

End Unkeyed.

(** ** Fragments of leaves *)

Section FragmentHost.

Lemma nextAfter_middle (cur : Handle) pre rest :
  cur ∉ pre → nextAfter cur (pre ++ cur :: rest) = head rest.
Proof.
  induction pre as [|x pre IH]; intros Hc; cbn [app nextAfter].
  - by rewrite decide_True.
  - rewrite decide_False by (intros ->; apply Hc; by left).
    apply IH. intros Hin. apply Hc. by right.
Qed.

Lemma without_middle (cur : Handle) pre rest :
  NoDup (pre ++ cur :: rest) → without cur (pre ++ cur :: rest) = pre ++ rest.
Proof.
  intros Hnd. apply NoDup_app in Hnd as (_ & Hpre & Hnd).
  apply NoDup_cons in Hnd as [Hrest _].
  rewrite without_app, without_notin.
  - unfold without. rewrite filter_cons_False by (by intros ?).
    fold (without cur rest). by rewrite without_notin.
  - intros Hin. apply (Hpre _ Hin). by left.
Qed.

Lemma NoDup_bounded (l : list nat) n : NoDup l → Forall (λ x, x < n) l → length l ≤ n.
Proof.
  intros Hnd Hlt. transitivity (length (seq 0 n)); [|by rewrite length_seq].
  apply submseteq_length.
  apply NoDup_submseteq; [done|]. intros x Hx. apply elem_of_seq.
  rewrite Forall_forall in Hlt. specialize (Hlt x Hx). lia.
Qed.

Lemma when_emit_ok (b : bool) e s :
  when b (emit e) s
  = Ok tt (mkState (vnodes s) (host s) (trace s ++ if b then [e] else [])).
Proof. destruct b; cbn; [done|]. rewrite app_nil_r. by destruct s. Qed.

(** The loop of [removeFragment]: from [cur] up to the node in front of
    [ending], each node is read for its next sibling and removed. *)
Lemma removeLoop_run container ending post : ∀ mid fuel cur s pre,
  kidsOf (host s) container = pre ++ cur :: mid ++ ending :: post →
  NoDup (pre ++ cur :: mid ++ ending :: post) →
  (∀ x, x ∈ cur :: mid → parentOf (host s) x = Some container) →
  length mid < fuel →
  removeFragmentLoop fuel cur ending s
  = Ok tt (mkState (vnodes s) (foldl host_detach (host s) (cur :: mid))
             (trace s ++ (HostRemove <$> cur :: mid))).
Proof.
  induction mid as [|x mid IH]; intros fuel cur s pre Hk Hnd Hpar Hfuel.
  - destruct fuel as [|fuel]; [lia|]. cbn [removeFragmentLoop app] in *.
    assert (cur ≠ ending) as Hne.
    { intros ->. apply NoDup_app in Hnd as (_ & _ & Hnd).
      apply NoDup_cons in Hnd as [Hnd _]. apply Hnd. by left. }
    rewrite bool_decide_eq_false_2 by done.
    unfold hostNextSibling, hostRemove, getHost, modHost, emit, bind, ret, host_nextSibling.
    cbn [host vnodes trace].
    rewrite (Hpar cur) by (by left). cbn [mbind option_bind].
    rewrite Hk, nextAfter_middle.
    2:{ apply NoDup_app in Hnd as (_ & Hd & _). intros Hin. apply (Hd _ Hin). by left. }
    cbn [head nonNull ret]. destruct fuel; cbn [removeFragmentLoop];
      by rewrite bool_decide_eq_true_2.
  - destruct fuel as [|fuel]; [cbn in Hfuel; lia|]. cbn [removeFragmentLoop app] in *.
    assert (cur ≠ ending) as Hne.
    { intros ->. apply NoDup_app in Hnd as (_ & _ & Hnd).
      apply NoDup_cons in Hnd as [Hnd _]. apply Hnd. right. apply elem_of_app. right.
      by left. }
    rewrite bool_decide_eq_false_2 by done.
    set (s1 := mkState (vnodes s) (host_detach (host s) cur) (trace s ++ [HostRemove cur])).
    assert (bind (hostNextSibling cur)
              (λ next, bind (hostRemove cur)
                 (λ _, bind (nonNull next)
                    (λ next, removeFragmentLoop fuel next ending))) s
            = removeFragmentLoop fuel x ending s1) as ->.
    { unfold hostNextSibling, hostRemove, getHost, modHost, emit, bind, ret,
        host_nextSibling. cbn [host vnodes trace].
      rewrite (Hpar cur) by (by left). cbn [mbind option_bind].
      rewrite Hk, nextAfter_middle.
      2:{ apply NoDup_app in Hnd as (_ & Hd & _). intros Hin. apply (Hd _ Hin). by left. }
      done. }
    rewrite (IH fuel x s1 pre).
    + subst s1. cbn [vnodes host trace foldl fmap list_fmap].
      by rewrite <- app_assoc.
    + subst s1. cbn [host]. rewrite kidsOf_detach, Hk. by apply without_middle.
    + apply NoDup_app in Hnd as (H1 & H2 & H3). apply NoDup_cons in H3 as [_ H3].
      apply NoDup_app. split; [done|]. split; [|done].
      intros y Hy Hy'. apply (H2 y Hy). by right.
    + intros y Hy. subst s1. cbn [host]. rewrite parentOf_detach.
      rewrite decide_False; [apply Hpar; by right|].
      intros ->. apply NoDup_app in Hnd as (_ & _ & Hnd).
      apply NoDup_cons in Hnd as [Hnd _]. apply Hnd. rewrite app_comm_cons.
      apply elem_of_app. by left.
    + cbn in Hfuel. lia.
Qed.

Lemma removeFragment_run container start ending s pre mid post :
  kidsOf (host s) container = pre ++ start :: mid ++ ending :: post →
  NoDup (pre ++ start :: mid ++ ending :: post) →
  Forall (λ h, h < length (host s)) (pre ++ start :: mid ++ ending :: post) →
  (∀ x, x ∈ start :: mid → parentOf (host s) x = Some container) →
  removeFragment start ending s
  = Ok tt (mkState (vnodes s) (foldl host_detach (host s) (start :: mid ++ [ending]))
             (trace s ++ (HostRemove <$> start :: mid ++ [ending]))).
Proof.
  intros Hk Hnd Hlt Hpar. unfold removeFragment.
  assert (length mid < length (host s)) as Hfuel.
  { pose proof (NoDup_bounded _ _ Hnd Hlt) as Hb.
    rewrite length_app in Hb. cbn [length] in Hb. rewrite length_app in Hb.
    cbn [length] in Hb. lia. }
  rewrite (bind_ok _ _ s (host s) s) by done.
  rewrite (bind_ok _ _ _ _ _ (removeLoop_run container ending post mid (length (host s))
                                start s pre Hk Hnd Hpar Hfuel)).
  unfold hostRemove, modHost, emit, bind. cbn [vnodes host trace].
  rewrite app_comm_cons, foldl_app, fmap_app, app_assoc. done.
Qed.

End FragmentHost.

Section Fragments.
Context `{Env}.

Hypothesis normalize_unmounted : ∀ r s v,
  vnodes s !! r = Some v → VN.el v = None →
  normalizeVNode r s = Ok r s ∧ cloneIfMounted r s = Ok r s.

(** [unmount] with removal on a mounted fragment: the call returns;
    the children of the fragment, leaves here, are unmounted without a
    host operation of their own, and [removeFragment] removes the start
    anchor, every host node up to the end anchor, and the end anchor, in
    this order; the container keeps its other children. *)
Theorem fragment_unmount fuel n v container optimized s cs vs start ending els pre post :
  vnodes s !! n = Some v → IsFragment v cs →
  VN.el v = Some start → VN.anchor v = Some ending →
  NodesAt s cs vs → Forall Leaf vs →
  kidsOf (host s) container = pre ++ start :: els ++ ending :: post →
  NoDup (pre ++ start :: els ++ ending :: post) →
  Forall (λ h, h < length (host s)) (pre ++ start :: els ++ ending :: post) →
  (∀ x, x ∈ start :: els → parentOf (host s) x = Some container) →
  ∃ s' es,
    unmount (S (S fuel)) n true optimized s = Ok tt s'
    ∧ vnodes s' = vnodes s
    ∧ kidsOf (host s') container = pre ++ post
    ∧ trace s' = trace s ++ es
    ∧ hostOps es = HostRemove <$> (start :: els ++ [ending]).
Proof.
  intros Hn Hf Hel Han Hcs Hl Hk Hnd Hlt Hpar.
  destruct (frag_children _ _ Hf) as [id Hch].
  remember (S fuel) as F eqn:HF. cbn [unmount].
  rewrite (bind_ok _ _ _ _ _ (getVNode_ok _ _ _ Hn)).
  rewrite (bind_ok _ _ _ _ _ (when_emit_ok _ _ _)).
  rewrite (frag_keepAlive _ _ Hf), (frag_component _ _ Hf), (frag_suspense _ _ Hf),
    (frag_teleport _ _ Hf), (frag_block _ _ Hf), (frag_type _ _ Hf), Hch.
  rewrite (bool_decide_eq_false_2 (None ≠ None)) by (by intros ?).
  rewrite (bool_decide_eq_true_2 (Fragment = Fragment)) by done.
  cbn [andb orb negb asArray when].
  unfold invokeVNodeHook, invokeDirectiveHook, queuePostRenderEffect.
  rewrite (bind_ok _ _ _ _ _ (when_emit_ok _ _ _)).
  rewrite !bind_assoc.
  rewrite (bind_ok _ _ _ _ _ (when_emit_ok _ _ _)).
  rewrite !bind_assoc.
  set (s0 := mkState _ _ _).
  (* the children *)
  assert (∃ es1, (if has (VN.patchFlag v)
                        (Z.lor PatchFlags.KEYED_FRAGMENT PatchFlags.UNKEYED_FRAGMENT)
                     || negb optimized && has (VN.shapeFlag v) ShapeFlags.ARRAY_CHILDREN
                  then unmountChildrenWith (unmount F) cs false false 0
                  else ret tt) s0
                 = Ok tt (mkState (vnodes s) (host s) (trace s0 ++ es1))
                 ∧ hostOps es1 = []) as (es1 & Hkids & Hes1).
  { destruct (_ || _).
    - unfold unmountChildrenWith. cbn [drop]. subst F.
      destruct (unmountLoop_keep fuel false cs vs s0) as (es1 & Hu & He); [done..|].
      by exists es1.
    - exists []. by rewrite app_nil_r. }
  rewrite (bind_ok _ _ _ _ _ Hkids).
  set (s1 := mkState _ _ _).
  (* the removal *)
  assert (remove (S F) n s1
          = Ok tt (mkState (vnodes s)
                     (foldl host_detach (host s) (start :: els ++ [ending]))
                     (trace s1 ++ (HostRemove <$> start :: els ++ [ending])))) as Hrem.
  { cbn [remove]. rewrite (bind_ok _ _ s1 v s1) by (by apply getVNode_ok).
    rewrite (frag_transition _ _ Hf), (frag_type _ _ Hf), Hel, Han.
    rewrite (bool_decide_eq_true_2 (Fragment = Fragment)) by done.
    rewrite andb_false_r. cbn [nonNull]. rewrite !bind_ret.
    by apply (removeFragment_run container start ending s1 pre els post). }
  rewrite (bind_ok _ _ _ _ _ Hrem).
  rewrite when_emit_ok. cbn [vnodes host trace].
  eexists _, _. split; [reflexivity|]. cbn [vnodes host trace].
  split; [done|]. split; [|split].
  - rewrite kidsOf_detach_all, Hk.
    change (start :: els ++ ending :: post) with ((start :: els) ++ ending :: post).
    rewrite (app_assoc (start :: els) [ending] post : (start :: els) ++ ending :: post = _).
    apply filter_segment. rewrite <- app_assoc. done.
  - subst s1 s0. cbn [trace]. rewrite <- !app_assoc. reflexivity.
  - rewrite !hostOps_app, Hes1.
    rewrite (hostOps_nil_if _ (SetRef n)) by done.
    rewrite (hostOps_nil_if _ (InvokeVNodeHook "onVnodeBeforeUnmount" n)) by done.
    rewrite (hostOps_nil_if _ (InvokeDirectiveHook "beforeUnmount" n)) by done.
    rewrite (hostOps_nil_if _ (QueuePostRenderEffect "unmounted" n)) by done.
    cbn [app]. rewrite app_nil_r.
    unfold hostOps. apply filter_all.
    intros e (h & -> & _)%list_elem_of_fmap. done.
Qed.

Lemma fragment_fields v a b :
  VN.children (VN.with_anchor a (VN.with_el b v)) = VN.children v
  ∧ VN.patchFlag (VN.with_anchor a (VN.with_el b v)) = VN.patchFlag v
  ∧ VN.dynamicChildren (VN.with_anchor a (VN.with_el b v)) = VN.dynamicChildren v.
Proof. by destruct v. Qed.

(** [patch] with no old vnode on a fragment of leaves: the call
    returns; two empty text nodes are made and put in front of the
    anchor as the start and the end of the fragment, which the vnode
    keeps as [el] and [anchor]; the children are mounted as new host
    nodes between the two, in the order of the list. *)
Theorem fragment_mount fuel n v container anchor optimized s cs vs pre post :
  vnodes s !! n = Some v → IsFragment v cs →
  NoDup cs → n ∉ cs →
  NodesAt s cs vs → Forall Leaf vs → Forall (λ v, VN.el v = None) vs →
  container < length (host s) →
  kidsOf (host s) container = pre ++ post → anchor = head post →
  NoDup (pre ++ post) → Forall (λ h, h < length (host s)) (pre ++ post) →
  let L := length (host s) in
  ∃ s',
    patch (S (S fuel)) None n container anchor optimized s = Ok tt s'
    ∧ vnodes s' !! n = Some (VN.with_anchor (Some (S L)) (VN.with_el (Some L) v))
    ∧ NodesAt s' cs (mountedFrom (S (S L)) vs)
    ∧ kidsOf (host s') container = pre ++ L :: seq (S (S L)) (length cs) ++ S L :: post
    ∧ (∀ x, x ∈ L :: seq (S (S L)) (length cs) → parentOf (host s') x = Some container)
    ∧ trace s' = trace s ++
        [HostCreateText "" L; HostCreateText "" (S L);
         HostInsert L container anchor; HostInsert (S L) container anchor] ++
        leavesMountEvents (zip cs vs) (S (S L)) container (Some (S L)).
Proof using normalize_unmounted.
  intros Hn Hf Hnd Hncs Hcs Hl Hel Hc Hk -> Hkn Hlt L.
  destruct (frag_children _ _ Hf) as [id Hch].
  set (v' := VN.with_anchor (Some (S L)) (VN.with_el (Some L) v)).
  destruct (fragment_fields v (Some (S L)) (Some L)) as (Hch' & Hpf' & Hdc'). fold v' in Hch', Hpf', Hdc'.
  set (T := mkHost HText EmptyString None []).
  set (s4 := mkState (<[n := v']> (vnodes s))
               (host_insert (host_insert ((host s ++ [T]) ++ [T]) L container (head post))
                  (S L) container (head post))
               (trace s ++ [HostCreateText "" L; HostCreateText "" (S L);
                            HostInsert L container (head post);
                            HostInsert (S L) container (head post)])).
  assert (Hlen4 : length (host s4) = S (S L)).
  { subst s4. cbn [host]. rewrite !length_host_insert, !length_app. cbn. lia. }
  assert ((L ∉ pre ++ post) ∧ (S L ∉ pre ++ post)) as [HL1 HL2].
  { rewrite Forall_forall in Hlt. split; intros Hin; specialize (Hlt _ Hin); lia. }
  assert (Hk4 : kidsOf (host s4) container = (pre ++ [L]) ++ S L :: post).
  { subst s4. cbn [host].
    rewrite kidsOf_insert by (rewrite length_host_insert, !length_app; cbn; lia).
    rewrite kidsOf_insert by (rewrite !length_app; cbn; lia).
    rewrite !kidsOf_app by (rewrite ?length_app; cbn; lia).
    rewrite Hk, (without_notin L) by done.
    assert (insertBefore (head post) L (pre ++ post) = (pre ++ [L]) ++ post) as ->.
    { destruct post as [|a post']; cbn [head insertBefore].
      - by rewrite !app_nil_r.
      - rewrite insertAt_app; [by rewrite <- app_assoc|].
        intros Hin. apply NoDup_app in Hkn as (_ & Hd & _). apply (Hd a Hin). by left. }
    rewrite without_notin.
    2:{ rewrite <- app_assoc. intros [?|[?%list_elem_of_singleton|?]%elem_of_app]%elem_of_app.
        - apply HL2, elem_of_app. by left.
        - lia.
        - apply HL2, elem_of_app. by right. }
    destruct post as [|a post']; cbn [head insertBefore].
    - by rewrite !app_nil_r.
    - rewrite insertAt_app; [done|].
      intros [Hin|Hin%list_elem_of_singleton]%elem_of_app.
      + apply NoDup_app in Hkn as (_ & Hd & _). apply (Hd a Hin). by left.
      + subst a. apply HL1, elem_of_app. right. by left. }
  destruct (mountLoop_leaves normalize_unmounted fuel container (Some (S L))
              (if DEV && (isHmrUpdating || has (VN.patchFlag v) PatchFlags.DEV_ROOT_FRAGMENT)
               then false
               else if (VN.patchFlag v =? PatchFlags.BAIL)%Z then false
                    else default (if DEV && isHmrUpdating then false
                                  else bool_decide (VN.dynamicChildren v ≠ None)) optimized)
              cs vs [] s4)
    as (s' & Hrun & Hn' & Hfr & Hlen' & Hkids & Hpar & Htr).
  { eapply nodesAt_frame; [|exact Hcs]. intros r Hr. subst s4. cbn [vnodes].
    apply list_lookup_insert_ne. by intros ->. }
  { done. }
  { done. }
  { done. }
  { lia. }
  { rewrite Hk4, Hlen4. rewrite <- app_assoc. cbn [app].
    apply Forall_app. apply Forall_app in Hlt as [H1 H2]. split.
    - eapply Forall_impl; [exact H1|]. cbn. lia.
    - constructor; [lia|]. constructor; [lia|]. eapply Forall_impl; [exact H2|]. cbn. lia. }
  rewrite Hlen4 in *. cbn [app length] in Hrun.
  exists s'. split; [|split; [|split; [done|split; [|split]]]].
  - remember (S fuel) as F eqn:HF. cbn [patch]. unfold patchStep.
    rewrite (bind_ok _ _ _ _ _ (getVNode_ok _ _ _ Hn)).
    rewrite (bool_decide_eq_false_2 (None = Some n)) by done. rewrite bind_ret.
    assert (∀ (k : bool → M unit) b,
              bind (if (VN.patchFlag v =? PatchFlags.BAIL)%Z
                    then setDynamicChildren n None;; ret false else ret b) k s
              = k (if (VN.patchFlag v =? PatchFlags.BAIL)%Z then false else b) s) as Hbail.
    { intros k b. destruct (_ =? _)%Z; [|done].
      rewrite (bind_ok _ _ _ false s); [done|].
      by rewrite (bind_ok _ _ _ _ _ (setDynamicChildren_id _ _ _ Hn (frag_block _ _ Hf))). }
    rewrite Hbail. clear Hbail. rewrite (frag_type _ _ Hf).
    unfold processFragment.
    rewrite bind_assoc. unfold hostCreateText.
    rewrite (bind_ok _ _ _ _ _ (hostCreate_ok _ _ _ _)), bind_ret.
    unfold setEl. erewrite bind_ok; [|by apply modVNode_ok].
    rewrite bind_assoc.
    rewrite (bind_ok _ _ _ _ _ (hostCreate_ok _ _ _ _)), bind_ret.
    cbn [vnodes host trace]. unfold setAnchor.
    erewrite bind_ok.
    2:{ apply modVNode_ok. cbn [vnodes]. apply list_lookup_insert_eq.
        by eapply lookup_lt_Some. }
    cbn [vnodes host trace]. rewrite list_insert_insert_eq.
    rewrite length_app. cbn [length]. rewrite Nat.add_1_r. fold L. fold v'.
    erewrite bind_ok.
    2:{ apply getVNode_ok. cbn [vnodes]. apply list_lookup_insert_eq.
        by eapply lookup_lt_Some. }
    cbn [nonNull]. rewrite !bind_ret.
    rewrite (bind_ok _ _ _ _ _ (acts_ok _ _ _ _ (hostInsert_acts _ _ _))).
    rewrite (bind_ok _ _ _ _ _ (acts_ok _ _ _ _ (hostInsert_acts _ _ _))).
    cbn [vnodes host trace]. rewrite Hch', Hpf', Hch. cbn [expectArray].
    rewrite bind_ret. unfold mountChildren. rewrite Nat.sub_0_r. subst F.
    match goal with
    | |- bind _ _ ?st = _ =>
        replace st with s4 by (subst s4 T; by rewrite <- !app_assoc)
    end.
    rewrite (bind_ok _ _ _ _ _ Hrun).
    eapply writeBack_same; [|by rewrite <- Hch' in Hch].
    rewrite Hfr by done. subst s4. cbn [vnodes]. apply list_lookup_insert_eq.
    by eapply lookup_lt_Some.
  - rewrite Hfr by done. subst s4. cbn [vnodes]. apply list_lookup_insert_eq.
    by eapply lookup_lt_Some.
  - rewrite Hkids, Hk4.
    pose proof (insertBefore_seq (S L :: post) (length cs) (S (S L)) (pre ++ [L])) as Hs.
    cbn [head] in Hs. rewrite Hs.
    + by rewrite <- !app_assoc.
    + intros a [= <-] [Hin|Hin%list_elem_of_singleton]%elem_of_app; [|lia].
      apply HL2, elem_of_app. by left.
    + rewrite <- app_assoc. cbn [app].
      apply Forall_app. apply Forall_app in Hlt as [H1 H2]. split.
      * eapply Forall_impl; [exact H1|]. cbn. lia.
      * constructor; [lia|]. constructor; [lia|].
        eapply Forall_impl; [exact H2|]. cbn. lia.
  - intros x Hx. rewrite Hpar. case_decide as Hr; [done|].
    apply elem_of_cons in Hx as [->|Hx%elem_of_seq]; [|lia].
    subst s4. cbn [host].
    rewrite parentOf_insert by (rewrite length_host_insert, !length_app; cbn; lia).
    rewrite decide_False by lia.
    rewrite parentOf_insert by (rewrite !length_app; cbn; lia).
    by rewrite decide_True.
  - rewrite Htr. subst s4. cbn [trace]. by rewrite <- app_assoc.
Qed.

End Fragments.

(** ** Moving a fragment *)

Section MoveBlock.

Lemma NoDup_insertBefore anchor (x : Handle) l :
  NoDup l → x ∉ l → NoDup (insertBefore anchor x l).
Proof.
  intros Hnd Hx. destruct anchor as [a|]; cbn [insertBefore].
  - induction l as [|y l IH]; cbn [insertAt]; [by apply NoDup_singleton|].
    apply NoDup_cons in Hnd as [Hy Hnd]. apply not_elem_of_cons in Hx as [Hxy Hx].
    destruct (decide (y = a)).
    + constructor; [|by constructor]. by intros [?|?]%elem_of_cons.
    + constructor; [|by apply IH]. rewrite elem_of_insertAt. by intros [?|?].
  - apply NoDup_app. split; [done|]. split; [|apply NoDup_singleton].
    by intros y Hy ->%list_elem_of_singleton.
Qed.

Lemma NoDup_without (x : Handle) l : NoDup l → NoDup (without x l).
Proof. apply NoDup_filter. Qed.

(** Inserting the nodes [R], one after the other, in front of the same
    anchor: they end in a row, in their order, in front of the anchor. *)
Lemma move_block (B : list Handle) : ∀ R D K A,
  NoDup K → NoDup R →
  filter (λ x, x ∉ R) K = A ++ D ++ B →
  foldl (λ K x, insertBefore (head B) x (without x K)) K R = A ++ D ++ R ++ B.
Proof.
  induction R as [|x R IH]; intros D K A HK HR HF; cbn [foldl].
  { cbn [app]. rewrite <- HF. symmetry. apply filter_all. intros y _.
    by intros ?%elem_of_nil. }
  apply NoDup_cons in HR as [HxR HR].
  assert (filter (λ y, y ∉ R) (without x K) = A ++ D ++ B) as HF'.
  { rewrite <- HF. unfold without. rewrite list_filter_filter. apply list_filter_iff.
    intros y. rewrite not_elem_of_cons. tauto. }
  assert (NoDup (A ++ D ++ B)) as Hnd.
  { rewrite <- HF. by apply NoDup_filter. }
  rewrite (IH (D ++ [x]) _ A).
  - by rewrite <- !app_assoc.
  - apply NoDup_insertBefore; [by apply NoDup_without|].
    rewrite elem_of_without. by intros [_ ?].
  - done.
  - destruct B as [|b B']; cbn [head insertBefore].
    + rewrite filter_app, HF', !app_nil_r. rewrite filter_cons_True by done.
      by rewrite <- app_assoc.
    + assert (b ∉ R) as HbR.
      { assert (b ∈ filter (λ y, y ∉ R) (without x K)) as Hb.
        { rewrite HF'. apply elem_of_app. right. apply elem_of_app. right. by left. }
        by apply list_elem_of_filter in Hb as [? _]. }
      rewrite filter_insertAt by done. rewrite HF'.
      rewrite (app_assoc A D), insertAt_app.
      * by rewrite <- !app_assoc.
      * rewrite (app_assoc A D) in Hnd. apply NoDup_app in Hnd as (_ & Hd & _).
        intros Hin. apply (Hd b Hin). by left.
Qed.

Lemma kidsOf_insert_all container anchor (F : list Handle) : ∀ h,
  container < length h →
  kidsOf (foldl (λ h x, host_insert h x container anchor) h F) container
  = foldl (λ K x, insertBefore anchor x (without x K)) (kidsOf h container) F.
Proof.
  induction F as [|x F IH]; intros h Hc; cbn [foldl]; [done|].
  rewrite IH by (by rewrite length_host_insert). by rewrite kidsOf_insert.
Qed.

End MoveBlock.

Section MoveFragment.
Context `{Env}.

(** [move] on a mounted leaf is one insertion. *)
Lemma move_leaf_run fuel c container anchor moveType s v el :
  vnodes s !! c = Some v → Leaf v → VN.el v = Some el →
  move (S fuel) c container anchor moveType s
  = Ok tt (mkState (vnodes s) (host_insert (host s) el container anchor)
             (trace s ++ [HostInsert el container anchor])).
Proof.
  intros Hc Hl Hel. cbn [move].
  rewrite (bind_ok _ _ _ _ _ (getVNode_ok _ _ _ Hc)).
  rewrite (leaf_component _ Hl), (leaf_suspense _ Hl), (leaf_teleport _ Hl),
    (leaf_transition _ Hl), Hel.
  assert (bool_decide (VN.type v = Fragment) = false) as ->.
  { apply bool_decide_eq_false_2.
    destruct (leaf_type _ Hl) as [Ht|[Ht|[[t Ht] _]]]; by rewrite Ht. }
  assert (bool_decide (VN.type v = Static) = false) as ->.
  { apply bool_decide_eq_false_2.
    destruct (leaf_type _ Hl) as [Ht|[Ht|[[t Ht] _]]]; by rewrite Ht. }
  rewrite (bool_decide_eq_false_2 (None ≠ None)) by (by intros ?).
  rewrite andb_false_r. cbn [nonNull]. rewrite bind_ret.
  apply (acts_ok _ _ _ _ (hostInsert_acts _ _ _)).
Qed.

Lemma moveLoop_leaves fuel container anchor moveType : ∀ cs vs els s,
  NodesAt s cs vs → Forall Leaf vs → Forall2 (λ v el, VN.el v = Some el) vs els →
  forM cs (λ c, move (S fuel) c container anchor moveType) s
  = Ok tt (mkState (vnodes s)
             (foldl (λ h x, host_insert h x container anchor) (host s) els)
             (trace s ++ ((λ x, HostInsert x container anchor) <$> els))).
Proof.
  induction cs as [|c cs IH]; intros vs els s Hn Hl Hel.
  { apply Forall2_nil_inv_l in Hn as ->. apply Forall2_nil_inv_l in Hel as ->.
    cbn. rewrite app_nil_r. by destruct s. }
  destruct vs as [|v vs]; [by apply Forall2_cons_nil_inv in Hn|].
  destruct els as [|el els]; [by apply Forall2_cons_nil_inv in Hel|].
  apply nodesAt_cons in Hn as [Hc Hn]. apply Forall_cons in Hl as [Hlv Hl].
  apply Forall2_cons in Hel as [Helv Hel].
  cbn [forM].
  rewrite (bind_ok _ _ _ _ _ (move_leaf_run fuel c container anchor moveType s v el
                                Hc Hlv Helv)).
  rewrite (IH vs els) by done. cbn [vnodes host trace foldl fmap list_fmap].
  by rewrite <- app_assoc.
Qed.

(** [move] on a mounted fragment of leaves: the call returns; the start
    anchor, the children and the end anchor are inserted in front of the
    anchor, one after the other, and end in a row, in this order, in
    front of the anchor; the other children of the container keep their
    order. *)
Theorem fragment_move fuel n v container anchor moveType s cs vs start ending els A B :
  vnodes s !! n = Some v → IsFragment v cs →
  VN.el v = Some start → VN.anchor v = Some ending →
  NodesAt s cs vs → Forall Leaf vs → Forall2 (λ v el, VN.el v = Some el) vs els →
  container < length (host s) →
  NoDup (kidsOf (host s) container) → NoDup (start :: els ++ [ending]) →
  filter (λ x, x ∉ start :: els ++ [ending]) (kidsOf (host s) container) = A ++ B →
  anchor = head B →
  ∃ s',
    move (S (S fuel)) n container anchor moveType s = Ok tt s'
    ∧ vnodes s' = vnodes s
    ∧ kidsOf (host s') container = A ++ start :: els ++ ending :: B
    ∧ trace s' = trace s ++ ((λ x, HostInsert x container anchor) <$> start :: els ++ [ending]).
Proof.
  intros Hn Hf Hel Han Hcs Hl Hels Hc HK HF Hfil ->.
  destruct (frag_children _ _ Hf) as [id Hch].
  eexists. split.
  - remember (S fuel) as F eqn:HFu. cbn [move].
    rewrite (bind_ok _ _ _ _ _ (getVNode_ok _ _ _ Hn)).
    rewrite (frag_component _ _ Hf), (frag_suspense _ _ Hf), (frag_teleport _ _ Hf),
      (frag_type _ _ Hf), Hel, Han, Hch.
    rewrite (bool_decide_eq_true_2 (Fragment = Fragment)) by done.
    cbn [nonNull asArray]. rewrite bind_ret.
    rewrite (bind_ok _ _ _ _ _ (acts_ok _ _ _ _ (hostInsert_acts _ _ _))).
    subst F.
    rewrite (bind_ok _ _ _ _ _
               (moveLoop_leaves fuel container (head B) moveType cs vs els
                  (mkState (vnodes s) (host_insert (host s) start container (head B))
                     (trace s ++ [HostInsert start container (head B)]))
                  Hcs Hl Hels)).
    rewrite bind_ret.
    apply (acts_ok _ _ _ _ (hostInsert_acts _ _ _)).
  - cbn [vnodes host trace]. split; [done|]. split.
    + change (host_insert (foldl (λ h x, host_insert h x container (head B))
                             (host_insert (host s) start container (head B)) els)
                ending container (head B))
        with (foldl (λ h x, host_insert h x container (head B))
                (foldl (λ h x, host_insert h x container (head B)) (host s) (start :: els))
                [ending]).
      rewrite <- foldl_app, <- app_comm_cons.
      rewrite kidsOf_insert_all by done.
      rewrite (move_block B (start :: els ++ [ending]) [] _ A); try done.
      cbn [app]. by rewrite <- app_assoc.
    + rewrite <- !app_assoc. cbn [fmap list_fmap app]. rewrite fmap_app. done.
Qed.

End MoveFragment.

(** ** Replacing a leaf by a leaf of another type *)

Section ReplaceLeaf.
Context `{Env}.

Lemma getNextHostNode_leaf n v el container s pre post :
  vnodes s !! n = Some v → Leaf v → VN.el v = Some el → VN.anchor v = None →
  parentOf (host s) el = Some container →
  kidsOf (host s) container = pre ++ el :: post → el ∉ pre →
  getNextHostNode n s = Ok (head post) s.
Proof.
  intros Hn Hl Hel Han Hp Hk Hpre. unfold getNextHostNode.
  rewrite (bind_ok _ _ _ _ _ (getVNode_ok _ _ _ Hn)).
  rewrite (leaf_component _ Hl), (leaf_suspense _ Hl), Han, Hel. cbn [nonNull].
  rewrite bind_ret. unfold hostNextSibling, getHost, bind, ret, host_nextSibling.
  rewrite Hp. cbn [mbind option_bind]. by rewrite Hk, nextAfter_middle.
Qed.

(** [patch] of a mounted leaf against a leaf that is not of the same
    type: the call returns; the old host node is removed and the new
    vnode is mounted as a new host node where the old one stood among
    the children of the container, whatever anchor the caller gave. *)
Theorem leaf_replaced_in_place fuel n1 n2 container anchor optimized s v1 v2 el pre post :
  n1 ≠ n2 →
  vnodes s !! n1 = Some v1 → vnodes s !! n2 = Some v2 →
  Leaf v1 → Leaf v2 → isSameVNodeType v1 v2 = false →
  VN.el v1 = Some el → VN.anchor v1 = None →
  container < length (host s) →
  parentOf (host s) el = Some container →
  kidsOf (host s) container = pre ++ el :: post →
  NoDup (pre ++ el :: post) →
  Forall (λ h, h < length (host s)) (pre ++ el :: post) →
  let L := length (host s) in
  ∃ s',
    patch (S (S fuel)) (Some n1) n2 container anchor optimized s = Ok tt s'
    ∧ vnodes s' = <[n2 := VN.with_el (Some L) v2]> (vnodes s)
    ∧ kidsOf (host s') container = pre ++ L :: post
    ∧ trace s' = trace s ++ leafUnmountEvents n1 v1 el
                 ++ leafMountEvents n2 v2 L container (head post).
Proof.
  intros Hne H1 H2 Hl1 Hl2 Hsame Hel Han Hc Hp Hk Hnd Hlt L.
  assert (el ∉ pre) as Hpre.
  { apply NoDup_app in Hnd as (_ & Hd & _). intros Hin. apply (Hd _ Hin). by left. }
  pose proof (getNextHostNode_leaf n1 v1 el container s pre post H1 Hl1 Hel Han Hp Hk Hpre)
    as Hnext.
  pose proof (unmount_leaf_run fuel n1 false s v1 el H1 Hl1 Hel) as Hun.
  set (s2 := mkState _ _ _) in Hun.
  assert (vnodes s2 !! n2 = Some v2) as H2' by done.
  pose proof (mount_leaf_run (S fuel) n2 container (head post) optimized s2 v2 H2' Hl2) as Hm.
  cbv zeta in Hm.
  assert (length (host s2) = L) as HL2.
  { subst s2. cbn [host]. by rewrite length_detach. }
  rewrite HL2 in Hm. set (s3 := mkState _ _ _) in Hm.
  exists s3. split; [|split; [done|split]].
  - rewrite <- Hm. remember (S fuel) as F eqn:HF. cbn [patch]. unfold patchStep at 1.
    rewrite (bind_ok _ _ _ _ _ (getVNode_ok _ _ _ H2)).
    rewrite bool_decide_eq_false_2 by congruence.
    rewrite !bind_assoc.
    rewrite (bind_ok _ _ _ _ _ (getVNode_ok _ _ _ H1)).
    rewrite Hsame. cbn [negb]. rewrite !bind_assoc.
    rewrite (bind_ok _ _ _ _ _ Hnext). rewrite !bind_assoc.
    subst F. rewrite (bind_ok _ _ _ _ _ Hun). rewrite bind_ret.
    unfold patchStep. rewrite (bind_ok _ _ _ _ _ (getVNode_ok _ _ _ H2')).
    rewrite (bool_decide_eq_false_2 (None = Some n2)) by done. by rewrite bind_ret.
  - subst s3 s2. cbn [host].
    rewrite kidsOf_insert by (rewrite length_app, length_detach; lia).
    rewrite kidsOf_app by (rewrite length_detach; lia).
    rewrite kidsOf_detach, Hk, without_middle by done.
    assert (L ∉ pre ++ post) as HL.
    { intros Hin. rewrite Forall_forall in Hlt.
      assert (L < L); [|lia]. apply Hlt.
      apply elem_of_app in Hin as [?|?]; apply elem_of_app; [by left|right; by right]. }
    rewrite without_notin by done.
    destruct post as [|a post']; cbn [head insertBefore].
    + by rewrite app_nil_r.
    + apply insertAt_app. intros Hin. apply NoDup_app in Hnd as (_ & Hd & _).
      apply (Hd a Hin). right. by left.
  - subst s3 s2. cbn [trace]. by rewrite <- app_assoc.
Qed.

End ReplaceLeaf.

(** ** The dynamic children of a block *)

Section BlockChildren.
Context `{Env}.
Variable tag : string.
Variable fallbackContainer : Handle.

Lemma blockLoop_plain fuel (r1 : list vref) : ∀ (os : list OldPlain) (ns : list NewPlain) d1 d2 s,
  length os = length ns → length d1 = length d2 →
  NoDup ((p_ref <$> os) ++ (q_ref <$> ns)) →
  (∀ o, o ∈ os → vnodes s !! p_ref o = Some (plain tag (p_text o) (Some (p_el o)))) →
  (∀ n, n ∈ ns → vnodes s !! q_ref n = Some (plain tag (q_text n) None)) →
  ∃ s',
    forM (seq (length d2) (length ns)) (λ i,
      oldVNode <- nonNull (Some (d1 ++ (p_ref <$> os) ++ r1) ≫= λ l, l !! i);;
      newVNode <- nonNull ((d2 ++ (q_ref <$> ns)) !! i);;
      vo <- getVNode oldVNode;;
      vn <- getVNode newVNode;;
      container <-
        match VN.el vo with
        | Some oel =>
            if bool_decide (VN.type vo = Fragment) ||
               negb (isSameVNodeType vo vn) ||
               has (VN.shapeFlag vo) (Z.lor ShapeFlags.COMPONENT ShapeFlags.TELEPORT)
            then p <- hostParentNode oel;; nonNull p
            else ret fallbackContainer
        | None => ret fallbackContainer
        end;;
      patch (S fuel) (Some oldVNode) newVNode container None (Some true)) s
    = Ok tt s'
    ∧ NodesAt s' (q_ref <$> ns)
        (zip_with (λ o n, plain tag (q_text n) (Some (p_el o))) os ns)
    ∧ (∀ r, r ∉ q_ref <$> ns → vnodes s' !! r = vnodes s !! r)
    ∧ (DEV && isHmrUpdating = false → host s' = host s)
    ∧ trace s' = trace s ++ (zip os ns ≫= plainPatch (writesText true)).
Proof.
  induction os as [|o os IH]; intros ns d1 d2 s Hlen Hd Hnd Ho Hn.
  { destruct ns; [|done]. exists s. cbn. rewrite app_nil_r.
    split; [done|]. split; [constructor|]. done. }
  destruct ns as [|n ns]; [done|].
  cbn [fmap list_fmap app length seq forM zip zip_with] in *.
  apply NoDup_cons in Hnd as [Hon Hnd].
  assert (NoDup ((p_ref <$> os) ++ (q_ref <$> ns)) ∧ (q_ref n ∉ q_ref <$> ns)
          ∧ (q_ref n ∉ p_ref <$> os) ∧ p_ref o ≠ q_ref n) as (Hnd' & Hnn & Hno & Hne).
  { apply NoDup_app in Hnd as (H1 & H2 & H3). apply NoDup_cons in H3 as [H3 H4].
    split; [|split; [done|split]].
    - apply NoDup_app. split; [done|]. split; [|done].
      intros r Hr Hr'. apply (H2 r Hr). by right.
    - intros Hin. apply (H2 _ Hin). by left.
    - intros E. apply Hon. apply elem_of_app. right. rewrite E. by left. }
  pose proof (Ho o ltac:(by left)) as Hov. pose proof (Hn n ltac:(by left)) as Hnv.
  pose proof (patch_plain tag fallbackContainer true fuel (p_ref o) (q_ref n) s _ _ _ _
                Hne Hov Hnv) as Hp.
  cbv zeta in Hp. set (s1 := mkState _ _ _) in Hp.
  assert (isSameVNodeType (plain tag (p_text o) (Some (p_el o))) (plain tag (q_text n) None)
          = true) as Hsame.
  { unfold isSameVNodeType. cbn. by rewrite !bool_decide_eq_true_2. }
  assert (bind (nonNull (Some (d1 ++ p_ref o :: (p_ref <$> os) ++ r1)
                         ≫= λ l, l !! length d2))
            (λ oldVNode,
               bind (nonNull ((d2 ++ q_ref n :: (q_ref <$> ns)) !! length d2))
                 (λ newVNode,
                    bind (getVNode oldVNode)
                      (λ vo,
                         bind (getVNode newVNode)
                           (λ vn,
                              bind
                                match VN.el vo with
                                | Some oel =>
                                    if bool_decide (VN.type vo = Fragment)
                                       || negb (isSameVNodeType vo vn)
                                       || has (VN.shapeFlag vo)
                                            (Z.lor ShapeFlags.COMPONENT ShapeFlags.TELEPORT)
                                    then bind (hostParentNode oel) (λ p, nonNull p)
                                    else ret fallbackContainer
                                | None => ret fallbackContainer
                                end
                                (λ container,
                                   patch (S fuel) (Some oldVNode) newVNode container None
                                     (Some true)))))) s
          = Ok tt s1) as Hstep.
  { cbn [mbind option_bind]. rewrite <- Hd at 1. rewrite !list_lookup_middle by done.
    cbn [nonNull]. rewrite !bind_ret.
    rewrite (bind_ok _ _ _ _ _ (getVNode_ok _ _ _ Hov)).
    rewrite (bind_ok _ _ _ _ _ (getVNode_ok _ _ _ Hnv)).
    rewrite Hsame.
    cbn [plain VN.el VN.type VN.shapeFlag].
    rewrite (bool_decide_eq_false_2 (Tag tag = Fragment)) by done.
    cbn [negb orb]. repeat flag_step. cbv iota. rewrite bind_ret. exact Hp. }
  rewrite (bind_ok _ _ s tt s1 Hstep).
  destruct (IH ns (d1 ++ [p_ref o]) (d2 ++ [q_ref n]) s1)
    as (s' & Hrun & Hn' & Hfr & Hhost & Htr).
  - lia.
  - rewrite !length_app. cbn. lia.
  - done.
  - intros o' Ho'. subst s1. cbn [vnodes]. rewrite list_lookup_insert_ne.
    + apply Ho. by right.
    + intros E. apply Hno. rewrite E. apply list_elem_of_fmap. by exists o'.
  - intros n' Hn''. subst s1. cbn [vnodes]. rewrite list_lookup_insert_ne.
    + apply Hn. by right.
    + intros E. apply Hnn. rewrite E. apply list_elem_of_fmap. by exists n'.
  - exists s'. rewrite !length_app in Hrun. cbn [length] in Hrun.
    rewrite !Nat.add_1_r, <- !app_assoc in Hrun. cbn [app] in Hrun.
    split; [exact Hrun|]. split; [|split; [|split]].
    + apply nodesAt_cons. split; [|done]. rewrite Hfr by done. subst s1. cbn [vnodes].
      apply list_lookup_insert_eq. by eapply lookup_lt_Some.
    + intros r Hr. apply not_elem_of_cons in Hr as [Hr1 Hr2].
      rewrite (Hfr r Hr2). subst s1. cbn [vnodes]. by apply list_lookup_insert_ne.
    + intros Hhmr. rewrite (Hhost Hhmr). subst s1. cbn [host].
      unfold writesText. cbn [negb orb]. by rewrite Hhmr.
    + rewrite Htr. subst s1. cbn [trace]. rewrite bind_cons, <- app_assoc. done.
Qed.

(** [patchBlockChildren] on children without keys: the call returns;
    the new dynamic children are patched, each against the old one at
    its index, as optimized patches, and inherit the host elements; the
    old dynamic children beyond the new list are left alone; no host
    node is made, removed or moved, and outside of hot module
    replacement the host is not touched at all. *)
Theorem patchBlockChildren_pairwise fuel s (olds : list OldPlain) (news : list NewPlain)
    rest :
  length olds = length news →
  NoDup ((p_ref <$> olds) ++ (q_ref <$> news)) →
  (∀ o, o ∈ olds → vnodes s !! p_ref o = Some (plain tag (p_text o) (Some (p_el o)))) →
  (∀ n, n ∈ news → vnodes s !! q_ref n = Some (plain tag (q_text n) None)) →
  ∃ s',
    patchBlockChildren (patch (S fuel)) (Some ((p_ref <$> olds) ++ rest)) (q_ref <$> news)
      fallbackContainer s = Ok tt s'
    ∧ NodesAt s' (q_ref <$> news)
        (zip_with (λ o n, plain tag (q_text n) (Some (p_el o))) olds news)
    ∧ (∀ r, r ∉ q_ref <$> news → vnodes s' !! r = vnodes s !! r)
    ∧ trace s' = trace s ++ (zip olds news ≫= plainPatch (DEV && isHmrUpdating))
    ∧ (DEV && isHmrUpdating = false → host s' = host s ∧ trace s' = trace s).
Proof.
  intros Hlen Hnd Ho Hn.
  destruct (blockLoop_plain fuel rest olds news [] [] s Hlen eq_refl Hnd Ho Hn)
    as (s' & Hrun & Hn' & Hfr & Hhost & Htr).
  exists s'. unfold patchBlockChildren. rewrite length_fmap.
  split; [exact Hrun|]. split; [done|]. split; [done|]. split; [exact Htr|].
  intros Hhmr. split; [by apply Hhost|].
  rewrite Htr. unfold writesText. cbn [negb orb]. rewrite Hhmr. clear Htr.
  assert (zip olds news ≫= plainPatch false = []) as ->; [|by rewrite app_nil_r].
  induction (zip olds news) as [|x l IH]; [done|]. rewrite bind_cons, IH.
  unfold plainPatch. by cbn [andb].
Qed.

End BlockChildren.

(** * The properties on examples *)

Section Examples.
#[local] Existing Instance devEnv.

Lemma example_normalize dev r s v :
  vnodes s !! r = Some v → VN.el v = None →
  @normalizeVNode (exampleEnv dev) r s = Ok r s
  ∧ @cloneIfMounted (exampleEnv dev) r s = Ok r s.
Proof.
  intros Hr Hel. cbn. unfold cloneIfMountedImpl. mrun. by rewrite Hel.
Qed.

Lemma abc_mounted news : MountedItems "li" 0 (listState "li" abc news) abc.
Proof.
  split;
    try (intros i o Hi; repeat (destruct i as [|i]; cbn in Hi; [injection Hi as <-|]);
         try done; vm_compute; try done; lia).
  - done.
  - vm_compute. lia.
  - compute_done.
Qed.

Lemma ab_mounted news : MountedItems "li" 0 (listState "li" ab news) ab.
Proof.
  split;
    try (intros i o Hi; repeat (destruct i as [|i]; cbn in Hi; [injection Hi as <-|]);
         try done; vm_compute; try done; lia).
  - done.
  - vm_compute. lia.
  - compute_done.
Qed.

Lemma example_fresh olds news l :
  (∀ j n, l !! j = Some n → news !! (n_ref n - length olds) = Some n
                            ∧ length olds ≤ n_ref n) →
  FreshItems "li" (listState "li" olds news) l.
Proof.
  intros Hl j n Hj. destruct (Hl j n Hj) as [Hn Hle]. cbn [listState vnodes].
  rewrite lookup_app_r by (by rewrite length_fmap).
  by rewrite length_fmap, list_lookup_fmap, Hn.
Qed.

Ltac fresh_tac :=
  apply example_fresh; intros j n Hj;
  repeat (destruct j as [|j]; cbn in Hj;
          [injection Hj as <-; split; [reflexivity|vm_compute; lia]|]);
  done.



(** C5: a witness. *)
Lemma patch_same_reference_witness :
  patch 1 (Some 0) 0 0 None None
    (pairState HText (textNode "a") (textNode "b"))
  = Ok tt (pairState HText (textNode "a") (textNode "b")).
Proof.
  by apply (@patch_same_reference devEnv 0 0 0 None None _
              (mounted 1 (textNode "a"))).
Defined.

(** C8: a witness, the text "a" patched against the text "b". *)
Lemma patch_text_comment_reuse_witness :
  ∃ s', patch 1 (Some 0) 1 0 None None
          (pairState HText (textNode "a") (textNode "b")) = Ok tt s'
        ∧ VN.el <$> vnodes s' !! 1 = Some (Some 1)
        ∧ length (host s') = 2
        ∧ trace s' = [HostSetText 1 "b"].
Proof.
  destruct (@patch_text_comment_reuse devEnv 0 0 1 0 None None
              (pairState HText (textNode "a") (textNode "b"))
              (mounted 1 (textNode "a")) (textNode "b") 1)
    as (s' & Hrun & Hel & Hlen & Htr & _); try done; [by left|].
  by exists s'.
Defined.

(** C8: the comment "a" patched against the comment "b" leaves the host
    as it is, although the contents differ. *)
Lemma comment_content_not_updated :
  ∃ s', patch 1 (Some 0) 1 0 None None
          (pairState HComment (commentNode "a") (commentNode "b")) = Ok tt s'
        ∧ childrenDiffer (CText "b") (CText "a") = true
        ∧ host s' = host (pairState HComment (commentNode "a") (commentNode "b"))
        ∧ trace s' = [].
Proof. eexists. by vm_compute. Qed.












(** ** The further properties on examples *)

Lemma getSequence_seeded_witness :
  getSequence [0; 5; 1; 2] = [0; 2; 3]
  ∧ StronglySorted lt (rd [0; 5; 1; 2] <$> getSequence [0; 5; 1; 2])
  ∧ 1 ≤ length (getSequence [0; 5; 1; 2]) ≤ 4.
Proof.
  split; [reflexivity|].
  destruct (getSequence_seeded [0; 5; 1; 2]) as (_ & Hv & _ & Hl & _); done.
Defined.

Lemma getSequence_increasing_witness : getSequence [2; 3; 7; 9] = [0; 1; 2; 3].
Proof.
  apply (getSequence_increasing [2; 3; 7; 9]); [|by repeat constructor|done].
  repeat (constructor; [|repeat constructor; lia]). constructor.
Defined.

Lemma getSequence_decreasing_witness : length (getSequence [4; 3; 2; 1]) = 1.
Proof.
  apply (getSequence_decreasing [4; 3; 2; 1]); [|by repeat constructor|done].
  intros i j Hij Hj. cbn in Hj.
  destruct j as [|[|[|[|j]]]]; destruct i as [|[|[|[|i]]]]; cbn; lia.
Defined.



Lemma patchProps_skips_reserved_witness :
  ∃ es,
    patchProps 1 (Some (titleProps 7 "a")) (Some (titleProps 8 "b")) (mkState [] [] [])
    = Ok tt (mkState [] [] es)
    ∧ ∀ e, e ∈ es →
        ∃ key prev next, e = HostPatchProp 1 key prev next ∧ isReservedProp key = false.
Proof.
  by apply (patchProps_skips_reserved 1 (Some (titleProps 7 "a")) (Some (titleProps 8 "b"))
              (mkState [] [] [])).
Defined.

Lemma unmount_keeps_host_witness :
  ∃ s', unmount 1 0 false false (listState "li" abc []) = Ok tt s'
        ∧ host s' = host (listState "li" abc [])
        ∧ ∃ es, trace s' = es ∧ Forall notHostOp es.
Proof.
  pose proof (unmount_keeps_host 1 0 false (listState "li" abc []) tt) as Hw.
  set (r := unmount 1 0 false false (listState "li" abc [])) in *.
  vm_compute in r. subst r.
  destruct (Hw _ eq_refl) as (_ & Hh & es & Ht & Hes).
  eexists. split; [reflexivity|]. split; [done|]. by exists es.
Defined.

Lemma unmount_only_removes_witness :
  ∃ s', unmount 1 0 true false (listState "li" abc []) = Ok tt s'
        ∧ length (host s') = 4
        ∧ ∃ es, trace s' = es ∧ Forall removesOnly es.
Proof.
  pose proof (unmount_only_removes 1 0 true false (listState "li" abc []) tt) as Hw.
  set (r := unmount 1 0 true false (listState "li" abc [])) in *.
  vm_compute in r. subst r.
  destruct (Hw _ eq_refl) as (_ & Hh & es & Ht & Hes).
  eexists. split; [reflexivity|]. split; [done|]. by exists es.
Defined.

Lemma move_reorder_only_inserts_witness :
  ∃ s', move 1 2 0 (Some 1) REORDER (listState "li" abc []) = Ok tt s'
        ∧ kidsOf (host s') 0 = [3; 1; 2]
        ∧ ∃ es, trace s' = es ∧ Forall (λ e, ∃ el, e = HostInsert el 0 (Some 1)) es.
Proof.
  pose proof (move_reorder_only_inserts 1 0 (Some 1) 2 (listState "li" abc []) tt) as Hw.
  set (r := move 1 2 0 (Some 1) REORDER (listState "li" abc [])) in *.
  vm_compute in r. subst r.
  destruct (Hw _ eq_refl) as (_ & Hh & es & Ht & Hes).
  eexists. split; [reflexivity|]. split; [reflexivity|]. by exists es.
Defined.

Lemma mountElement_leaf_witness :
  ∃ s' es,
    mountElement (patch 0) 1 0 None false
      (pairState HText (textNode "t")
         (flagged "input" "" 0 None (Some (valueProps 7 "v")))) = Ok tt s'
    ∧ kidsOf (host s') 0 = [1; 2]
    ∧ trace s' = es
    ∧ hostOps es = [HostCreateElement "input" 2; HostSetElementText 2 "";
                    HostPatchProp 2 "id" VNull (VStr "x");
                    HostPatchProp 2 "value" VNull (VStr "v");
                    HostInsert 2 0 None].
Proof.
  destruct (mountElement_leaf (patch 0) 1 0 None false
              (pairState HText (textNode "t")
                 (flagged "input" "" 0 None (Some (valueProps 7 "v"))))
              (flagged "input" "" 0 None (Some (valueProps 7 "v"))) eq_refl eq_refl)
    as (s' & es & Hrun & _ & _ & Hk & _ & Ht & Hops).
  exists s', es. split; [done|]. split; [by apply Hk; cbn; lia|]. by split.
Defined.

Lemma leaf_mount_unmount_witness :
  ∃ s1 s2,
    patch 1 None 3 0 (Some 2) None (listState "li" abc [liNew 3 9 "x"]) = Ok tt s1
    ∧ kidsOf (host s1) 0 = [1; 4; 2; 3]
    ∧ unmount 1 3 true false s1 = Ok tt s2
    ∧ kidsOf (host s2) 0 = [1; 2; 3].
Proof.
  destruct (leaf_mount_unmount 0 0 3 0 (Some 2) None false
              (listState "li" abc [liNew 3 9 "x"]) (item "li" (KNum 9) "x" None))
    as (s1 & s2 & es1 & es2 & Hm & _ & Hk1 & Hu & Hk2 & _).
  - done.
  - by split; [right; right; split; [by exists "li"|]|..].
  - cbn. lia.
  - by repeat constructor.
  - by exists s1, s2.
Defined.




Lemma keyed_diff_shows_new_list_witness :
  ∃ s' hs,
    patchKeyedChildren 1 (patch 1) (o_ref <$> abc) (n_ref <$> cxa) 0 None false
      (listState "li" abc cxa) = Ok (n_ref <$> cxa) s'
    ∧ kidsOf (host s') 0 = hs
    ∧ textOf (host s') <$> hs = ["c"; "x"; "a"].
Proof.
  destruct (keyed_diff_shows_new_list "li" 0 false 0 (example_normalize true)
              (listState "li" abc cxa) abc cxa)
    as (s' & hs & Hrun & Hk & _ & Htx & _).
  - compute_done.
  - compute_done.
  - apply abc_mounted.
  - fresh_tac.
  - reflexivity.
  - exists s', hs. split; [exact Hrun|]. split; [exact Hk|exact Htx].
Defined.

Lemma mountChildren_in_order_witness :
  ∃ s', mountChildren (patch 1) [6; 7] 0 (Some 2) false 0 familyState = Ok [6; 7] s'
        ∧ kidsOf (host s') 0 = [1; 3; 4; 2].
Proof.
  destruct (mountChildren_in_order (example_normalize true) 0 [6; 7]
              [plain "li" "c" None; plain "li" "d" None] 0 (Some 2) false familyState
              [1] [2])
    as (s' & Hrun & _ & _ & Hk & _).
  - compute_done.
  - by repeat constructor.
  - repeat (constructor; [apply plain_leaf|]). constructor.
  - by repeat constructor.
  - cbn. lia.
  - done.
  - done.
  - compute_done.
  - repeat constructor; cbn; lia.
  - exists s'. split; [exact Hrun|exact Hk].
Defined.

Lemma patchChildren_array_to_text_witness :
  ∃ s' es,
    patchChildren 1 (patch 1) 0 1 0 None false familyState = Ok tt s'
    ∧ kidsOf (host s') 0 = []
    ∧ textOf (host s') 0 = "hi"
    ∧ trace s' = es
    ∧ hostOps es = [HostSetElementText 0 "hi"].
Proof.
  destruct (patchChildren_array_to_text 0 0 1 (listNode "ul" 7 [3; 4]) (plain "ul" "hi" None)
              0 familyState eq_refl eq_refl eq_refl eq_refl None false 7 [3; 4]
              [plain "li" "a" (Some 1); plain "li" "b" (Some 2)] "hi")
    as (s' & es & Hrun & _ & Hh & Hk & Ht & Hops).
  - done.
  - done.
  - done.
  - done.
  - by repeat constructor.
  - repeat (constructor; [apply plain_leaf|]). constructor.
  - exists s', es. split; [exact Hrun|]. split; [exact Hk|].
    split; [rewrite Hh; reflexivity|]. split; [exact Ht|exact Hops].
Defined.

Lemma patchChildren_array_to_none_witness :
  ∃ s' es,
    patchChildren 1 (patch 1) 0 2 0 None false familyState = Ok tt s'
    ∧ kidsOf (host s') 0 = []
    ∧ trace s' = es
    ∧ hostOps es = [HostRemove 1; HostRemove 2].
Proof.
  destruct (patchChildren_array_to_none 0 0 2 (listNode "ul" 7 [3; 4]) (emptyNode "ul")
              0 familyState eq_refl eq_refl eq_refl eq_refl None false 7 [3; 4]
              [plain "li" "a" (Some 1); plain "li" "b" (Some 2)] [1; 2] [] [])
    as (s' & es & Hrun & _ & _ & Hk & Ht & Hops).
  - done.
  - done.
  - done.
  - done.
  - by repeat constructor.
  - repeat (constructor; [apply plain_leaf|]). constructor.
  - by repeat constructor.
  - done.
  - compute_done.
  - exists s', es. split; [exact Hrun|]. split; [exact Hk|]. split; [exact Ht|exact Hops].
Defined.

Lemma patchChildren_text_to_array_witness :
  ∃ s', patchChildren 1 (patch 1) 1 5 0 None false familyState = Ok tt s'
        ∧ kidsOf (host s') 0 = [3; 4].
Proof.
  destruct (patchChildren_text_to_array (example_normalize true) 0 1 5
              (plain "ul" "hi" None) (listNode "ul" 8 [6; 7]) 0 false familyState 8 [6; 7]
              [plain "li" "c" None; plain "li" "d" None])
    as (s' & Hrun & _ & _ & Hk & _).
  - done.
  - done.
  - done.
  - done.
  - done.
  - done.
  - done.
  - done.
  - done.
  - compute_done.
  - compute_done.
  - by repeat constructor.
  - repeat (constructor; [apply plain_leaf|]). constructor.
  - by repeat constructor.
  - cbn. lia.
  - exists s'. split; [exact Hrun|exact Hk].
Defined.

Lemma unkeyed_diff_by_position_witness :
  ∃ s',
    patchUnkeyedChildren 1 (patch 1) [3; 4] [6; 7; 11] 0 None false familyState
      = Ok [6; 7; 11] s'
    ∧ kidsOf (host s') 0 = [1; 2; 3]
    ∧ trace s' = [HostSetElementText 1 "c"; HostSetElementText 2 "d";
                  HostCreateElement "li" 3; HostSetElementText 3 "e";
                  HostInsert 3 0 None].
Proof.
  destruct (unkeyed_diff_by_position "li" 0 false (example_normalize true) 0 familyState
              plainOlds plainNews None [] [])
    as (s' & Hrun & Hk & _ & _ & Ht).
  - compute_done.
  - intros o Ho. apply list_elem_of_lookup_1 in Ho as [i Hi].
    repeat (destruct i as [|i]; cbn in Hi; [by injection Hi as <-|]). done.
  - intros n Hn. apply list_elem_of_lookup_1 in Hn as [i Hi].
    repeat (destruct i as [|i]; cbn in Hi; [by injection Hi as <-|]). done.
  - cbn. lia.
  - done.
  - done.
  - compute_done.
  - repeat constructor; cbn; lia.
  - compute_done.
  - exists s'. split; [exact Hrun|]. split; [exact Hk|]. rewrite Ht. reflexivity.
Defined.

Lemma fragment_mount_witness :
  ∃ s', patch 2 None 8 0 (Some 2) None familyState = Ok tt s'
        ∧ kidsOf (host s') 0 = [1; 3; 5; 6; 4; 2].
Proof.
  destruct (fragment_mount (example_normalize true) 0 8 (fragmentNode 9 [9; 10]) 0 (Some 2)
              None familyState [9; 10] [textNode "x"; plain "li" "y" None] [1] [2])
    as (s' & Hrun & _ & _ & Hk & _).
  - done.
  - by split; [|exists 9|..].
  - compute_done.
  - compute_done.
  - by repeat constructor.
  - constructor; [|constructor; [apply plain_leaf|constructor]].
    by split; [left|..].
  - by repeat constructor.
  - cbn. lia.
  - done.
  - done.
  - compute_done.
  - repeat constructor; cbn; lia.
  - exists s'. split; [exact Hrun|exact Hk].
Defined.

Lemma fragment_unmount_witness :
  ∃ s' es, unmount 2 8 true false fragState = Ok tt s'
           ∧ kidsOf (host s') 0 = [1; 2]
           ∧ trace s' = trace fragState ++ es
           ∧ hostOps es = [HostRemove 3; HostRemove 5; HostRemove 6; HostRemove 4].
Proof.
  destruct (fragment_unmount 0 8
              (VN.with_anchor (Some 4) (VN.with_el (Some 3) (fragmentNode 9 [9; 10])))
              0 false fragState [9; 10]
              [VN.with_el (Some 5) (textNode "x"); plain "li" "y" (Some 6)]
              3 4 [5; 6] [1] [2])
    as (s' & es & Hrun & _ & Hk & Ht & Hops).
  - done.
  - by split; [|exists 9|..].
  - done.
  - done.
  - by repeat constructor.
  - constructor; [|constructor; [apply plain_leaf|constructor]].
    by split; [left|..].
  - done.
  - compute_done.
  - repeat constructor; cbn; lia.
  - intros x Hx. apply list_elem_of_lookup_1 in Hx as [i Hi].
    repeat (destruct i as [|i]; cbn in Hi; [by injection Hi as <-|]). done.
  - exists s', es. split; [exact Hrun|]. split; [exact Hk|]. split; [exact Ht|exact Hops].
Defined.

Lemma fragment_move_witness :
  ∃ s', move 2 8 0 (Some 1) REORDER fragState = Ok tt s'
        ∧ kidsOf (host s') 0 = [3; 5; 6; 4; 1; 2].
Proof.
  destruct (fragment_move 0 8
              (VN.with_anchor (Some 4) (VN.with_el (Some 3) (fragmentNode 9 [9; 10])))
              0 (Some 1) REORDER fragState [9; 10]
              [VN.with_el (Some 5) (textNode "x"); plain "li" "y" (Some 6)]
              3 4 [5; 6] [] [1; 2])
    as (s' & Hrun & _ & Hk & _).
  - done.
  - by split; [|exists 9|..].
  - done.
  - done.
  - by repeat constructor.
  - constructor; [|constructor; [apply plain_leaf|constructor]].
    by split; [left|..].
  - by repeat constructor.
  - cbn. lia.
  - compute_done.
  - compute_done.
  - compute_done.
  - reflexivity.
  - exists s'. split; [exact Hrun|exact Hk].
Defined.

Lemma leaf_replaced_in_place_witness :
  ∃ s', patch 2 (Some 3) 9 0 None None familyState = Ok tt s'
        ∧ kidsOf (host s') 0 = [3; 2]
        ∧ trace s' = [HostRemove 1; HostCreateText "x" 3; HostInsert 3 0 (Some 2)].
Proof.
  destruct (leaf_replaced_in_place 0 3 9 0 None None familyState
              (plain "li" "a" (Some 1)) (textNode "x") 1 [] [2])
    as (s' & Hrun & _ & Hk & Ht).
  - done.
  - done.
  - done.
  - apply plain_leaf.
  - by split; [left|..].
  - done.
  - done.
  - done.
  - cbn. lia.
  - done.
  - done.
  - compute_done.
  - repeat constructor; cbn; lia.
  - exists s'. split; [exact Hrun|]. split; [exact Hk|]. rewrite Ht. reflexivity.
Defined.

Lemma patchBlockChildren_pairwise_witness :
  ∃ s', patchBlockChildren (patch 1) (Some [3; 4]) [6; 7] 0 familyState = Ok tt s'
        ∧ vnodes s' !! 6 = Some (plain "li" "c" (Some 1))
        ∧ vnodes s' !! 7 = Some (plain "li" "d" (Some 2))
        ∧ host s' = host familyState
        ∧ trace s' = [].
Proof.
  destruct (patchBlockChildren_pairwise "li" 0 0 familyState plainOlds
              [mkNewPlain 6 "c"; mkNewPlain 7 "d"] [])
    as (s' & Hrun & Hn & _ & _ & Hh).
  - done.
  - compute_done.
  - intros o Ho. apply list_elem_of_lookup_1 in Ho as [i Hi].
    repeat (destruct i as [|i]; cbn in Hi; [by injection Hi as <-|]). done.
  - intros n Hn. apply list_elem_of_lookup_1 in Hn as [i Hi].
    repeat (destruct i as [|i]; cbn in Hi; [by injection Hi as <-|]). done.
  - destruct (Hh eq_refl) as [Hh1 Hh2].
    exists s'. split; [exact Hrun|].
    split; [exact (Forall2_lookup_lr _ _ _ 0 _ _ Hn eq_refl eq_refl)|].
    split; [exact (Forall2_lookup_lr _ _ _ 1 _ _ Hn eq_refl eq_refl)|].
    split; [exact Hh1|exact Hh2].
Defined.

End Examples.
